(* ===== verification/_CoqProject ===== *)
-Q . S2P
Prelude.v
Topology.v
StateMachine.v
LogStore.v
Lease.v
Protocol.v
Routing.v
Pool.v
Admission.v
Config.v
Effects.v
Scram.v
Session.v
Failover.v
Monitor.v
Switchover.v
Operations.v
Fencing.v
Standby.v
Agent.v
Placement.v
Metadata.v
Requests.v
Reconciler.v
AdminApi.v
HostApi.v
Orchestration.v
OpenAccess.v
CaRotation.v
AdminAccess.v
ConfigFile.v
Backups.v
HostModel.v
Firewall.v
HostRender.v
HostCalls.v
HostRunner.v
HostClient.v
HostRestore.v
HostInstance.v
HostMachine.v
HostAgent.v
HostTasks.v
HostLoops.v
