(* ===== verification/Prelude.v ===== *)
(** * A verification of pgcluster

    pgcluster keeps a highly available PostgreSQL service. The repository has
    three programs, and this library has a part for each.

    - [src/pgcluster], the control plane and proxy, one process per node. Its
      replicated state (the cluster's topology) is a Raft state machine; the
      leader monitors the nodes, fails over, and serves operator requests; every
      instance proxies clients to the primary and the replicas.
    - [src/vk-agent], beside each Postgres: it starts, stops, promotes, rewinds
      and configures it on request, and fences it when nobody is heard from.
      On shared hosts it also runs the instances the admin service assigns.
    - [src/pgcluster-admin], the fleet service: it keeps databases, hosts and
      operations in a metadata database, and reconciles them step by step.

    ** Files

    This file: results, machine integers, strings and parsing, sorting, maps
    with an iteration order, bytes, and the tactics and hints that all share.

    Replicated state.
    - Topology: the types of raft/topology.rs and raft/commands.rs, with LSN
      texts, [synchronous_standby_names], candidate ranking.
    - StateMachine: raft/state_machine.rs. At most one primary along every
      history, agreement of replicas, snapshots and the tail of the log.
    - LogStore: raft/storage.rs, a refinement of a byte-keyed tree to a map from
      indexes to entries, and recovery after a restart.
    - Lease: raft/lease.rs and raft/membership.rs. Rounds that renew meet in a
      voter.

    Control loops, as programs over the calls that leave the process (Effects);
    theorems hold for all answers.
    - Failover (failover/), Monitor (node_monitor/), Switchover (switchover/),
      Operations (api/*.rs and how operations exclude each other).
    - Config: config/*.rs, validation and the timing argument of isolation.
      ConfigFile: how the file is read, with its defaults.
    - Backups: backup/ and api/backup.rs, the scheduler, a backup with its
      retention, and restores.

    Proxy.
    - Protocol (proxy/protocol.rs), Routing (classify, session, router), Pool,
      Admission (limits, allowlist), Scram (scram.rs, both sides of a login),
      Session (connection.rs, a client's connection from its start to its end).

    Agent.
    - Fencing (heartbeat.rs and the fencing loop), Standby (standby.rs and the
      texts of files.rs), Agent (server.rs, process.rs, seed.rs, postgres.rs,
      walg.rs, files.rs).

    Admin service.
    - Placement (scheduler.rs), Metadata (the tables, transactions and secrets),
      Requests (the checks of model.rs), Reconciler (operations.rs,
      reconciler.rs), AdminApi (api/*.rs, drain.rs), HostApi (agent.rs),
      Orchestration (all of it as one system), OpenAccess (clients and backups),
      CaRotation (rotation.rs, the service's own CA), AdminAccess (keys and the
      audit log of state.rs and api/, pages of lists, backup repositories).

    Hosts (vk-agent/src/host), programs over the calls on a machine (HostCalls),
    whose files and units change as the calls say; what holds, holds wherever a
    run is cut short.
    - HostModel (model.rs, config.rs), Firewall (firewall.rs, and a reader of
      nftables scripts), HostRender (render.rs, and how pgcluster reads what it
      wrote), HostCalls (also fsutil.rs), HostRunner (runner.rs, the interface
      to systemd and plain processes), HostRestore (restore.rs), HostInstance
      (instance.rs, quota.rs), HostMachine (a machine to run them on).
    - HostClient (client.rs, enrolment and certificates), HostAgent (the main
      loop of mod.rs, against an interface for instances), HostTasks (tasks.rs,
      with the members of the cluster behind its API), HostLoops (the reporter,
      the tasks under way and the watcher of mod.rs, and capacity.rs).

    ** How code becomes definitions

    A pure function is a function with the source's name. A struct is a record,
    an enum an inductive type. Fallible code returns [option] or [result]. A
    [u64] is an integer of [Z] with its wrap-around or its bounds written out;
    times are integers in the unit the source uses. A [HashMap] is a [gmap]
    whose iteration order is a parameter. Code with effects is a program over
    events, except in the admin service, where it is a transaction on the store
    and in Admission, Pool and Fencing, where it is a step of a state.
    Concurrency is a step relation: connections in Admission, tasks that share
    the operation flag in Operations, reconcilers and handlers in Orchestration.

    Parameters stand for what is not in the repository: sled, openraft's ids,
    serde, IP network parsing, Unicode tables beyond ASCII, certificates and
    randomness, SHA-256, HMAC and base64, IEEE arithmetic, and the answers of
    Postgres, of systemd and of the tools the agents run. What is relied on of
    them is a field of a class, with an instance that satisfies it.

    Fuel appears where the source loops against a clock or an outside answer:
    the waits of Switchover and of hosts and the retries of Failover. The
    theorems about them give a bound on the turns ([lag_wait_terminates]) or
    hold for any fuel; text loops use the length of the text, which they cannot exceed.

    ** What is shown

    - One primary: the state machine never holds two, replicas that apply one
      log agree, tasks that promote exclude each other, and a failover or a
      switchover changes the topology only after the steps that make it safe.
    - Data is kept: an agent clears a data directory, and a host erases an
      instance, only where the request, its record and its files allow it.
    - Fencing: an agent that hears from nobody fences its Postgres, and a proxy
      that is cut off stops before a failover, with times validation accepts.
    - Operations of the admin service run their steps in order and end; clients
      are let in after a backup; a rotation of the CA keeps hosts in touch.
    - Clients: messages are forwarded as the protocol allows whatever the chunks
      they come in, and a login is accepted only with the proof of a password.
    - Texts: what is rendered for a host is read back by pgcluster and nftables
      with the meaning it was given.
    - Where the code does not do what it means to, a theorem gives the run:
      [unplaced_replica_stops_all], [lost_renewal_locks_out],
      [repository_vanishes], [switchover_not_checked] and others.

    ** Not modelled

    - The command line (pgcluster/src/cli), the web console, metrics, logging
      and tracing: they read and print.
    - TLS, certificate generation and sealing (tls/, ca.rs, secrets.rs, tls.rs):
      they call rustls, rcgen and aes-gcm. The admin model keeps which CA signed
      a certificate and who trusts it.
    - The Raft transport (raft/network.rs, raft/mod.rs) and the algorithm
      itself, which is openraft's.
    - The rows that lists of the admin API show, its routes, and sealing all
      secrets again with a new key.
    - The start of the processes (lib.rs, config.rs of the admin service),
      beyond the resumption of a rotation.
    - On hosts: looking up the user to run as, and the probes of disk quotas at
      start; they ask the system once.
    - The tests. *)
From Stdlib Require Export ZArith Lia Ascii String.
From stdpp Require Export base gmap strings sorting numbers list.

Declare Scope pgcluster_scope.
Delimit Scope pgcluster_scope with pg.
Local Open Scope Z_scope.

(** ** Results *)

(** [Result<T, E>] of the source. *)
Inductive result (E A : Type) : Type :=
| Ok (a : A)
| Err (e : E).
Arguments Ok {E A} a.
Arguments Err {E A} e.

Global Instance result_ret E : MRet (result E) := λ A a, Ok a.
Global Instance result_bind E : MBind (result E) := λ A B f r,
  match r with Ok a => f a | Err e => Err e end.

Definition is_ok {E A} (r : result E A) : bool :=
  match r with Ok _ => true | Err _ => false end.

(** [Option::ok_or]. *)
Definition ok_or {E A} (e : E) (o : option A) : result E A :=
  match o with Some a => Ok a | None => Err e end.

(** ** Machine integers

    Unsigned integers are [Z] values. Arithmetic that the source leaves to the
    build profile wraps, as in a release build; [saturating_sub] and the
    checked operations are written out. *)

Definition wrap (w z : Z) : Z := z mod 2 ^ w.
Definition in_u (w z : Z) : Prop := 0 ≤ z < 2 ^ w.
Definition saturating_sub (a b : Z) : Z := Z.max 0 (a - b).

Abbreviation u64 := (in_u 64).
Abbreviation u32 := (in_u 32).

Global Instance in_u_dec w z : Decision (in_u w z).
Proof. unfold in_u. apply _. Defined.

(** ** Strings

    A Rust [String] is its UTF-8 bytes, a [string] of the standard library.
    The searches below are for ASCII characters, which in UTF-8 never occur
    inside a longer character. *)

Fixpoint starts_with (p s : string) : bool :=
  match p, s with
  | EmptyString, _ => true
  | String a p', String b s' => Ascii.eqb a b && starts_with p' s'
  | _, _ => false
  end.

Fixpoint strip_prefix (p s : string) : option string :=
  match p, s with
  | EmptyString, _ => Some s
  | String a p', String b s' => if Ascii.eqb a b then strip_prefix p' s' else None
  | _, _ => None
  end.

(** [str::contains] with a string pattern. *)
Fixpoint str_contains (sub s : string) : bool :=
  starts_with sub s ||
  match s with
  | EmptyString => false
  | String _ s' => str_contains sub s'
  end.

(** [str::split_once] and [str::rsplit_once] on a character. *)
Fixpoint split_once (c : ascii) (s : string) : option (string * string) :=
  match s with
  | EmptyString => None
  | String a s' =>
      if Ascii.eqb a c then Some (EmptyString, s')
      else match split_once c s' with
           | Some (l, r) => Some (String a l, r)
           | None => None
           end
  end.

Fixpoint rsplit_once (c : ascii) (s : string) : option (string * string) :=
  match s with
  | EmptyString => None
  | String a s' =>
      match rsplit_once c s' with
      | Some (l, r) => Some (String a l, r)
      | None => if Ascii.eqb a c then Some (EmptyString, s') else None
      end
  end.

(** [str::split] on a character: always at least one piece. *)
Fixpoint split (c : ascii) (s : string) : list string :=
  match s with
  | EmptyString => [EmptyString]
  | String a s' =>
      if Ascii.eqb a c then EmptyString :: split c s'
      else match split c s' with
           | w :: ws => String a w :: ws
           | [] => [String a EmptyString]
           end
  end.

(** The number of bytes of the [char::is_whitespace] character a text begins
    with, or zero. The Unicode white space characters in UTF-8 are the ASCII
    ones (tab to carriage return, and space), C2 85, C2 A0, E1 9A 80,
    E2 80 80 to E2 80 8A, E2 80 A8, E2 80 A9, E2 80 AF, E2 81 9F and E3 80 80. *)
Definition space_len (s : string) : nat :=
  match N_of_ascii <$> list_ascii_of_string s with
  | a :: l =>
      if ((9 <=? a) && (a <=? 13) || (a =? 32))%N then 1%nat
      else match l with
           | b :: l' =>
               if ((a =? 194) && ((b =? 133) || (b =? 160)))%N then 2%nat
               else match l' with
                    | c :: _ =>
                        if ((a =? 225) && (b =? 154) && (c =? 128)
                            || (a =? 226) && (b =? 128) &&
                               ((128 <=? c) && (c <=? 138) || (c =? 168) ||
                                (c =? 169) || (c =? 175))
                            || (a =? 226) && (b =? 129) && (c =? 159)
                            || (a =? 227) && (b =? 128) && (c =? 128))%N
                        then 3%nat else 0%nat
                    | [] => 0%nat
                    end
           | [] => 0%nat
           end
  | [] => 0%nat
  end.

(** [str::split_whitespace]: the maximal runs of other characters. [cur] is the
    word being read, and [skip] the bytes left of a white space character. *)
Fixpoint split_ws (skip : nat) (cur s : string) : list string :=
  match s with
  | EmptyString => match cur with EmptyString => [] | _ => [cur] end
  | String a s' =>
      match skip with
      | S k => split_ws k cur s'
      | O =>
          match space_len s with
          | O => split_ws 0 (cur ++ String a EmptyString)%string s'
          | S k => match cur with
                   | EmptyString => split_ws k EmptyString s'
                   | _ => cur :: split_ws k EmptyString s'
                   end
          end
      end
  end.

Definition split_whitespace (s : string) : list string := split_ws 0 EmptyString s.

(** [[String]::join]. *)
Fixpoint join (sep : string) (l : list string) : string :=
  match l with
  | [] => EmptyString
  | [x] => x
  | x :: l' => (x ++ sep ++ join sep l')%string
  end.

(** [str::replace] of one character by a string. *)
Fixpoint replace_char (c : ascii) (r s : string) : string :=
  match s with
  | EmptyString => EmptyString
  | String a s' =>
      if Ascii.eqb a c then (r ++ replace_char c r s')%string
      else String a (replace_char c r s')
  end.

Fixpoint str_exists (f : ascii → bool) (s : string) : bool :=
  match s with
  | EmptyString => false
  | String a s' => f a || str_exists f s'
  end.

Definition is_empty (s : string) : bool :=
  match s with EmptyString => true | String _ _ => false end.

(** ** Printable words *)

(** Words of printable ASCII are what [split_whitespace] yields. *)
Definition printable (a : ascii) : bool :=
  ((33 <=? N_of_ascii a) && (N_of_ascii a <=? 126))%N.

Fixpoint printable_str (s : string) : bool :=
  match s with
  | EmptyString => true
  | String a s' => printable a && printable_str s'
  end.

(** ** Numbers in text *)

(** The value of a digit in a radix up to 16, as [char::to_digit]. *)
Definition digit_of (a : ascii) : Z :=
  let n := Z.of_N (N_of_ascii a) in
  if (48 <=? n) && (n <=? 57) then n - 48
  else if (65 <=? n) && (n <=? 70) then n - 55
  else if (97 <=? n) && (n <=? 102) then n - 87
  else 16.

Definition to_digit (radix : Z) (a : ascii) : option Z :=
  if digit_of a <? radix then Some (digit_of a) else None.

Fixpoint digits_value (radix max : Z) (s : string) (acc : Z) : option Z :=
  match s with
  | EmptyString => Some acc
  | String a s' =>
      match to_digit radix a with
      | None => None
      | Some d =>
          let v := acc * radix + d in
          if v <=? max then digits_value radix max s' v else None
      end
  end.

(** [uN::from_str_radix]: an optional plus sign, then at least one digit; a
    value above [max] is an error. *)
Definition from_str_radix (radix max : Z) (s : string) : option Z :=
  match s with
  | EmptyString => None
  | String a s' =>
      if Ascii.eqb a "+"%char then
        match s' with
        | EmptyString => None
        | _ => digits_value radix max s' 0
        end
      else digits_value radix max s 0
  end.

Definition parse_u16 : string → option Z := from_str_radix 10 (2 ^ 16 - 1).
Definition parse_u32 : string → option Z := from_str_radix 10 (2 ^ 32 - 1).
Definition parse_u64 : string → option Z := from_str_radix 10 (2 ^ 64 - 1).

Definition digit_char (d : Z) : ascii :=
  ascii_of_N (Z.to_N (if d <? 10 then d + 48 else d + 55)).

(** Digits of [n], most significant first, in front of [acc]. *)
Fixpoint digits_fuel (fuel : nat) (radix n : Z) (acc : string) : string :=
  match fuel with
  | O => acc
  | S fuel' =>
      let acc' := String (digit_char (n mod radix)) acc in
      if n <? radix then acc' else digits_fuel fuel' radix (n / radix) acc'
  end.

(** [{:X}] and [{}] for a [u64]: 64 digits are enough in any radix. *)
Definition format_hex (n : Z) : string := digits_fuel 64 16 n EmptyString.
Definition format_dec (n : Z) : string := digits_fuel 64 10 n EmptyString.

(** ** Stable sorting

    [slice::sort_by] is stable; insertion sort with [le] tested against the
    elements already placed is the reference definition of that behaviour. *)

Fixpoint insert_by {A} (le : A → A → bool) (x : A) (l : list A) : list A :=
  match l with
  | [] => [x]
  | y :: l' => if le x y then x :: l else y :: insert_by le x l'
  end.

Fixpoint sort_by {A} (le : A → A → bool) (l : list A) : list A :=
  match l with
  | [] => []
  | x :: l' => insert_by le x (sort_by le l')
  end.

(** Rust orders [String]s by their bytes. *)
Definition str_leb (a b : string) : bool := String.leb a b.

(** [Iterator::max_by_key]: the last of the maximal elements. *)
Fixpoint max_by {A} (le : A → A → bool) (best : A) (l : list A) : A :=
  match l with
  | [] => best
  | x :: l' => max_by le (if le best x then x else best) l'
  end.

Definition max_by_key {A} (le : A → A → bool) (l : list A) : option A :=
  match l with [] => None | x :: l' => Some (max_by le x l') end.

(** ** Hash maps

    A [HashMap] is a [gmap]; the order in which its iterators yield entries is
    unspecified, so code that iterates is modelled against this interface. *)
Class HashOrder := {
  hash_iter : ∀ {V : Type}, gmap string V → list (string * V);
  hash_iter_perm : ∀ {V : Type} (m : gmap string V),
    hash_iter m ≡ₚ map_to_list m
}.

(** One possible order, for executing the definitions. *)
Definition map_order : HashOrder :=
  {| hash_iter := λ V m, map_to_list m; hash_iter_perm := λ V m, Permutation_refl _ |}.

(** A [BTreeSet] iterates in ascending order. *)
Definition btree_iter (s : gset string) : list string := sort_by str_leb (elements s).

(** [Option::copied().unwrap_or(d)]. *)
Definition get_or {V} (d : V) (m : gmap string V) (k : string) : V := default d (m !! k).

(** ** Bytes

    A byte is a [Z] from 0 to 255. *)

Abbreviation bytes := (list Z).
Abbreviation is_byte := (in_u 8).

(** [to_be_bytes] of a [k]-byte integer, and back. *)
Fixpoint be_bytes (k : nat) (n : Z) : bytes :=
  match k with
  | O => []
  | S k' => (n / 256 ^ Z.of_nat k') mod 256 :: be_bytes k' n
  end.

Definition be_value (l : bytes) : Z := foldl (λ acc b, acc * 256 + b) 0 l.

(** The order of [&[u8]]. *)
Fixpoint bytes_leb (a b : bytes) : bool :=
  match a, b with
  | [], _ => true
  | _, [] => false
  | x :: a', y :: b' => (x <? y) || ((x =? y) && bytes_leb a' b')
  end.

(** [std::ops::Bound], and membership in a range. *)
Inductive bound (A : Type) := Included (a : A) | Excluded (a : A) | Unbounded.
Arguments Included {A} a.
Arguments Excluded {A} a.
Arguments Unbounded {A}.

Definition bound_map {A B} (f : A → B) (b : bound A) : bound B :=
  match b with
  | Included a => Included (f a)
  | Excluded a => Excluded (f a)
  | Unbounded => Unbounded
  end.

(** Bounds of a range are [u64] values. *)
Definition bound_u64 (b : bound Z) : Prop :=
  match b with Included n | Excluded n => u64 n | Unbounded => True end.

Definition in_range {A} (leb : A → A → bool) (lo hi : bound A) (x : A) : bool :=
  match lo with Included a => leb a x | Excluded a => negb (leb x a) | Unbounded => true end &&
  match hi with Included b => leb x b | Excluded b => negb (leb b x) | Unbounded => true end.

(** ** Serialisation

    serde's encoders and decoders: decoding what was encoded gives it back. *)
Class Codec (A : Type) := {
  encode_json : A → option bytes;
  decode_json : bytes → option A;
  codec_round_trip : ∀ a b, encode_json a = Some b → decode_json b = Some a
}.

(** ** Automation *)

Create HintDb pg.

(** Case analysis on every test the goal is stuck on. *)
Ltac split_tests :=
  repeat (case_match || case_decide || case_bool_decide); simplify_eq/=.

(** Turn boolean comparisons into propositions. *)
Ltac bool_prop :=
  repeat match goal with
  | H : _ && _ = true |- _ => apply andb_true_iff in H as [? ?]
  | H : _ || _ = false |- _ => apply orb_false_iff in H as [? ?]
  | H : negb _ = true |- _ => apply negb_true_iff in H
  | H : negb _ = false |- _ => apply negb_false_iff in H
  | H : (_ <? _) = true |- _ => apply Z.ltb_lt in H
  | H : (_ <? _) = false |- _ => apply Z.ltb_ge in H
  | H : (_ <=? _) = true |- _ => apply Z.leb_le in H
  | H : (_ <=? _) = false |- _ => apply Z.leb_gt in H
  | H : (_ =? _) = true |- _ => apply Z.eqb_eq in H
  | H : (_ =? _) = false |- _ => apply Z.eqb_neq in H
  | H : String.eqb _ _ = true |- _ => apply String.eqb_eq in H
  | H : String.eqb _ _ = false |- _ => apply String.eqb_neq in H
  end.

(** ** Lemmas on machine integers *)

Lemma wrap_in_u w z : 0 ≤ w → in_u w (wrap w z).
Proof. intros Hw. apply Z.mod_pos_bound, Z.pow_pos_nonneg; lia. Qed.

Lemma wrap_id w z : in_u w z → wrap w z = z.
Proof. intros ?. by apply Z.mod_small. Qed.

Lemma lor_in_u w a b : 0 < w → in_u w a → in_u w b → in_u w (Z.lor a b).
Proof.
  unfold in_u. intros Hw Ha Hb. split; [apply Z.lor_nonneg; lia|].
  apply Z.log2_lt_cancel. rewrite Z.log2_lor by lia. rewrite Z.log2_pow2 by lia.
  apply Z.max_lub_lt.
  - destruct (Z.eq_dec a 0) as [->|]; [done|]. apply Z.log2_lt_pow2; lia.
  - destruct (Z.eq_dec b 0) as [->|]; [done|]. apply Z.log2_lt_pow2; lia.
Qed.

Lemma saturating_sub_in_u w a b : in_u w a → in_u w b → in_u w (saturating_sub a b).
Proof. unfold in_u, saturating_sub. lia. Qed.

Lemma saturating_sub_le a b : 0 ≤ a → 0 ≤ b → saturating_sub a b ≤ a.
Proof. unfold saturating_sub. lia. Qed.

#[export] Hint Resolve wrap_in_u saturating_sub_in_u : pg.

(** ** Lemmas on strings *)

#[global] Arguments String.append !_ _ / : simpl nomatch.

Lemma str_app_nil_r (s : string) : (s ++ EmptyString)%string = s.
Proof. induction s as [|a s IH]; [done|]. cbn. by rewrite IH. Qed.

Lemma str_app_assoc (a b c : string) : (a ++ (b ++ c))%string = ((a ++ b) ++ c)%string.
Proof. induction a as [|x a IH]; [done|]. cbn. by rewrite IH. Qed.

Lemma str_app_snoc (a : string) c b : (a ++ String c b = (a ++ String c EmptyString) ++ b)%string.
Proof. by rewrite <-str_app_assoc. Qed.

Lemma str_app_length (a b : string) :
  String.length (a ++ b) = (String.length a + String.length b)%nat.
Proof. induction a as [|x a IH]; [done|]. cbn. by rewrite IH. Qed.

Lemma starts_with_app p s : starts_with p (p ++ s) = true.
Proof. induction p as [|a p IH]; cbn; [done|]. by rewrite Ascii.eqb_refl. Qed.

Lemma strip_prefix_app p s : strip_prefix p (p ++ s) = Some s.
Proof. induction p as [|a p IH]; cbn; [done|]. by rewrite Ascii.eqb_refl. Qed.

Lemma strip_prefix_Some p s r : strip_prefix p s = Some r ↔ s = (p ++ r)%string.
Proof.
  split; [|intros ->; apply strip_prefix_app].
  revert s. induction p as [|a p IH]; intros [|b s] H; cbn in *; simplify_eq; try done.
  destruct (Ascii.eqb_spec a b) as [->|]; [|done]. f_equal. by apply IH.
Qed.

(** A text without the character has no place to split. *)
Lemma rsplit_once_None c s : str_exists (Ascii.eqb c) s = false → rsplit_once c s = None.
Proof.
  induction s as [|a s IH]; [done|]. cbn. intros [Ha Hs]%orb_false_iff.
  rewrite IH by done. rewrite Ascii.eqb_sym in Ha. by rewrite Ha.
Qed.

Lemma rsplit_once_app c l r :
  str_exists (Ascii.eqb c) r = false → rsplit_once c (l ++ String c r) = Some (l, r).
Proof.
  intros Hr. induction l as [|a l IH]; cbn.
  - rewrite rsplit_once_None by done. by rewrite Ascii.eqb_refl.
  - by rewrite IH.
Qed.

Lemma rsplit_once_Some c s l r :
  rsplit_once c s = Some (l, r) →
  s = (l ++ String c r)%string ∧ str_exists (Ascii.eqb c) r = false.
Proof.
  revert l r. induction s as [|a s IH]; intros l r H; [done|]. cbn in H.
  destruct (rsplit_once c s) as [[l' r']|] eqn:E; simplify_eq.
  - destruct (IH _ _ eq_refl) as [-> ?]. done.
  - destruct (Ascii.eqb_spec a c) as [->|]; simplify_eq. split; [done|].
    clear IH. revert E. induction r as [|b r IH]; [done|]. cbn.
    destruct (rsplit_once c r) as [[??]|]; [done|].
    destruct (Ascii.eqb_spec b c) as [->|]; [done|]. intros _.
    apply orb_false_iff. split; [by apply Ascii.eqb_neq|]. by apply IH.
Qed.

Lemma split_once_app c l r :
  str_exists (Ascii.eqb c) l = false → split_once c (l ++ String c r) = Some (l, r).
Proof.
  induction l as [|a l IH]; cbn; [by rewrite Ascii.eqb_refl|].
  intros [Ha Hl]%orb_false_iff. rewrite Ascii.eqb_sym in Ha. rewrite Ha. by rewrite IH.
Qed.

Lemma space_len_printable a s : printable a = true → space_len (String a s) = 0%nat.
Proof.
  unfold printable. intros [H1%N.leb_le H2%N.leb_le]%andb_true_iff.
  unfold space_len. cbn.
  set (n := N_of_ascii a) in *.
  assert (((9 <=? n) && (n <=? 13) || (n =? 32))%N = false) as ->.
  { apply orb_false_iff. split; [|apply N.eqb_neq; lia].
    apply andb_false_iff. right. apply N.leb_gt. lia. }
  assert ((n =? 194)%N = false) as -> by (apply N.eqb_neq; lia).
  assert ((n =? 225)%N = false) as -> by (apply N.eqb_neq; lia).
  assert ((n =? 226)%N = false) as -> by (apply N.eqb_neq; lia).
  assert ((n =? 227)%N = false) as -> by (apply N.eqb_neq; lia).
  cbn. by repeat case_match.
Qed.

Lemma split_ws_word cur w s :
  printable_str w = true → split_ws 0 cur (w ++ s) = split_ws 0 (cur ++ w) s.
Proof.
  revert cur. induction w as [|a w IH]; intros cur.
  - cbn [String.append]. intros _. by rewrite str_app_nil_r.
  - intros [Ha Hw]%andb_true_iff.
    transitivity (split_ws 0 (cur ++ String a EmptyString) (w ++ s)).
    + cbn [String.append split_ws]. by rewrite space_len_printable.
    + rewrite IH by done. by rewrite <-str_app_snoc.
Qed.

Lemma split_whitespace_cons w s :
  printable_str w = true → w ≠ EmptyString →
  split_whitespace (w ++ String " " s) = w :: split_whitespace s.
Proof.
  intros Hw Hne. unfold split_whitespace. rewrite split_ws_word by done.
  cbn [String.append]. destruct w; done.
Qed.

Lemma split_whitespace_last w :
  printable_str w = true → w ≠ EmptyString → split_whitespace w = [w].
Proof.
  intros Hw Hne. unfold split_whitespace.
  rewrite <-(str_app_nil_r w) at 1. rewrite split_ws_word by done.
  cbn. destruct w; done.
Qed.

(** ** Lemmas on numbers in text *)

Lemma digit_of_char d : 0 ≤ d < 16 → digit_of (digit_char d) = d.
Proof.
  intros Hd.
  assert (In d [0; 1; 2; 3; 4; 5; 6; 7; 8; 9; 10; 11; 12; 13; 14; 15]) as Hin
    by (cbn; lia).
  repeat (destruct Hin as [<-|Hin]; [reflexivity|]). done.
Qed.

Lemma to_digit_char radix d :
  0 ≤ d < radix → radix ≤ 16 → to_digit radix (digit_char d) = Some d.
Proof.
  intros Hd Hr. unfold to_digit. rewrite digit_of_char by lia.
  by destruct (Z.ltb_spec d radix); [|lia].
Qed.

(** Printing in front of a suffix, then reading, starts the suffix at [n]. *)
Lemma digits_value_fuel fuel radix max n acc :
  2 ≤ radix ≤ 16 → 0 ≤ n ≤ max → n < radix ^ Z.of_nat fuel →
  digits_value radix max (digits_fuel fuel radix n acc) 0 = digits_value radix max acc n.
Proof.
  intros Hr. revert n acc. induction fuel as [|fuel IH]; intros n acc Hn Hlt.
  - cbn in *. by replace n with 0 by lia.
  - cbn [digits_fuel]. pose proof (Z.mod_pos_bound n radix ltac:(lia)).
    destruct (Z.ltb_spec n radix) as [Hsmall|Hbig].
    + cbn [digits_value]. rewrite to_digit_char by lia.
      rewrite (Z.mod_small n radix), Z.mul_0_l, Z.add_0_l by lia.
      by destruct (Z.leb_spec n max); [|lia].
    + rewrite IH.
      * cbn [digits_value]. rewrite to_digit_char by lia.
        replace (n / radix * radix + n mod radix) with n
          by (rewrite (Z.div_mod n radix) at 1; lia).
        by destruct (Z.leb_spec n max); [|lia].
      * split; [apply Z.div_pos; lia|]. transitivity n; [|lia].
        apply Z.div_le_upper_bound; nia.
      * apply Z.div_lt_upper_bound; [lia|].
        rewrite Nat2Z.inj_succ, Z.pow_succ_r in Hlt by lia. lia.
Qed.

(** A printed number begins with a digit. *)
Lemma digits_fuel_head fuel radix n acc :
  2 ≤ radix ≤ 16 → 0 ≤ n →
  ∃ d s, digits_fuel (S fuel) radix n acc = String (digit_char d) s ∧ 0 ≤ d < radix.
Proof.
  intros Hr. revert n acc. induction fuel as [|fuel IH]; intros n acc Hn.
  - cbn [digits_fuel]. pose proof (Z.mod_pos_bound n radix ltac:(lia)). case_match; eauto.
  - set (f := S fuel) in *. cbn [digits_fuel].
    pose proof (Z.mod_pos_bound n radix ltac:(lia)).
    case_match; [eauto|]. apply IH, Z.div_pos; lia.
Qed.

Lemma digit_char_ne c d :
  0 ≤ d < 16 → to_digit 16 c = None → Ascii.eqb (digit_char d) c = false.
Proof.
  intros Hd Hc. apply Ascii.eqb_neq. intros <-.
  by rewrite to_digit_char in Hc by lia.
Qed.

Lemma from_str_radix_format radix max n :
  2 ≤ radix ≤ 16 → 0 ≤ n ≤ max → n < radix ^ 64 →
  from_str_radix radix max (digits_fuel 64 radix n EmptyString) = Some n.
Proof.
  intros Hr Hn Hlt.
  destruct (digits_fuel_head 63 radix n EmptyString Hr ltac:(lia)) as (d & s & E & Hd).
  pose proof (digits_value_fuel 64 radix max n EmptyString Hr Hn Hlt) as Hv.
  rewrite E in *. unfold from_str_radix.
  rewrite digit_char_ne by (done || lia). exact Hv.
Qed.

(** Printed numbers hold none of the characters that are not digits. *)
Lemma digits_fuel_no c fuel radix n acc :
  2 ≤ radix ≤ 16 → 0 ≤ n → to_digit 16 c = None →
  str_exists (Ascii.eqb c) acc = false →
  str_exists (Ascii.eqb c) (digits_fuel fuel radix n acc) = false.
Proof.
  intros Hr Hn Hc. revert n acc Hn. induction fuel as [|fuel IH]; intros n acc Hn Hacc; [done|].
  cbn [digits_fuel]. pose proof (Z.mod_pos_bound n radix ltac:(lia)).
  assert (str_exists (Ascii.eqb c) (String (digit_char (n mod radix)) acc) = false).
  { cbn. rewrite Hacc, orb_false_r, Ascii.eqb_sym. apply digit_char_ne; [lia|done]. }
  case_match; [done|]. apply IH; [apply Z.div_pos; lia|done].
Qed.

(** A parsed number is in the range of its type. *)
Lemma digits_value_bounds radix max s acc v :
  0 < radix → 0 ≤ acc ≤ max → digits_value radix max s acc = Some v → 0 ≤ v ≤ max.
Proof.
  intros Hr. revert acc. induction s as [|a s IH]; intros acc Hacc; cbn [digits_value].
  - intros [= <-]. done.
  - unfold to_digit. destruct (Z.ltb_spec (digit_of a) radix); [|done].
    destruct (Z.leb_spec (acc * radix + digit_of a) max); [|done].
    apply IH. assert (0 ≤ digit_of a); [|nia].
    unfold digit_of. repeat case_match; bool_prop; lia.
Qed.

Lemma from_str_radix_bounds radix max s v :
  0 < radix → 0 ≤ max → from_str_radix radix max s = Some v → 0 ≤ v ≤ max.
Proof.
  intros Hr Hm. unfold from_str_radix. repeat case_match; try done;
    intros Hv; eapply digits_value_bounds in Hv; try done; lia.
Qed.

(** ** Lemmas on lists *)

Lemma is_empty_false s : negb (is_empty s) = true ↔ s ≠ EmptyString.
Proof. by destruct s. Qed.

Lemma size_list_le `{Countable A} (l : list A) : (size (list_to_set l : gset A) ≤ length l)%nat.
Proof.
  induction l as [|x l IH]; [done|]. cbn [list_to_set length]. rewrite size_union_alt, size_singleton.
  pose proof (subseteq_size (list_to_set l ∖ {[x]} : gset A) (list_to_set l) ltac:(set_solver)). lia.
Qed.

Lemma size_NoDup `{Countable A} (l : list A) : size (list_to_set l : gset A) = length l ↔ NoDup l.
Proof.
  split; [|apply size_list_to_set]. induction l as [|x l IH]; [constructor|]. cbn. intros Hs.
  pose proof (size_list_le l) as Hle. destruct (decide (x ∈ l)) as [Hin|Hn].
  - assert ({[x]} ∪ list_to_set l = (list_to_set l : gset A)) as E by set_solver.
    rewrite E in Hs. lia.
  - rewrite size_union, size_singleton in Hs by set_solver. constructor; [done|]. apply IH. lia.
Qed.

Lemma elem_of_lfilter {A} (f : A → bool) l x : x ∈ List.filter f l ↔ x ∈ l ∧ f x = true.
Proof. by rewrite !list_elem_of_In, filter_In. Qed.

Lemma list_filter_perm {A} (f : A → bool) (l1 l2 : list A) :
  l1 ≡ₚ l2 → List.filter f l1 ≡ₚ List.filter f l2.
Proof.
  induction 1; cbn; repeat case_match; eauto using perm_trans, perm_swap, perm_skip.
Qed.

(** ** Lemmas on sorting *)

Section sorting.
Context {A : Type} (le : A → A → bool).

Lemma insert_by_perm x l : insert_by le x l ≡ₚ x :: l.
Proof.
  induction l as [|y l IH]; cbn; [done|]. case_match; [done|]. rewrite IH. apply Permutation_swap.
Qed.

Lemma sort_by_perm l : sort_by le l ≡ₚ l.
Proof. induction l as [|x l IH]; cbn; [done|]. rewrite insert_by_perm. by rewrite IH. Qed.

Lemma sort_by_length l : length (sort_by le l) = length l.
Proof. apply Permutation_length, sort_by_perm. Qed.

Lemma elem_of_sort_by x l : x ∈ sort_by le l ↔ x ∈ l.
Proof. by rewrite sort_by_perm. Qed.

Hypothesis le_total : ∀ x y, le x y = false → le y x = true.
Hypothesis le_trans : ∀ x y z, le x y = true → le y z = true → le x z = true.

Lemma insert_by_sorted x l :
  StronglySorted (λ a b, le a b = true) l → StronglySorted (λ a b, le a b = true) (insert_by le x l).
Proof.
  induction 1 as [|y l Hs IH Hy]; cbn; [repeat constructor|].
  destruct (le x y) eqn:E.
  - constructor; [by constructor|]. constructor; [done|].
    rewrite Forall_forall in *. eauto.
  - constructor; [done|]. rewrite insert_by_perm. constructor; auto.
Qed.

Lemma sort_by_sorted l : StronglySorted (λ a b, le a b = true) (sort_by le l).
Proof. induction l; cbn; [constructor|]. by apply insert_by_sorted. Qed.

Lemma le_refl x : le x x = true.
Proof using le_total. destruct (le x x) eqn:E; [done|]. by rewrite le_total in E. Qed.

(** The first of a sorted list is below every element of it. *)
Lemma sort_by_head x l l' y : sort_by le l = x :: l' → y ∈ l → le x y = true.
Proof.
  intros E Hy. pose proof (sort_by_sorted l) as Hs. rewrite E in Hs.
  rewrite <-elem_of_sort_by, E in Hy. inversion Hs as [|?? _ Hx]; subst.
  apply elem_of_cons in Hy as [->|Hy]; [apply le_refl|]. rewrite Forall_forall in Hx. by apply Hx.
Qed.

Lemma max_by_spec b l :
  (max_by le b l = b ∨ max_by le b l ∈ l) ∧
  le b (max_by le b l) = true ∧ ∀ x, x ∈ l → le x (max_by le b l) = true.
Proof.
  revert b. induction l as [|y l IH]; intros b; cbn.
  - split; [by left|]. split; [apply le_refl|]. intros x Hx. by apply not_elem_of_nil in Hx.
  - destruct (le b y) eqn:E.
    + destruct (IH y) as (Hin & Hy & Hall). split; [set_solver|]. split; [eauto|].
      intros x [->|Hx]%elem_of_cons; auto.
    + destruct (IH b) as (Hin & Hb & Hall). split; [set_solver|]. split; [done|].
      intros x [->|Hx]%elem_of_cons; eauto.
Qed.

Lemma max_by_key_spec l m :
  max_by_key le l = Some m → m ∈ l ∧ ∀ x, x ∈ l → le x m = true.
Proof.
  destruct l as [|b l]; [done|]. cbn. intros [= <-].
  destruct (max_by_spec b l) as ([->|Hin] & Hb & Hall); split; try set_solver.
Qed.

End sorting.

Lemma max_by_key_None {A} le (l : list A) : max_by_key le l = None ↔ l = [].
Proof. by destruct l. Qed.

(** ** Lemmas on hash maps *)

Section hash_order.
Context `{!HashOrder}.

Lemma elem_of_hash_iter {V} (m : gmap string V) k v : (k, v) ∈ hash_iter m ↔ m !! k = Some v.
Proof. rewrite hash_iter_perm. by rewrite elem_of_map_to_list. Qed.

Lemma hash_iter_NoDup {V} (m : gmap string V) : NoDup (hash_iter m).*1.
Proof. rewrite hash_iter_perm. apply NoDup_fst_map_to_list. Qed.

End hash_order.

Lemma elem_of_btree_iter s x : x ∈ btree_iter s ↔ x ∈ s.
Proof. unfold btree_iter. by rewrite elem_of_sort_by, elem_of_elements. Qed.

(** ** The order on strings *)

Lemma str_leb_total a b : str_leb a b = false → str_leb b a = true.
Proof. unfold str_leb. destruct (String.leb_total a b); congruence. Qed.

Lemma str_compare_refl a : String.compare a a = Eq.
Proof.
  induction a as [|x a IH]; cbn; [done|]. unfold Ascii.compare. by rewrite N.compare_refl.
Qed.

Lemma str_leb_trans a b c : str_leb a b = true → str_leb b c = true → str_leb a c = true.
Proof.
  unfold str_leb, String.leb. revert b c.
  induction a as [|x a IH]; intros [|y b] [|z c]; cbn; try done.
  unfold Ascii.compare. intros H1 H2.
  destruct (N.compare_spec (N_of_ascii x) (N_of_ascii y)) as [E1|E1|E1];
    destruct (N.compare_spec (N_of_ascii y) (N_of_ascii z)) as [E2|E2|E2];
    destruct (N.compare_spec (N_of_ascii x) (N_of_ascii z)); try done; try lia.
  by apply (IH b).
Qed.

Lemma str_leb_antisym a b : str_leb a b = true → str_leb b a = true → a = b.
Proof. apply String.leb_antisym. Qed.

#[export] Hint Resolve str_leb_total str_leb_trans str_leb_antisym : pg.

(** Sorting strings depends on what is sorted, not on the order it comes in. *)
Lemma sort_str_perm l1 l2 : l1 ≡ₚ l2 → sort_by str_leb l1 = sort_by str_leb l2.
Proof.
  intros Hp. apply (StronglySorted_unique_strong (λ a b, str_leb a b = true)).
  - intros x y _ _. apply str_leb_antisym.
  - apply sort_by_sorted; eauto with pg.
  - apply sort_by_sorted; eauto with pg.
  - by rewrite !sort_by_perm.
Qed.

#[global] Arguments format_hex : simpl never.
#[global] Arguments format_dec : simpl never.

(** ** Lemmas on bytes *)

Lemma be_bytes_length k n : length (be_bytes k n) = k.
Proof. induction k; cbn; by rewrite ?IHk. Qed.

Lemma be_bytes_byte k n : Forall is_byte (be_bytes k n).
Proof.
  induction k; cbn; constructor; [|done]. unfold in_u. change (2 ^ 8) with 256.
  apply Z.mod_pos_bound. lia.
Qed.

Lemma be_value_acc l acc :
  foldl (λ acc b, acc * 256 + b) acc l = acc * 256 ^ Z.of_nat (length l) + be_value l.
Proof.
  unfold be_value. revert acc. induction l as [|b l IH]; intros acc; [cbn; lia|].
  cbn [foldl length]. rewrite IH, (IH (0 * 256 + b)), Nat2Z.inj_succ, Z.pow_succ_r by lia. lia.
Qed.

Lemma be_value_cons b l : be_value (b :: l) = b * 256 ^ Z.of_nat (length l) + be_value l.
Proof. unfold be_value at 1. cbn [foldl]. rewrite be_value_acc. lia. Qed.

Lemma be_value_bytes k n : 0 ≤ n → be_value (be_bytes k n) = n mod 256 ^ Z.of_nat k.
Proof.
  intros Hn. induction k as [|k IH]; [by rewrite Z.mod_1_r|].
  cbn [be_bytes]. rewrite be_value_cons, be_bytes_length, IH, Nat2Z.inj_succ, Z.pow_succ_r by lia.
  rewrite (Z.mul_comm 256). rewrite Z.rem_mul_r by lia. lia.
Qed.

Lemma be_value_be_bytes k n : 0 ≤ n < 256 ^ Z.of_nat k → be_value (be_bytes k n) = n.
Proof. intros Hn. rewrite be_value_bytes by lia. by apply Z.mod_small. Qed.

Lemma be_value_bounds l : Forall is_byte l → 0 ≤ be_value l < 256 ^ Z.of_nat (length l).
Proof.
  induction 1 as [|b l Hb Hl IH]; [cbn; lia|].
  rewrite be_value_cons. cbn [length]. rewrite Nat2Z.inj_succ, Z.pow_succ_r by lia.
  unfold in_u in Hb. change (2 ^ 8) with 256 in Hb. nia.
Qed.

(** Byte strings of one length are ordered as the numbers they write. *)
Lemma bytes_leb_value a b :
  Forall is_byte a → Forall is_byte b → length a = length b →
  bytes_leb a b = (be_value a <=? be_value b).
Proof.
  intros Ha. revert b. induction Ha as [|x a Hx Ha IH]; intros [|y b] Hb Hlen; try done.
  apply Forall_cons in Hb as [Hy Hb]. injection Hlen as Hlen.
  cbn [bytes_leb]. rewrite IH, !be_value_cons, Hlen by done.
  pose proof (be_value_bounds a Ha) as Hva. pose proof (be_value_bounds b Hb) as Hvb.
  rewrite Hlen in Hva. set (p := 256 ^ Z.of_nat (length b)) in *.
  destruct (Z.ltb_spec x y), (Z.eqb_spec x y), (Z.leb_spec (be_value a) (be_value b)); cbn;
    symmetry; first [apply Z.leb_le; nia | apply Z.leb_gt; nia].
Qed.

Lemma bytes_leb_refl a : bytes_leb a a = true.
Proof. induction a as [|x a IH]; cbn; [done|]. rewrite IH, Z.eqb_refl, orb_true_r. done. Qed.

Lemma bytes_leb_total a b : bytes_leb a b = false → bytes_leb b a = true.
Proof.
  revert b. induction a as [|x a IH]; intros [|y b]; cbn; try done.
  destruct (Z.ltb_spec x y), (Z.eqb_spec x y), (Z.ltb_spec y x), (Z.eqb_spec y x);
    cbn; try done; try lia. auto.
Qed.

Lemma bytes_leb_trans a b c : bytes_leb a b = true → bytes_leb b c = true → bytes_leb a c = true.
Proof.
  revert b c. induction a as [|x a IH]; intros [|y b] [|z c]; cbn; try done.
  destruct (Z.ltb_spec x y), (Z.eqb_spec x y), (Z.ltb_spec y z), (Z.eqb_spec y z),
    (Z.ltb_spec x z), (Z.eqb_spec x z); cbn; try done; try lia. eauto.
Qed.

Lemma bytes_leb_antisym a b : bytes_leb a b = true → bytes_leb b a = true → a = b.
Proof.
  revert b. induction a as [|x a IH]; intros [|y b]; cbn; try done.
  destruct (Z.ltb_spec x y), (Z.eqb_spec x y), (Z.ltb_spec y x), (Z.eqb_spec y x);
    cbn; try done; try lia. intros. f_equal; auto.
Qed.

#[export] Hint Resolve bytes_leb_total bytes_leb_trans bytes_leb_antisym : pg.

Lemma StronglySorted_fmap_in {A B} (R : A → A → Prop) (R' : B → B → Prop) (f : A → B) l :
  StronglySorted R l → (∀ x y, x ∈ l → y ∈ l → R x y → R' (f x) (f y)) →
  StronglySorted R' (f <$> l).
Proof.
  induction 1 as [|x l Hs IH Hx]; intros Hf; cbn; [constructor|]. constructor.
  - apply IH. intros. apply Hf; [by right..|done].
  - apply Forall_forall. intros ? (y & -> & Hy)%list_elem_of_fmap.
    apply Hf; [by left|by right|]. by eapply Forall_forall in Hx.
Qed.
