(* ===== verification/Topology.v ===== *)
(** The replicated cluster state: src/pgcluster/src/raft/topology.rs, and the
    commands of src/pgcluster/src/raft/commands.rs.

    The types keep the source's constructors and fields. Rust's [HashMap] is a
    [gmap] whose iteration order is the [HashOrder] of the prelude, a
    [BTreeSet] is a [gset] iterated in ascending order, LSNs and versions are
    [u64] values in [Z]. The theorems are about the LSN text format, the
    [synchronous_standby_names] setting, candidate ranking, conninfo strings
    and the bounded failover history. *)
From S2P Require Import Prelude.

Local Open Scope Z_scope.

(** ** Types *)

Inductive NodeRole := Primary | Replica | Offline | Maintenance | Unknown.

Global Instance NodeRole_eq_dec : EqDecision NodeRole.
Proof. solve_decision. Defined.

Inductive ReplicationMode := Async | Sync | SyncStrict.

Global Instance ReplicationMode_eq_dec : EqDecision ReplicationMode.
Proof. solve_decision. Defined.

Record NodeConfig := mkNodeConfig {
  nc_node_id : string;
  agent_addr : string;
  postgres_addr : string;
  priority : Z;
  tags : gmap string string
}.

Inductive BackupStatus := Completed | Failed.

Record BackupManifest := mkBackupManifest {
  backup_id : string;
  label : string;
  frequency : string;
  source_node : string;
  started_at : Z;
  completed_at : Z;
  size_bytes : Z;
  location : string;
  status : BackupStatus
}.

Record FailoverEvent := mkFailoverEvent {
  old_primary : string;
  new_primary : string;
  triggered_at : Z;
  duration_ms : Z;
  reason : string;
  ran_degraded : bool
}.

Record ClusterTopology := mkTopology {
  primary_node_id : string;
  node_roles : gmap string NodeRole;
  replica_slots : gmap string string;
  primary_conninfos : gmap string string;
  last_flush_lsns : gmap string Z;
  last_replay_lsns : gmap string Z;
  replica_lag_bytes : gmap string Z;
  node_configs : gmap string NodeConfig;
  failover_history : list FailoverEvent;
  backups : list BackupManifest;
  replication_mode : ReplicationMode;
  sync_degraded : bool;
  needs_reseed : gset string;
  version : Z;
  last_changed_at : Z
}.

(** [ClusterTopology::default], which [ClusterTopology::new] returns too. *)
Definition default_topology : ClusterTopology :=
  mkTopology EmptyString ∅ ∅ ∅ ∅ ∅ ∅ ∅ [] [] Async false ∅ 0 0.

(** Assignments to one field. *)
Definition with_primary_node_id (v : string) (t : ClusterTopology) : ClusterTopology :=
  mkTopology v (node_roles t) (replica_slots t) (primary_conninfos t)
    (last_flush_lsns t) (last_replay_lsns t) (replica_lag_bytes t)
    (node_configs t) (failover_history t) (backups t) (replication_mode t)
    (sync_degraded t) (needs_reseed t) (version t) (last_changed_at t).
Definition with_node_roles (v : gmap string NodeRole) (t : ClusterTopology) : ClusterTopology :=
  mkTopology (primary_node_id t) v (replica_slots t) (primary_conninfos t)
    (last_flush_lsns t) (last_replay_lsns t) (replica_lag_bytes t)
    (node_configs t) (failover_history t) (backups t) (replication_mode t)
    (sync_degraded t) (needs_reseed t) (version t) (last_changed_at t).
Definition with_replica_slots (v : gmap string string) (t : ClusterTopology) : ClusterTopology :=
  mkTopology (primary_node_id t) (node_roles t) v (primary_conninfos t)
    (last_flush_lsns t) (last_replay_lsns t) (replica_lag_bytes t)
    (node_configs t) (failover_history t) (backups t) (replication_mode t)
    (sync_degraded t) (needs_reseed t) (version t) (last_changed_at t).
Definition with_primary_conninfos (v : gmap string string) (t : ClusterTopology) : ClusterTopology :=
  mkTopology (primary_node_id t) (node_roles t) (replica_slots t) v
    (last_flush_lsns t) (last_replay_lsns t) (replica_lag_bytes t)
    (node_configs t) (failover_history t) (backups t) (replication_mode t)
    (sync_degraded t) (needs_reseed t) (version t) (last_changed_at t).
Definition with_last_flush_lsns (v : gmap string Z) (t : ClusterTopology) : ClusterTopology :=
  mkTopology (primary_node_id t) (node_roles t) (replica_slots t)
    (primary_conninfos t) v (last_replay_lsns t) (replica_lag_bytes t)
    (node_configs t) (failover_history t) (backups t) (replication_mode t)
    (sync_degraded t) (needs_reseed t) (version t) (last_changed_at t).
Definition with_last_replay_lsns (v : gmap string Z) (t : ClusterTopology) : ClusterTopology :=
  mkTopology (primary_node_id t) (node_roles t) (replica_slots t)
    (primary_conninfos t) (last_flush_lsns t) v (replica_lag_bytes t)
    (node_configs t) (failover_history t) (backups t) (replication_mode t)
    (sync_degraded t) (needs_reseed t) (version t) (last_changed_at t).
Definition with_replica_lag_bytes (v : gmap string Z) (t : ClusterTopology) : ClusterTopology :=
  mkTopology (primary_node_id t) (node_roles t) (replica_slots t)
    (primary_conninfos t) (last_flush_lsns t) (last_replay_lsns t) v
    (node_configs t) (failover_history t) (backups t) (replication_mode t)
    (sync_degraded t) (needs_reseed t) (version t) (last_changed_at t).
Definition with_node_configs (v : gmap string NodeConfig) (t : ClusterTopology) : ClusterTopology :=
  mkTopology (primary_node_id t) (node_roles t) (replica_slots t)
    (primary_conninfos t) (last_flush_lsns t) (last_replay_lsns t)
    (replica_lag_bytes t) v (failover_history t) (backups t)
    (replication_mode t) (sync_degraded t) (needs_reseed t) (version t)
    (last_changed_at t).
Definition with_failover_history (v : list FailoverEvent) (t : ClusterTopology) : ClusterTopology :=
  mkTopology (primary_node_id t) (node_roles t) (replica_slots t)
    (primary_conninfos t) (last_flush_lsns t) (last_replay_lsns t)
    (replica_lag_bytes t) (node_configs t) v (backups t)
    (replication_mode t) (sync_degraded t) (needs_reseed t) (version t)
    (last_changed_at t).
Definition with_backups (v : list BackupManifest) (t : ClusterTopology) : ClusterTopology :=
  mkTopology (primary_node_id t) (node_roles t) (replica_slots t)
    (primary_conninfos t) (last_flush_lsns t) (last_replay_lsns t)
    (replica_lag_bytes t) (node_configs t) (failover_history t) v
    (replication_mode t) (sync_degraded t) (needs_reseed t) (version t)
    (last_changed_at t).
Definition with_replication_mode (v : ReplicationMode) (t : ClusterTopology) : ClusterTopology :=
  mkTopology (primary_node_id t) (node_roles t) (replica_slots t)
    (primary_conninfos t) (last_flush_lsns t) (last_replay_lsns t)
    (replica_lag_bytes t) (node_configs t) (failover_history t) (backups t)
    v (sync_degraded t) (needs_reseed t) (version t) (last_changed_at t).
Definition with_sync_degraded (v : bool) (t : ClusterTopology) : ClusterTopology :=
  mkTopology (primary_node_id t) (node_roles t) (replica_slots t)
    (primary_conninfos t) (last_flush_lsns t) (last_replay_lsns t)
    (replica_lag_bytes t) (node_configs t) (failover_history t) (backups t)
    (replication_mode t) v (needs_reseed t) (version t) (last_changed_at t).
Definition with_needs_reseed (v : gset string) (t : ClusterTopology) : ClusterTopology :=
  mkTopology (primary_node_id t) (node_roles t) (replica_slots t)
    (primary_conninfos t) (last_flush_lsns t) (last_replay_lsns t)
    (replica_lag_bytes t) (node_configs t) (failover_history t) (backups t)
    (replication_mode t) (sync_degraded t) v (version t)
    (last_changed_at t).
Definition with_version (v : Z) (t : ClusterTopology) : ClusterTopology :=
  mkTopology (primary_node_id t) (node_roles t) (replica_slots t)
    (primary_conninfos t) (last_flush_lsns t) (last_replay_lsns t)
    (replica_lag_bytes t) (node_configs t) (failover_history t) (backups t)
    (replication_mode t) (sync_degraded t) (needs_reseed t) v
    (last_changed_at t).
Definition with_last_changed_at (v : Z) (t : ClusterTopology) : ClusterTopology :=
  mkTopology (primary_node_id t) (node_roles t) (replica_slots t)
    (primary_conninfos t) (last_flush_lsns t) (last_replay_lsns t)
    (replica_lag_bytes t) (node_configs t) (failover_history t) (backups t)
    (replication_mode t) (sync_degraded t) (needs_reseed t) (version t) v.

(** [TopologyCommand], the payload of a Raft log entry. *)
Inductive TopologyCommand :=
| SetPrimary (node_id : string) (at_lsn : Z) (new_timeline : Z)
| MarkOffline (node_id : string)
| MarkReplica (node_id : string) (flush_lsn : Z)
| MarkMaintenance (node_id : string)
| UpdatePrimaryConninfo (node_id conninfo : string)
| UpdateFlushLsn (node_id : string) (flush_lsn replay_lsn : Z)
| AddNode (cfg : NodeConfig)
| RemoveNode (node_id : string)
| RecordFailover (old_primary new_primary : string) (triggered_at duration_ms : Z)
    (reason : string) (ran_degraded : bool)
| SetReplicationMode (mode : ReplicationMode)
| SetSyncDegraded (degraded : bool)
| SetNeedsReseed (node_id : string) (needs_reseed : bool)
| SetReplicationSlot (node_id slot_name : string)
| AddBackupManifest (manifest : BackupManifest)
| RemoveBackupManifest (id : string).

Definition changes_primary (cmd : TopologyCommand) : bool :=
  match cmd with SetPrimary _ _ _ => true | _ => false end.

(** ** Node configuration *)

Definition EXTERNAL_ROLE : string := "external".

Definition postgres_host_port (cfg : NodeConfig) : string * string :=
  default (postgres_addr cfg, "5432") (rsplit_once ":" (postgres_addr cfg)).

Definition conninfo (cfg : NodeConfig) (user password : string) : string :=
  let '(host, port) := postgres_host_port cfg in
  ("host=" ++ host ++ " port=" ++ port ++ " user=" ++ user ++ " password=" ++ password)%string.

Definition has_token (info key value : string) : bool :=
  existsb (λ token, bool_decide (strip_prefix key token = Some value)) (split_whitespace info).

Definition is_target_of (cfg : NodeConfig) (info : string) : bool :=
  let '(host, port) := postgres_host_port cfg in
  has_token info "host=" host && has_token info "port=" port.

Definition is_external (cfg : NodeConfig) : bool :=
  match tags cfg !! "role" with
  | Some r => String.eqb r EXTERNAL_ROLE
  | None => false
  end.

(** ** Queries of the topology *)

Definition FAILOVER_HISTORY_MAX : nat := 100.

(** The [while] loop pops one event at a time; it stops because each turn
    shortens the queue. *)
Fixpoint pop_until (max : nat) (h : list FailoverEvent) : list FailoverEvent :=
  match h with
  | [] => []
  | _ :: h' => if (max <? length h)%nat then pop_until max h' else h
  end.

Definition record_failover (event : FailoverEvent) (t : ClusterTopology) : ClusterTopology :=
  with_failover_history (pop_until FAILOVER_HISTORY_MAX (failover_history t ++ [event])) t.

Definition primary_postgres_addr (t : ClusterTopology) : option string :=
  postgres_addr <$> node_configs t !! primary_node_id t.

Definition quote_char : ascii := ascii_of_nat 34.
Definition quote_str : string := String quote_char EmptyString.

(** A Postgres quoted identifier: quotes around, and each quote doubled. *)
Definition quoted (id : string) : string :=
  (quote_str ++ replace_char quote_char (quote_str ++ quote_str) id ++ quote_str)%string.

Section queries.
Context `{!HashOrder}.

Definition is_standby (t : ClusterTopology) (e : string * NodeConfig) : bool :=
  negb (String.eqb e.1 (primary_node_id t)) && negb (is_external e.2).

Definition standbys (t : ClusterTopology) : list string :=
  (List.filter (is_standby t) (hash_iter (node_configs t))).*1.

Definition standby_names (t : ClusterTopology) : string :=
  match standbys t with
  | [] => EmptyString
  | ids => ("ANY 1 (" ++ join ", " (quoted <$> sort_by str_leb ids) ++ ")")%string
  end.

Definition sync_required (t : ClusterTopology) : bool :=
  match replication_mode t with
  | Async => false
  | Sync => negb (sync_degraded t)
  | SyncStrict => true
  end.

Definition synchronous_standby_names (t : ClusterTopology) : string :=
  if sync_required t then standby_names t else EmptyString.

Definition flush_lsn_of (t : ClusterTopology) (id : string) : Z := get_or 0 (last_flush_lsns t) id.

Definition replica_addrs_within_lag (t : ClusterTopology) (max_lag_bytes : Z) : list string :=
  let primary_lsn := flush_lsn_of t (primary_node_id t) in
  let replicas := List.filter (λ e, bool_decide (e.2 = Replica)) (hash_iter (node_roles t)) in
  let close := List.filter
    (λ e, saturating_sub primary_lsn (flush_lsn_of t e.1) <=? max_lag_bytes) replicas in
  omap (λ e, postgres_addr <$> node_configs t !! e.1) close.

Definition priority_of (t : ClusterTopology) (id : string) : Z :=
  default 0 (priority <$> node_configs t !! id).

(** [lsn_b.cmp(&lsn_a).then(pri_b.cmp(&pri_a))] is not [Greater]. *)
Definition candidate_le (t : ClusterTopology) (a b : string) : bool :=
  let lsn_a := flush_lsn_of t a in let lsn_b := flush_lsn_of t b in
  (lsn_b <? lsn_a) || ((lsn_b =? lsn_a) && (priority_of t b <=? priority_of t a)).

(** The entries are sorted by their ids alone, so the roles are dropped first. *)
Definition best_failover_candidate (t : ClusterTopology) (failed_id : string) : option string :=
  let candidates := List.filter
    (λ e, negb (String.eqb e.1 failed_id) && bool_decide (e.2 = Replica))
    (hash_iter (node_roles t)) in
  head (sort_by (candidate_le t) candidates.*1).

End queries.

(** ** LSN text *)

Inductive lsn_error := invalid_lsn | invalid_lsn_hi | invalid_lsn_lo.

Definition parse_lsn (s : string) : result lsn_error Z :=
  '(hi_text, lo_text) ← ok_or invalid_lsn (split_once "/" s);
  hi ← ok_or invalid_lsn_hi (from_str_radix 16 (2 ^ 64 - 1) hi_text);
  lo ← ok_or invalid_lsn_lo (from_str_radix 16 (2 ^ 64 - 1) lo_text);
  mret (Z.lor (wrap 64 (Z.shiftl hi 32)) lo).

Definition format_lsn (lsn : Z) : string :=
  (format_hex (Z.shiftr lsn 32) ++ "/" ++ format_hex (wrap 32 lsn))%string.

(** ** Specifications *)

(** Reading a list of quoted identifiers back, the way Postgres reads it: a
    quote opens an identifier, two quotes inside stand for one, a single quote
    closes it, and a comma and a space separate identifiers. *)
Fixpoint read_quoted (acc s : string) : option (string * string) :=
  match s with
  | EmptyString => None
  | String a s' =>
      if Ascii.eqb a quote_char then
        match s' with
        | String b s'' =>
            if Ascii.eqb b quote_char then read_quoted (acc ++ quote_str) s'' else Some (acc, s')
        | EmptyString => Some (acc, s')
        end
      else read_quoted (acc ++ String a EmptyString) s'
  end.

Fixpoint read_names (fuel : nat) (s : string) : option (list string) :=
  match fuel with
  | O => None
  | S fuel' =>
      rest ← strip_prefix quote_str s;
      '(id, rest) ← read_quoted EmptyString rest;
      if String.eqb rest ")" then Some [id]
      else rest' ← strip_prefix ", " rest; ids ← read_names fuel' rest'; Some (id :: ids)
  end.

(** The ids a value of [synchronous_standby_names] names. The text is longer
    than the number of its identifiers, so its length is enough fuel. *)
Definition read_standby_names (s : string) : option (list string) :=
  if is_empty s then Some []
  else rest ← strip_prefix "ANY 1 (" s; read_names (String.length s) rest.

(** The order failover ranks candidates by: flushed further, then priority. *)
Definition ranks_above (t : ClusterTopology) (a b : string) : Prop :=
  flush_lsn_of t b < flush_lsn_of t a ∨
  flush_lsn_of t b = flush_lsn_of t a ∧ priority_of t b ≤ priority_of t a.

(** ** LSN text *)

Lemma lor_shift_halves n : u64 n → Z.lor (wrap 64 (Z.shiftl (Z.shiftr n 32) 32)) (wrap 32 n) = n.
Proof.
  unfold in_u, wrap. intros Hn. rewrite (Z.mod_small _ (2 ^ 64)).
  - rewrite <-Z.ldiff_ones_r, <-Z.land_ones by lia. apply Z.lor_ldiff_and.
  - rewrite Z.shiftl_mul_pow2, Z.shiftr_div_pow2 by lia.
    pose proof (Z.mod_pos_bound n (2 ^ 32) ltac:(lia)).
    rewrite (Z.div_mod n (2 ^ 32)) in Hn at 1 2 by lia. lia.
Qed.

(** Printing an LSN and parsing the text gives the LSN back, for every
    [u64]. *)
Theorem lsn_round_trip n : u64 n → parse_lsn (format_lsn n) = Ok n.
Proof.
  intros Hn. unfold parse_lsn, format_lsn, format_hex.
  assert (0 ≤ Z.shiftr n 32 < 2 ^ 32) as Hhi.
  { rewrite Z.shiftr_div_pow2 by lia. unfold in_u in Hn.
    split; [apply Z.div_pos; lia|]. apply Z.div_lt_upper_bound; lia. }
  pose proof (wrap_in_u 32 n ltac:(lia)) as Hlo. unfold in_u in Hlo.
  cbn [String.append]. rewrite split_once_app by (apply digits_fuel_no; (done || lia)).
  cbn [ok_or mbind result_bind].
  rewrite !from_str_radix_format by lia.
  cbn [ok_or mbind result_bind mret result_ret]. by rewrite lor_shift_halves.
Qed.

Lemma lsn_round_trip_witness : parse_lsn (format_lsn 0x1_0000_ABCD) = Ok 0x1_0000_ABCD.
Proof. apply lsn_round_trip. vm_compute. done. Defined.

(** Halves wider than 32 bits are accepted, and the bits above are lost. *)
Lemma parse_lsn_wide_half : parse_lsn "100000000/0" = Ok 0.
Proof. reflexivity. Qed.

(** Every LSN the parser returns is a [u64]. *)
Lemma parse_lsn_u64 s n : parse_lsn s = Ok n → u64 n.
Proof.
  unfold parse_lsn. destruct (split_once "/" s) as [[h l]|]; [|done].
  cbn [ok_or mbind result_bind].
  destruct (from_str_radix 16 (2 ^ 64 - 1) h) as [hi|] eqn:Eh; [|done].
  destruct (from_str_radix 16 (2 ^ 64 - 1) l) as [lo|] eqn:El; [|done].
  cbn [ok_or mbind result_bind mret result_ret]. intros [= <-].
  apply from_str_radix_bounds in El; [|lia..].
  apply lor_in_u; [lia|by apply wrap_in_u|unfold in_u; lia].
Qed.

(** ** Synchronous standby names *)

Lemma elem_of_standbys `{!HashOrder} t id :
  id ∈ standbys t ↔
  ∃ cfg, node_configs t !! id = Some cfg ∧ id ≠ primary_node_id t ∧ is_external cfg = false.
Proof.
  unfold standbys. rewrite list_elem_of_fmap. split.
  - intros ([k cfg] & -> & Hin). apply elem_of_lfilter in Hin as [Hin%elem_of_hash_iter Hs].
    unfold is_standby in Hs. cbn in *. bool_prop. eauto.
  - intros (cfg & Hl & Hne & Hext). exists (id, cfg). split; [done|].
    apply elem_of_lfilter. split; [by apply elem_of_hash_iter|].
    unfold is_standby. cbn. rewrite Hext, andb_true_r. by apply negb_true_iff, String.eqb_neq.
Qed.

Lemma standbys_perm (H1 H2 : HashOrder) t : @standbys H1 t ≡ₚ @standbys H2 t.
Proof.
  unfold standbys. apply fmap_Permutation, list_filter_perm. by rewrite !hash_iter_perm.
Qed.

Lemma standby_names_alt `{!HashOrder} t :
  standby_names t =
  match sort_by str_leb (standbys t) with
  | [] => EmptyString
  | ids => ("ANY 1 (" ++ join ", " (quoted <$> ids) ++ ")")%string
  end.
Proof.
  unfold standby_names. destruct (standbys t) as [|x l] eqn:E; [done|].
  destruct (sort_by str_leb (x :: l)) eqn:Es; [|done].
  apply (f_equal length) in Es. rewrite sort_by_length in Es. done.
Qed.

(** The value does not depend on the order the hash map iterates in, so every
    node computes the same setting from the same state. *)
Theorem standby_names_order (H1 H2 : HashOrder) t :
  @synchronous_standby_names H1 t = @synchronous_standby_names H2 t.
Proof.
  unfold synchronous_standby_names. case_match; [|done].
  rewrite !standby_names_alt. by rewrite (sort_str_perm _ _ (standbys_perm H1 H2 t)).
Qed.

Lemma read_quoted_id acc id rest :
  starts_with quote_str rest = false →
  read_quoted acc (replace_char quote_char (quote_str ++ quote_str) id ++ quote_str ++ rest) =
  Some ((acc ++ id)%string, rest).
Proof.
  intros Hrest. revert acc. induction id as [|a id IH]; intros acc.
  - rewrite str_app_nil_r. destruct rest as [|b rest]; cbn in *; [done|].
    rewrite andb_true_r in Hrest. unfold quote_char in *. rewrite Ascii.eqb_sym in Hrest.
    by rewrite Hrest.
  - cbn [replace_char]. destruct (Ascii.eqb_spec a quote_char) as [->|Hne].
    + cbn [quote_str String.append read_quoted]. rewrite Ascii.eqb_refl.
      etransitivity; [apply IH|]. by rewrite <-str_app_assoc.
    + cbn [String.append read_quoted]. apply Ascii.eqb_neq in Hne. rewrite Hne.
      etransitivity; [apply IH|]. by rewrite <-str_app_assoc.
Qed.

Lemma read_names_join ids fuel :
  ids ≠ [] → (length ids ≤ fuel)%nat →
  read_names fuel (join ", " (quoted <$> ids) ++ ")") = Some ids.
Proof.
  revert ids. induction fuel as [|fuel IH]; intros [|id ids] Hne Hf; cbn in Hf; try done; [lia|].
  destruct ids as [|id' ids].
  - cbn [fmap list_fmap join]. unfold quoted. rewrite <-!str_app_assoc. cbn [read_names].
    rewrite strip_prefix_app. cbn [mbind option_bind].
    by rewrite read_quoted_id.
  - assert (join ", " (quoted <$> id :: id' :: ids) =
            (quoted id ++ ", " ++ join ", " (quoted <$> id' :: ids))%string) as -> by done.
    unfold quoted at 1. rewrite <-!str_app_assoc. cbn [read_names].
    rewrite strip_prefix_app. cbn [mbind option_bind].
    rewrite read_quoted_id by done. cbn [String.append mbind option_bind].
    assert (∀ s, String.eqb (String "," (String " " s)) ")" = false) as -> by done.
    assert (∀ s, strip_prefix ", " (String "," (String " " s)) = Some s) as -> by done.
    cbn [mbind option_bind]. by rewrite (IH (id' :: ids)) by (done || (cbn in *; lia)).
Qed.

Lemma join_length (f : string → string) ids :
  (∀ x, (1 ≤ String.length (f x))%nat) →
  (length ids ≤ String.length (join ", " (f <$> ids)))%nat.
Proof.
  intros Hf. induction ids as [|x ids IH]; [done|].
  destruct ids as [|y ids]; [cbn; specialize (Hf x); lia|].
  assert (join ", " (f <$> x :: y :: ids) =
          (f x ++ ", " ++ join ", " (f <$> y :: ids))%string) as -> by done.
  rewrite !str_app_length. specialize (Hf x). cbn [length String.length] in *. lia.
Qed.

(** When a synchronous standby is required, the setting pgcluster writes
    reads back, by the quoting rules of Postgres, as the sorted ids of exactly
    the nodes that are neither the primary nor external, whatever characters
    the ids hold. *)
Theorem standby_names_read `{!HashOrder} t :
  ∃ ids, read_standby_names (standby_names t) = Some ids ∧
    StronglySorted (λ a b, str_leb a b = true) ids ∧
    ∀ id, id ∈ ids ↔
      ∃ cfg, node_configs t !! id = Some cfg ∧ id ≠ primary_node_id t ∧ is_external cfg = false.
Proof.
  exists (sort_by str_leb (standbys t)). split_and!.
  - rewrite standby_names_alt. destruct (sort_by _ _) as [|x l] eqn:E; [done|].
    unfold read_standby_names. cbn [is_empty String.append].
    apply read_names_join; [done|]. cbn [String.length].
    rewrite str_app_length.
    pose proof (join_length quoted (x :: l) ltac:(intros ?; cbn; lia)). lia.
  - apply sort_by_sorted; eauto with pg.
  - intros id. by rewrite elem_of_sort_by, elem_of_standbys.
Qed.

(** ** Candidate ranking *)

Lemma candidate_le_spec t a b : candidate_le t a b = true ↔ ranks_above t a b.
Proof.
  unfold candidate_le, ranks_above.
  rewrite orb_true_iff, andb_true_iff, Z.ltb_lt, Z.eqb_eq, Z.leb_le. done.
Qed.

Lemma candidate_le_total t a b : candidate_le t a b = false → candidate_le t b a = true.
Proof.
  intros Hf. apply candidate_le_spec. unfold ranks_above.
  unfold candidate_le in Hf. apply orb_false_iff in Hf as [H1%Z.ltb_ge H2%andb_false_iff].
  destruct H2 as [?%Z.eqb_neq|?%Z.leb_gt]; lia.
Qed.

Lemma candidate_le_trans t a b c :
  candidate_le t a b = true → candidate_le t b c = true → candidate_le t a c = true.
Proof. rewrite !candidate_le_spec. unfold ranks_above. lia. Qed.

(** The ids the source sorts: replicas other than the failed node. *)
Lemma elem_of_candidates `{!HashOrder} t failed id :
  id ∈ (List.filter (λ e, negb (String.eqb e.1 failed) && bool_decide (e.2 = Replica))
          (hash_iter (node_roles t))).*1 ↔
  id ≠ failed ∧ node_roles t !! id = Some Replica.
Proof.
  rewrite list_elem_of_fmap. split.
  - intros ([k r] & -> & [Hin%elem_of_hash_iter Hf]%elem_of_lfilter). cbn in *.
    bool_prop. case_bool_decide; simplify_eq. done.
  - intros [Hne Hr]. exists (id, Replica). split; [done|]. apply elem_of_lfilter.
    split; [by apply elem_of_hash_iter|]. cbn. apply String.eqb_neq in Hne. by rewrite Hne.
Qed.

(** The candidate is a replica other than the failed node, and no such
    replica ranks strictly above it; there is a candidate exactly when there
    is such a replica. This holds for every hash iteration order. *)
Theorem best_failover_candidate_spec `{!HashOrder} t failed :
  match best_failover_candidate t failed with
  | Some id =>
      id ≠ failed ∧ node_roles t !! id = Some Replica ∧
      ∀ other, other ≠ failed → node_roles t !! other = Some Replica → ranks_above t id other
  | None => ∀ other, other ≠ failed → node_roles t !! other ≠ Some Replica
  end.
Proof.
  unfold best_failover_candidate. set (l := (List.filter _ _).*1).
  assert (∀ id, id ∈ l ↔ id ≠ failed ∧ node_roles t !! id = Some Replica) as Hl
    by (intros; apply elem_of_candidates).
  destruct (sort_by (candidate_le t) l) as [|id l'] eqn:E; cbn.
  - intros other Hne Hr. assert (other ∈ l) as Hin by (by apply Hl).
    rewrite <-(elem_of_sort_by (candidate_le t)), E in Hin. by apply not_elem_of_nil in Hin.
  - assert (id ∈ l) as Hin by (rewrite <-(elem_of_sort_by (candidate_le t)), E; left).
    apply Hl in Hin as [? ?]. split_and!; [done..|]. intros other Hne Hr.
    apply candidate_le_spec.
    eapply sort_by_head; [apply candidate_le_total|apply candidate_le_trans|done|by apply Hl].
Qed.

(** The address list the proxy reads from is exactly the addresses of the
    configured replicas whose recorded lag is within the bound. *)
Lemma elem_of_replica_addrs `{!HashOrder} t max_lag addr :
  addr ∈ replica_addrs_within_lag t max_lag ↔
  ∃ id cfg, node_roles t !! id = Some Replica ∧ node_configs t !! id = Some cfg ∧
    postgres_addr cfg = addr ∧
    saturating_sub (flush_lsn_of t (primary_node_id t)) (flush_lsn_of t id) ≤ max_lag.
Proof.
  unfold replica_addrs_within_lag. rewrite list_elem_of_omap. split.
  - intros ([id r] & [[Hin%elem_of_hash_iter Hr]%elem_of_lfilter Hlag]%elem_of_lfilter & Hc).
    cbn in *. case_bool_decide; simplify_eq. apply Z.leb_le in Hlag.
    apply fmap_Some in Hc as (cfg & ? & ->). eauto 10.
  - intros (id & cfg & Hr & Hc & <- & Hlag). exists (id, Replica). split.
    + rewrite !elem_of_lfilter. rewrite elem_of_hash_iter. cbn.
      split_and!; [done..|]. by apply Z.leb_le.
    + cbn. by rewrite Hc.
Qed.

(** ** Failover history *)

Lemma pop_until_drop max h : pop_until max h = drop (length h - max) h.
Proof.
  induction h as [|e h IH]; [done|]. cbn [pop_until].
  destruct (Nat.ltb_spec max (length (e :: h))) as [Hlt|Hge]; cbn [length] in *.
  - replace (S (length h) - max)%nat with (S (length h - max)) by lia. by rewrite IH.
  - by replace (S (length h) - max)%nat with 0%nat by lia.
Qed.

Lemma record_failover_history e t :
  failover_history (record_failover e t) =
  drop (S (length (failover_history t)) - FAILOVER_HISTORY_MAX) (failover_history t ++ [e]).
Proof.
  unfold record_failover. cbn [failover_history with_failover_history].
  rewrite pop_until_drop, length_app. cbn [length]. f_equal. lia.
Qed.

Lemma record_failover_length e t :
  (length (failover_history (record_failover e t)) ≤ FAILOVER_HISTORY_MAX)%nat.
Proof. rewrite record_failover_history, length_drop, length_app. cbn [length]. lia. Qed.

(** ** Conninfo strings *)

Lemma printable_app a b :
  printable_str (a ++ b) = printable_str a && printable_str b.
Proof. induction a as [|x a IH]; cbn; [done|]. by rewrite IH, andb_assoc. Qed.

Lemma host_port_printable cfg host port :
  printable_str (postgres_addr cfg) = true → postgres_host_port cfg = (host, port) →
  printable_str host = true ∧ printable_str port = true.
Proof.
  unfold postgres_host_port. intros Hp Hs.
  destruct (rsplit_once ":" (postgres_addr cfg)) as [[h p]|] eqn:E; cbn in Hs; simplify_eq; [|done].
  apply rsplit_once_Some in E as [E _]. rewrite E, printable_app in Hp.
  apply andb_true_iff in Hp as [? Hp]. cbn in Hp. by apply andb_true_iff in Hp as [_ ?].
Qed.

(** The words of a conninfo string built from printable parts. *)
Lemma conninfo_words cfg host port user password :
  postgres_host_port cfg = (host, port) →
  printable_str (postgres_addr cfg) = true → printable_str user = true →
  printable_str password = true →
  split_whitespace (conninfo cfg user password) =
  [("host=" ++ host)%string; ("port=" ++ port)%string;
   ("user=" ++ user)%string; ("password=" ++ password)%string].
Proof.
  intros Hhp Ha Hu Hw. destruct (host_port_printable _ _ _ Ha Hhp) as [Hh Hp].
  unfold conninfo. rewrite Hhp.
  transitivity (split_whitespace (("host=" ++ host) ++ String " " (("port=" ++ port) ++ String " "
     (("user=" ++ user) ++ String " " ("password=" ++ password))))).
  { done. }
  by rewrite !split_whitespace_cons, split_whitespace_last
    by (done || rewrite printable_app; done).
Qed.

(** Among addresses and credentials without white space, a conninfo built
    for one node is recognised as pointing at another exactly when the two
    have the same Postgres host and port; in particular a node recognises its
    own. *)
Theorem is_target_of_conninfo cfg cfg' user password :
  printable_str (postgres_addr cfg) = true → printable_str user = true →
  printable_str password = true →
  is_target_of cfg' (conninfo cfg user password) = true ↔
  postgres_host_port cfg' = postgres_host_port cfg.
Proof.
  intros Ha Hu Hw. destruct (postgres_host_port cfg) as [h p] eqn:E.
  unfold is_target_of, has_token. rewrite (conninfo_words _ _ _ _ _ E) by done.
  destruct (postgres_host_port cfg') as [h' p'].
  cbn [existsb]. rewrite !orb_false_r, !strip_prefix_app.
  rewrite andb_true_iff, !orb_true_iff, !bool_decide_eq_true. naive_solver.
Qed.

Lemma is_target_of_conninfo_witness :
  let cfg := mkNodeConfig "n1" "10.0.0.1:7000" "10.0.0.1:5432" 10 ∅ in
  let cfg' := mkNodeConfig "n2" "10.0.0.2:7000" "10.0.0.2:5432" 10 ∅ in
  is_target_of cfg' (conninfo cfg "repl" "secret") = true ↔
  postgres_host_port cfg' = postgres_host_port cfg.
Proof. intros cfg cfg'. apply (is_target_of_conninfo cfg cfg' "repl" "secret"); reflexivity. Defined.
