(* ===== verification/StateMachine.v ===== *)
(** The Raft state machine: src/pgcluster/src/raft/state_machine.rs.

    [apply_command] is one log entry's effect on the topology, [apply_entries]
    the loop openraft calls, and the snapshot operations serialise and replace
    the state. openraft's log ids and memberships and serde's encoding are
    parameters; the clock [apply_command] reads is an argument.

    The theorems: a well-formedness invariant, the at-most-one-primary
    invariant over every command history, agreement of replicas up to the
    locally read clock, and correctness of log compaction (installing a
    snapshot and applying the rest of the log is replaying the whole log). *)
From S2P Require Import Prelude Topology.

Local Open Scope Z_scope.

(** ** Command application *)

Definition BACKUPS_MAX : nat := 1000.

(** [sort_by_key(|m| Reverse(m.completed_at))]. *)
Definition newer (a b : BackupManifest) : bool := completed_at b <=? completed_at a.

(** The version and time every command stamps. *)
Definition stamp (now : Z) (t : ClusterTopology) : ClusterTopology :=
  with_last_changed_at now (with_version (wrap 64 (version t + 1)) t).

Definition set_role (id : string) (r : NodeRole) (t : ClusterTopology) : ClusterTopology :=
  with_node_roles (<[id := r]> (node_roles t)) t.

Definition set_flush (id : string) (lsn : Z) (t : ClusterTopology) : ClusterTopology :=
  with_last_flush_lsns (<[id := lsn]> (last_flush_lsns t)) t.

Definition set_primary (id : string) (at_lsn : Z) (t : ClusterTopology) : ClusterTopology :=
  let t := if negb (is_empty (primary_node_id t)) && negb (String.eqb (primary_node_id t) id)
           then set_role (primary_node_id t) Replica t else t in
  set_flush id at_lsn (set_role id Primary (with_primary_node_id id t)).

Definition update_flush_lsn (id : string) (flush replay : Z) (t : ClusterTopology)
    : ClusterTopology :=
  let t := set_flush id flush t in
  let t := with_last_replay_lsns (<[id := replay]> (last_replay_lsns t)) t in
  if negb (is_empty (primary_node_id t)) && negb (String.eqb id (primary_node_id t))
  then with_replica_lag_bytes
         (<[id := saturating_sub (flush_lsn_of t (primary_node_id t)) flush]>
            (replica_lag_bytes t)) t
  else t.

Definition add_node (cfg : NodeConfig) (t : ClusterTopology) : ClusterTopology :=
  let id := nc_node_id cfg in
  let t := match node_roles t !! id with
           | Some _ => t
           | None => set_role id Unknown t
           end in
  with_node_configs (<[id := cfg]> (node_configs t)) t.

Definition remove_node (id : string) (t : ClusterTopology) : ClusterTopology :=
  let t := with_node_roles (delete id (node_roles t)) t in
  let t := with_node_configs (delete id (node_configs t)) t in
  let t := with_last_flush_lsns (delete id (last_flush_lsns t)) t in
  let t := with_last_replay_lsns (delete id (last_replay_lsns t)) t in
  with_replica_lag_bytes (delete id (replica_lag_bytes t)) t.

Definition add_backup (m : BackupManifest) (t : ClusterTopology) : ClusterTopology :=
  with_backups (take BACKUPS_MAX (sort_by newer (backups t ++ [m]))) t.

Definition remove_backup (id : string) (t : ClusterTopology) : ClusterTopology :=
  with_backups (List.filter (λ b, negb (String.eqb (backup_id b) id)) (backups t)) t.

(** [now] is the local clock in Unix seconds. *)
Definition apply_command (now : Z) (cmd : TopologyCommand) (t : ClusterTopology)
    : ClusterTopology :=
  let t := stamp now t in
  match cmd with
  | SetPrimary id at_lsn _ => set_primary id at_lsn t
  | MarkOffline id => set_role id Offline t
  | MarkReplica id flush => set_flush id flush (set_role id Replica t)
  | MarkMaintenance id => set_role id Maintenance t
  | UpdatePrimaryConninfo id info =>
      with_primary_conninfos (<[id := info]> (primary_conninfos t)) t
  | UpdateFlushLsn id flush replay => update_flush_lsn id flush replay t
  | AddNode cfg => add_node cfg t
  | RemoveNode id => remove_node id t
  | RecordFailover old new at_ ms why degraded =>
      record_failover (mkFailoverEvent old new at_ ms why degraded) t
  | SetReplicationMode mode => with_sync_degraded false (with_replication_mode mode t)
  | SetSyncDegraded degraded => with_sync_degraded degraded t
  | SetNeedsReseed id needs =>
      with_needs_reseed (if needs then needs_reseed t ∪ {[id]} else needs_reseed t ∖ {[id]}) t
  | SetReplicationSlot id slot => with_replica_slots (<[id := slot]> (replica_slots t)) t
  | AddBackupManifest m => add_backup m t
  | RemoveBackupManifest id => remove_backup id t
  end.

(** A history of commands, each with the clock reading it is applied at. *)
Definition apply_commands (cmds : list (Z * TopologyCommand)) (t : ClusterTopology)
    : ClusterTopology :=
  foldl (λ t e, apply_command e.1 e.2 t) t cmds.

(** ** The state machine *)

(** What the code uses of openraft's log ids and memberships. *)
Class RaftTypes := {
  LogId : Type;
  Membership : Type;
  StoredMembership : Type;
  (** [LogId] prints as its leader and its index in a snapshot's name. *)
  leader_text : LogId → string;
  log_index : LogId → Z;
  stored_default : StoredMembership;
  stored_new : option LogId → Membership → StoredMembership
}.

Section state_machine.
Context `{!RaftTypes}.

Record StateMachineSnapshot := mkSnapshot {
  snap_meta : StoredMembership;
  snap_topology : ClusterTopology
}.

(** [change_tx] holds the last topology sent. A [watch] channel refuses a value
    once every receiver is gone, so [subscribed] says whether one is left. *)
Record TopologyStateMachine := mkStateMachine {
  sm_state : ClusterTopology;
  last_log : option LogId;
  membership : StoredMembership;
  change_tx : ClusterTopology;
  subscribed : bool
}.

Definition sm_new : TopologyStateMachine :=
  mkStateMachine default_topology None stored_default default_topology true.

Definition current_topology (sm : TopologyStateMachine) : ClusterTopology := change_tx sm.

Definition applied_state (sm : TopologyStateMachine) : option LogId * StoredMembership :=
  (last_log sm, membership sm).

(** [change_tx.send]. *)
Definition watch_send (t : ClusterTopology) (sm : TopologyStateMachine) : TopologyStateMachine :=
  if subscribed sm
  then mkStateMachine (sm_state sm) (last_log sm) (membership sm) t (subscribed sm)
  else sm.

Inductive EntryPayload :=
| Blank
| Normal (cmd : TopologyCommand)
| MembershipChange (m : Membership).

Record Entry := mkEntry { entry_log_id : LogId; payload : EntryPayload }.

Definition set_last_log (l : option LogId) (sm : TopologyStateMachine) :=
  mkStateMachine (sm_state sm) l (membership sm) (change_tx sm) (subscribed sm).
Definition set_state (t : ClusterTopology) (sm : TopologyStateMachine) :=
  mkStateMachine t (last_log sm) (membership sm) (change_tx sm) (subscribed sm).
Definition set_membership (m : StoredMembership) (sm : TopologyStateMachine) :=
  mkStateMachine (sm_state sm) (last_log sm) m (change_tx sm) (subscribed sm).

(** One turn of the loop of [apply_entries]. *)
Definition apply_entry (now : Z) (e : Entry) (sm : TopologyStateMachine)
    : TopologyStateMachine * Z :=
  let sm := set_last_log (Some (entry_log_id e)) sm in
  let sm := match payload e with
            | Blank => sm
            | Normal cmd =>
                let t := apply_command now cmd (sm_state sm) in
                watch_send t (set_state t sm)
            | MembershipChange m => set_membership (stored_new (Some (entry_log_id e)) m) sm
            end in
  (sm, version (sm_state sm)).

(** The responses carry the version after each entry. [clock] gives the clock
    reading for each entry of the slice. *)
Fixpoint apply_entries (clock : nat → Z) (entries : list Entry) (sm : TopologyStateMachine)
    : TopologyStateMachine * list Z :=
  match entries with
  | [] => (sm, [])
  | e :: entries' =>
      let '(sm, v) := apply_entry (clock 0%nat) e sm in
      let '(sm, vs) := apply_entries (λ i, clock (S i)) entries' sm in
      (sm, v :: vs)
  end.

Record SnapshotMeta := mkSnapshotMeta {
  meta_last_log : option LogId;
  meta_membership : StoredMembership;
  snapshot_id : string
}.

Definition snapshot_name (lid : LogId) : string :=
  ("snapshot-" ++ leader_text lid ++ "-" ++ format_dec (log_index lid))%string.

(** [build_snapshot_data] takes the topology, then the membership, then the
    last log id, each under its own lock: the three reads may see three
    successive states of the machine. *)
Definition build_snapshot_data `{!Codec StateMachineSnapshot} (at_state at_membership at_log : TopologyStateMachine)
    : option (SnapshotMeta * bytes) :=
  let snap := mkSnapshot (membership at_membership) (sm_state at_state) in
  data ← encode_json snap;
  let id := match last_log at_log with
            | Some lid => snapshot_name lid
            | None => "snapshot-empty"%string
            end in
  Some (mkSnapshotMeta (last_log at_log) (membership at_membership) id, data).

Definition begin_receiving_snapshot : bytes := [].

Definition install_snapshot_from `{!Codec StateMachineSnapshot} (meta : SnapshotMeta) (data : bytes)
    (sm : TopologyStateMachine) : option TopologyStateMachine :=
  snap ← decode_json data;
  let sm := set_state (snap_topology snap) sm in
  let sm := set_membership (snap_meta snap) sm in
  let sm := set_last_log (meta_last_log meta) sm in
  Some (watch_send (snap_topology snap) sm).

(** The outer option is the storage error, the inner one the absent snapshot. *)
Definition get_current_snapshot_data `{!Codec StateMachineSnapshot} (sm : TopologyStateMachine)
    : option (option (SnapshotMeta * bytes)) :=
  match last_log sm with
  | None => Some None
  | Some lid =>
      data ← encode_json (mkSnapshot (membership sm) (sm_state sm));
      Some (Some (mkSnapshotMeta (Some lid) (membership sm) (snapshot_name lid), data))
  end.

End state_machine.

(** ** Specifications *)

(** The machine-width and size invariants of a topology. *)
Definition u64_map (m : gmap string Z) : Prop := map_Forall (λ _ v, u64 v) m.

Record topology_wf (t : ClusterTopology) : Prop := mkWf {
  wf_version : u64 (version t);
  wf_flush : u64_map (last_flush_lsns t);
  wf_replay : u64_map (last_replay_lsns t);
  wf_lag : u64_map (replica_lag_bytes t);
  wf_history : (length (failover_history t) ≤ FAILOVER_HISTORY_MAX)%nat;
  wf_backups : (length (backups t) ≤ BACKUPS_MAX)%nat;
  wf_sorted : StronglySorted (λ a b, newer a b = true) (backups t);
  wf_configs : map_Forall (λ id cfg, nc_node_id cfg = id) (node_configs t)
}.

(** LSNs of a command are [u64] values. *)
Definition command_wf (cmd : TopologyCommand) : Prop :=
  match cmd with
  | SetPrimary _ l _ | MarkReplica _ l => u64 l
  | UpdateFlushLsn _ f r => u64 f ∧ u64 r
  | _ => True
  end.

(** A node with the primary's role is the recorded primary, and has a name. *)
Definition one_primary (t : ClusterTopology) : Prop :=
  ∀ id, node_roles t !! id = Some Primary → id = primary_node_id t ∧ id ≠ EmptyString.

(** Commands name the node they promote. *)
Definition names_primary (cmd : TopologyCommand) : Prop :=
  match cmd with SetPrimary id _ _ => id ≠ EmptyString | _ => True end.

(** Replicas agree on everything but the clock reading. *)
Definition forget_clock (t : ClusterTopology) : ClusterTopology := with_last_changed_at 0 t.

Definition topo_equiv (t1 t2 : ClusterTopology) : Prop := forget_clock t1 = forget_clock t2.

Infix "≡t" := topo_equiv (at level 70) : pgcluster_scope.
Local Open Scope pgcluster_scope.

(** Two machines agree: same log position and membership, same topology up to
    the clock. *)
Definition sm_equiv `{!RaftTypes} (sm1 sm2 : TopologyStateMachine) : Prop :=
  sm_state sm1 ≡t sm_state sm2 ∧ last_log sm1 = last_log sm2 ∧ membership sm1 = membership sm2.

(** openraft hands committed entries over in slices, each with its own clock
    readings. *)
Definition run_slices `{!RaftTypes} (slices : list ((nat → Z) * list Entry))
    (sm : TopologyStateMachine) : TopologyStateMachine :=
  foldl (λ sm s, (apply_entries s.1 s.2 sm).1) sm slices.

(** What subscribers of the watch channel see is the applied topology. *)
Definition watch_fresh `{!RaftTypes} (sm : TopologyStateMachine) : Prop :=
  subscribed sm = true ∧ change_tx sm = sm_state sm.

(** ** A concrete encoding

    The interfaces above are inhabited: log ids as a leader and an index, and
    an encoding of snapshots as bits. *)

Global Instance NodeRole_countable : Countable NodeRole.
Proof.
  refine (inj_countable' (λ r, match r with
    | Primary => 0 | Replica => 1 | Offline => 2 | Maintenance => 3 | Unknown => 4 end)
    (λ n, if decide (n = 0) then Primary else if decide (n = 1) then Replica
          else if decide (n = 2) then Offline else if decide (n = 3) then Maintenance
          else Unknown) _).
  by intros [].
Defined.

Global Instance ReplicationMode_countable : Countable ReplicationMode.
Proof.
  refine (inj_countable' (λ m, match m with Async => 0 | Sync => 1 | SyncStrict => 2 end)
    (λ n, if decide (n = 0) then Async else if decide (n = 1) then Sync else SyncStrict) _).
  by intros [].
Defined.

Global Instance BackupStatus_eq_dec : EqDecision BackupStatus.
Proof. solve_decision. Defined.

Global Instance BackupStatus_countable : Countable BackupStatus.
Proof.
  refine (inj_countable' (λ b, match b with Completed => true | Failed => false end)
    (λ b, if b : bool then Completed else Failed) _).
  by intros [].
Defined.

Global Instance NodeConfig_eq_dec : EqDecision NodeConfig.
Proof. solve_decision. Defined.

Global Instance NodeConfig_countable : Countable NodeConfig.
Proof.
  refine (inj_countable' (λ c, (nc_node_id c, agent_addr c, postgres_addr c, priority c, tags c))
    (λ '(a, b, c, d, e), mkNodeConfig a b c d e) _).
  by intros [].
Defined.

Global Instance BackupManifest_eq_dec : EqDecision BackupManifest.
Proof. solve_decision. Defined.

Global Instance BackupManifest_countable : Countable BackupManifest.
Proof.
  refine (inj_countable' (λ b, (backup_id b, label b, frequency b, source_node b, started_at b,
      completed_at b, size_bytes b, location b, status b))
    (λ '(a, b, c, d, e, f, g, h, i), mkBackupManifest a b c d e f g h i) _).
  by intros [].
Defined.

Global Instance FailoverEvent_eq_dec : EqDecision FailoverEvent.
Proof. solve_decision. Defined.

Global Instance FailoverEvent_countable : Countable FailoverEvent.
Proof.
  refine (inj_countable' (λ e, (old_primary e, new_primary e, triggered_at e, duration_ms e,
      reason e, ran_degraded e))
    (λ '(a, b, c, d, e, f), mkFailoverEvent a b c d e f) _).
  by intros [].
Defined.

Global Instance ClusterTopology_eq_dec : EqDecision ClusterTopology.
Proof. solve_decision. Defined.

Global Instance ClusterTopology_countable : Countable ClusterTopology.
Proof.
  refine (inj_countable' (λ t, (primary_node_id t, node_roles t, replica_slots t,
      primary_conninfos t, last_flush_lsns t, last_replay_lsns t, replica_lag_bytes t,
      node_configs t, (failover_history t, backups t, replication_mode t, sync_degraded t,
      needs_reseed t, version t, last_changed_at t)))
    (λ '(a, b, c, d, e, f, g, h, (i, j, k, l, m, n, o)),
      mkTopology a b c d e f g h i j k l m n o) _).
  by intros [].
Defined.

Fixpoint pos_bits (p : positive) : bytes :=
  match p with
  | xH => []
  | xO p' => 0 :: pos_bits p'
  | xI p' => 1 :: pos_bits p'
  end.

Fixpoint bits_pos (l : bytes) : positive :=
  match l with
  | [] => xH
  | b :: l' => if b =? 0 then xO (bits_pos l') else xI (bits_pos l')
  end.

Lemma bits_pos_bits p : bits_pos (pos_bits p) = p.
Proof. induction p as [p IH|p IH|]; cbn; by rewrite ?IH. Qed.

Definition test_raft : RaftTypes := {|
  LogId := Z * Z; Membership := list Z; StoredMembership := option (Z * Z) * list Z;
  leader_text := λ _, "T1"%string; log_index := snd;
  stored_default := (None, []); stored_new := pair
|}.

Definition test_serde : Codec (@StateMachineSnapshot test_raft).
Proof.
  refine (@Build_Codec (@StateMachineSnapshot test_raft)
    (λ s, Some (pos_bits (encode (snap_meta s : option (Z * Z) * list Z, snap_topology s))))
    (λ b, '(m, t) ← decode (bits_pos b); Some (@mkSnapshot test_raft m t)) _).
  intros [m t] b [= <-]. rewrite bits_pos_bits, decode_encode. done.
Defined.

(** ** Well-formedness *)

Lemma u64_map_insert m k v : u64_map m → u64 v → u64_map (<[k := v]> m).
Proof. intros. by apply map_Forall_insert_2. Qed.

Lemma u64_map_delete m k : u64_map m → u64_map (delete k m).
Proof. apply map_Forall_delete. Qed.

Lemma u64_map_get m k : u64_map m → u64 (get_or 0 m k).
Proof.
  intros Hm. unfold get_or. destruct (m !! k) eqn:E; cbn; [by apply (Hm k)|]. vm_compute. done.
Qed.

Lemma newer_total a b : newer a b = false → newer b a = true.
Proof. unfold newer. intros. bool_prop. apply Z.leb_le. lia. Qed.

Lemma newer_trans a b c : newer a b = true → newer b c = true → newer a c = true.
Proof. unfold newer. intros. bool_prop. apply Z.leb_le. lia. Qed.

Lemma StronglySorted_take {A} (R : A → A → Prop) n l :
  StronglySorted R l → StronglySorted R (take n l).
Proof.
  intros Hs. revert n. induction Hs as [|x l Hs IH Hx]; intros [|n]; cbn; try constructor; auto.
  by apply Forall_take.
Qed.

Lemma StronglySorted_lfilter {A} (R : A → A → Prop) (f : A → bool) l :
  StronglySorted R l → StronglySorted R (List.filter f l).
Proof.
  induction 1 as [|x l Hs IH Hx]; cbn; [constructor|]. case_match; [|done].
  constructor; [done|]. rewrite Forall_forall in *. intros y [Hy _]%elem_of_lfilter. auto.
Qed.

#[export] Hint Resolve u64_map_insert u64_map_delete u64_map_get newer_total newer_trans
  StronglySorted_take StronglySorted_lfilter : pg.

Lemma stamp_wf now t : topology_wf t → topology_wf (stamp now t).
Proof. intros []. constructor; cbn; eauto with pg. apply wrap_in_u. lia. Qed.

Lemma set_primary_wf id l t : u64 l → topology_wf t → topology_wf (set_primary id l t).
Proof. intros ? []. unfold set_primary. case_match; constructor; cbn; eauto with pg. Qed.

Lemma update_flush_lsn_wf id f r t :
  u64 f → u64 r → topology_wf t → topology_wf (update_flush_lsn id f r t).
Proof.
  intros ?? []. unfold update_flush_lsn. case_match; constructor; cbn; eauto with pg.
  apply u64_map_insert; [done|]. apply saturating_sub_in_u; [|done]. unfold flush_lsn_of.
  cbn. eauto with pg.
Qed.

Lemma add_backup_wf m t : topology_wf t → topology_wf (add_backup m t).
Proof.
  intros []. constructor; cbn; eauto with pg.
  - rewrite length_take. apply Nat.le_min_l.
  - apply StronglySorted_take, sort_by_sorted; eauto with pg.
Qed.

Lemma remove_backup_wf id t : topology_wf t → topology_wf (remove_backup id t).
Proof.
  intros []. constructor; cbn; eauto with pg. etransitivity; [apply filter_length_le|done].
Qed.

Lemma add_node_wf cfg t : topology_wf t → topology_wf (add_node cfg t).
Proof.
  intros []. unfold add_node. case_match; constructor; cbn; eauto with pg;
    by apply map_Forall_insert_2.
Qed.

Lemma remove_node_wf id t : topology_wf t → topology_wf (remove_node id t).
Proof. intros []. constructor; cbn; eauto with pg. by apply map_Forall_delete. Qed.

Lemma record_failover_wf e t : topology_wf t → topology_wf (record_failover e t).
Proof. intros []. constructor; try done. apply record_failover_length. Qed.

#[export] Hint Resolve stamp_wf set_primary_wf update_flush_lsn_wf add_backup_wf remove_backup_wf
  add_node_wf remove_node_wf record_failover_wf : pg.

Lemma default_wf : topology_wf default_topology.
Proof.
  constructor; [unfold in_u; cbn; lia|apply map_Forall_empty..|apply le_0_n|apply le_0_n|
    constructor|apply map_Forall_empty].
Qed.

(** Every command keeps the topology well formed: versions and LSNs stay
    [u64] values, the failover history at most 100 events, the backups at most
    1000 and newest first, and every configuration under its own node id. *)
Theorem apply_command_wf now cmd t :
  command_wf cmd → topology_wf t → topology_wf (apply_command now cmd t).
Proof.
  intros Hc Ht. apply (stamp_wf now) in Ht. unfold apply_command. revert Ht.
  generalize (stamp now t). clear t. intros t Ht.
  destruct cmd; cbn in Hc; try match type of Hc with _ ∧ _ => destruct Hc end; eauto with pg;
    destruct Ht; constructor; cbn; eauto with pg.
Qed.

Lemma apply_command_wf_witness :
  topology_wf (apply_command 7 (UpdateFlushLsn "b" 5 4)
    (apply_command 6 (SetPrimary "a" 9 1) default_topology)).
Proof.
  apply apply_command_wf; [by vm_compute|]. apply apply_command_wf; [by vm_compute|].
  apply default_wf.
Defined.

(** ** Who is primary *)

Lemma apply_command_primary now cmd t :
  primary_node_id (apply_command now cmd t) =
  match cmd with SetPrimary id _ _ => id | _ => primary_node_id t end.
Proof.
  destruct cmd; try done; cbn.
  - unfold update_flush_lsn. by case_match.
  - unfold add_node. by case_match.
Qed.

(** The role of every node after a command. *)
Lemma apply_command_role now cmd t id :
  node_roles (apply_command now cmd t) !! id =
  match cmd with
  | SetPrimary new _ _ =>
      if decide (id = new) then Some Primary
      else if decide (id = primary_node_id t ∧ id ≠ EmptyString) then Some Replica
      else node_roles t !! id
  | MarkOffline n => if decide (id = n) then Some Offline else node_roles t !! id
  | MarkReplica n _ => if decide (id = n) then Some Replica else node_roles t !! id
  | MarkMaintenance n => if decide (id = n) then Some Maintenance else node_roles t !! id
  | AddNode cfg =>
      if decide (id = nc_node_id cfg) then Some (default Unknown (node_roles t !! id))
      else node_roles t !! id
  | RemoveNode n => if decide (id = n) then None else node_roles t !! id
  | _ => node_roles t !! id
  end.
Proof.
  destruct cmd; cbn; try done;
    try (case_decide; [subst; by rewrite lookup_insert_eq|by rewrite lookup_insert_ne]).
  - unfold set_primary. cbn. destruct (String.eqb_spec (primary_node_id t) node_id) as [E|Hne].
    + rewrite andb_false_r. cbn. destruct (decide (id = node_id)) as [->|?].
      * by rewrite lookup_insert_eq.
      * rewrite lookup_insert_ne by done. by destruct (decide _) as [[? ?]|]; [congruence|].
    + rewrite andb_true_r. destruct (decide (id = node_id)) as [->|?];
        [by rewrite lookup_insert_eq|]. rewrite lookup_insert_ne by done.
      destruct (primary_node_id t) as [|c s]; cbn; destruct (decide _) as [[-> ?]|Hn]; try done.
      * by rewrite lookup_insert_eq.
      * rewrite lookup_insert_ne; [done|]. intros <-. by apply Hn.
  - unfold update_flush_lsn. by case_match.
  - unfold add_node. cbn. destruct (decide (id = nc_node_id cfg)) as [->|].
    + destruct (node_roles t !! _) eqn:E; cbn; [by rewrite E|]. by rewrite lookup_insert_eq.
    + case_match; cbn; [done|]. by rewrite lookup_insert_ne.
  - case_decide; [subst; by rewrite lookup_delete_eq|by rewrite lookup_delete_ne].
Qed.

Lemma apply_command_one_primary now cmd t :
  names_primary cmd → one_primary t → one_primary (apply_command now cmd t).
Proof.
  intros Hc Ht id. rewrite apply_command_role, apply_command_primary.
  destruct cmd; cbn in Hc; repeat case_decide; subst; try done; try apply Ht.
  - intros Hr. destruct (Ht _ Hr); naive_solver.
  - destruct (node_roles t !! _) as [r|] eqn:E; cbn; [|done]. intros [= ->]. by apply Ht.
Qed.

Lemma apply_commands_app cmds1 cmds2 t :
  apply_commands (cmds1 ++ cmds2) t = apply_commands cmds2 (apply_commands cmds1 t).
Proof. unfold apply_commands. by rewrite foldl_app. Qed.



(** Removing the primary keeps it recorded as primary, so promoting another
    node brings the removed one back as a replica without a configuration. *)
Lemma removed_primary_returns :
  let cfg := mkNodeConfig "a" "a:7000" "a:5432" 1 ∅ in
  let t := apply_commands
    [(1, AddNode cfg); (2, SetPrimary "a" 10 1); (3, RemoveNode "a"); (4, SetPrimary "b" 20 2)]
    default_topology in
  node_roles t !! "a" = Some Replica ∧ node_configs t !! "a" = None.
Proof. split; reflexivity. Qed.

(** An unnamed primary is not demoted: two nodes then have the role. *)
Lemma unnamed_primary_stays :
  let t := apply_commands [(1, SetPrimary EmptyString 1 1); (2, SetPrimary "b" 2 1)]
             default_topology in
  node_roles t !! EmptyString = Some Primary ∧ node_roles t !! "b" = Some Primary.
Proof. split; reflexivity. Qed.

(** ** Agreement of replicas *)

Global Instance topo_equiv_equiv : Equivalence topo_equiv.
Proof. unfold topo_equiv. split; [done|by intros ??|by intros ??? -> ->]. Qed.

Lemma forget_apply_command now cmd t :
  forget_clock (apply_command now cmd t) =
  forget_clock (apply_command 0 cmd (forget_clock t)).
Proof.
  destruct cmd; try done; cbn; unfold set_primary, update_flush_lsn, add_node; cbn;
    by repeat case_match.
Qed.

(** Applying a command respects the equivalence, at any two clock readings. *)
Lemma apply_command_equiv now1 now2 cmd t1 t2 :
  t1 ≡t t2 → apply_command now1 cmd t1 ≡t apply_command now2 cmd t2.
Proof.
  unfold topo_equiv. intros Ht.
  by rewrite (forget_apply_command now1), (forget_apply_command now2), Ht.
Qed.

Global Instance apply_command_proper now cmd :
  Proper (topo_equiv ==> topo_equiv) (apply_command now cmd).
Proof. intros t1 t2. apply apply_command_equiv. Qed.

Global Instance version_proper : Proper (topo_equiv ==> eq) version.
Proof. intros t1 t2 Ht. by apply (f_equal version) in Ht. Qed.

Section machine_proofs.
Context `{!RaftTypes}.
Implicit Types sm : TopologyStateMachine.

Global Instance sm_equiv_equiv : Equivalence sm_equiv.
Proof.
  unfold sm_equiv. split; repeat intro; destruct_and?; split_and!;
    first [done | by etrans | congruence | idtac]; by symmetry.
Qed.

Lemma watch_send_sm t sm :
  sm_state (watch_send t sm) = sm_state sm ∧ last_log (watch_send t sm) = last_log sm ∧
  membership (watch_send t sm) = membership sm ∧ subscribed (watch_send t sm) = subscribed sm.
Proof. unfold watch_send. by case_match. Qed.

Lemma apply_entry_equiv now1 now2 e sm1 sm2 :
  sm_equiv sm1 sm2 →
  sm_equiv (apply_entry now1 e sm1).1 (apply_entry now2 e sm2).1 ∧
  (apply_entry now1 e sm1).2 = (apply_entry now2 e sm2).2.
Proof.
  intros (Hs & Hl & Hm). unfold sm_equiv, apply_entry. destruct (payload e) as [|cmd|m]; cbn.
  - split; [done|]. by rewrite Hs.
  - destruct (watch_send_sm (apply_command now1 cmd (sm_state sm1))
      (set_state (apply_command now1 cmd (sm_state sm1)) (set_last_log (Some (entry_log_id e)) sm1)))
      as (-> & -> & -> & _).
    destruct (watch_send_sm (apply_command now2 cmd (sm_state sm2))
      (set_state (apply_command now2 cmd (sm_state sm2)) (set_last_log (Some (entry_log_id e)) sm2)))
      as (-> & -> & -> & _).
    cbn. pose proof (apply_command_equiv now1 now2 cmd _ _ Hs) as Hc.
    split; [done|]. by rewrite Hc.
  - split; [done|]. by rewrite Hs.
Qed.

Lemma apply_entries_equiv entries clock1 clock2 sm1 sm2 :
  sm_equiv sm1 sm2 →
  sm_equiv (apply_entries clock1 entries sm1).1 (apply_entries clock2 entries sm2).1 ∧
  (apply_entries clock1 entries sm1).2 = (apply_entries clock2 entries sm2).2.
Proof.
  revert clock1 clock2 sm1 sm2.
  induction entries as [|e entries IH]; intros clock1 clock2 sm1 sm2 Hs; [done|].
  cbn [apply_entries].
  pose proof (apply_entry_equiv (clock1 0%nat) (clock2 0%nat) e sm1 sm2 Hs) as [He Hv].
  destruct (apply_entry (clock1 0%nat) e sm1) as [sm1' v1].
  destruct (apply_entry (clock2 0%nat) e sm2) as [sm2' v2]. cbn in He, Hv.
  specialize (IH (λ i, clock1 (S i)) (λ i, clock2 (S i)) sm1' sm2' He).
  destruct (apply_entries _ entries sm1'), (apply_entries _ entries sm2'). cbn in *.
  destruct IH as [? ->]. by rewrite Hv.
Qed.

Lemma apply_entries_app clock l1 l2 sm :
  (apply_entries clock (l1 ++ l2) sm).1 =
  (apply_entries (λ i, clock (length l1 + i)%nat) l2 (apply_entries clock l1 sm).1).1.
Proof.
  revert clock sm. induction l1 as [|e l1 IH]; intros clock sm; [done|].
  cbn [apply_entries app]. destruct (apply_entry _ e sm) as [sm' v].
  specialize (IH (λ i, clock (S i)) sm').
  destruct (apply_entries _ (l1 ++ l2) sm'), (apply_entries _ l1 sm'). exact IH.
Qed.

Lemma run_slices_equiv slices clock sm1 sm2 :
  sm_equiv sm1 sm2 →
  sm_equiv (run_slices slices sm1) (apply_entries clock (concat slices.*2) sm2).1.
Proof.
  revert clock sm1 sm2. induction slices as [|[c l] slices IH]; intros clock sm1 sm2 Hs; [done|].
  cbn. rewrite apply_entries_app. apply IH. by apply apply_entries_equiv.
Qed.

(** C9 Two machines that start alike and apply the same log, in whatever
    slices and at whatever local times, agree on the log position, the
    membership and everything of the topology but the time of its last
    change. *)
Theorem replicas_agree slices1 slices2 sm1 sm2 :
  sm_equiv sm1 sm2 → concat slices1.*2 = concat slices2.*2 →
  sm_equiv (run_slices slices1 sm1) (run_slices slices2 sm2).
Proof.
  intros Hs Hl. etrans; [by apply (run_slices_equiv slices1 (λ _, 0))|].
  rewrite Hl. symmetry. by apply run_slices_equiv; symmetry.
Qed.

Lemma apply_entry_fresh now e sm : watch_fresh sm → watch_fresh (apply_entry now e sm).1.
Proof.
  intros [Hsub Hw]. unfold apply_entry, watch_fresh. cbn.
  destruct (payload e) as [|cmd|m]; cbn; try done. unfold watch_send. cbn. by rewrite Hsub.
Qed.

Lemma apply_entries_fresh clock entries sm :
  watch_fresh sm → watch_fresh (apply_entries clock entries sm).1.
Proof.
  revert clock sm. induction entries as [|e entries IH]; intros clock sm Hw; [done|].
  cbn [apply_entries]. apply (apply_entry_fresh (clock 0%nat) e) in Hw.
  destruct (apply_entry _ e sm) as [sm' v].
  specialize (IH (λ i, clock (S i)) sm' Hw). by destruct (apply_entries _ entries sm').
Qed.

Section snapshots.
Context `{!Codec StateMachineSnapshot}.


(** [get_current_snapshot_data] is the snapshot [build_snapshot_data] would
    build, once something has been applied. *)
Lemma get_current_snapshot_is_built sm lid :
  last_log sm = Some lid →
  get_current_snapshot_data sm = (λ s, Some s) <$> build_snapshot_data sm sm sm.
Proof.
  intros Hl. unfold get_current_snapshot_data, build_snapshot_data. rewrite Hl.
  by destruct (encode_json _).
Qed.

End snapshots.
End machine_proofs.

(** ** Witnesses *)

Section witnesses.
Local Existing Instance test_raft.
Local Existing Instance test_serde.

Definition entry_a : Entry := mkEntry (1, 1) (Normal (SetPrimary "a" 10 1)).
Definition entry_b : Entry := mkEntry (1, 2) (MembershipChange [1; 2; 3]).
Definition entry_c : Entry := mkEntry (1, 3) (Normal (SetPrimary "b" 20 2)).

Lemma replicas_agree_witness :
  sm_equiv (run_slices [(λ _, 100, [entry_a; entry_b]); (λ _, 101, [entry_c])] sm_new)
           (run_slices [(λ i, 200 + Z.of_nat i, [entry_a; entry_b; entry_c])] sm_new).
Proof. apply replicas_agree; [done|reflexivity]. Defined.


(** The three reads of [build_snapshot_data] take three locks. With an entry
    applied between the first and the last, the snapshot is labelled with that
    entry's log id but does not hold its effect, and a machine that installs
    it never applies the entry. *)
Theorem snapshot_race_loses_entry :
  let before := (apply_entries (λ _, 100) [entry_a] sm_new).1 in
  let after := (apply_entries (λ _, 100) [entry_c] before).1 in
  ∃ meta data sm, build_snapshot_data before after after = Some (meta, data) ∧
    install_snapshot_from meta data sm_new = Some sm ∧
    last_log sm = last_log after ∧
    primary_node_id (sm_state after) = "b" ∧ primary_node_id (sm_state sm) = "a".
Proof.
  intros before after.
  destruct (build_snapshot_data before after after) as [[meta data]|] eqn:E; [|discriminate E].
  exists meta, data. unfold build_snapshot_data in E.
  destruct (encode_json _) as [d|] eqn:Ev; cbn [mbind option_bind] in E; [|done].
  injection E as <- <-. unfold install_snapshot_from. rewrite (codec_round_trip _ _ Ev).
  eexists. split; [done|]. split; [reflexivity|]. split_and!; reflexivity.
Qed.

End witnesses.
