(* ===== verification/LogStore.v ===== *)
(** The Raft log store: src/pgcluster/src/raft/storage.rs.

    [SledLogStorage] keeps the log in a sled tree under 8-byte big-endian keys
    and the vote and purge marker in another. sled is a parameter: the
    [Sled] class states what its documentation promises of a tree (an ordered
    map from byte strings to byte strings, scanned in key order), and the
    serialisers are [Codec]s. An operation that returns [None] failed with a
    storage error; openraft stops the node then, so the trees it leaves are
    not described.

    The theorems refine the store to a finite map from log indexes to entries:
    range scans return the entries of the range in index order, append,
    truncate and purge change exactly the indexes they name, and what is saved
    is read back. A restart that replays an unpurged log recovers the state
    machine; a truncation interrupted between its removals leaves a log with a
    hole. *)
From S2P Require Import Prelude Topology StateMachine.

Local Open Scope Z_scope.

(** ** sled *)

Definition key_le (a b : bytes * bytes) : bool := bytes_leb a.1 b.1.

Class Sled := {
  Tree : Type;
  contents : Tree → gmap bytes bytes;
  tree_get : bytes → Tree → option (option bytes);
  tree_insert : bytes → bytes → Tree → option Tree;
  tree_remove : bytes → Tree → option Tree;
  tree_apply_batch : list (bytes * bytes) → Tree → option Tree;
  tree_flush : Tree → option Tree;
  (** The items of a range; [None] in the list is an item that failed. *)
  tree_range : bound bytes → bound bytes → Tree → list (option (bytes * bytes));
  tree_last : Tree → option (option (bytes * bytes));
  tree_get_ok : ∀ k t r, tree_get k t = Some r → r = contents t !! k;
  tree_insert_ok : ∀ k v t t', tree_insert k v t = Some t' → contents t' = <[k := v]> (contents t);
  tree_remove_ok : ∀ k t t', tree_remove k t = Some t' → contents t' = delete k (contents t);
  tree_apply_batch_ok : ∀ b t t', tree_apply_batch b t = Some t' →
    contents t' = foldl (λ m e, <[e.1 := e.2]> m) (contents t) b;
  tree_flush_ok : ∀ t t', tree_flush t = Some t' → contents t' = contents t;
  tree_range_ok : ∀ lo hi t l, mapM id (tree_range lo hi t) = Some l →
    l = sort_by key_le
          (List.filter (λ e, in_range bytes_leb lo hi e.1) (map_to_list (contents t)));
  tree_last_ok : ∀ t r, tree_last t = Some r →
    r = last (sort_by key_le (map_to_list (contents t)))
}.

(** ** SledLogStorage *)

Definition VOTE_KEY : bytes := [118; 111; 116; 101].
Definition PURGED_KEY : bytes := [112; 117; 114; 103; 101; 100].

Section log_store.
Context `{!RaftTypes, !Sled}.
Context {Vote : Type}.
Context `{!Codec Entry, !Codec LogId, !Codec Vote}.

Record SledLogStorage := mkStorage { logs_tree : Tree; meta_tree : Tree }.

Definition idx_key (index : Z) : bytes := be_bytes 8 index.

#[local] Arguments idx_key : simpl never.

Definition to_key_bound (b : bound Z) : bound bytes := bound_map idx_key b.

Definition entry_index (e : Entry) : Z := log_index (entry_log_id e).

(** Decode the items in turn, stopping at the first failure. *)
Definition get_entries_range (lo hi : bound Z) (s : SledLogStorage) : option (list Entry) :=
  items ← mapM id (tree_range (to_key_bound lo) (to_key_bound hi) (logs_tree s));
  mapM (λ e, decode_json e.2) items.

(** [Option::map(..).transpose()]. *)
Definition transpose_map {A B} (f : A → option B) (o : option A) : option (option B) :=
  match o with None => Some None | Some a => Some <$> f a end.

Record LogState := mkLogState { last_purged_log_id : option LogId; last_log_id : option LogId }.

Definition get_log_state (s : SledLogStorage) : option LogState :=
  raw ← tree_get PURGED_KEY (meta_tree s);
  purged ← transpose_map decode_json raw;
  raw ← tree_last (logs_tree s);
  last ← transpose_map (λ e : bytes * bytes, decode_json e.2) raw;
  Some (mkLogState purged (entry_log_id <$> last)).

Definition save_vote (v : Vote) (s : SledLogStorage) : option SledLogStorage :=
  data ← encode_json v;
  meta ← tree_insert VOTE_KEY data (meta_tree s);
  meta ← tree_flush meta;
  Some (mkStorage (logs_tree s) meta).

Definition read_vote (s : SledLogStorage) : option (option Vote) :=
  raw ← tree_get VOTE_KEY (meta_tree s);
  transpose_map decode_json raw.

(** The batch of [append_entries]: nothing is written if an entry fails to
    encode. *)
Definition entry_batch (entries : list Entry) : option (list (bytes * bytes)) :=
  mapM (λ e, v ← encode_json e; Some (idx_key (entry_index e), v)) entries.

Definition append_entries (entries : list Entry) (s : SledLogStorage) : option SledLogStorage :=
  batch ← entry_batch entries;
  logs ← tree_apply_batch batch (logs_tree s);
  logs ← tree_flush logs;
  Some (mkStorage logs (meta_tree s)).

(** The keys a scan yields; items that failed are skipped. *)
Definition scan_keys (lo hi : bound bytes) (t : Tree) : list bytes :=
  omap (fmap fst) (tree_range lo hi t).

Fixpoint remove_keys (keys : list bytes) (t : Tree) : option Tree :=
  match keys with
  | [] => Some t
  | k :: keys' => t' ← tree_remove k t; remove_keys keys' t'
  end.

Definition truncate_since (lid : LogId) (s : SledLogStorage) : option SledLogStorage :=
  let keys := scan_keys (Included (idx_key (log_index lid))) Unbounded (logs_tree s) in
  logs ← remove_keys keys (logs_tree s);
  logs ← tree_flush logs;
  Some (mkStorage logs (meta_tree s)).

Definition purge_upto (lid : LogId) (s : SledLogStorage) : option SledLogStorage :=
  let keys := scan_keys Unbounded (Included (idx_key (log_index lid))) (logs_tree s) in
  logs ← remove_keys keys (logs_tree s);
  data ← encode_json lid;
  meta ← tree_insert PURGED_KEY data (meta_tree s);
  logs ← tree_flush logs;
  meta ← tree_flush meta;
  Some (mkStorage logs meta).

(** ** PgClusterStorage: the log and the state machine together *)

Record PgClusterStorage := mkPgStorage { pg_log : SledLogStorage; pg_sm : TopologyStateMachine }.

Definition on_log (f : SledLogStorage → option SledLogStorage) (p : PgClusterStorage)
    : option PgClusterStorage :=
  log ← f (pg_log p); Some (mkPgStorage log (pg_sm p)).

Definition try_get_log_entries (lo hi : bound Z) (p : PgClusterStorage) : option (list Entry) :=
  get_entries_range lo hi (pg_log p).

Definition append_to_log (entries : list Entry) : PgClusterStorage → option PgClusterStorage :=
  on_log (append_entries entries).

Definition delete_conflict_logs_since (lid : LogId)
    : PgClusterStorage → option PgClusterStorage :=
  on_log (truncate_since lid).

Definition purge_logs_upto (lid : LogId) : PgClusterStorage → option PgClusterStorage :=
  on_log (purge_upto lid).

Definition apply_to_state_machine (clock : nat → Z) (entries : list Entry) (p : PgClusterStorage)
    : PgClusterStorage * list Z :=
  let '(sm, vs) := apply_entries clock entries (pg_sm p) in (mkPgStorage (pg_log p) sm, vs).

(** A restart opens the same trees and starts from a new state machine. *)
Definition restart (p : PgClusterStorage) : PgClusterStorage := mkPgStorage (pg_log p) sm_new.

(** ** Specifications *)

(** The log as a finite map from indexes to entries. *)
Abbreviation log_map := (gmap Z Entry).

Record log_repr (c : gmap bytes bytes) (m : log_map) : Prop := mkRepr {
  repr_u64 : ∀ i e, m !! i = Some e → u64 i;
  repr_enc : ∀ i e, m !! i = Some e → is_Some (encode_json e);
  repr_contents : ∀ k b, c !! k = Some b ↔
    ∃ i e, m !! i = Some e ∧ k = idx_key i ∧ encode_json e = Some b
}.

Definition index_le (a b : Z * Entry) : bool := a.1 <=? b.1.

(** The entries of an index range, in index order. *)
Definition range_entries (lo hi : bound Z) (m : log_map) : list Entry :=
  (sort_by index_le (List.filter (λ e, in_range Z.leb lo hi e.1) (map_to_list m))).*2.

Definition insert_entries (entries : list Entry) (m : log_map) : log_map :=
  foldl (λ m e, <[entry_index e := e]> m) m entries.

(** A scan that read every item. *)
Definition scanned (lo hi : bound bytes) (t : Tree) : Prop :=
  is_Some (mapM id (tree_range lo hi t)).

(** ** Keys *)

Lemma idx_key_leb i j : u64 i → u64 j → bytes_leb (idx_key i) (idx_key j) = (i <=? j).
Proof.
  intros Hi Hj. unfold idx_key. rewrite bytes_leb_value;
    [|apply be_bytes_byte..|by rewrite !be_bytes_length].
  by rewrite !be_value_be_bytes.
Qed.

Lemma idx_key_inj i j : u64 i → u64 j → idx_key i = idx_key j → i = j.
Proof.
  intros Hi Hj E. assert (be_value (idx_key i) = be_value (idx_key j)) as Hv by congruence.
  unfold idx_key in Hv. by rewrite !be_value_be_bytes in Hv.
Qed.

Lemma in_range_key lo hi i :
  bound_u64 lo → bound_u64 hi → u64 i →
  in_range bytes_leb (to_key_bound lo) (to_key_bound hi) (idx_key i) = in_range Z.leb lo hi i.
Proof. intros Hlo Hhi Hi. unfold in_range. destruct lo, hi; cbn [to_key_bound bound_map] in *;
    by rewrite ?idx_key_leb by done. Qed.

(** ** Range scans *)

Lemma key_le_total a b : key_le a b = false → key_le b a = true.
Proof. apply bytes_leb_total. Qed.

Lemma key_le_trans a b c : key_le a b = true → key_le b c = true → key_le a c = true.
Proof. apply bytes_leb_trans. Qed.

Lemma index_le_total a b : index_le a b = false → index_le b a = true.
Proof. unfold index_le. intros. bool_prop. apply Z.leb_le. lia. Qed.

Lemma index_le_trans a b c : index_le a b = true → index_le b c = true → index_le a c = true.
Proof. unfold index_le. intros. bool_prop. apply Z.leb_le. lia. Qed.

(** How an entry of the map is stored. *)
Definition stored (e : Z * Entry) : bytes * bytes :=
  (idx_key e.1, default [] (encode_json e.2)).

Definition in_range_items (lo hi : bound Z) (m : log_map) : list (Z * Entry) :=
  List.filter (λ e, in_range Z.leb lo hi e.1) (map_to_list m).

Lemma elem_of_stored c m lo hi k b :
  log_repr c m → bound_u64 lo → bound_u64 hi →
  (k, b) ∈ stored <$> in_range_items lo hi m ↔
  c !! k = Some b ∧ in_range bytes_leb (to_key_bound lo) (to_key_bound hi) k = true.
Proof.
  intros Hr Hlo Hhi. rewrite list_elem_of_fmap, (repr_contents c m Hr). split.
  - intros ([i e] & E & [Hin%elem_of_map_to_list Hf]%elem_of_lfilter). unfold stored in E.
    cbn [fst snd] in *. destruct (repr_enc c m Hr _ _ Hin) as [b' Hb]. rewrite Hb in E.
    apply pair_equal_spec in E as [-> ->].
    split; [by exists i, e|]. rewrite in_range_key; eauto using repr_u64.
  - intros [(i & e & Hin & -> & Hb) Hf]. exists (i, e). unfold stored. cbn [fst snd]. rewrite Hb.
    split; [done|]. apply elem_of_lfilter. split; [by apply elem_of_map_to_list|].
    rewrite in_range_key in Hf; eauto using repr_u64.
Qed.

Lemma stored_NoDup c m lo hi : log_repr c m → NoDup (stored <$> in_range_items lo hi m).
Proof.
  intros Hr. apply NoDup_fmap_2_strong.
  - intros [i e] [i' e'] [Hi%elem_of_map_to_list _]%elem_of_lfilter
      [Hi'%elem_of_map_to_list _]%elem_of_lfilter E.
    apply (f_equal fst) in E. cbn [stored fst] in E.
    apply idx_key_inj in E; eauto using repr_u64. subst. congruence.
  - apply NoDup_ListNoDup, List.NoDup_filter, NoDup_ListNoDup, NoDup_map_to_list.
Qed.

Lemma stored_perm c m lo hi :
  log_repr c m → bound_u64 lo → bound_u64 hi →
  List.filter (λ e, in_range bytes_leb (to_key_bound lo) (to_key_bound hi) e.1)
    (map_to_list c) ≡ₚ stored <$> in_range_items lo hi m.
Proof.
  intros Hr Hlo Hhi. apply NoDup_Permutation.
  - apply NoDup_ListNoDup, List.NoDup_filter, NoDup_ListNoDup, NoDup_map_to_list.
  - by eapply stored_NoDup.
  - intros [k b]. rewrite elem_of_lfilter, elem_of_map_to_list. cbn.
    symmetry. by eapply elem_of_stored.
Qed.

(** Sorted by key, the stored entries are in index order. *)
Lemma sorted_items c m lo hi :
  log_repr c m → bound_u64 lo → bound_u64 hi →
  sort_by key_le
    (List.filter (λ e, in_range bytes_leb (to_key_bound lo) (to_key_bound hi) e.1) (map_to_list c))
  = stored <$> sort_by index_le (in_range_items lo hi m).
Proof.
  intros Hr Hlo Hhi. pose proof (stored_perm c m lo hi Hr Hlo Hhi) as Hp.
  eapply (StronglySorted_unique_strong (λ a b, key_le a b = true)).
  - intros [k b] [k' b'] H1 H2 Hle Hle'.
    assert (k = k') as <- by (by apply bytes_leb_antisym). f_equal.
    rewrite elem_of_sort_by, Hp in H1. apply (elem_of_stored c) in H1 as [H1 _]; try done.
    rewrite sort_by_perm in H2. apply (elem_of_stored c) in H2 as [H2 _]; congruence.
  - apply sort_by_sorted; [apply key_le_total|apply key_le_trans].
  - eapply StronglySorted_fmap_in.
    { apply sort_by_sorted; [apply index_le_total|apply index_le_trans]. }
    intros [i e] [j e'] Hi Hj. rewrite elem_of_sort_by in Hi, Hj.
    apply elem_of_lfilter in Hi as [Hi%elem_of_map_to_list _].
    apply elem_of_lfilter in Hj as [Hj%elem_of_map_to_list _].
    unfold index_le, key_le, stored. cbn [fst snd].
    rewrite idx_key_leb; eauto using repr_u64.
  - by rewrite sort_by_perm, Hp, sort_by_perm.
Qed.

Lemma range_items t m lo hi items :
  log_repr (contents t) m → bound_u64 lo → bound_u64 hi →
  mapM id (tree_range (to_key_bound lo) (to_key_bound hi) t) = Some items →
  items = stored <$> sort_by index_le (in_range_items lo hi m).
Proof. intros Hr Hlo Hhi ->%tree_range_ok. by apply sorted_items. Qed.

Lemma mapM_decode (l : list (Z * Entry)) :
  (∀ i e, (i, e) ∈ l → is_Some (encode_json e)) →
  mapM (λ e : bytes * bytes, decode_json e.2) (stored <$> l) = Some (l.*2).
Proof.
  induction l as [|[i e] l IH]; intros Hl; [done|].
  destruct (Hl i e ltac:(by left)) as [b Hb]. cbn. rewrite Hb. cbn.
  rewrite (codec_round_trip _ _ Hb). cbn. rewrite IH; [done|]. intros. eapply Hl. by right.
Qed.

(** The items of a scan decode to the entries of the range. *)
Lemma range_decoded t m lo hi items :
  log_repr (contents t) m → bound_u64 lo → bound_u64 hi →
  mapM id (tree_range (to_key_bound lo) (to_key_bound hi) t) = Some items →
  mapM (λ e : bytes * bytes, decode_json e.2) items = Some (range_entries lo hi m).
Proof.
  intros Hr Hlo Hhi Hs. apply (range_items _ m) in Hs as ->; try done. apply mapM_decode.
  intros i e. rewrite elem_of_sort_by. intros [Hi%elem_of_map_to_list _]%elem_of_lfilter.
  eauto using repr_enc.
Qed.

(** A range read returns exactly the entries whose index is in the range,
    in index order, whenever sled yields every item of the scan. *)
Theorem get_entries_range_spec s m lo hi :
  log_repr (contents (logs_tree s)) m → bound_u64 lo → bound_u64 hi →
  scanned (to_key_bound lo) (to_key_bound hi) (logs_tree s) →
  get_entries_range lo hi s = Some (range_entries lo hi m).
Proof.
  intros Hr Hlo Hhi [items Hs]. unfold get_entries_range. rewrite Hs. cbn [mbind option_bind].
  by eapply range_decoded.
Qed.

(** ** Appending *)

Lemma repr_insert c m e b :
  log_repr c m → u64 (entry_index e) → encode_json e = Some b →
  log_repr (<[idx_key (entry_index e) := b]> c) (<[entry_index e := e]> m).
Proof.
  intros Hr Hi Hb. split.
  - intros i e'. rewrite lookup_insert_Some. intros [[<- _]|[_ ?]]; eauto using repr_u64.
  - intros i e'. rewrite lookup_insert_Some. intros [[_ <-]|[_ ?]]; eauto using repr_enc.
  - intros k b'. rewrite lookup_insert_Some, (repr_contents c m Hr). split.
    + intros [[<- <-]|[Hne (i & e' & Hl & -> & ?)]].
      * exists (entry_index e), e. by rewrite lookup_insert_eq.
      * exists i, e'. rewrite lookup_insert_ne; [done|congruence].
    + intros (i & e' & [[<- <-]|[Hne Hl]]%lookup_insert_Some & -> & Hb').
      * left. split; congruence.
      * right. split; [|eauto]. intros E. apply idx_key_inj in E; eauto using repr_u64.
Qed.

Lemma repr_batch entries batch c m :
  log_repr c m → Forall (λ e, u64 (entry_index e)) entries →
  entry_batch entries = Some batch →
  log_repr (foldl (λ m e, <[e.1 := e.2]> m) c batch) (insert_entries entries m).
Proof.
  intros Hr Hu. revert c m batch Hr. induction Hu as [|e entries He Hu IH];
    intros c m batch Hr Hb; cbn in Hb; [by injection Hb as <-|].
  destruct (encode_json e) as [v|] eqn:Ev; [|done]. cbn in Hb.
  destruct (mapM _ entries) as [batch'|] eqn:Eb; [|done]. injection Hb as <-. cbn.
  apply (IH _ _ batch'); [|done]. by apply repr_insert.
Qed.

(** An append that succeeds stores each entry under its index, replacing
    what was there, and changes nothing else of the log, the vote or the purge
    marker. *)
Theorem append_entries_spec s s' m entries :
  log_repr (contents (logs_tree s)) m → Forall (λ e, u64 (entry_index e)) entries →
  append_entries entries s = Some s' →
  log_repr (contents (logs_tree s')) (insert_entries entries m) ∧ meta_tree s' = meta_tree s.
Proof.
  intros Hr Hu. unfold append_entries.
  destruct (entry_batch entries) as [batch|] eqn:Eb; [|done]. cbn [mbind option_bind].
  destruct (tree_apply_batch batch _) as [t1|] eqn:E1; [|done]. cbn [mbind option_bind].
  destruct (tree_flush t1) as [t2|] eqn:E2; [|done]. cbn. intros [= <-]. split; [|done]. cbn.
  apply tree_apply_batch_ok in E1. apply tree_flush_ok in E2. rewrite E2, E1.
  by apply repr_batch.
Qed.

(** ** Removing *)

Lemma remove_keys_contents keys t t' :
  remove_keys keys t = Some t' →
  ∀ k, contents t' !! k = if decide (k ∈ keys) then None else contents t !! k.
Proof.
  revert t. induction keys as [|k0 keys IH]; intros t; cbn.
  - intros [= <-] k. rewrite decide_False; [done|]. apply not_elem_of_nil.
  - destruct (tree_remove k0 t) as [t1|] eqn:E; [|done]. cbn. intros Ht k.
    rewrite (IH _ Ht). apply tree_remove_ok in E. rewrite E.
    destruct (decide (k ∈ keys)) as [Hin|Hn]; [by rewrite decide_True by by right|].
    destruct (decide (k = k0)) as [->|Hne].
    + rewrite lookup_delete_eq, decide_True; [done|by left].
    + rewrite lookup_delete_ne, decide_False; [done| |done].
      by intros [?|?]%elem_of_cons.
Qed.

Lemma mapM_id_omap {A B} (f : A → B) (l : list (option A)) l' :
  mapM id l = Some l' → omap (fmap f) l = f <$> l'.
Proof.
  revert l'. induction l as [|o l IH]; intros l' Hl; [by injection Hl as <-|].
  cbn in Hl. destruct o as [a|]; [|done]. cbn in Hl.
  destruct (mapM id l) as [l1|]; [|done]. injection Hl as <-. cbn. by rewrite (IH l1).
Qed.

(** What is left of the log when the keys of a range are removed. *)
Lemma remove_range t t' m lo hi :
  log_repr (contents t) m → bound_u64 lo → bound_u64 hi →
  scanned (to_key_bound lo) (to_key_bound hi) t →
  remove_keys (scan_keys (to_key_bound lo) (to_key_bound hi) t) t = Some t' →
  log_repr (contents t') (filter (λ e, in_range Z.leb lo hi e.1 = false) m).
Proof.
  intros Hr Hlo Hhi [items Hs] Ht. pose proof (remove_keys_contents _ _ _ Ht) as Hc.
  unfold scan_keys in Hc. rewrite (mapM_id_omap fst _ _ Hs) in Hc.
  apply (range_items _ m) in Hs as ->; try done.
  assert (∀ k, k ∈ (stored <$> sort_by index_le (in_range_items lo hi m)).*1 ↔
    is_Some (contents t !! k) ∧
    in_range bytes_leb (to_key_bound lo) (to_key_bound hi) k = true) as Hk.
  { intros k. rewrite sort_by_perm. setoid_rewrite list_elem_of_fmap. split.
    - intros ([k' b] & -> & [Hl Hf]%(elem_of_stored (contents t) m)); eauto.
    - intros [[b Hb] Hf]. exists (k, b). split; [done|]. by apply (elem_of_stored (contents t) m). }
  split.
  - intros i e [Hi _]%map_lookup_filter_Some. eauto using repr_u64.
  - intros i e [Hi _]%map_lookup_filter_Some. eauto using repr_enc.
  - intros k b. rewrite Hc. setoid_rewrite map_lookup_filter_Some. split.
    + case_decide as Hd; [done|]. intros Hb. rewrite Hk in Hd.
      assert (contents t !! k = Some b) as (i & e & Hi & -> & He)%(repr_contents _ m Hr) by done.
      exists i, e. split_and!; try done. cbn.
      rewrite <-in_range_key by eauto using repr_u64.
      destruct (in_range bytes_leb _ _ _); [exfalso; eauto|done].
    + intros (i & e & [Hi Hf] & -> & He). cbn in Hf. rewrite decide_False.
      * apply (repr_contents _ m Hr). eauto.
      * rewrite Hk. rewrite in_range_key by eauto using repr_u64. intros [_ ?]. congruence.
Qed.

Lemma repr_filter_ext c m (P Q : Z * Entry → Prop) `{∀ e, Decision (P e), ∀ e, Decision (Q e)} :
  (∀ i e, P (i, e) ↔ Q (i, e)) → log_repr c (filter P m) → log_repr c (filter Q m).
Proof. intros HPQ. by assert (filter P m = filter Q m) as -> by (apply map_filter_ext; auto). Qed.

(** A truncation that succeeds keeps exactly the entries below the given
    index, provided the scan read every item, and leaves the vote and the
    purge marker alone. *)
Theorem truncate_since_spec s s' m lid :
  log_repr (contents (logs_tree s)) m → u64 (log_index lid) →
  scanned (Included (idx_key (log_index lid))) Unbounded (logs_tree s) →
  truncate_since lid s = Some s' →
  log_repr (contents (logs_tree s')) (filter (λ e, e.1 < log_index lid) m) ∧
  meta_tree s' = meta_tree s.
Proof.
  intros Hr Hu Hs. unfold truncate_since.
  destruct (remove_keys _ _) as [t1|] eqn:E1; [|done]. cbn [mbind option_bind].
  destruct (tree_flush t1) as [t2|] eqn:E2; [|done]. cbn. intros [= <-]. split; [|done]. cbn.
  apply tree_flush_ok in E2. rewrite E2.
  apply (remove_range _ _ m (Included (log_index lid)) Unbounded) in E1; try done.
  eapply repr_filter_ext; [|done]. intros i e. unfold in_range. cbn.
  by rewrite andb_true_r, Z.leb_gt.
Qed.

(** A purge that succeeds keeps exactly the entries above the given index
    and records the log id it purged up to. *)
Theorem purge_upto_spec s s' m lid :
  log_repr (contents (logs_tree s)) m → u64 (log_index lid) →
  scanned Unbounded (Included (idx_key (log_index lid))) (logs_tree s) →
  purge_upto lid s = Some s' →
  log_repr (contents (logs_tree s')) (filter (λ e, log_index lid < e.1) m) ∧
  ∀ st, get_log_state s' = Some st → last_purged_log_id st = Some lid.
Proof.
  intros Hr Hu Hs. unfold purge_upto.
  destruct (remove_keys _ _) as [t1|] eqn:E1; [|done]. cbn [mbind option_bind].
  destruct (encode_json lid) as [data|] eqn:Ed; [|done]. cbn [mbind option_bind].
  destruct (tree_insert _ _ _) as [m1|] eqn:Em; [|done]. cbn [mbind option_bind].
  destruct (tree_flush t1) as [t2|] eqn:E2; [|done]. cbn [mbind option_bind].
  destruct (tree_flush m1) as [m2|] eqn:E3; [|done]. cbn. intros [= <-]. split; cbn.
  - apply tree_flush_ok in E2. rewrite E2.
    apply (remove_range _ _ m Unbounded (Included (log_index lid))) in E1; try done.
    eapply repr_filter_ext; [|done]. intros i e. unfold in_range. cbn.
    by rewrite Z.leb_gt.
  - intros st. unfold get_log_state. cbn.
    destruct (tree_get _ _) as [raw|] eqn:Eg; [|done]. cbn [mbind option_bind].
    apply tree_get_ok in Eg. apply tree_flush_ok in E3. apply tree_insert_ok in Em.
    rewrite E3, Em, lookup_insert_eq in Eg. subst raw. cbn.
    rewrite (codec_round_trip _ _ Ed). cbn.
    destruct (tree_last _) as [raw|]; [|done]. cbn.
    destruct (transpose_map _ _) as [last|]; [|done]. cbn. by intros [= <-].
Qed.

(** The last entry of a sorted list is at the largest index. *)
Lemma last_sorted (l : list (Z * Entry)) i e :
  last (sort_by index_le l) = Some (i, e) → (i, e) ∈ l ∧ ∀ j e', (j, e') ∈ l → j ≤ i.
Proof.
  intros Hl. apply last_Some in Hl as [l' Hl]. split.
  - rewrite <-(elem_of_sort_by index_le), Hl. set_solver.
  - intros j e' Hj. rewrite <-(elem_of_sort_by index_le), Hl in Hj.
    pose proof (sort_by_sorted index_le index_le_total index_le_trans l) as Hs.
    rewrite Hl in Hs. apply elem_of_app in Hj as [Hj|Hj].
    + pose proof (StronglySorted_app_1_elem_of _ _ _ _ (i, e) Hs Hj) as Hle.
      apply Z.leb_le, Hle. by apply list_elem_of_singleton.
    + apply list_elem_of_singleton in Hj. by simplify_eq.
Qed.

Lemma lfilter_all {A} (f : A → bool) l : (∀ x, f x = true) → List.filter f l = l.
Proof. intros Hf. induction l as [|x l IH]; cbn; [done|]. by rewrite Hf, IH. Qed.

Lemma sorted_all c m :
  log_repr c m →
  sort_by key_le (map_to_list c) = stored <$> sort_by index_le (map_to_list m).
Proof.
  intros Hr. pose proof (sorted_items c m Unbounded Unbounded Hr I I) as E.
  unfold in_range_items in E. by rewrite !lfilter_all in E by done.
Qed.

(** The log state reports the entry with the largest index as the last,
    and none exactly when the log is empty. *)
Theorem get_log_state_last s m st :
  log_repr (contents (logs_tree s)) m → get_log_state s = Some st →
  match last_log_id st with
  | Some lid => ∃ i e, m !! i = Some e ∧ entry_log_id e = lid ∧
      ∀ j, is_Some (m !! j) → j ≤ i
  | None => m = ∅
  end.
Proof.
  intros Hr. unfold get_log_state.
  destruct (tree_get _ _) as [raw|]; [|done]. cbn [mbind option_bind].
  destruct (transpose_map _ raw) as [purged|]; [|done]. cbn [mbind option_bind].
  destruct (tree_last _) as [raw'|] eqn:El; [|done]. cbn [mbind option_bind].
  apply tree_last_ok in El. rewrite (sorted_all _ m) in El by done.
  rewrite fmap_last in El. subst raw'.
  destruct (last (sort_by index_le (map_to_list m))) as [[i e]|] eqn:E.
  - apply last_sorted in E as [Hi%elem_of_map_to_list Hmax]. cbn.
    destruct (repr_enc _ m Hr _ _ Hi) as [b Hb]. rewrite Hb. cbn.
    rewrite (codec_round_trip _ _ Hb). cbn. intros [= <-]. cbn.
    exists i, e. split_and!; try done. intros j [e' Hj].
    eapply Hmax. by apply elem_of_map_to_list.
  - cbn. intros [= <-]. cbn. apply last_None in E.
    pose proof (sort_by_perm index_le (map_to_list m)) as Hp. rewrite E in Hp.
    by apply map_to_list_empty_iff, Permutation_nil.
Qed.

(** A vote that was saved is the vote read back, and saving it leaves the
    log alone. *)
Theorem vote_round_trip s s' v r :
  save_vote v s = Some s' → read_vote s' = Some r → r = Some v ∧ logs_tree s' = logs_tree s.
Proof.
  unfold save_vote, read_vote. destruct (encode_json v) as [d|] eqn:Ed; [|done].
  cbn [mbind option_bind]. destruct (tree_insert _ _ _) as [m1|] eqn:E1; [|done].
  cbn [mbind option_bind]. destruct (tree_flush m1) as [m2|] eqn:E2; [|done].
  cbn. intros [= <-]. cbn. destruct (tree_get _ _) as [raw|] eqn:Eg; [|done]. cbn.
  apply tree_get_ok in Eg. apply tree_flush_ok in E2. apply tree_insert_ok in E1.
  rewrite E2, E1, lookup_insert_eq in Eg. subst raw. cbn.
  rewrite (codec_round_trip _ _ Ed). cbn. by intros [= <-].
Qed.


End log_store.

(** ** A concrete store *)

(** A tree that is its contents and never fails. *)
Definition test_sled : Sled.
Proof.
  refine {| Tree := gmap bytes bytes; contents := id;
    tree_get := λ k t, Some (t !! k);
    tree_insert := λ k v t, Some (<[k := v]> t);
    tree_remove := λ k t, Some (delete k t);
    tree_apply_batch := λ b t, Some (foldl (λ m e, <[e.1 := e.2]> m) t b);
    tree_flush := Some;
    tree_range := λ lo hi t, Some <$> sort_by key_le
      (List.filter (λ e, in_range bytes_leb lo hi e.1) (map_to_list t));
    tree_last := λ t, Some (last (sort_by key_le (map_to_list t))) |}; try naive_solver.
  intros lo hi t l. rewrite mapM_fmap_Some; [by intros [= <-]|done].
Defined.

(** Entries of a membership change are encoded as their log id and members. *)
Definition test_entry_codec : Codec (@Entry test_raft).
Proof.
  refine (@Build_Codec (@Entry test_raft)
    (λ e, match payload e with
          | MembershipChange m => Some ((entry_log_id e).1 :: (entry_log_id e).2 :: m)
          | _ => None
          end)
    (λ b, match b with
          | l :: i :: m => Some (@mkEntry test_raft (l, i) (@MembershipChange test_raft m))
          | _ => None
          end) _).
  intros [[l i] [|cmd|m]] b [= <-]. done.
Defined.

Definition test_log_id_codec : Codec (@LogId test_raft).
Proof.
  refine (@Build_Codec (@LogId test_raft) (λ l, Some [l.1; l.2])
    (λ b, match b with [l; i] => Some (l, i) | _ => None end) _).
  intros [l i] b [= <-]. done.
Defined.

Definition test_vote_codec : Codec Z.
Proof. refine (@Build_Codec Z (λ v, Some [v]) head _). intros v b [= <-]. done. Defined.

Section log_witnesses.
Local Existing Instance test_raft.
Local Existing Instance test_sled.
Local Existing Instance test_entry_codec.
Local Existing Instance test_log_id_codec.
Local Existing Instance test_vote_codec.
Local Existing Instance test_serde.

Definition test_entry (i : Z) : Entry := mkEntry (1, i) (MembershipChange [i; 7]).
Definition empty_store : SledLogStorage := mkStorage (∅ : gmap bytes bytes) (∅ : gmap bytes bytes).

Lemma empty_repr : log_repr (contents (logs_tree empty_store)) ∅.
Proof. split; [done..|]. intros k b. cbn. split; [done|]. by intros (? & ? & ? & _). Qed.

(** Three entries stored in the concrete tree. *)
Definition three_store : SledLogStorage :=
  default empty_store (append_entries (test_entry <$> [1; 2; 300]) empty_store).
Definition three_map : gmap Z Entry := insert_entries (test_entry <$> [1; 2; 300]) ∅.

Lemma three_repr : log_repr (contents (logs_tree three_store)) three_map.
Proof.
  apply (repr_batch (test_entry <$> [1; 2; 300])
    [(idx_key 1, [1; 1; 1; 7]); (idx_key 2, [1; 2; 2; 7]); (idx_key 300, [1; 300; 300; 7])]);
    [apply empty_repr| |reflexivity].
  repeat constructor; cbn; lia.
Qed.

Lemma get_entries_range_spec_witness :
  get_entries_range (Excluded 1) Unbounded three_store =
  Some (range_entries (Excluded 1) Unbounded three_map).
Proof.
  apply get_entries_range_spec; [apply three_repr|by vm_compute|done|].
  eexists. vm_compute. reflexivity.
Defined.

Lemma append_entries_spec_witness :
  log_repr (contents (logs_tree three_store)) three_map ∧ meta_tree three_store = meta_tree empty_store.
Proof.
  apply (append_entries_spec empty_store three_store ∅ (test_entry <$> [1; 2; 300]));
    [apply empty_repr|repeat constructor; cbn; lia|reflexivity].
Defined.

Lemma truncate_since_spec_witness :
  ∃ s', truncate_since (1, 2) three_store = Some s' ∧
  log_repr (contents (logs_tree s')) (filter (λ e, e.1 < 2) three_map).
Proof.
  eexists. split; [reflexivity|].
  eapply (truncate_since_spec three_store _ three_map (1, 2));
    [apply three_repr|by vm_compute|eexists; vm_compute; reflexivity|reflexivity].
Defined.

Lemma purge_upto_spec_witness :
  ∃ s', purge_upto (1, 2) three_store = Some s' ∧
  log_repr (contents (logs_tree s')) (filter (λ e, 2 < e.1) three_map).
Proof.
  eexists. split; [reflexivity|].
  eapply (purge_upto_spec three_store _ three_map (1, 2));
    [apply three_repr|by vm_compute|eexists; vm_compute; reflexivity|reflexivity].
Defined.


Definition purged_store : SledLogStorage := default empty_store (purge_upto (1, 2) three_store).
Definition torn_tree : Tree :=
  default ∅ (remove_keys (take 1 (scan_keys (Included (idx_key 1)) Unbounded (logs_tree three_store)))
    (logs_tree three_store)).

(** After a purge the state machine's memory is the only copy of the purged
    entries' effects: a restarted node reads a log that no longer holds them,
    and finds no snapshot on disk. *)
Lemma restart_after_purge_loses_entries :
  is_Some (purge_upto (1, 2) three_store) ∧
  try_get_log_entries Unbounded Unbounded (restart (mkPgStorage purged_store sm_new)) =
    Some [test_entry 300] ∧
  last_log (pg_sm (restart (mkPgStorage purged_store sm_new))) = None.
Proof.
  split; [by eexists|]. split; [|reflexivity].
  vm_compute. reflexivity.
Qed.

(** [truncate_since] removes keys one at a time, lowest first: stopped after
    its first removal it leaves a log with a hole. *)
Lemma truncate_interrupted_leaves_hole :
  get_entries_range Unbounded Unbounded (mkStorage torn_tree (∅ : gmap bytes bytes)) =
    Some [test_entry 2; test_entry 300].
Proof. vm_compute. reflexivity. Qed.

End log_witnesses.
