(* ===== verification/Lease.v ===== *)
(** The quorum lease (src/pgcluster/src/raft/lease.rs) and Raft membership
    changes (src/pgcluster/src/raft/membership.rs).

    Instants and durations are nanoseconds. A lease is its origin, the
    [AtomicU64] holding the last renewal, and its duration; a renewal round is
    one turn of the loop of [spawn_renewal], with the voters, the channels and
    the answers of the probes as arguments. The theorems: a held lease was
    renewed by a round that began less than the lease duration ago, and two
    rounds that renew over the same voters reached a common voter. *)
From S2P Require Import Prelude.

Local Open Scope Z_scope.

(** ** QuorumLease *)

Record QuorumLease := mkLease { origin : Z; renewed : Z; duration : Z }.

(** [Duration::as_millis() as u64]. *)
Definition as_millis (d : Z) : Z := wrap 64 (d / 1000000).

(** [Instant::duration_since], which is zero for an earlier instant. *)
Definition duration_since (a b : Z) : Z := saturating_sub a b.

Definition lease_new (now d : Z) : QuorumLease := mkLease now 0 d.

(** The [fetch_max] of [renew]. *)
Definition renew (at_ : Z) (l : QuorumLease) : QuorumLease :=
  let r := wrap 64 (as_millis (duration_since at_ (origin l)) + 1) in
  mkLease (origin l) (Z.max (renewed l) r) (duration l).

Definition is_held (now : Z) (l : QuorumLease) : bool :=
  if renewed l =? 0 then false
  else saturating_sub (wrap 64 (as_millis (duration_since now (origin l)) + 1)) (renewed l)
       <? as_millis (duration l).

Definition is_majority (reached voters : nat) : bool := (voters / 2 <? reached)%nat.

(** ** Renewal *)

Section renewal.
Context {Channel Identity : Type}.
(** [Arc::ptr_eq] of two TLS identities, and the channel constructor. *)
Context (ptr_eq : Identity → Identity → bool).
Context (lazy_channel : string → option Identity → option Channel).

Definition same_identity (a b : option Identity) : bool :=
  match a, b with
  | Some a, Some b => ptr_eq a b
  | None, None => true
  | _, _ => false
  end.

Record RenewalState := mkRenewal {
  lease : QuorumLease;
  channels : gmap Z Channel;
  current_identity : option Identity
}.

(** The channel to one voter: cached, or made and cached. *)
Definition voter_channel (node_addr : Z → option string) (identity : option Identity)
    (id : Z) (chans : gmap Z Channel) : option (Z * Channel) * gmap Z Channel :=
  match node_addr id with
  | None => (None, chans)
  | Some addr =>
      match chans !! id with
      | Some ch => (Some (id, ch), chans)
      | None =>
          match lazy_channel addr identity with
          | None => (None, chans)
          | Some ch => (Some (id, ch), <[id := ch]> chans)
          end
      end
  end.

Fixpoint voter_probes (node_addr : Z → option string) (identity : option Identity)
    (ids : list Z) (chans : gmap Z Channel) : list (Z * Channel) * gmap Z Channel :=
  match ids with
  | [] => ([], chans)
  | id :: ids' =>
      let '(p, chans) := voter_channel node_addr identity id chans in
      let '(ps, chans) := voter_probes node_addr identity ids' chans in
      (match p with Some p => p :: ps | None => ps end, chans)
  end.

(** One turn of the loop. [answers] says which probes succeed in this round,
    and [started] is the clock before they are sent. *)
Definition renewal_round (started me : Z) (voters : list Z) (node_addr : Z → option string)
    (identity : option Identity) (answers : Z → Channel → bool) (st : RenewalState)
    : RenewalState :=
  if bool_decide (me ∈ voters) then
    let '(chans, cur) :=
      if same_identity (current_identity st) identity
      then (channels st, current_identity st) else (∅, identity) in
    let '(probes, chans) :=
      voter_probes node_addr identity (List.filter (λ id, negb (id =? me)) voters) chans in
    let reached := S (length (List.filter (λ p, answers p.1 p.2) probes)) in
    mkRenewal (if is_majority reached (length voters) then renew started (lease st) else lease st)
      chans cur
  else st.

End renewal.

(** ** Membership *)

Record Member := mkMember { m_id : Z; m_addr : string; voter : bool }.

Inductive MembershipError :=
| NotFound (id : Z)
| Conflict (why : string)
| NotLeader (leader : string)
| FailedWith (why : string).

(** What [from_write] distinguishes of an openraft write error. *)
Inductive WriteError :=
| ForwardToLeader (leader_addr : option string)
| ChangeInProgress
| OtherError (text : string).

Definition from_write (e : WriteError) : MembershipError :=
  match e with
  | ForwardToLeader a => NotLeader (default "unknown"%string a)
  | ChangeInProgress => Conflict "a membership change is already in progress"
  | OtherError s => FailedWith s
  end.

(** The membership openraft's metrics report. *)
Record RaftMembership := mkMembership { nodes : gmap Z string; voter_ids : gset Z }.

Inductive ChangeMembers := AddVoterIds (ids : gset Z) | RemoveVoters (ids : gset Z) | RemoveNodes (ids : gset Z).

(** The two openraft calls the module makes, with what openraft documents of
    them when they succeed ([retain] is false). *)
Class RaftWrites := {
  raft_add_learner : Z → string → RaftMembership → result WriteError RaftMembership;
  change_membership : ChangeMembers → RaftMembership → result WriteError RaftMembership;
  add_learner_ok : ∀ id addr r r', raft_add_learner id addr r = Ok r' →
    nodes r' = <[id := addr]> (nodes r) ∧ voter_ids r' = voter_ids r;
  change_ok : ∀ c r r', change_membership c r = Ok r' →
    match c with
    | AddVoterIds ids => nodes r' = nodes r ∧ voter_ids r' = voter_ids r ∪ ids
    | RemoveVoters ids => voter_ids r' = voter_ids r ∖ ids ∧ ∀ id, id ∉ ids → nodes r' !! id = nodes r !! id
    | RemoveNodes ids => voter_ids r' = voter_ids r ∧ ∀ id, id ∉ ids → nodes r' !! id = nodes r !! id
    end
}.

Section membership.
Context `{!RaftWrites}.

Definition member_le (a b : Member) : bool := m_id a <=? m_id b.

Definition members_of (r : RaftMembership) : list Member :=
  sort_by member_le
    ((λ e : Z * string, mkMember e.1 e.2 (bool_decide (e.1 ∈ voter_ids r))) <$> map_to_list (nodes r)).

Definition map_err {E F A} (f : E → F) (r : result E A) : result F A :=
  match r with Ok a => Ok a | Err e => Err (f e) end.

Definition change (c : ChangeMembers) (r : RaftMembership) : result MembershipError RaftMembership :=
  map_err from_write (change_membership c r).

Definition find_member (id : Z) (r : RaftMembership) : result MembershipError Member :=
  ok_or (NotFound id) (List.find (λ m, m_id m =? id) (members_of r)).

Definition add_learner (id : Z) (addr : string) (r : RaftMembership)
    : result MembershipError RaftMembership :=
  if existsb (λ m, m_id m =? id) (members_of r)
  then Err (Conflict ("member " ++ format_dec id ++ " already exists"))
  else map_err from_write (raft_add_learner id addr r).

Definition promote (id : Z) (r : RaftMembership) : result MembershipError RaftMembership :=
  member ← find_member id r;
  if voter member then Err (Conflict ("member " ++ format_dec id ++ " is already a voter"))
  else change (AddVoterIds {[id]}) r.

Definition remove (id : Z) (r : RaftMembership) : result MembershipError RaftMembership :=
  member ← find_member id r;
  if negb (voter member) then change (RemoveNodes {[id]}) r
  else if (length (List.filter voter (members_of r)) =? 1)%nat
  then Err (Conflict "cannot remove the last voter")
  else change (RemoveVoters {[id]}) r.

End membership.

(** ** The lease is not held too long *)

(** The renewal stamp of a clock value within range of the counter. *)
Lemma stamp_value o t :
  o ≤ t → t - o < 2 ^ 64 * 1000000 - 1000000 →
  wrap 64 (as_millis (duration_since t o) + 1) = (t - o) / 1000000 + 1.
Proof.
  intros Hot Hb. unfold duration_since, saturating_sub, as_millis. rewrite Z.max_r by lia.
  pose proof (Z.div_pos (t - o) 1000000 ltac:(lia) ltac:(lia)).
  assert ((t - o) / 1000000 < 2 ^ 64 - 1) by (apply Z.div_lt_upper_bound; lia).
  rewrite (wrap_id 64 ((t - o) / 1000000)), wrap_id by (unfold in_u; lia). done.
Qed.

Lemma renew_stamp a o r d :
  o ≤ a → a - o < 2 ^ 64 * 1000000 - 1000000 →
  flip renew (mkLease o r d) a = mkLease o (Z.max r ((a - o) / 1000000 + 1)) d.
Proof. intros. unfold flip, renew. cbn [origin renewed duration]. by rewrite stamp_value. Qed.

Lemma renewals_stamp ats o d :
  Forall (λ a, o ≤ a ∧ a - o < 2 ^ 64 * 1000000 - 1000000) ats →
  ∀ r0, ∃ r, foldl (flip renew) (mkLease o r0 d) ats = mkLease o r d ∧
  (r = r0 ∨ ∃ a, a ∈ ats ∧ r = (a - o) / 1000000 + 1).
Proof.
  induction 1 as [|a ats [Ha Hb] Hats IH]; intros r0; cbn [foldl]; [eauto|].
  rewrite renew_stamp by lia.
  destruct (IH (Z.max r0 ((a - o) / 1000000 + 1))) as (r & -> & Hr). exists r. split; [done|].
  destruct Hr as [->|(a' & Hin & ->)]; [|right; exists a'; split; [by right|done]].
  destruct (Z.max_spec r0 ((a - o) / 1000000 + 1)) as [[_ ->]|[_ ->]]; [|by left].
  right. exists a. split; [by left|done].
Qed.

(** A lease that is held at [now] was renewed from a round that started
    less than the lease's duration before [now]; truncating to milliseconds
    never extends it. *)
Lemma lease_not_held_past_duration o d ats now :
  0 ≤ d < 2 ^ 64 →
  Forall (λ a, o ≤ a ∧ a ≤ now) ats →
  now - o < 2 ^ 64 * 1000000 - 1000000 →
  o ≤ now →
  is_held now (foldl (flip renew) (lease_new o d) ats) = true →
  ∃ a, a ∈ ats ∧ now - a < d.
Proof.
  intros Hd Hats Hnow Ho Hh.
  destruct (renewals_stamp ats o d) with (r0 := 0) as (r & E & Hr).
  { eapply Forall_impl; [done|]. cbn. lia. }
  unfold lease_new in Hh. rewrite E in Hh. unfold is_held in Hh.
  cbn [origin renewed duration] in Hh. rewrite stamp_value in Hh by lia.
  destruct Hr as [->|(a & Hin & ->)]; [done|].
  exists a. split; [done|]. apply (proj1 (Forall_forall _ _)) with (x := a) in Hats; [|done].
  destruct (_ =? 0); [done|]. apply Z.ltb_lt in Hh. unfold saturating_sub, as_millis in Hh.
  rewrite wrap_id in Hh by (unfold in_u; split; [apply Z.div_pos|apply Z.div_lt_upper_bound]; lia).
  pose proof (Z.div_mod (now - o) 1000000 ltac:(lia)).
  pose proof (Z.div_mod (a - o) 1000000 ltac:(lia)).
  pose proof (Z.div_mod d 1000000 ltac:(lia)).
  pose proof (Z.mod_pos_bound (now - o) 1000000 ltac:(lia)).
  pose proof (Z.mod_pos_bound (a - o) 1000000 ltac:(lia)).
  pose proof (Z.mod_pos_bound d 1000000 ltac:(lia)). lia.
Qed.

(** ** Renewals need a majority *)

Section renewal_proofs.
Context {Channel Identity : Type}.
Context (ptr_eq : Identity → Identity → bool).
Context (lazy_channel : string → option Identity → option Channel).

Lemma voter_probes_sublist node_addr identity ids chans :
  (voter_probes lazy_channel node_addr identity ids chans).1.*1 `sublist_of` ids.
Proof.
  revert chans. induction ids as [|id ids IH]; intros chans; cbn [voter_probes]; [done|].
  unfold voter_channel. destruct (node_addr id); cbn.
  2: { specialize (IH chans). destruct (voter_probes _ _ _ ids chans). by apply sublist_cons. }
  destruct (chans !! id) as [ch|]; cbn.
  { specialize (IH chans). destruct (voter_probes _ _ _ ids chans). by apply sublist_skip. }
  destruct (lazy_channel _ identity) as [ch|]; cbn.
  - specialize (IH (<[id:=ch]> chans)). destruct (voter_probes _ _ _ ids _). by apply sublist_skip.
  - specialize (IH chans). destruct (voter_probes _ _ _ ids chans). by apply sublist_cons.
Qed.

Lemma lfilter_fst_sublist {A B} (f : A * B → bool) l : (List.filter f l).*1 `sublist_of` l.*1.
Proof.
  induction l as [|x l IH]; cbn; [done|]. case_match; cbn; [by apply sublist_skip|by apply sublist_cons].
Qed.

Lemma lfilter_sublist {A} (f : A → bool) (l : list A) : List.filter f l `sublist_of` l.
Proof.
  induction l as [|x l IH]; cbn; [done|]. case_match; [by apply sublist_skip|by apply sublist_cons].
Qed.

(** A round that changes the lease reached a majority of distinct voters,
    itself among them. *)
Lemma renewal_needs_majority started me voters node_addr identity answers st :
  NoDup voters →
  lease (renewal_round ptr_eq lazy_channel started me voters node_addr identity answers st)
    ≠ lease st →
  ∃ s : gset Z, s ⊆ list_to_set voters ∧ (length voters < 2 * size s)%nat ∧
    ∀ v, v ∈ s → v = me ∨ ∃ ch, answers v ch = true.
Proof.
  intros Hnd. unfold renewal_round. case_bool_decide as Hme; [|done].
  destruct (if same_identity _ _ _ then _ else _) as [chans cur].
  set (others := List.filter _ voters).
  pose proof (voter_probes_sublist node_addr identity others chans) as Hsub.
  destruct (voter_probes _ _ _ others chans) as [probes chans']. cbn [fst] in Hsub. cbn [lease].
  set (yes := List.filter (λ p, answers p.1 p.2) probes).
  assert (yes.*1 `sublist_of` others) as Hyes.
  { etrans; [apply lfilter_fst_sublist|done]. }
  destruct (is_majority (S (length yes)) (length voters)) eqn:Hmaj; [|done]. intros _.
  assert (NoDup (me :: yes.*1)) as Hnd'.
  { constructor.
    - intros Hin. apply (elem_of_sublist _ others) in Hin as Hin'; [|done].
      apply elem_of_lfilter in Hin' as [_ Hne]. by rewrite Z.eqb_refl in Hne.
    - eapply sublist_NoDup; [|done]. eapply sublist_NoDup; [apply Hnd|apply lfilter_sublist]. }
  exists (list_to_set (me :: yes.*1)). split_and!.
  - intros v. rewrite !elem_of_list_to_set. intros [->|Hin]%elem_of_cons; [done|].
    eapply elem_of_sublist in Hin; [|done]. by apply elem_of_lfilter in Hin as [? _].
  - rewrite size_list_to_set by done. cbn [length]. rewrite length_fmap.
    unfold is_majority in Hmaj. apply Nat.ltb_lt in Hmaj.
    pose proof (Nat.div_mod_eq (length voters) 2).
    pose proof (Nat.mod_upper_bound (length voters) 2 ltac:(lia)). lia.
  - intros v. rewrite elem_of_list_to_set. intros [->|Hin]%elem_of_cons; [by left|].
    apply list_elem_of_fmap in Hin as ([v' ch] & -> & [_ Hans]%elem_of_lfilter). eauto.
Qed.

Lemma majorities_meet (voters : list Z) (s1 s2 : gset Z) :
  s1 ⊆ list_to_set voters → s2 ⊆ list_to_set voters →
  (length voters < 2 * size s1)%nat → (length voters < 2 * size s2)%nat → ∃ v, v ∈ s1 ∧ v ∈ s2.
Proof.
  intros H1 H2 Hs1 Hs2. destruct (decide (s1 ∩ s2 = ∅)) as [Hd|Hne].
  - assert (size (s1 ∪ s2) ≤ size (list_to_set voters : gset Z))%nat as Hle
      by (apply subseteq_size; set_solver).
    rewrite size_union in Hle by set_solver.
    pose proof (size_list_le voters). lia.
  - apply set_choose_L in Hne as [v Hv]. exists v. set_solver.
Qed.

(** C11 When two instances each renew their lease over the same voters, some
    voter is, for each of them, itself or one that answered: no two groups of
    instances that cannot reach each other both keep their lease. *)
Theorem renewing_rounds_meet voters addr1 addr2 id1 id2 t1 t2 me1 me2 ans1 ans2 st1 st2 :
  NoDup voters →
  lease (renewal_round ptr_eq lazy_channel t1 me1 voters addr1 id1 ans1 st1) ≠ lease st1 →
  lease (renewal_round ptr_eq lazy_channel t2 me2 voters addr2 id2 ans2 st2) ≠ lease st2 →
  ∃ v, v ∈ voters ∧ (v = me1 ∨ ∃ ch, ans1 v ch = true) ∧ (v = me2 ∨ ∃ ch, ans2 v ch = true).
Proof.
  intros Hnd H1 H2.
  apply renewal_needs_majority in H1 as (s1 & Hs1 & Hn1 & Ha1); [|done].
  apply renewal_needs_majority in H2 as (s2 & Hs2 & Hn2 & Ha2); [|done].
  destruct (majorities_meet voters s1 s2) as (v & Hv1 & Hv2); try done.
  exists v. split_and!; auto. apply (elem_of_list_to_set (C := gset Z)). by apply Hs1.
Qed.

End renewal_proofs.

Lemma renewing_rounds_meet_witness :
  ∃ v, v ∈ [1; 2; 3] ∧ (v = 1 ∨ ∃ ch : unit, (v =? 2) = true) ∧
       (v = 3 ∨ ∃ ch : unit, (v =? 2) = true).
Proof.
  apply (renewing_rounds_meet (Channel := unit) (Identity := unit) (λ _ _, true)
    (λ _ _, Some tt) [1; 2; 3] (λ _, Some "a:1") (λ _, Some "a:1") None None 50 60 1 3
    (λ v _, v =? 2) (λ v _, v =? 2)
    (mkRenewal (lease_new 0 5000000000) ∅ None) (mkRenewal (lease_new 0 5000000000) ∅ None)).
  - repeat (apply NoDup_cons; split; [set_solver|]). apply NoDup_nil_2.
  - vm_compute. discriminate.
  - vm_compute. discriminate.
Defined.

(** ** Membership changes *)

Section membership_proofs.
Context `{!RaftWrites}.

(** Every voter is a node. *)
Definition membership_wf (r : RaftMembership) : Prop := voter_ids r ⊆ dom (nodes r).

Lemma elem_of_members r m :
  m ∈ members_of r ↔
  nodes r !! m_id m = Some (m_addr m) ∧ voter m = bool_decide (m_id m ∈ voter_ids r).
Proof.
  unfold members_of. rewrite elem_of_sort_by, list_elem_of_fmap. split.
  - intros ([i a] & -> & Hin%elem_of_map_to_list). done.
  - intros [Hn Hv]. exists (m_id m, m_addr m). split; [|by apply elem_of_map_to_list].
    cbn. rewrite <-Hv. by destruct m.
Qed.

Lemma find_member_Ok id r m :
  find_member id r = Ok m →
  m_id m = id ∧ is_Some (nodes r !! id) ∧ voter m = bool_decide (id ∈ voter_ids r).
Proof.
  unfold find_member. destruct (List.find _ _) as [m'|] eqn:E; cbn; [|done]. intros [= ->].
  apply List.find_some in E as [Hin%list_elem_of_In He%Z.eqb_eq]. subst id.
  apply elem_of_members in Hin as [Hn Hv]. eauto.
Qed.

Lemma member_ids_NoDup r : NoDup (m_id <$> List.filter voter (members_of r)).
Proof.
  eapply (sublist_NoDup _ (m_id <$> members_of r)); [|apply fmap_sublist, lfilter_sublist].
  unfold members_of. rewrite sort_by_perm, <-list_fmap_compose.
  apply (NoDup_fst_map_to_list (nodes r)).
Qed.

(** The members counted as voters are the voters. *)
Lemma count_voters r :
  membership_wf r → length (List.filter voter (members_of r)) = size (voter_ids r).
Proof.
  intros Hwf. rewrite <-(length_fmap m_id).
  rewrite <-(size_list_to_set (C := gset Z)) by apply member_ids_NoDup. f_equal.
  apply set_eq. intros id. rewrite elem_of_list_to_set, list_elem_of_fmap. split.
  - intros (m & -> & [[_ Hv]%elem_of_members Ht]%elem_of_lfilter). rewrite Ht in Hv.
    symmetry in Hv. by apply bool_decide_eq_true in Hv.
  - intros Hv. assert (id ∈ dom (nodes r)) as [a Ha]%elem_of_dom by set_solver.
    exists (mkMember id a true). split; [done|]. apply elem_of_lfilter. split; [|done].
    apply elem_of_members. split; [done|]. by rewrite bool_decide_eq_true_2.
Qed.

(** No removal that succeeds leaves the cluster without voters, and a
    removed voter votes no more. *)
Theorem remove_keeps_a_voter id r r' :
  membership_wf r → voter_ids r ≠ ∅ → remove id r = Ok r' →
  voter_ids r' ≠ ∅ ∧ id ∉ voter_ids r'.
Proof.
  intros Hwf Hne. unfold remove. destruct (find_member id r) as [m|] eqn:Ef; [|done].
  apply find_member_Ok in Ef as (Hid & _ & Hv). cbn [mbind result_bind]. rewrite Hv.
  unfold change. case_bool_decide as Hin; cbn [negb].
  - rewrite count_voters by done. destruct (Nat.eqb_spec (size (voter_ids r)) 1) as [|Hs]; [done|].
    destruct (change_membership _ r) as [r1|] eqn:Ec; [|done]. intros [= <-].
    apply change_ok in Ec as [Ec _]. rewrite Ec. split; [|set_solver]. intros He.
    assert (voter_ids r = {[id]}) as E
      by (apply set_eq; intros x; destruct (decide (x = id)); set_solver). rewrite E, size_singleton in Hs. done.
  - destruct (change_membership _ r) as [r1|] eqn:Ec; [|done]. intros [= <-].
    apply change_ok in Ec as [Ec _]. by rewrite Ec.
Qed.

(** Promoting makes exactly a learner a voter. *)
Lemma promote_Ok id r r' :
  promote id r = Ok r' →
  id ∉ voter_ids r ∧ is_Some (nodes r !! id) ∧ voter_ids r' = voter_ids r ∪ {[id]} ∧ nodes r' = nodes r.
Proof.
  unfold promote. destruct (find_member id r) as [m|] eqn:Ef; [|done].
  apply find_member_Ok in Ef as (_ & Hn & Hv). cbn [mbind result_bind]. rewrite Hv.
  case_bool_decide as Hin; [done|]. unfold change.
  destruct (change_membership _ r) as [r1|] eqn:Ec; [|done]. intros [= <-].
  by apply change_ok in Ec as [-> ->].
Qed.

(** Removing takes away exactly the member. *)
Lemma remove_Ok id r r' : remove id r = Ok r' →
  voter_ids r' = voter_ids r ∖ {[id]} ∧ ∀ x, x ≠ id → nodes r' !! x = nodes r !! x.
Proof.
  unfold remove. destruct (find_member id r) as [m|] eqn:Ef; [|done].
  apply find_member_Ok in Ef as (_ & _ & Hv). cbn [mbind result_bind]. rewrite Hv. unfold change.
  case_bool_decide as Hin; cbn [negb]; [case_match; [done|]|];
    (destruct (change_membership _ r) as [r1|] eqn:Ec; [|done]); intros [= <-]; apply change_ok in Ec as [-> Hn];
    (split; [set_solver|]); intros x Hx; apply Hn; set_solver.
Qed.

(** Only what is no member is not found. *)
Lemma remove_not_found id id' r : remove id r = Err (NotFound id') → nodes r !! id = None.
Proof.
  unfold remove, find_member. destruct (List.find _ _) as [m|] eqn:E; cbn.
  - unfold change, map_err, from_write. repeat case_match; done.
  - intros _. destruct (nodes r !! id) as [a|] eqn:En; [|done]. exfalso.
    assert ((m_id (mkMember id a (bool_decide (id ∈ voter_ids r))) =? id) = false) as Hf; [|by rewrite Z.eqb_refl in Hf].
    apply (List.find_none _ _ E), list_elem_of_In. by apply elem_of_members.
Qed.

(** Adding a learner never replaces a member. *)
Lemma add_learner_Ok id addr r r' :
  add_learner id addr r = Ok r' →
  nodes r !! id = None ∧ nodes r' = <[id := addr]> (nodes r) ∧ voter_ids r' = voter_ids r.
Proof.
  unfold add_learner. destruct (existsb _ _) eqn:Ex; [done|].
  destruct (raft_add_learner _ _ r) as [r1|] eqn:Ea; [|done]. intros [= <-].
  apply add_learner_ok in Ea. split; [|done]. destruct (nodes r !! id) as [a|] eqn:En; [|done].
  exfalso. apply not_true_iff_false in Ex. apply Ex, existsb_exists.
  exists (mkMember id a (bool_decide (id ∈ voter_ids r))). split; [|apply Z.eqb_refl].
  by apply list_elem_of_In, elem_of_members.
Qed.

End membership_proofs.

(** An openraft that always succeeds. *)
Definition test_writes : RaftWrites.
Proof.
  refine {|
    raft_add_learner := λ id addr r, Ok (mkMembership (<[id := addr]> (nodes r)) (voter_ids r));
    change_membership := λ c r, Ok match c with
      | AddVoterIds ids => mkMembership (nodes r) (voter_ids r ∪ ids)
      | RemoveVoters ids => mkMembership (nodes r) (voter_ids r ∖ ids)
      | RemoveNodes ids => mkMembership (nodes r) (voter_ids r)
      end |}.
  - by intros id addr r r' [= <-].
  - intros [] r r' [= <-]; done.
Defined.

Lemma remove_keeps_a_voter_witness :
  let r := mkMembership {[1 := "a:1"; 2 := "b:1"]} {[1; 2]} in
  voter_ids (mkMembership {[1 := "a:1"; 2 := "b:1"]} ({[1; 2]} ∖ {[2]})) ≠ ∅ ∧
  2 ∉ voter_ids (mkMembership {[1 := "a:1"; 2 := "b:1"]} ({[1; 2]} ∖ {[2]})).
Proof.
  intros r. apply (@remove_keeps_a_voter test_writes 2 r).
  - unfold membership_wf. set_solver.
  - cbn. set_solver.
  - reflexivity.
Defined.
