(* ===== verification/Protocol.v ===== *)
(** The PostgreSQL wire protocol: src/pgcluster/src/proxy/protocol.rs, and the
    message helpers of src/pgcluster/src/proxy/connection.rs
    ([encode_startup_message], [pipe_until_ready_for_query]).

    A stream read is a function from the bytes left on the stream to a result
    and the bytes after it; the end of the stream is an error. Text is its
    UTF-8 bytes, checked by [from_utf8]. Slice indexing out of range is the
    outcome [Panic], kept apart from the errors the parser returns.

    The theorems: a framed message is read back as its type and body with the
    raw bytes preserved, startup messages round-trip, parsing panics only on a
    truncated Bind parameter, and detecting the end of a backend's answer does
    not depend on how its bytes are split into reads. *)
From S2P Require Import Prelude.

Local Open Scope Z_scope.

(** ** Outcomes *)

Inductive failure := Bail (what : string) | Panic.

Abbreviation outcome := (result failure).

(** ** UTF-8 *)

Definition cont (b : Z) : bool := (128 <=? b) && (b <=? 191).
Definition between (lo hi b : Z) : bool := (lo <=? b) && (b <=? hi).

(** [std::str::from_utf8] succeeds. *)
Fixpoint utf8_valid (l : bytes) : bool :=
  match l with
  | [] => true
  | a :: l1 =>
      if between 0 127 a then utf8_valid l1
      else match l1 with
      | b :: l2 =>
          if between 194 223 a then cont b && utf8_valid l2
          else match l2 with
          | c :: l3 =>
              if between 224 239 a then
                (if a =? 224 then between 160 191 b
                 else if a =? 237 then between 128 159 b else cont b)
                && cont c && utf8_valid l3
              else match l3 with
              | d :: l4 =>
                  if between 240 244 a then
                    (if a =? 240 then between 144 191 b
                     else if a =? 244 then between 128 143 b else cont b)
                    && cont c && cont d && utf8_valid l4
                  else false
              | [] => false
              end
          | [] => false
          end
      | [] => false
      end
  end.

Definition from_utf8 (what : string) (l : bytes) : outcome bytes :=
  if utf8_valid l then Ok l else Err (Bail what).

(** ** Byte-level helpers *)

(** [buf.get(offset..offset + n)]. *)
Definition get_range (n offset : nat) (buf : bytes) : option bytes :=
  if (offset + n <=? length buf)%nat then Some (take n (drop offset buf)) else None.

(** [&buf[offset..end]]. *)
Definition slice (offset end_ : nat) (buf : bytes) : outcome bytes :=
  if (offset <=? end_)%nat && (end_ <=? length buf)%nat
  then Ok (take (end_ - offset) (drop offset buf)) else Err Panic.

(** [iter().position(|&b| b == 0)]. *)
Fixpoint position0 (l : bytes) : option nat :=
  match l with
  | [] => None
  | b :: l' => if b =? 0 then Some O else S <$> position0 l'
  end.

Definition read_cstring_with_pos (buf : bytes) (offset : nat) : outcome (bytes * nat) :=
  rest ← slice offset (length buf) buf;
  end_ ← ok_or (Bail "missing null terminator") (position0 rest);
  s ← from_utf8 "string is not valid UTF-8" (take end_ rest);
  mret (s, (offset + end_ + 1)%nat).

Definition read_cstring (buf : bytes) (offset : nat) : outcome bytes :=
  '(s, _) ← read_cstring_with_pos buf offset; mret s.

Definition read_u16_be (buf : bytes) (offset : nat) : outcome Z :=
  b ← ok_or (Bail "read u16") (get_range 2 offset buf); mret (be_value b).

Definition read_u32_be (buf : bytes) (offset : nat) : outcome Z :=
  b ← ok_or (Bail "read u32") (get_range 4 offset buf); mret (be_value b).

(** Two's complement. *)
Definition to_i32 (n : Z) : Z := if n <? 2 ^ 31 then n else n - 2 ^ 32.

Definition read_i32_be (buf : bytes) (offset : nat) : outcome Z :=
  b ← ok_or (Bail "read i32") (get_range 4 offset buf); mret (to_i32 (be_value b)).

(** ** Messages *)

Definition PROTOCOL_V3 : Z := 196608.
Definition SSL_REQUEST_CODE : Z := 80877103.
Definition CANCEL_REQUEST_CODE : Z := 80877102.

Inductive FrontendMessage :=
| StartupMessage (params : gmap bytes bytes)
| SslRequest
| Query (sql : bytes)
| Parse (name query : bytes) (param_types : list Z)
| Bind (portal statement : bytes) (params : list bytes)
| Execute (portal : bytes) (max_rows : Z)
| Describe (kind : Z) (name : bytes)
| Sync
| Flush
| Close (kind : Z) (name : bytes)
| CancelRequest (pid secret : Z)
| Terminate
| CopyData (data : bytes)
| CopyDone
| CopyFail (msg : bytes)
| PasswordMessage (data : bytes).

Fixpoint read_types (count : nat) (payload : bytes) (p : nat) : outcome (list Z) :=
  match count with
  | O => mret []
  | S k => t ← read_u32_be payload p; ts ← read_types k payload (p + 4); mret (t :: ts)
  end.

Fixpoint read_params (count : nat) (payload : bytes) (p : nat) : outcome (list bytes) :=
  match count with
  | O => mret []
  | S k =>
      len ← read_i32_be payload p;
      let p := (p + 4)%nat in
      if len <? 0 then ps ← read_params k payload p; mret ([] :: ps)
      else
        let end_ := (p + Z.to_nat len)%nat in
        v ← slice p end_ payload;
        ps ← read_params k payload end_;
        mret (v :: ps)
  end.

Definition parse_parse (payload : bytes) : outcome FrontendMessage :=
  '(name, pos) ← read_cstring_with_pos payload 0;
  '(query, pos) ← read_cstring_with_pos payload pos;
  count ← read_u16_be payload pos;
  ts ← read_types (Z.to_nat count) payload (pos + 2);
  mret (Parse name query ts).

Definition parse_bind (payload : bytes) : outcome FrontendMessage :=
  '(portal, pos) ← read_cstring_with_pos payload 0;
  '(statement, pos) ← read_cstring_with_pos payload pos;
  fmt_count ← read_u16_be payload pos;
  let p := (pos + 2 + Z.to_nat fmt_count * 2)%nat in
  param_count ← read_u16_be payload p;
  ps ← read_params (Z.to_nat param_count) payload (p + 2);
  mret (Bind portal statement ps).

Definition parse_execute (payload : bytes) : outcome FrontendMessage :=
  '(portal, pos) ← read_cstring_with_pos payload 0;
  max_rows ← read_i32_be payload pos;
  mret (Execute portal max_rows).

(** Describe and Close: a kind byte and a name. *)
Definition parse_kind_name (what : string) (mk : Z → bytes → FrontendMessage) (payload : bytes)
    : outcome FrontendMessage :=
  match payload with
  | [] => Err (Bail what)
  | kind :: _ => name ← read_cstring payload 1; mret (mk kind name)
  end.

(** The type bytes: Q P B E D S H C X d c f p. *)
Definition parse_frontend_message (msg_type : Z) (payload : bytes) : outcome FrontendMessage :=
  if msg_type =? 81 then s ← read_cstring payload 0; mret (Query s)
  else if msg_type =? 80 then parse_parse payload
  else if msg_type =? 66 then parse_bind payload
  else if msg_type =? 69 then parse_execute payload
  else if msg_type =? 68 then parse_kind_name "Describe: empty payload" Describe payload
  else if msg_type =? 83 then mret Sync
  else if msg_type =? 72 then mret Flush
  else if msg_type =? 67 then parse_kind_name "Close: empty payload" Close payload
  else if msg_type =? 88 then mret Terminate
  else if msg_type =? 100 then mret (CopyData payload)
  else if msg_type =? 99 then mret CopyDone
  else if msg_type =? 102 then s ← read_cstring payload 0; mret (CopyFail s)
  else if msg_type =? 112 then mret (PasswordMessage payload)
  else Err (Bail "unknown frontend message type").

(** ** Reading from a stream *)

(** [read_exact] of [n] bytes. *)
Definition read_exact (what : string) (n : nat) (stream : bytes) : outcome (bytes * bytes) :=
  if (n <=? length stream)%nat then Ok (take n stream, drop n stream) else Err (Bail what).

Definition read_be (what : string) (n : nat) (stream : bytes) : outcome (Z * bytes) :=
  '(b, rest) ← read_exact what n stream; mret (be_value b, rest).

Definition read_frontend_frame (stream : bytes) : outcome (FrontendMessage * bytes * bytes) :=
  '(msg_type, rest) ← read_be "read message type" 1 stream;
  '(len, rest) ← read_be "read message length" 4 rest;
  if len <? 4 then Err (Bail "message length too small")
  else
    '(payload, rest) ← read_exact "read message payload" (Z.to_nat (len - 4)) rest;
    msg ← parse_frontend_message msg_type payload;
    mret (msg, msg_type :: be_bytes 4 len ++ payload, rest).

(** [buf.split(|&b| b == 0)]: always at least one piece. *)
Fixpoint split0 (l : bytes) : list bytes :=
  match l with
  | [] => [[]]
  | b :: l' =>
      if b =? 0 then [] :: split0 l'
      else match split0 l' with
           | w :: ws => (b :: w) :: ws
           | [] => [[b]]
           end
  end.

(** The loop of [parse_startup_params] over the pieces left. *)
Fixpoint startup_pairs (pieces : list bytes) (params : gmap bytes bytes)
    : outcome (gmap bytes bytes) :=
  match pieces with
  | [] | [] :: _ => mret params
  | _ :: [] => Err (Bail "startup param value missing")
  | k :: v :: pieces' =>
      key ← from_utf8 "startup param key not UTF-8" k;
      val ← from_utf8 "startup param value not UTF-8" v;
      startup_pairs pieces' (<[key := val]> params)
  end.

Definition parse_startup_params (buf : bytes) : outcome (gmap bytes bytes) :=
  startup_pairs (split0 buf) ∅.

Definition read_startup_message (stream : bytes) : outcome (FrontendMessage * bytes) :=
  '(total_len, rest) ← read_be "read startup length" 4 stream;
  if total_len <? 8 then Err (Bail "startup message too short")
  else
    '(code, rest) ← read_be "read startup code" 4 rest;
    if code =? SSL_REQUEST_CODE then mret (SslRequest, rest)
    else if code =? CANCEL_REQUEST_CODE then
      '(pid, rest) ← read_be "read cancel pid" 4 rest;
      '(secret, rest) ← read_be "read cancel secret" 4 rest;
      mret (CancelRequest pid secret, rest)
    else if code =? PROTOCOL_V3 then
      '(buf, rest) ← read_exact "read startup payload" (Z.to_nat (total_len - 8)) rest;
      params ← parse_startup_params buf;
      mret (StartupMessage params, rest)
    else Err (Bail "unknown startup code").

(** ** Writing *)

Definition write_message (msg_type : Z) (body : bytes) : bytes :=
  msg_type :: be_bytes 4 (wrap 32 (4 + wrap 32 (Z.of_nat (length body)))) ++ body.

Definition write_ready_for_query (txn_status : Z) : bytes := write_message 90 [txn_status].

Definition write_error_response (severity code message : bytes) : bytes :=
  write_message 69
    ((83 :: severity ++ [0]) ++ (67 :: code ++ [0]) ++ (77 :: message ++ [0]) ++ [0]).

(** The pairs in the order the hash map yields them. *)
Definition startup_body (pairs : list (bytes * bytes)) : bytes :=
  be_bytes 4 PROTOCOL_V3 ++ concat ((λ e : bytes * bytes, e.1 ++ [0] ++ e.2 ++ [0]) <$> pairs) ++ [0].

Definition encode_startup_message (pairs : list (bytes * bytes)) : bytes :=
  let body := startup_body pairs in
  be_bytes 4 (wrap 32 (4 + wrap 32 (Z.of_nat (length body)))) ++ body.

(** ** The end of a backend's answer *)

Inductive scanned := Found (status : Z) | Tail (rest : bytes).

(** One turn of the scan at the front of the bytes from [pos] on: a status to
    return, a whole message to step over, or not enough bytes. *)
Inductive turn := Return (status : Z) | Step (n : nat) | Break.

Definition scan_turn (acc : bytes) : turn :=
  match acc with
  | ty :: b1 :: b2 :: b3 :: b4 :: rest =>
      let len := Z.to_nat (be_value [b1; b2; b3; b4]) in
      if (ty =? 90) && (len =? 5)%nat && (6 <=? length acc)%nat then Return (hd 0 rest)
      else if ty =? 71 then Return 84
      else if (1 + len <=? length acc)%nat then Step (1 + len) else Break
  | _ => Break
  end.

(** The status byte of a ReadyForQuery, or the bytes not fully scanned. Every
    step drops at least the type byte, so the length is enough fuel. *)
Fixpoint scan_fuel (fuel : nat) (acc : bytes) : scanned :=
  match fuel with
  | O => Tail acc
  | S fuel' =>
      match scan_turn acc with
      | Return st => Found st
      | Step n => scan_fuel fuel' (drop n acc)
      | Break => Tail acc
      end
  end.

Definition scan (acc : bytes) : scanned := scan_fuel (S (length acc)) acc.

(** The loop: each read is a chunk, written to the client and appended to the
    bytes kept. The result is the status, the bytes written and the reads
    left; [None] is a connection that closed. *)
Fixpoint pipe_until_ready_for_query (chunks : list bytes) (acc written : bytes)
    : option (Z * bytes * list bytes) :=
  match chunks with
  | [] => None
  | [] :: _ => None
  | buf :: chunks' =>
      match scan (acc ++ buf) with
      | Found st => Some (st, written ++ buf, chunks')
      | Tail rest => pipe_until_ready_for_query chunks' rest (written ++ buf)
      end
  end.

(** ** Scanning an answer *)

Lemma scan_turn_step acc n : scan_turn acc = Step n → (1 ≤ n ≤ length acc)%nat.
Proof.
  unfold scan_turn. destruct acc as [|ty [|b1 [|b2 [|b3 [|b4 rest]]]]]; try done.
  case_match; [done|]. case_match; [done|].
  destruct (Nat.leb_spec (1 + Z.to_nat (be_value [b1; b2; b3; b4]))
    (length (ty :: b1 :: b2 :: b3 :: b4 :: rest))); [|done]. intros [= <-]. lia.
Qed.

Lemma scan_turn_app acc more :
  scan_turn acc ≠ Break → scan_turn (acc ++ more) = scan_turn acc.
Proof.
  unfold scan_turn. destruct acc as [|ty [|b1 [|b2 [|b3 [|b4 rest]]]]]; try done.
  cbn [app]. set (len := Z.to_nat (be_value [b1; b2; b3; b4])).
  set (n := length (ty :: b1 :: b2 :: b3 :: b4 :: rest)).
  assert (length (ty :: b1 :: b2 :: b3 :: b4 :: rest ++ more) = n + length more)%nat as ->
    by (cbn [length n]; rewrite length_app; lia).
  destruct (Z.eqb_spec ty 90) as [->|]; cbn [andb].
  - change (90 =? 71) with false. cbn [andb].
    destruct (Nat.eqb_spec len 5) as [->|]; cbn [andb].
    + destruct (Nat.leb_spec 6 n) as [H6|H6]; [|by destruct (Nat.leb_spec (1 + 5) n); [lia|]].
      intros _. destruct (Nat.leb_spec 6 (n + length more)); [|lia]. f_equal.
      destruct rest; [cbn [length n] in H6; lia|done].
    + destruct (Nat.leb_spec (1 + len) n); [|done].
      by destruct (Nat.leb_spec (1 + len) (n + length more)); [|lia].
  - destruct (ty =? 71); [done|]. destruct (Nat.leb_spec (1 + len) n); [|done].
    by destruct (Nat.leb_spec (1 + len) (n + length more)); [|lia].
Qed.

Lemma scan_fuel_enough f1 f2 acc :
  (length acc < f1)%nat → (length acc < f2)%nat → scan_fuel f1 acc = scan_fuel f2 acc.
Proof.
  revert f2 acc. induction f1 as [|f1 IH]; intros [|f2] acc H1 H2; try lia.
  cbn [scan_fuel]. destruct (scan_turn acc) as [|n|] eqn:E; try done.
  apply scan_turn_step in E. apply IH; rewrite length_drop; lia.
Qed.

Lemma scan_step acc :
  scan acc = match scan_turn acc with
             | Return st => Found st | Step n => scan (drop n acc) | Break => Tail acc end.
Proof.
  unfold scan at 1. cbn [scan_fuel]. destruct (scan_turn acc) as [|n|] eqn:E; try done.
  apply scan_turn_step in E. apply scan_fuel_enough; rewrite length_drop; lia.
Qed.

(** Scanning more bytes resumes where the scan stopped. *)
Lemma scan_app acc more :
  scan (acc ++ more) =
  match scan acc with Found st => Found st | Tail rest => scan (rest ++ more) end.
Proof.
  remember (length acc) as n eqn:Hn. revert acc Hn.
  induction n as [n IH] using lt_wf_ind. intros acc ->. rewrite (scan_step acc).
  destruct (scan_turn acc) as [st|k|] eqn:E; [| |done].
  - rewrite scan_step, scan_turn_app; [by rewrite E|congruence].
  - rewrite scan_step, scan_turn_app, E by congruence. apply scan_turn_step in E.
    rewrite drop_app_le by lia. eapply IH; [|done]. rewrite length_drop. lia.
Qed.

Lemma pipe_found chunks acc written :
  Forall (λ b, b ≠ []) chunks →
  match pipe_until_ready_for_query chunks acc written with
  | Some (st, w, rest) => ∃ used, chunks = used ++ rest ∧
      w = written ++ concat used ∧ scan (acc ++ concat used) = Found st
  | None => ∃ tail, scan (acc ++ concat chunks) = Tail tail ∨ chunks = []
  end.
Proof.
  intros Hne. revert acc written. induction Hne as [|buf chunks Hb Hne IH]; intros acc written;
    cbn [pipe_until_ready_for_query]; [exists []; by right|].
  destruct buf as [|x buf]; [done|]. set (b := x :: buf).
  pose proof (scan_app acc b) as Hs. destruct (scan (acc ++ b)) as [st|rest] eqn:E.
  - exists [b]. cbn. by rewrite app_nil_r.
  - specialize (IH rest (written ++ b)).
    destruct (pipe_until_ready_for_query chunks rest (written ++ b)) as [[[st w] left]|].
    + destruct IH as (used & -> & -> & Hu). exists (b :: used). split_and!; [done| |].
      * cbn [concat]. by rewrite app_assoc.
      * cbn [concat]. by rewrite app_assoc, scan_app, E.
    + destruct IH as (tail & [Ht| ->]).
      * exists tail. left. cbn [concat]. by rewrite app_assoc, scan_app, E.
      * exists rest. left. cbn [concat]. by rewrite app_nil_r.
Qed.

(** C35 The end of an answer is found from the bytes alone: however the
    backend's answer is split into reads, the proxy stops at the first read
    that completes it, with the status the whole answer scans to, and has
    written to the client exactly the bytes it read, in order. *)
Theorem pipe_any_chunks chunks answer st :
  Forall (λ b, b ≠ []) chunks → concat chunks = answer → scan answer = Found st →
  ∃ used rest, chunks = used ++ rest ∧
    pipe_until_ready_for_query chunks [] [] = Some (st, concat used, rest) ∧
    scan (concat used) = Found st.
Proof.
  intros Hne <- Hst. pose proof (pipe_found chunks [] [] Hne) as Hp.
  destruct (pipe_until_ready_for_query chunks [] []) as [[[st' w] rest]|].
  - destruct Hp as (used & -> & -> & Hu). rewrite app_nil_l in Hu.
    rewrite concat_app, scan_app, Hu in Hst. injection Hst as ->.
    exists used, rest. auto.
  - destruct Hp as (tail & [Ht| ->]); [rewrite app_nil_l in Ht; congruence|]. by cbn in Hst.
Qed.

Lemma pipe_any_chunks_witness :
  ∃ used rest, [[67; 0; 0; 0]; [6; 65; 0; 90; 0]; [0; 0; 5]; [84]] = used ++ rest ∧
    pipe_until_ready_for_query [[67; 0; 0; 0]; [6; 65; 0; 90; 0]; [0; 0; 5]; [84]] [] [] =
      Some (84, concat used, rest) ∧ scan (concat used) = Found 84.
Proof.
  eapply pipe_any_chunks; [repeat constructor; discriminate|reflexivity|vm_compute; reflexivity].
Defined.

(** ** Frames *)

Lemma read_exact_app what (l rest : bytes) : read_exact what (length l) (l ++ rest) = Ok (l, rest).
Proof.
  unfold read_exact. rewrite length_app.
  destruct (Nat.leb_spec (length l) (length l + length rest)); [|lia].
  by rewrite take_app_length, drop_app_length.
Qed.

Lemma read_be_app what k n rest :
  0 ≤ n < 256 ^ Z.of_nat k → read_be what k (be_bytes k n ++ rest) = Ok (n, rest).
Proof.
  intros Hn. unfold read_be. rewrite <-(be_bytes_length k n) at 1. rewrite read_exact_app.
  cbn [mbind result_bind mret result_ret]. by rewrite be_value_be_bytes.
Qed.

(** The length field of a message whose body fits. *)
Lemma frame_length (body : bytes) :
  Z.of_nat (length body) < 2 ^ 32 - 4 →
  wrap 32 (4 + wrap 32 (Z.of_nat (length body))) = 4 + Z.of_nat (length body).
Proof. intros Hl. by rewrite (wrap_id 32 (Z.of_nat _)), wrap_id by (unfold in_u; lia). Qed.

(** Reading a framed message gives what its type and body parse to,
    together with the very bytes of the frame, and leaves the stream after it;
    a parse error is returned as it is. *)
Theorem frame_round_trip ty body rest :
  is_byte ty → Z.of_nat (length body) < 2 ^ 32 - 4 →
  read_frontend_frame (write_message ty body ++ rest) =
  (msg ← parse_frontend_message ty body; mret (msg, write_message ty body, rest)).
Proof.
  intros Hty Hl. unfold read_frontend_frame, write_message. rewrite frame_length by done.
  rewrite <-app_comm_cons.
  assert (be_bytes 1 ty = [ty]) as E1.
  { cbn. rewrite Z.div_1_r. f_equal. apply Z.mod_small. exact Hty. }
  change (ty :: ?l) with ([ty] ++ l). rewrite <-E1 at 1.
  rewrite read_be_app by (unfold in_u in Hty; lia). cbn [mbind result_bind].
  rewrite <-app_assoc, read_be_app by lia. cbn [mbind result_bind].
  destruct (Z.ltb_spec (4 + Z.of_nat (length body)) 4); [lia|].
  replace (Z.to_nat (4 + Z.of_nat (length body) - 4)) with (length body) by lia.
  by rewrite read_exact_app.
Qed.

Lemma frame_round_trip_witness :
  read_frontend_frame (write_message 81 [83; 69; 76; 0] ++ [1; 2]) =
  Ok (Query [83; 69; 76], write_message 81 [83; 69; 76; 0], [1; 2]).
Proof. apply (frame_round_trip 81 [83; 69; 76; 0] [1; 2]); vm_compute; done. Defined.

(** ** Startup messages *)

(** A parameter as a client can send it: a key that is not empty, and no NUL
    in either part. *)
Definition param_ok (e : bytes * bytes) : Prop :=
  e.1 ≠ [] ∧ 0 ∉ e.1 ∧ 0 ∉ e.2 ∧ utf8_valid e.1 = true ∧ utf8_valid e.2 = true.

Lemma split0_word w l : 0 ∉ w → split0 (w ++ 0 :: l) = w :: split0 l.
Proof.
  induction w as [|b w IH]; intros Hw; [done|]. cbn [app split0].
  destruct (Z.eqb_spec b 0) as [->|]; [exfalso; apply Hw; by left|].
  rewrite IH; [done|]. intros ?. apply Hw. by right.
Qed.

Lemma startup_pairs_app (pairs : list (bytes * bytes)) l params :
  Forall param_ok pairs →
  startup_pairs (split0 (concat ((λ e : bytes * bytes, e.1 ++ [0] ++ e.2 ++ [0]) <$> pairs) ++ 0 :: l))
    params = Ok (foldl (λ m e, <[e.1 := e.2]> m) params pairs).
Proof.
  intros Hp. revert params. induction Hp as [|[k v] pairs (Hk & Hk0 & Hv0 & Hku & Hvu) Hp IH];
    intros params; [done|]. cbn [fst snd] in *.
  cbn [fmap list_fmap concat fst snd]. rewrite <-!app_assoc. cbn [app].
  rewrite split0_word by done. rewrite split0_word by done.
  destruct k as [|b k]; [done|]. cbn [startup_pairs].
  unfold from_utf8. rewrite Hku, Hvu. cbn [mbind result_bind]. apply IH.
Qed.

Lemma foldl_insert (pairs : list (bytes * bytes)) :
  foldl (λ m e, <[e.1 := e.2]> m) (∅ : gmap bytes bytes) pairs = list_to_map (reverse pairs).
Proof.
  induction pairs as [|e pairs IH] using rev_ind; [done|].
  by rewrite foldl_app, reverse_snoc, IH.
Qed.

(** The startup message the proxy sends to a backend parses, on the other
    side, to exactly the parameters the client sent, in whatever order the
    hash map yields them. *)
Theorem startup_round_trip (pairs : list (bytes * bytes)) (params : gmap bytes bytes) rest :
  pairs ≡ₚ map_to_list params → Forall param_ok pairs →
  Z.of_nat (length (startup_body pairs)) < 2 ^ 32 - 4 →
  read_startup_message (encode_startup_message pairs ++ rest) = Ok (StartupMessage params, rest).
Proof.
  intros Hperm Hp Hl. unfold read_startup_message, encode_startup_message.
  rewrite frame_length, <-app_assoc, read_be_app by lia. cbn [mbind result_bind].
  unfold startup_body in *. rewrite length_app, be_bytes_length in Hl |- *.
  set (body := concat _ ++ [0]) in *.
  destruct (Z.ltb_spec (4 + Z.of_nat (4 + length body)) 8); [lia|].
  rewrite <-app_assoc, read_be_app by (unfold PROTOCOL_V3; lia). cbn [mbind result_bind].
  change (PROTOCOL_V3 =? SSL_REQUEST_CODE) with false.
  change (PROTOCOL_V3 =? CANCEL_REQUEST_CODE) with false. rewrite Z.eqb_refl.
  replace (Z.to_nat (4 + Z.of_nat (4 + length body) - 8)) with (length body) by lia.
  rewrite read_exact_app. cbn [mbind result_bind].
  unfold parse_startup_params, body. rewrite startup_pairs_app by done.
  cbn [mbind result_bind mret result_ret]. do 3 f_equal.
  rewrite foldl_insert. symmetry. apply list_to_map_flip. by rewrite reverse_Permutation.
Qed.

Lemma startup_round_trip_witness :
  read_startup_message (encode_startup_message [([117], [97]); ([100], [])] ++ [9]) =
  Ok (StartupMessage {[ [117] := [97]; [100] := [] ]}, [9]).
Proof.
  apply (startup_round_trip _ {[ [117] := [97]; [100] := [] ]} [9]).
  - rewrite map_to_list_insert, map_to_list_singleton by done. done.
  - repeat constructor; cbn; try done; set_solver.
  - cbn. lia.
Defined.

(** ** Panics *)

(** An outcome that is not a panic. *)
Definition no_panic {A} (r : outcome A) : Prop := r ≠ Err Panic.

Lemma no_panic_bind {A B} (r : outcome A) (f : A → outcome B) :
  no_panic r → (∀ a, r = Ok a → no_panic (f a)) → no_panic (r ≫= f).
Proof. unfold no_panic. destruct r as [a|e]; cbn; [eauto|naive_solver]. Qed.

Lemma no_panic_ok_or {A} what (o : option A) : no_panic (ok_or (Bail what) o).
Proof. by destruct o. Qed.

Lemma no_panic_ret {A} (a : A) : no_panic (mret a).
Proof. done. Qed.

Lemma position0_bound l n : position0 l = Some n → (n < length l)%nat.
Proof.
  revert n. induction l as [|b l IH]; intros n; cbn; [done|].
  destruct (b =? 0); [intros [= <-]; lia|]. destruct (position0 l) as [k|]; cbn; [|done].
  intros [= <-]. specialize (IH k eq_refl). lia.
Qed.

Lemma read_cstring_pos buf offset :
  (offset ≤ length buf)%nat →
  no_panic (read_cstring_with_pos buf offset) ∧
  ∀ s pos, read_cstring_with_pos buf offset = Ok (s, pos) → (pos ≤ length buf)%nat.
Proof.
  intros Ho. unfold read_cstring_with_pos, slice.
  destruct (Nat.leb_spec offset (length buf)); [|lia]. rewrite Nat.leb_refl. cbn [andb mbind result_bind].
  set (r := take _ (drop offset buf)).
  assert (length r ≤ length buf - offset)%nat as Hr
    by (unfold r; rewrite length_take, length_drop; lia).
  destruct (position0 r) as [n|] eqn:E; cbn [ok_or mbind result_bind]; [|by split].
  apply position0_bound in E. unfold from_utf8. destruct (utf8_valid _); cbn; [|by split].
  split; [done|]. intros s pos [= <- <-]. lia.
Qed.

Lemma no_panic_cstring_bind {B} buf offset (f : bytes * nat → outcome B) :
  (offset ≤ length buf)%nat →
  (∀ s pos, (pos ≤ length buf)%nat → no_panic (f (s, pos))) →
  no_panic (read_cstring_with_pos buf offset ≫= f).
Proof.
  intros Ho Hf. destruct (read_cstring_pos buf offset Ho) as [Hn Hp].
  apply no_panic_bind; [done|]. intros [s pos] E. eauto.
Qed.

Lemma no_panic_read_be16 buf o : no_panic (read_u16_be buf o).
Proof. apply no_panic_bind; [apply no_panic_ok_or|done]. Qed.
Lemma no_panic_read_be32 buf o : no_panic (read_u32_be buf o).
Proof. apply no_panic_bind; [apply no_panic_ok_or|done]. Qed.
Lemma no_panic_read_i32 buf o : no_panic (read_i32_be buf o).
Proof. apply no_panic_bind; [apply no_panic_ok_or|done]. Qed.

Lemma no_panic_cstring buf offset : (offset ≤ length buf)%nat → no_panic (read_cstring buf offset).
Proof. intros Ho. by apply no_panic_cstring_bind. Qed.

Lemma no_panic_types n payload p : no_panic (read_types n payload p).
Proof.
  revert p. induction n as [|n IH]; intros p; cbn [read_types]; [done|].
  apply no_panic_bind; [apply no_panic_read_be32|]. intros. by apply no_panic_bind.
Qed.

#[export] Hint Resolve no_panic_bind no_panic_ret no_panic_read_be16 no_panic_read_be32
  no_panic_read_i32 no_panic_cstring no_panic_cstring_bind no_panic_types Nat.le_0_l : pg.

(** Of the messages a client can send, only Bind can make the parser
    panic; every other malformed message is an error that ends the session. *)
Theorem parse_panics_only_in_bind ty payload :
  parse_frontend_message ty payload = Err Panic → ty = 66.
Proof.
  destruct (Z.eqb_spec ty 66) as [->|Hne]; [done|]. intros Hp. exfalso. revert Hp.
  change (no_panic (parse_frontend_message ty payload)). unfold parse_frontend_message.
  assert (∀ what mk, no_panic (parse_kind_name what mk payload)) as Hk.
  { intros what mk. unfold parse_kind_name. destruct payload as [|k payload]; [done|].
    apply no_panic_bind; [apply no_panic_cstring; cbn [length]; lia|done]. }
  repeat match goal with |- no_panic (if ?b then _ else _) => destruct b eqn:? end;
    try done; try apply Hk; try (bool_prop; lia).
  - apply no_panic_bind; [eauto with pg|done].
  - apply no_panic_cstring_bind; [lia|]. intros s pos Hpos.
    apply no_panic_cstring_bind; [done|]. intros s' pos' Hpos'.
    apply no_panic_bind; [eauto with pg|]. intros. apply no_panic_bind; eauto with pg.
  - apply no_panic_cstring_bind; [lia|]. intros s pos Hpos.
    apply no_panic_bind; eauto with pg.
  - apply no_panic_bind; [eauto with pg|done].
Qed.

Lemma parse_panics_only_in_bind_witness : 66 = 66.
Proof.
  apply (parse_panics_only_in_bind 66 [0; 0; 0; 0; 0; 1; 0; 0; 0; 5; 65]). vm_compute. reflexivity.
Defined.
