(* ===== verification/Routing.v ===== *)
(** Routing of statements: [classify_statement] of
    src/pgcluster/src/proxy/protocol.rs, src/pgcluster/src/proxy/session.rs
    and src/pgcluster/src/proxy/router.rs.

    SQL text is a list of code points. The white space characters are listed;
    [to_uppercase] is written out for ASCII, and what Unicode says of the other
    characters is a parameter every theorem holds for. A session is driven by
    two kinds of events: a statement that is routed and a ReadyForQuery status
    byte. The router reads the topology last published on its watch. *)
From S2P Require Import Prelude Topology Lease.

Local Open Scope Z_scope.

(** ** Statement classification *)

Inductive StatementIntent := Write | Read | SetLocal.

Global Instance StatementIntent_eq_dec : EqDecision StatementIntent.
Proof. solve_decision. Defined.

Abbreviation text := (list Z).

(** [char::is_whitespace]. *)
Definition is_whitespace (c : Z) : bool :=
  (9 <=? c) && (c <=? 13) || (c =? 32) || (c =? 0x85) || (c =? 0xA0) || (c =? 0x1680) ||
  (0x2000 <=? c) && (c <=? 0x200A) || (c =? 0x2028) || (c =? 0x2029) || (c =? 0x202F) ||
  (c =? 0x205F) || (c =? 0x3000).

Fixpoint trim_start (s : text) : text :=
  match s with
  | [] => []
  | c :: s' => if is_whitespace c then trim_start s' else s
  end.

Fixpoint text_starts_with (p s : text) : bool :=
  match p, s with
  | [], _ => true
  | a :: p', b :: s' => (a =? b) && text_starts_with p' s'
  | _, _ => false
  end.

Fixpoint text_contains (sub s : text) : bool :=
  text_starts_with sub s || match s with [] => false | _ :: s' => text_contains sub s' end.

(** A keyword of the source, as code points. *)
Definition kw (s : string) : text := (λ a, Z.of_N (N_of_ascii a)) <$> list_ascii_of_string s.

Section classify.
(** The uppercase of a character above ASCII, possibly several characters. *)
Context (upper_above : Z → text).

Definition upper_char (c : Z) : text :=
  if (97 <=? c) && (c <=? 122) then [c - 32] else if c <? 128 then [c] else upper_above c.

Definition to_uppercase (s : text) : text := s ≫= upper_char.

Definition classify_statement (sql : text) : StatementIntent :=
  let upper := to_uppercase (trim_start sql) in
  if text_starts_with (kw "SELECT") upper || text_starts_with (kw "TABLE") upper
     || text_starts_with (kw "VALUES") upper then Read
  else if text_starts_with (kw "WITH") upper then
    let has_select := text_contains (kw "SELECT") upper in
    let has_write := text_contains (kw "INSERT") upper || text_contains (kw "UPDATE") upper
      || text_contains (kw "DELETE") upper || text_contains (kw "MERGE") upper in
    if has_select && negb has_write then Read else Write
  else if text_starts_with (kw "SET") upper then SetLocal
  else if text_starts_with (kw "BEGIN READ ONLY") upper then Read
  else Write.

End classify.

(** ** SessionState *)

Inductive TxnState := Idle | InTransaction | FailedTxn.

Record SessionState := mkSession {
  txn_state : TxnState;
  is_read_only : bool;
  database : string;
  user : string;
  application_name : string;
  set_vars : gmap string string;
  shard_key : option string;
  used_set : bool;
  pinned_backend : option string
}.

Definition default_session : SessionState :=
  mkSession Idle false EmptyString EmptyString EmptyString ∅ None false None.

(** The fields the handlers assign. *)
Definition set_txn (t : TxnState) (ro : bool) (pin : option string) (s : SessionState) :=
  mkSession t ro (database s) (user s) (application_name s) (set_vars s) (shard_key s)
    (used_set s) pin.
Definition set_used (b : bool) (s : SessionState) :=
  mkSession (txn_state s) (is_read_only s) (database s) (user s) (application_name s)
    (set_vars s) (shard_key s) b (pinned_backend s).

(** The status bytes I, T and E; any other is taken for I but keeps
    [is_read_only]. *)
Definition update_from_ready_for_query (status_byte : Z) (s : SessionState) : SessionState :=
  if status_byte =? 73 then set_txn Idle false None s
  else if status_byte =? 84 then set_txn InTransaction (is_read_only s) (pinned_backend s) s
  else if status_byte =? 69 then set_txn FailedTxn (is_read_only s) (pinned_backend s) s
  else set_txn Idle (is_read_only s) None s.

Definition needs_primary (s : SessionState) : bool :=
  match txn_state s with
  | Idle => false
  | InTransaction => negb (is_read_only s)
  | FailedTxn => true
  end.

Inductive RouteTarget := ToPrimary | ReplicaOrPrimary.

Global Instance RouteTarget_eq_dec : EqDecision RouteTarget.
Proof. solve_decision. Defined.

Definition route_intent (intent : StatementIntent) (s : SessionState)
    : RouteTarget * SessionState :=
  match intent with
  | Write => (ToPrimary, set_txn (txn_state s) false (pinned_backend s) s)
  | SetLocal => (ToPrimary, set_used true s)
  | Read => (if needs_primary s || used_set s then ToPrimary else ReplicaOrPrimary, s)
  end.

(** ** Router *)

Record ReadRoutingConfig := mkReadRouting { rr_enabled : bool; max_replica_lag_bytes : Z }.

Record Router := mkRouter {
  rt_topology : ClusterTopology;
  rt_config : ReadRoutingConfig;
  draining : bool;
  quorum : option QuorumLease
}.

Definition router_new (t : ClusterTopology) (c : ReadRoutingConfig) : Router :=
  mkRouter t c false None.
Definition with_quorum (q : QuorumLease) (r : Router) : Router :=
  mkRouter (rt_topology r) (rt_config r) (draining r) (Some q).
Definition has_quorum (now : Z) (r : Router) : bool :=
  match quorum r with None => true | Some q => is_held now q end.
Definition set_draining (b : bool) (r : Router) : Router :=
  mkRouter (rt_topology r) (rt_config r) b (quorum r).
Definition begin_drain : Router → Router := set_draining true.
Definition end_drain : Router → Router := set_draining false.

Definition primary_addr (r : Router) : option string :=
  let topo := rt_topology r in
  postgres_addr <$> node_configs topo !! primary_node_id topo.

Definition router_primary_node_id (r : Router) : option string :=
  let id := primary_node_id (rt_topology r) in if is_empty id then None else Some id.

Section router.
Context `{!HashOrder}.

Definition lag_le (a b : string * NodeConfig * Z) : bool := a.2 <=? b.2.

Definition replica_candidates (r : Router) : list (string * NodeConfig * Z) :=
  let topo := rt_topology r in
  List.filter (λ c : string * NodeConfig * Z, c.2 <=? max_replica_lag_bytes (rt_config r))
    (omap (λ e : string * NodeRole,
             (λ cfg, (e.1, cfg, get_or 0 (replica_lag_bytes topo) e.1)) <$> node_configs topo !! e.1)
       (List.filter (λ e, bool_decide (e.2 = Replica)) (hash_iter (node_roles topo)))).

Definition best_replica_addr (r : Router) : option (string * string) :=
  (λ c : string * NodeConfig * Z, (c.1.1, postgres_addr c.1.2)) <$>
    head (sort_by lag_le (replica_candidates r)).

Definition read_backend (r : Router) : option (string * string) :=
  let primary :=
    let topo := rt_topology r in
    (λ c, (primary_node_id topo, postgres_addr c)) <$> node_configs topo !! primary_node_id topo in
  if rr_enabled (rt_config r) then
    match best_replica_addr r with Some a => Some a | None => primary end
  else primary.

(** [Option::zip]. *)
Definition opt_zip {A B} (a : option A) (b : option B) : option (A * B) :=
  x ← a; y ← b; Some (x, y).

Definition resolve_backend (r : Router) (target : RouteTarget) : option (string * string) :=
  match target with
  | ToPrimary => opt_zip (router_primary_node_id r) (primary_addr r)
  | ReplicaOrPrimary => read_backend r
  end.

End router.

(** ** Specifications *)

(** What happens to a session. *)
Inductive session_event := Statement (i : StatementIntent) | Ready (status : Z).

Definition session_step (s : SessionState) (e : session_event) : SessionState :=
  match e with
  | Statement i => (route_intent i s).2
  | Ready b => update_from_ready_for_query b s
  end.

Definition run_session (s : SessionState) (es : list session_event) : SessionState :=
  foldl session_step s es.

(** The statements that have been routed included a SET. *)
Definition is_set (e : session_event) : bool :=
  match e with Statement SetLocal => true | _ => false end.

(** The status byte of the last answer, if there was one. *)
Definition last_status (es : list session_event) : option Z :=
  last (omap (λ e, match e with Ready b => Some b | _ => None end) es).

Definition in_transaction (status : option Z) : bool :=
  match status with Some b => (b =? 84) || (b =? 69) | None => false end.

Definition is_letter (c : Z) : bool :=
  (65 <=? c) && (c <=? 90) || (97 <=? c) && (c <=? 122).

(** Statements that change data or schema. *)
Definition write_keywords : list string :=
  ["INSERT"; "UPDATE"; "DELETE"; "MERGE"; "TRUNCATE"; "CREATE"; "ALTER"; "DROP"; "GRANT";
   "REVOKE"; "COPY"; "CALL"; "DO"; "LOCK"; "VACUUM"; "REINDEX"; "COMMENT"; "REFRESH"].

(** ** Classification *)

Lemma trim_start_space ws s : forallb is_whitespace ws = true → trim_start (ws ++ s) = trim_start s.
Proof. induction ws as [|c ws IH]; cbn; [done|]. intros [-> ?]%andb_true_iff. by apply IH. Qed.

Lemma letter_not_space c : is_letter c = true → is_whitespace c = false.
Proof.
  unfold is_letter. intros Hl.
  assert (65 ≤ c ≤ 90 ∨ 97 ≤ c ≤ 122) as Hc.
  { apply orb_true_iff in Hl as [Hl|Hl]; apply andb_true_iff in Hl as [?%Z.leb_le ?%Z.leb_le]; lia. }
  unfold is_whitespace.
  repeat match goal with |- context [?a <=? ?b] => destruct (Z.leb_spec a b); try lia
    | |- context [?a =? ?b] => destruct (Z.eqb_spec a b); try lia end; done.
Qed.

Lemma to_uppercase_app up a b : to_uppercase up (a ++ b) = to_uppercase up a ++ to_uppercase up b.
Proof. unfold to_uppercase. by rewrite bind_app. Qed.

(** Two words that differ within the shorter one do not both start a text. *)
Fixpoint clash (p q : text) : bool :=
  match p, q with
  | a :: p', b :: q' => negb (a =? b) || clash p' q'
  | _, _ => false
  end.

Lemma clash_starts p q s : clash p q = true → text_starts_with p (q ++ s) = false.
Proof.
  revert q. induction p as [|a p IH]; intros [|b q]; cbn; try done.
  destruct (Z.eqb_spec a b); cbn; [auto|done].
Qed.

(** A statement that begins with a keyword that changes data or schema, in
    any mix of cases and after any white space, is routed as a write, whatever
    follows. *)
Theorem write_keyword_is_write up ws w rest k :
  forallb is_whitespace ws = true → forallb is_letter w = true →
  k ∈ write_keywords → to_uppercase up w = kw k →
  classify_statement up (ws ++ w ++ rest) = Write.
Proof.
  intros Hws Hw Hk Hup. unfold classify_statement. rewrite trim_start_space by done.
  assert (trim_start (w ++ rest) = w ++ rest) as ->.
  { destruct w as [|c w].
    - exfalso. cbn in Hup. set_unfold in Hk. by destruct_or? Hk; subst k.
    - cbn in *. apply andb_true_iff in Hw as [Hc _]. by rewrite letter_not_space. }
  rewrite to_uppercase_app, Hup. set_unfold in Hk.
  rewrite !clash_starts by (by destruct_or? Hk; subst k). done.
Qed.

Lemma write_keyword_is_write_witness :
  classify_statement (λ c, [c]) ([32; 10] ++ kw "dEleTe" ++ kw " FROM t") = Write.
Proof.
  apply (write_keyword_is_write (λ c, [c]) [32; 10] (kw "dEleTe") (kw " FROM t") "DELETE");
    [reflexivity|reflexivity| |reflexivity]. unfold write_keywords. set_solver.
Defined.

(** Statements that write but begin with SELECT are taken for reads. *)
Lemma select_can_write up :
  classify_statement up (kw "SELECT * FROM t FOR UPDATE") = Read ∧
  classify_statement up (kw "SELECT 1; DELETE FROM t") = Read ∧
  classify_statement up (kw "SELECT * INTO t2 FROM t") = Read.
Proof. split_and!; reflexivity. Qed.

(** ** Sessions *)

Lemma run_session_snoc s es e : run_session s (es ++ [e]) = session_step (run_session s es) e.
Proof. unfold run_session. by rewrite foldl_app. Qed.

(** The state a session reaches, as a function of its history. *)
Lemma run_session_state es :
  let s := run_session default_session es in
  is_read_only s = false ∧ used_set s = existsb is_set es ∧
  match txn_state s with Idle => false | _ => true end = in_transaction (last_status es).
Proof.
  induction es as [|e es IH] using rev_ind; [done|].
  rewrite run_session_snoc, existsb_app. unfold last_status in *. rewrite omap_app.
  set (s := run_session default_session es) in *. destruct IH as (Hro & Hset & Htxn).
  destruct e as [[]|b]; cbn; rewrite ?app_nil_r, ?orb_false_r, ?orb_true_r; try done.
  rewrite last_snoc. cbn [in_transaction]. unfold update_from_ready_for_query.
  destruct (Z.eqb_spec b 73) as [->|]; [done|].
  destruct (Z.eqb_spec b 84); [done|]. destruct (Z.eqb_spec b 69); [done|]. done.
Qed.

(** A statement may go to a replica exactly when it is a read, the session
    has run no SET, and the last answer did not leave a transaction open. *)
Theorem replica_route_iff es i :
  (route_intent i (run_session default_session es)).1 = ReplicaOrPrimary ↔
  i = Read ∧ existsb is_set es = false ∧ in_transaction (last_status es) = false.
Proof.
  destruct (run_session_state es) as (Hro & Hset & Htxn).
  set (s := run_session default_session es) in *.
  rewrite <-Hset, <-Htxn. destruct i; cbn; [naive_solver| |naive_solver].
  unfold needs_primary. rewrite Hro.
  destruct (txn_state s), (used_set s); cbn; naive_solver.
Qed.

(** ** Router *)

Section router_proofs.
Context `{!HashOrder}.

(** A replica that reads may go to. *)
Definition readable (r : Router) (id : string) (cfg : NodeConfig) : Prop :=
  node_roles (rt_topology r) !! id = Some Replica ∧
  node_configs (rt_topology r) !! id = Some cfg ∧
  get_or 0 (replica_lag_bytes (rt_topology r)) id ≤ max_replica_lag_bytes (rt_config r).

Lemma elem_of_replica_candidates r id cfg lag :
  (id, cfg, lag) ∈ replica_candidates r ↔
  readable r id cfg ∧ lag = get_or 0 (replica_lag_bytes (rt_topology r)) id.
Proof.
  unfold replica_candidates, readable. rewrite elem_of_lfilter, list_elem_of_omap. cbn. split.
  - intros [([id' role] & [Hin%elem_of_hash_iter Hr]%elem_of_lfilter & Hc) Hl%Z.leb_le].
    cbn in *. case_bool_decide; simplify_eq.
    apply fmap_Some in Hc as (cfg' & Hcfg & [= <- <- ->]). done.
  - intros [(Hr & Hc & Hl) ->]. split; [|by apply Z.leb_le].
    exists (id, Replica). split; [|cbn; by rewrite Hc].
    apply elem_of_lfilter. by rewrite elem_of_hash_iter.
Qed.

Lemma lag_le_total a b : lag_le a b = false → lag_le b a = true.
Proof. unfold lag_le. intros. bool_prop. apply Z.leb_le. lia. Qed.

Lemma lag_le_trans a b c : lag_le a b = true → lag_le b c = true → lag_le a c = true.
Proof. unfold lag_le. intros. bool_prop. apply Z.leb_le. lia. Qed.

(** When read routing is enabled, a read goes to a configured replica
    within the lag bound that no other such replica lags less than; the
    primary is used exactly when there is no such replica, or when read
    routing is off. This holds for every hash iteration order. *)
Theorem read_backend_spec r :
  match read_backend r with
  | Some (id, addr) =>
      (rr_enabled (rt_config r) = true ∧
       ∃ cfg, readable r id cfg ∧ addr = postgres_addr cfg ∧
       ∀ id' cfg', readable r id' cfg' →
         get_or 0 (replica_lag_bytes (rt_topology r)) id ≤
         get_or 0 (replica_lag_bytes (rt_topology r)) id') ∨
      (id = primary_node_id (rt_topology r) ∧ primary_addr r = Some addr ∧
       (rr_enabled (rt_config r) = true → ∀ id' cfg', ¬ readable r id' cfg'))
  | None => primary_addr r = None
  end.
Proof.
  unfold read_backend, primary_addr.
  set (lag := get_or 0 (replica_lag_bytes (rt_topology r))).
  destruct (rr_enabled (rt_config r)).
  2: { destruct (node_configs _ !! _); cbn; [right; split_and!; done|done]. }
  unfold best_replica_addr. destruct (sort_by lag_le _) as [|[[id cfg] l] rest] eqn:E; cbn.
  - assert (∀ id' cfg', ¬ readable r id' cfg') as Hno.
    { intros id' cfg' Hr.
      assert ((id', cfg', lag id') ∈ replica_candidates r) as Hin
        by by apply elem_of_replica_candidates.
      rewrite <-(elem_of_sort_by lag_le), E in Hin. by apply not_elem_of_nil in Hin. }
    destruct (node_configs _ !! _); cbn; [right; split_and!; done|done].
  - left. split; [done|]. assert ((id, cfg, l) ∈ replica_candidates r) as Hin
      by (rewrite <-(elem_of_sort_by lag_le), E; left).
    apply elem_of_replica_candidates in Hin as [Hr ->]. exists cfg. split_and!; [done..|].
    intros id' cfg' Hr'. apply Z.leb_le.
    change (lag_le (id, cfg, lag id) (id', cfg', lag id') = true).
    eapply sort_by_head; [apply lag_le_total|apply lag_le_trans|done|].
    by apply elem_of_replica_candidates.
Qed.

End router_proofs.
