(* ===== verification/Pool.v ===== *)
(** The backend connection pool: src/pgcluster/src/proxy/pool.rs, with the
    flags of src/pgcluster/src/proxy/backend.rs it keeps.

    A bucket is its idle connections (in the order of the source's [Vec]), the
    count of live connections, and its limit. What the network decides is an
    argument: whether a connection is alive when it is looked at, and whether
    a login succeeds. A connection remembers the key it was opened for, which
    the source does not store but the login used.

    The theorems: over every history of pool operations a bucket's count minus
    its idle connections is the number handed out and not returned; a session
    is only handed a connection opened for its own key, as long as database and
    user names hold no vertical bar. *)
From S2P Require Import Prelude.

Local Open Scope Z_scope.

(** ** Keys and connections *)

Record PoolKey := mkPoolKey { key_database : string; key_user : string; key_backend : string }.

Definition pool_key (database user node_id addr : string) : PoolKey :=
  mkPoolKey database user (node_id ++ ":" ++ addr).

Definition string_key (k : PoolKey) : string :=
  (key_database k ++ "|" ++ key_user k ++ "|" ++ key_backend k)%string.

Record BackendConnection := mkConn {
  conn_id : Z;
  opened_for : PoolKey;
  in_use : bool;
  last_used : Z
}.

Definition mark (b : bool) (c : BackendConnection) : BackendConnection :=
  mkConn (conn_id c) (opened_for c) b (last_used c).
Definition mark_in_use : BackendConnection → BackendConnection := mark true.
Definition mark_idle : BackendConnection → BackendConnection := mark false.
Definition touch (now : Z) (c : BackendConnection) : BackendConnection :=
  mkConn (conn_id c) (opened_for c) (in_use c) now.

(** Instants are seconds; [elapsed().as_secs()]. *)
Definition is_idle_too_long (now timeout : Z) (c : BackendConnection) : bool :=
  timeout <? saturating_sub now (last_used c).

(** ** Buckets *)

Record PoolBucket := mkBucket { idle : list BackendConnection; total : Z; bucket_max : Z }.

Definition bucket_new (max : Z) : PoolBucket := mkBucket [] 0 max.
Definition increment (b : PoolBucket) : PoolBucket := mkBucket (idle b) (total b + 1) (bucket_max b).
Definition decrement (b : PoolBucket) : PoolBucket := mkBucket (idle b) (total b - 1) (bucket_max b).
Definition set_idle (l : list BackendConnection) (b : PoolBucket) : PoolBucket :=
  mkBucket l (total b) (bucket_max b).

Section operations.
(** Whether a poll of the connection finds it alive. *)
Context (alive : BackendConnection → bool).

(** The fast path: pop from the end until a connection is alive; the dead ones
    are dropped and uncounted. The list is the idle connections, last first. *)
Fixpoint pop_alive (rev_idle : list BackendConnection) (b : PoolBucket)
    : option BackendConnection * PoolBucket :=
  match rev_idle with
  | [] => (None, set_idle [] b)
  | c :: rest =>
      if alive c then (Some (mark_in_use c), set_idle (reverse rest) b)
      else pop_alive rest (decrement b)
  end.

Inductive acquired := Got (c : BackendConnection) | OpenFailed | Wait.

(** One turn of the loop of [acquire]. [login] is the connection a login for
    the session opens, if it succeeds. *)
Definition acquire_turn (login : option BackendConnection) (b : PoolBucket)
    : acquired * PoolBucket :=
  match pop_alive (reverse (idle b)) b with
  | (Some c, b) => (Got c, b)
  | (None, b) =>
      if total b <? bucket_max b then
        let b := increment b in
        match login with
        | Some c => (Got (mark_in_use c), b)
        | None => (OpenFailed, decrement b)
        end
      else (Wait, b)
  end.

Definition release_bucket (now : Z) (c : BackendConnection) (b : PoolBucket) : PoolBucket :=
  let c := mark_idle c in
  if alive c then set_idle (idle b ++ [touch now c]) b else decrement b.

(** [idle.remove(0)] of an empty list panics, which is [None]. *)
Definition inject_bucket (now : Z) (c : BackendConnection) (b : PoolBucket) : option PoolBucket :=
  let b := increment b in
  let c := touch now (mark_idle c) in
  if bucket_max b <=? Z.of_nat (length (idle b)) then
    match idle b with
    | [] => None
    | _ :: rest => let b := decrement (set_idle rest b) in Some (set_idle (idle b ++ [c]) b)
    end
  else Some (set_idle (idle b ++ [c]) b).

End operations.

Fixpoint decrement_n (n : nat) (b : PoolBucket) : PoolBucket :=
  match n with O => b | S n' => decrement_n n' (decrement b) end.

Definition drain_bucket (b : PoolBucket) : PoolBucket :=
  decrement_n (length (idle b)) (set_idle [] b).

(** The loop of [evict_idle] over one bucket's connections. *)
Fixpoint evict_list (now timeout : Z) (l kept : list BackendConnection) (b : PoolBucket)
    : PoolBucket :=
  match l with
  | [] => set_idle kept b
  | c :: l' =>
      if is_idle_too_long now timeout c then evict_list now timeout l' kept (decrement b)
      else evict_list now timeout l' (kept ++ [c]) b
  end.

Definition evict_bucket (now timeout : Z) (b : PoolBucket) : PoolBucket :=
  evict_list now timeout (idle b) [] b.

(** ** The pool *)

Record PoolConfig := mkPoolConfig {
  max_connections_per_db_user : Z;
  idle_timeout_seconds : Z;
  connect_timeout_seconds : Z
}.

Record ConnectionPool := mkPool { pools : gmap string PoolBucket; pool_config : PoolConfig }.

Definition pool_new (c : PoolConfig) : ConnectionPool := mkPool ∅ c.

(** [entry(..).or_insert_with(..)]. *)
Definition bucket_of (skey : string) (p : ConnectionPool) : PoolBucket :=
  default (bucket_new (max_connections_per_db_user (pool_config p))) (pools p !! skey).

Definition put_bucket (skey : string) (b : PoolBucket) (p : ConnectionPool) : ConnectionPool :=
  mkPool (<[skey := b]> (pools p)) (pool_config p).

Definition acquire (alive : BackendConnection → bool) (login : option BackendConnection)
    (k : PoolKey) (p : ConnectionPool) : acquired * ConnectionPool :=
  let skey := string_key k in
  let '(r, b) := acquire_turn alive login (bucket_of skey p) in (r, put_bucket skey b p).

Definition release (alive : BackendConnection → bool) (now : Z) (k : PoolKey)
    (c : BackendConnection) (p : ConnectionPool) : ConnectionPool :=
  let skey := string_key k in
  match pools p !! skey with
  | None => p
  | Some b => put_bucket skey (release_bucket alive now c b) p
  end.

Definition inject (now : Z) (k : PoolKey) (c : BackendConnection) (p : ConnectionPool)
    : option ConnectionPool :=
  let skey := string_key k in
  b ← inject_bucket now c (bucket_of skey p); Some (put_bucket skey b p).

(** Keys are matched by substring. *)
Definition drain_backend (backend_addr : string) (p : ConnectionPool) : ConnectionPool :=
  mkPool (map_imap (λ k b, Some (if str_contains backend_addr k then drain_bucket b else b)) (pools p))
    (pool_config p).

Definition evict_idle (now : Z) (p : ConnectionPool) : ConnectionPool :=
  mkPool (evict_bucket now (idle_timeout_seconds (pool_config p)) <$> pools p) (pool_config p).

(** ** Specifications *)

(** The operations sessions and background tasks perform, each with what the
    network decides during it. *)
Inductive pool_op :=
| Acquire (alive : BackendConnection → bool) (login : option BackendConnection) (k : PoolKey)
| Release (alive : BackendConnection → bool) (now : Z) (k : PoolKey) (c : BackendConnection)
| Inject (now : Z) (k : PoolKey) (c : BackendConnection)
| Drain (addr : string)
| Evict (now : Z).

(** The state after an operation; an injection that panics changes nothing
    the model follows. *)
Definition pool_step (p : ConnectionPool) (op : pool_op) : ConnectionPool :=
  match op with
  | Acquire alive login k => (acquire alive login k p).2
  | Release alive now k c => release alive now k c p
  | Inject now k c => default p (inject now k c p)
  | Drain addr => drain_backend addr p
  | Evict now => evict_idle now p
  end.

(** Connections of a bucket that sessions hold. *)
Definition outstanding (skey : string) (p : ConnectionPool) : Z :=
  let b := bucket_of skey p in total b - Z.of_nat (length (idle b)).

(** What an operation adds to the connections handed out from a bucket. *)
Definition delta (skey : string) (p : ConnectionPool) (op : pool_op) : Z :=
  match op with
  | Acquire alive login k =>
      if bool_decide (string_key k = skey)
      then match (acquire alive login k p).1 with Got _ => 1 | _ => 0 end else 0
  | Release _ _ k _ =>
      if bool_decide (string_key k = skey)
      then match pools p !! skey with Some _ => -1 | None => 0 end else 0
  | _ => 0
  end.

Fixpoint balance (skey : string) (p : ConnectionPool) (ops : list pool_op) : Z :=
  match ops with
  | [] => 0
  | op :: ops' => delta skey p op + balance skey (pool_step p op) ops'
  end.

Definition run_pool (p : ConnectionPool) (ops : list pool_op) : ConnectionPool :=
  foldl pool_step p ops.

(** A name that cannot be confused in a string key. *)
Definition no_bar (s : string) : Prop := str_exists (Ascii.eqb "|") s = false.
Definition clean_key (k : PoolKey) : Prop := no_bar (key_database k) ∧ no_bar (key_user k).

(** The operations of sessions with such names: a connection a login or an
    injection brings was opened for the key it is used under, and a session
    returns a connection under the key it holds it by. *)
Definition op_honest (op : pool_op) : Prop :=
  match op with
  | Acquire _ login k => clean_key k ∧ match login with Some c => opened_for c = k | None => True end
  | Release _ _ k c | Inject _ k c => clean_key k ∧ opened_for c = k
  | Drain _ | Evict _ => True
  end.

(** Every idle connection was opened for the key of its bucket. *)
Definition pool_owned (p : ConnectionPool) : Prop :=
  ∀ skey b c, pools p !! skey = Some b → c ∈ idle b →
    string_key (opened_for c) = skey ∧ clean_key (opened_for c).

(** ** Accounting *)

Definition gap (b : PoolBucket) : Z := total b - Z.of_nat (length (idle b)).

Lemma pop_alive_gap alive l b :
  let '(r, b') := pop_alive alive l b in
  gap b' = total b - Z.of_nat (length l) + match r with Some _ => 1 | None => 0 end ∧
  bucket_max b' = bucket_max b.
Proof.
  revert b. induction l as [|c l IH]; intros b; cbn [pop_alive]; [unfold gap; cbn; lia|].
  destruct (alive c).
  - unfold gap. cbn. rewrite length_reverse. lia.
  - specialize (IH (decrement b)). destruct (pop_alive alive l (decrement b)) as [r b'].
    cbn in IH. cbn [length]. lia.
Qed.

Lemma acquire_turn_gap alive login b :
  gap (acquire_turn alive login b).2 =
  gap b + match (acquire_turn alive login b).1 with Got _ => 1 | _ => 0 end.
Proof.
  unfold acquire_turn. pose proof (pop_alive_gap alive (reverse (idle b)) b) as Hp.
  destruct (pop_alive _ _ b) as [[c|] b1]; rewrite length_reverse in Hp; fold (gap b) in Hp;
    destruct Hp as [Hp _]; cbn [fst snd]; [lia|].
  destruct (total b1 <? bucket_max b1); [|cbn; lia].
  destruct login; unfold gap in *; cbn in *; lia.
Qed.

Lemma release_bucket_gap alive now c b : gap (release_bucket alive now c b) = gap b - 1.
Proof.
  unfold release_bucket, gap. destruct (alive _); cbn; [rewrite length_app; cbn|]; lia.
Qed.

Lemma inject_bucket_gap now c b b' : inject_bucket now c b = Some b' → gap b' = gap b.
Proof.
  unfold inject_bucket, gap. cbn. destruct (_ <=? _).
  - destruct (idle b) as [|c0 l] eqn:E; [done|]. intros [= <-]. cbn. rewrite length_app. cbn. lia.
  - intros [= <-]. cbn. rewrite length_app. cbn. lia.
Qed.

Lemma decrement_n_spec n b :
  total (decrement_n n b) = total b - Z.of_nat n ∧ idle (decrement_n n b) = idle b.
Proof.
  revert b. induction n as [|n IH]; intros b; cbn [decrement_n]; [split; [lia|done]|].
  destruct (IH (decrement b)) as [-> ->]. cbn. split; [lia|done].
Qed.

Lemma drain_bucket_gap b : gap (drain_bucket b) = gap b.
Proof.
  unfold drain_bucket, gap. destruct (decrement_n_spec (length (idle b)) (set_idle [] b)) as [-> ->].
  cbn. lia.
Qed.

Lemma evict_list_gap now timeout l kept b :
  gap (evict_list now timeout l kept b) = total b - Z.of_nat (length kept) - Z.of_nat (length l).
Proof.
  revert kept b. induction l as [|c l IH]; intros kept b; cbn [evict_list]; [unfold gap; cbn; lia|].
  destruct (is_idle_too_long now timeout c); rewrite IH; cbn [decrement total]; [cbn [length]; lia|].
  rewrite length_app. cbn [length]. lia.
Qed.

Lemma evict_bucket_gap now timeout b : gap (evict_bucket now timeout b) = gap b.
Proof. unfold evict_bucket. rewrite evict_list_gap. unfold gap. cbn. lia. Qed.

Lemma bucket_of_put skey skey' b p :
  bucket_of skey (put_bucket skey' b p) = if decide (skey' = skey) then b else bucket_of skey p.
Proof.
  unfold bucket_of, put_bucket. cbn [pools pool_config]. case_decide as E.
  - subst. by rewrite lookup_insert_eq.
  - by rewrite lookup_insert_ne.
Qed.

(** Every operation moves the connections held by its own delta. *)
Lemma pool_step_outstanding skey p op :
  outstanding skey (pool_step p op) = outstanding skey p + delta skey p op.
Proof.
  unfold outstanding. change (gap (bucket_of skey (pool_step p op)) =
    gap (bucket_of skey p) + delta skey p op).
  destruct op as [alive login k|alive now k c|now k c|addr|now]; cbn [pool_step delta].
  - unfold acquire. destruct (acquire_turn alive login _) as [r b] eqn:E. cbn [fst snd].
    rewrite bucket_of_put. case_bool_decide as Hk; destruct (decide _); try done; [|lia].
    pose proof (acquire_turn_gap alive login (bucket_of (string_key k) p)) as Hg.
    rewrite E in Hg. cbn [fst snd] in Hg. by rewrite <-Hk.
  - unfold release. destruct (pools p !! string_key k) as [b|] eqn:E.
    + rewrite bucket_of_put. case_bool_decide as Hk; destruct (decide _); try done; [|lia].
      subst skey. rewrite E, release_bucket_gap. unfold bucket_of. rewrite E. cbn. lia.
    + case_bool_decide as Hk; [subst skey; rewrite E|]; lia.
  - unfold inject. destruct (inject_bucket now c _) as [b|] eqn:E; cbn; [|lia].
    apply inject_bucket_gap in E. rewrite bucket_of_put. case_decide as Hk; [|lia].
    subst skey. rewrite E. lia.
  - unfold bucket_of, drain_backend. cbn. rewrite map_lookup_imap.
    destruct (pools p !! skey) as [b|]; cbn; [|lia].
    destruct (str_contains addr skey); [rewrite drain_bucket_gap|]; lia.
  - unfold bucket_of, evict_idle. cbn. rewrite lookup_fmap.
    destruct (pools p !! skey) as [b|]; cbn; [rewrite evict_bucket_gap|]; lia.
Qed.


(** ** Ownership *)

Lemma string_key_inj k1 k2 :
  clean_key k1 → clean_key k2 → string_key k1 = string_key k2 → k1 = k2.
Proof.
  destruct k1 as [d1 u1 b1], k2 as [d2 u2 b2]. intros [Hd1 Hu1] [Hd2 Hu2]. unfold string_key.
  cbn in *. intros E.
  assert (Some (d1, (u1 ++ String "|" b1)%string) = Some (d2, (u2 ++ String "|" b2)%string)) as E1.
  { rewrite <-!(split_once_app "|") by done. f_equal. exact E. }
  injection E1 as -> E1.
  assert (Some (u1, b1) = Some (u2, b2)) as [= -> ->]; [|done].
  rewrite <-!(split_once_app "|") by done. by f_equal.
Qed.

Lemma pop_alive_elem alive l b :
  let '(r, b') := pop_alive alive l b in
  (∀ c, r = Some c → ∃ c0, c0 ∈ l ∧ opened_for c = opened_for c0) ∧ ∀ c, c ∈ idle b' → c ∈ l.
Proof.
  revert b. induction l as [|c l IH]; intros b; cbn [pop_alive].
  - split; [done|]. cbn. done.
  - destruct (alive c).
    + split.
      * intros c' [= <-]. exists c. split; [by left|done].
      * cbn [idle set_idle]. intros c' Hc. rewrite elem_of_reverse in Hc. by right.
    + specialize (IH (decrement b)). destruct (pop_alive alive l (decrement b)) as [r b'].
      destruct IH as [IH1 IH2]. split; [|intros; right; by apply IH2].
      intros c' Hc. destruct (IH1 c' Hc) as (c0 & ? & ?). exists c0. split; [by right|done].
Qed.

(** A connection that may sit in the bucket of a key. *)
Definition owned_by (skey : string) (c : BackendConnection) : Prop :=
  string_key (opened_for c) = skey ∧ clean_key (opened_for c).

Definition bucket_owned (skey : string) (b : PoolBucket) : Prop := ∀ c, c ∈ idle b → owned_by skey c.

Lemma bucket_of_owned skey p : pool_owned p → bucket_owned skey (bucket_of skey p).
Proof.
  intros Hp c. unfold bucket_of. destruct (pools p !! skey) as [b|] eqn:E; cbn.
  - intros Hc. exact (Hp _ _ _ E Hc).
  - intros Hc. by apply not_elem_of_nil in Hc.
Qed.

Lemma put_bucket_owned skey b p : pool_owned p → bucket_owned skey b → pool_owned (put_bucket skey b p).
Proof.
  intros Hp Hb skey' b' c. cbn. rewrite lookup_insert_Some. intros [[<- <-]|[_ ?]]; eauto. apply Hb.
Qed.

Lemma acquire_turn_owned alive login skey b :
  bucket_owned skey b → (∀ c, login = Some c → owned_by skey c) →
  bucket_owned skey (acquire_turn alive login b).2 ∧
  ∀ c, (acquire_turn alive login b).1 = Got c → owned_by skey c.
Proof.
  intros Hb Hl. unfold acquire_turn. pose proof (pop_alive_elem alive (reverse (idle b)) b) as Hp.
  destruct (pop_alive _ _ b) as [[c|] b1]; destruct Hp as [H1 H2]; cbn [fst snd].
  - split; [intros c' Hc'%H2; rewrite elem_of_reverse in Hc'; eauto|].
    intros c' [= <-]. destruct (H1 c eq_refl) as (c0 & Hc0 & E).
    rewrite elem_of_reverse in Hc0.
    unfold owned_by. rewrite E. by apply Hb.
  - assert (bucket_owned skey b1) as Hb1.
    { intros c' Hc'%H2. rewrite elem_of_reverse in Hc'. eauto. }
    destruct (total b1 <? bucket_max b1); [|done].
    destruct login as [c|]; cbn; [|done]. split; [exact Hb1|].
    intros c' [= <-]. by apply (Hl c).
Qed.

Lemma evict_list_elem now timeout l kept b c :
  c ∈ idle (evict_list now timeout l kept b) → c ∈ kept ∨ c ∈ l.
Proof.
  revert kept b. induction l as [|c0 l IH]; intros kept b; cbn [evict_list]; [by left|].
  destruct (is_idle_too_long now timeout c0); intros [H|H]%IH; set_solver.
Qed.

Lemma pool_step_owned p op : op_honest op → pool_owned p → pool_owned (pool_step p op).
Proof.
  intros Hop Hp. destruct op as [alive login k|alive now k c|now k c|addr|now]; cbn [pool_step].
  - destruct Hop as [Hk Hl]. unfold acquire.
    pose proof (acquire_turn_owned alive login (string_key k) (bucket_of (string_key k) p)
      (bucket_of_owned _ _ Hp)) as Ha.
    destruct (acquire_turn _ _ _) as [r b]. apply put_bucket_owned; [done|]. apply Ha.
    intros c ->. by subst k.
  - destruct Hop as [Hk <-]. unfold release. destruct (pools p !! _) as [b|] eqn:E; [|done].
    apply put_bucket_owned; [done|]. unfold release_bucket. destruct (alive _).
    + intros c'. cbn. intros [Hc'| ->%list_elem_of_singleton]%elem_of_app; [|done].
      exact (Hp _ _ _ E Hc').
    + intros c' Hc'. exact (Hp _ _ _ E Hc').
  - destruct Hop as [Hk <-]. unfold inject.
    destruct (inject_bucket now c _) as [b|] eqn:E; cbn; [|done]. apply put_bucket_owned; [done|].
    pose proof (bucket_of_owned (string_key (opened_for c)) p Hp) as Hb. unfold inject_bucket in E.
    cbn in E. destruct (_ <=? _); [destruct (idle (bucket_of _ p)) as [|c0 l] eqn:El; [done|]|];
      simplify_eq; intros c'; cbn; intros [Hc'| ->%list_elem_of_singleton]%elem_of_app; try done;
      apply Hb; [rewrite El; by right|done].
  - intros skey b c. cbn. rewrite map_lookup_imap. destruct (pools p !! skey) as [b0|] eqn:E; [|done].
    cbn. intros [= <-]. destruct (str_contains addr skey); [|by apply Hp].
    unfold drain_bucket. destruct (decrement_n_spec (length (idle b0)) (set_idle [] b0)) as [_ ->].
    cbn. intros Hc. by apply not_elem_of_nil in Hc.
  - intros skey b c. cbn. rewrite lookup_fmap. destruct (pools p !! skey) as [b0|] eqn:E; [|done].
    cbn. intros [= <-] [Hc|Hc]%evict_list_elem; [by apply not_elem_of_nil in Hc|by eapply Hp].
Qed.

Lemma run_pool_owned p ops : Forall op_honest ops → pool_owned p → pool_owned (run_pool p ops).
Proof.
  intros Hops. revert p. induction Hops as [|op ops Ho Hops IH]; intros p Hp; [done|].
  apply (IH (pool_step p op)). by apply pool_step_owned.
Qed.

(** As long as no database or user name holds a vertical bar, a session is
    only ever handed a connection that was opened for its own database, user
    and backend. *)
Theorem pool_hands_own_connections config ops alive login k c :
  Forall op_honest ops → op_honest (Acquire alive login k) →
  (acquire alive login k (run_pool (pool_new config) ops)).1 = Got c → opened_for c = k.
Proof.
  intros Hops Hk Hg.
  assert (pool_owned (run_pool (pool_new config) ops)) as Hp by (by apply run_pool_owned).
  destruct Hk as [Hk Hl]. unfold acquire in Hg.
  pose proof (acquire_turn_owned alive login (string_key k)
    (bucket_of (string_key k) (run_pool (pool_new config) ops)) (bucket_of_owned _ _ Hp)) as Ha.
  destruct (acquire_turn _ _ _) as [r b]. cbn in Hg, Ha. subst r.
  destruct Ha as [_ Ha]; [intros c' ->; by subst k|].
  destruct (Ha c eq_refl) as [E Hc]. by apply string_key_inj.
Qed.

Lemma pool_hands_own_connections_witness :
  let k := pool_key "app" "alice" "pg1" "10.0.0.1:5432" in
  opened_for (mkConn 1 k true 0) = k.
Proof.
  intros k.
  apply (pool_hands_own_connections (mkPoolConfig 25 600 5) [Inject 0 k (mkConn 1 k false 0)]
    (λ _, true) None k (mkConn 1 k true 0)).
  - repeat constructor.
  - repeat constructor.
  - reflexivity.
Defined.

(** With a bar in a name, two keys share one bucket: the second user is handed
    the first user's connection. *)
Lemma bar_shares_bucket :
  let k1 := pool_key "a|b" "c" "pg1" "h:1" in
  let k2 := pool_key "a" "b|c" "pg1" "h:1" in
  let p := run_pool (pool_new (mkPoolConfig 25 600 5)) [Inject 0 k1 (mkConn 1 k1 false 0)] in
  ∃ c, (acquire (λ _, true) None k2 p).1 = Got c ∧ opened_for c = k1 ∧ k1 ≠ k2.
Proof. eexists. split; [reflexivity|]. split; [reflexivity|done]. Qed.

(** A bucket can hold more idle connections than its limit. *)
Lemma idle_exceeds_max :
  let k := pool_key "a" "b" "n" "h:1" in
  let c := mkConn 1 k false 0 in
  let p := run_pool (pool_new (mkPoolConfig 1 600 5))
    [Acquire (λ _, true) (Some c) k; Inject 0 k (mkConn 2 k false 0);
     Release (λ _, true) 0 k (mark_in_use c)] in
  length (idle (bucket_of (string_key k) p)) = 2%nat.
Proof. reflexivity. Qed.

(** With a limit of zero every login panics at the injection. *)
Lemma inject_zero_max_panics now k c :
  inject now k c (pool_new (mkPoolConfig 0 600 5)) = None.
Proof. reflexivity. Qed.

(** Two tasks that both read the count before either reserves go over the
    limit. *)
Lemma reserve_race :
  let b := mkBucket [] 24 25 in
  (total b <? bucket_max b) = true ∧
  bucket_max (increment (increment b)) < total (increment (increment b)).
Proof. cbn. lia. Qed.
