(* ===== verification/Admission.v ===== *)
(** Admission of clients: src/pgcluster/src/proxy/limits.rs and
    src/pgcluster/src/proxy/allowlist.rs.

    [admit] takes three resources in turn (the total semaphore, the per-address
    count under its lock, the pending semaphore). Connections are admitted
    concurrently, so the system is a step relation in which each connection
    stands in a phase and every acquisition and release is its own step. The
    theorem is the invariant that ties the semaphores and counters to the
    connections in each phase, from which the caps follow and the counter never
    underflows. The parser of CIDR texts and the network type belong to the
    ipnet crate and are parameters of the allowlist. *)
From S2P Require Import Prelude.

Local Open Scope Z_scope.

(** ** Addresses *)

(** [std::net::IpAddr]: the bits of the address. *)
Inductive IpAddr := V4 (a : Z) | V6 (a : Z).

Global Instance IpAddr_eq_dec : EqDecision IpAddr.
Proof. solve_decision. Defined.

Global Instance IpAddr_countable : Countable IpAddr.
Proof.
  refine (inj_countable' (λ a, match a with V4 z => inl z | V6 z => inr z end)
    (λ s, match s with inl z => V4 z | inr z => V6 z end) _).
  by intros [].
Defined.

(** [IpAddr::to_canonical]: [::ffff:a.b.c.d] is [a.b.c.d]. *)
Definition to_canonical (a : IpAddr) : IpAddr :=
  match a with
  | V4 z => V4 z
  | V6 z => if Z.shiftr z 32 =? 0xFFFF then V4 (wrap 32 z) else V6 z
  end.

(** ** Allowlist *)

Section allowlist.
Context {IpNet : Type} (parse_net : string → option IpNet) (contains : IpNet → IpAddr → bool).

Inductive Allowlist := Open | Only (nets : list IpNet).

Definition allowlist_parse (cidrs : option (list string)) : option Allowlist :=
  match cidrs with
  | None => Some Open
  | Some l => Only <$> mapM parse_net l
  end.

Definition allows (l : Allowlist) (addr : IpAddr) : bool :=
  match l with
  | Open => true
  | Only nets => let addr := to_canonical addr in existsb (λ net, contains net addr) nets
  end.

(** One SIGHUP: [reloaded] is the configured list, if the file parses. *)
Definition reload (reloaded : option (option (list string))) (current : Allowlist) : Allowlist :=
  default current (reloaded ≫= allowlist_parse).

End allowlist.
Arguments Open {IpNet}.
Arguments Only {IpNet} nets.

(** ** Connection limits *)

Record ConnectionLimits := mkLimits {
  total_free : nat;
  pending_free : nat;
  per_address : gmap IpAddr nat;
  per_address_max : nat
}.

Definition limits_with (total pending per_addr : nat) : ConnectionLimits :=
  mkLimits total pending ∅ per_addr.

(** [Semaphore::try_acquire_owned] and dropping a permit. *)
Definition acquire_total (l : ConnectionLimits) : option ConnectionLimits :=
  match total_free l with
  | O => None
  | S n => Some (mkLimits n (pending_free l) (per_address l) (per_address_max l))
  end.
Definition drop_total (l : ConnectionLimits) : ConnectionLimits :=
  mkLimits (S (total_free l)) (pending_free l) (per_address l) (per_address_max l).
Definition acquire_pending (l : ConnectionLimits) : option ConnectionLimits :=
  match pending_free l with
  | O => None
  | S n => Some (mkLimits (total_free l) n (per_address l) (per_address_max l))
  end.
Definition drop_pending (l : ConnectionLimits) : ConnectionLimits :=
  mkLimits (total_free l) (S (pending_free l)) (per_address l) (per_address_max l).

Definition set_counts (m : gmap IpAddr nat) (l : ConnectionLimits) : ConnectionLimits :=
  mkLimits (total_free l) (pending_free l) m (per_address_max l).

(** The section of [admit] under the lock: whether the address is below its
    cap, and the counts after. [or_default] leaves a zero behind on refusal. *)
Definition count_address (addr : IpAddr) (l : ConnectionLimits) : bool * ConnectionLimits :=
  let c := default 0%nat (per_address l !! addr) in
  if (per_address_max l <=? c)%nat then (false, set_counts (<[addr := c]> (per_address l)) l)
  else (true, set_counts (<[addr := S c]> (per_address l)) l).

(** The free function [release]; [None] is the underflow of [*count -= 1]. *)
Definition release_address (addr : IpAddr) (l : ConnectionLimits) : option ConnectionLimits :=
  match per_address l !! addr with
  | None => Some l
  | Some O => None
  | Some (S O) => Some (set_counts (delete addr (per_address l)) l)
  | Some (S n) => Some (set_counts (<[addr := n]> (per_address l)) l)
  end.

(** [admit] run without interruption: whether the connection is admitted. *)
Definition try_admit (addr : IpAddr) (l : ConnectionLimits) : option (bool * ConnectionLimits) :=
  match acquire_total l with
  | None => Some (false, l)
  | Some l =>
      match count_address addr l with
      | (false, l) => Some (false, drop_total l)
      | (true, l) =>
          match acquire_pending l with
          | Some l => Some (true, l)
          | None => l ← release_address addr l; Some (false, drop_total l)
          end
      end
  end.

(** ** Concurrent admission *)

(** How far a connection has come. *)
Inductive phase := GotTotal | Counted | Pending | LoggedIn.

Record admission := mkAdmission { limits : ConnectionLimits; conns : gmap Z (IpAddr * phase) }.

(** One step of one connection. The steps of [admit], [LoginGuard::finish] and
    the drops are interleaved freely. *)
Inductive admission_step : admission → admission → Prop :=
| step_total l l' m i addr :
    m !! i = None → acquire_total l = Some l' →
    admission_step (mkAdmission l m) (mkAdmission l' (<[i := (addr, GotTotal)]> m))
| step_refuse_address l l' m i addr :
    m !! i = Some (addr, GotTotal) → count_address addr l = (false, l') →
    admission_step (mkAdmission l m) (mkAdmission (drop_total l') (delete i m))
| step_count l l' m i addr :
    m !! i = Some (addr, GotTotal) → count_address addr l = (true, l') →
    admission_step (mkAdmission l m) (mkAdmission l' (<[i := (addr, Counted)]> m))
| step_refuse_pending l l' m i addr :
    m !! i = Some (addr, Counted) → acquire_pending l = None → release_address addr l = Some l' →
    admission_step (mkAdmission l m) (mkAdmission (drop_total l') (delete i m))
| step_pending l l' m i addr :
    m !! i = Some (addr, Counted) → acquire_pending l = Some l' →
    admission_step (mkAdmission l m) (mkAdmission l' (<[i := (addr, Pending)]> m))
| step_finish l l' m i addr :
    m !! i = Some (addr, Pending) → release_address addr (drop_pending l) = Some l' →
    admission_step (mkAdmission l m) (mkAdmission l' (<[i := (addr, LoggedIn)]> m))
| step_drop_pending l l' m i addr :
    m !! i = Some (addr, Pending) → release_address addr (drop_pending l) = Some l' →
    admission_step (mkAdmission l m) (mkAdmission (drop_total l') (delete i m))
| step_drop l m i addr :
    m !! i = Some (addr, LoggedIn) →
    admission_step (mkAdmission l m) (mkAdmission (drop_total l) (delete i m)).

Inductive reachable (total pending per_addr : nat) : admission → Prop :=
| reach_start : reachable total pending per_addr (mkAdmission (limits_with total pending per_addr) ∅)
| reach_step a a' :
    reachable total pending per_addr a → admission_step a a' → reachable total pending per_addr a'.

(** ** Specifications *)

(** The connections that satisfy a test. *)
Definition count_conns (P : IpAddr * phase → bool) (m : gmap Z (IpAddr * phase)) : nat :=
  map_fold (λ _ c n, if P c then S n else n) 0%nat m.

(** Counted against their address, and holding a pending permit. *)
Definition counts_for (addr : IpAddr) (c : IpAddr * phase) : bool :=
  bool_decide (c.1 = addr) && match c.2 with Counted | Pending => true | _ => false end.
Definition is_pending (c : IpAddr * phase) : bool :=
  match c.2 with Pending => true | _ => false end.

Record admission_inv (total pending per_addr : nat) (a : admission) : Prop := mkInv {
  inv_total : (total_free (limits a) + count_conns (λ _, true) (conns a) = total)%nat;
  inv_pending : (pending_free (limits a) + count_conns is_pending (conns a) = pending)%nat;
  inv_address : ∀ addr,
    default 0%nat (per_address (limits a) !! addr) = count_conns (counts_for addr) (conns a);
  inv_cap : ∀ addr, (default 0%nat (per_address (limits a) !! addr) ≤ per_addr)%nat;
  inv_max : per_address_max (limits a) = per_addr
}.

(** ** Counting connections *)

Definition b2n (b : bool) : nat := if b then 1%nat else 0%nat.

Lemma count_insert P m i c :
  m !! i = None → count_conns P (<[i := c]> m) = (b2n (P c) + count_conns P m)%nat.
Proof.
  intros Hi. unfold count_conns. rewrite map_fold_insert_L.
  - by destruct (P c).
  - intros j1 j2 z1 z2 y _ _ _. by destruct (P z1), (P z2).
  - done.
Qed.

Lemma count_lookup P m i c :
  m !! i = Some c → count_conns P m = (b2n (P c) + count_conns P (delete i m))%nat.
Proof.
  intros Hi. rewrite <-(insert_delete_id m i c) at 1 by done.
  by apply count_insert, lookup_delete_eq.
Qed.

Lemma count_update P m i c c' :
  m !! i = Some c →
  count_conns P (<[i := c']> m) = (b2n (P c') + count_conns P (delete i m))%nat.
Proof.
  intros Hi. rewrite <-insert_delete_eq. by apply count_insert, lookup_delete_eq.
Qed.

(** The count of one address after the counter of another, or the same, has
    changed. *)
Lemma default_insert (m : gmap IpAddr nat) addr addr' n :
  default 0%nat (<[addr := n]> m !! addr') =
  if decide (addr = addr') then n else default 0%nat (m !! addr').
Proof. case_decide; [subst; by rewrite lookup_insert_eq|by rewrite lookup_insert_ne]. Qed.

Lemma count_address_spec addr l ok l' :
  count_address addr l = (ok, l') →
  total_free l' = total_free l ∧ pending_free l' = pending_free l ∧
  per_address_max l' = per_address_max l ∧
  (ok = true → (default 0%nat (per_address l !! addr) < per_address_max l)%nat) ∧
  ∀ a, default 0%nat (per_address l' !! a) =
    (default 0%nat (per_address l !! a) + b2n (ok && bool_decide (addr = a)))%nat.
Proof.
  unfold count_address. destruct (Nat.leb_spec (per_address_max l) (default 0%nat (per_address l !! addr)));
    intros [= <- <-]; cbn -[default]; split_and!; try done; intros a; rewrite default_insert;
    case_decide as E; subst; rewrite ?bool_decide_eq_true_2 by done; try lia;
    rewrite ?bool_decide_eq_false_2 by done; cbn; lia.
Qed.

Lemma release_address_spec addr l l' :
  release_address addr l = Some l' → per_address l !! addr ≠ None →
  total_free l' = total_free l ∧ pending_free l' = pending_free l ∧
  per_address_max l' = per_address_max l ∧
  ∀ a, (default 0%nat (per_address l' !! a) + b2n (bool_decide (addr = a)) =
    default 0%nat (per_address l !! a))%nat.
Proof.
  unfold release_address. destruct (per_address l !! addr) as [[|[|n]]|] eqn:E; try done;
    intros [= <-] _; cbn -[default]; split_and!; try done; intros a;
    destruct (decide (addr = a)) as [<-|Hne].
  - rewrite lookup_delete_eq, E, bool_decide_eq_true_2 by done. done.
  - rewrite lookup_delete_ne, bool_decide_eq_false_2 by done. cbn. lia.
  - rewrite lookup_insert_eq, E, bool_decide_eq_true_2 by done. cbn. lia.
  - rewrite lookup_insert_ne, bool_decide_eq_false_2 by done. cbn. lia.
Qed.

(** ** The invariant *)

(** A counted connection's address has a positive count. *)
Lemma inv_counted T P A a i addr ph :
  admission_inv T P A a → conns a !! i = Some (addr, ph) → counts_for addr (addr, ph) = true →
  ∃ n, per_address (limits a) !! addr = Some (S n).
Proof.
  intros [_ _ Hc _ _] Hi Hf. specialize (Hc addr).
  rewrite (count_lookup _ _ _ _ Hi), Hf in Hc. cbn in Hc.
  destruct (per_address (limits a) !! addr) as [[|n]|]; cbn in Hc; try lia. eauto.
Qed.

Lemma counts_for_self addr addr' ph :
  counts_for addr' (addr, ph) =
  bool_decide (addr = addr') && match ph with Counted | Pending => true | _ => false end.
Proof. done. Qed.

(** One connection [i] in phase [ph] moves to the phase [next], or leaves when
    there is none; the limits change by what the connection gives up and
    takes. *)
Definition moved (m : gmap Z (IpAddr * phase)) (i : Z) (addr : IpAddr) (next : option phase) :=
  match next with Some ph => <[i := (addr, ph)]> m | None => delete i m end.

Definition holds (f : phase → bool) (ph : option phase) : nat :=
  match ph with Some ph => b2n (f ph) | None => 0%nat end.

Lemma count_moved P m i addr ph next :
  m !! i = Some (addr, ph) →
  (count_conns P (moved m i addr next) + b2n (P (addr, ph)) =
   count_conns P m + holds (λ ph, P (addr, ph)) next)%nat.
Proof.
  intros Hi. rewrite (count_lookup P m i _ Hi). destruct next as [ph'|]; cbn [moved holds].
  - rewrite (count_update _ _ _ _ _ Hi). lia.
  - lia.
Qed.

Definition counted (ph : phase) : bool := match ph with Counted | Pending => true | _ => false end.

Lemma admission_move T P A l l' m i addr ph next :
  admission_inv T P A (mkAdmission l m) → m !! i = Some (addr, ph) →
  (total_free l' + holds (λ _, true) next = total_free l + 1)%nat →
  (pending_free l' + holds (λ ph, is_pending (addr, ph)) next =
   pending_free l + b2n (is_pending (addr, ph)))%nat →
  (∀ a, default 0%nat (per_address l' !! a) + b2n (bool_decide (addr = a) && counted ph) =
        default 0%nat (per_address l !! a) + holds (λ ph, bool_decide (addr = a) && counted ph) next)%nat →
  (∀ a, default 0%nat (per_address l' !! a) ≤ A)%nat →
  per_address_max l' = per_address_max l →
  admission_inv T P A (mkAdmission l' (moved m i addr next)).
Proof.
  intros [Ht Hp Ha Hcap Hmax] Hi Et Ep Ea Ecap Em. cbn in *.
  split; cbn [limits conns]; try done; [| | |congruence].
  - pose proof (count_moved (λ _, true) m i addr ph next Hi) as Hc. cbn [b2n] in Hc. lia.
  - pose proof (count_moved is_pending m i addr ph next Hi) as Hc. lia.
  - intros a. pose proof (count_moved (counts_for a) m i addr ph next Hi) as Hc.
    specialize (Ea a). specialize (Ha a). change (counts_for a (addr, ph)) with
      (bool_decide (addr = a) && counted ph) in Hc.
    assert (holds (λ ph, counts_for a (addr, ph)) next =
      holds (λ ph, bool_decide (addr = a) && counted ph) next) as E by done.
    lia.
Qed.

(** Giving a counted address back. *)
Lemma release_counted T P A l m i addr ph l0 l' :
  admission_inv T P A (mkAdmission l m) → m !! i = Some (addr, ph) → counted ph = true →
  per_address l0 = per_address l → release_address addr l0 = Some l' →
  total_free l' = total_free l0 ∧ pending_free l' = pending_free l0 ∧
  per_address_max l' = per_address_max l0 ∧
  (∀ a, default 0%nat (per_address l' !! a) + b2n (bool_decide (addr = a) && counted ph) =
    default 0%nat (per_address l !! a))%nat ∧
  (∀ a, default 0%nat (per_address l' !! a) ≤ A)%nat.
Proof.
  intros Hinv Hi Hph El Hr. destruct (inv_counted _ _ _ _ i addr ph Hinv Hi) as [n En].
  { rewrite counts_for_self, bool_decide_eq_true_2 by done. exact Hph. }
  cbn in En. apply release_address_spec in Hr as (E1 & E2 & E3 & E4); [|congruence].
  rewrite El in E4. split_and!; [done..| |]; intros a; specialize (E4 a).
  - by rewrite Hph, andb_true_r.
  - pose proof (inv_cap _ _ _ _ Hinv a) as Hc. cbn -[default] in Hc. lia.
Qed.

Lemma admission_step_inv T P A a a' :
  admission_inv T P A a → admission_step a a' → admission_inv T P A a'.
Proof.
  intros Hinv Hstep. destruct Hstep as
    [l l' m i addr Hi Hl|l l' m i addr Hi Hl|l l' m i addr Hi Hl|l l' m i addr Hi Hn Hl
    |l l' m i addr Hi Hl|l l' m i addr Hi Hl|l l' m i addr Hi Hl|l m i addr Hi].
  - destruct Hinv as [Ht Hp Ha Hcap Hmax]. unfold acquire_total in Hl. cbn in *.
    destruct (total_free l) as [|n] eqn:E; [done|]. injection Hl as <-.
    split; cbn -[default]; rewrite ?count_insert by done; cbn -[default]; try (done || lia).
    intros a. rewrite count_insert, counts_for_self, andb_false_r by done. apply Ha.
  - apply count_address_spec in Hl as (E1 & E2 & E3 & _ & E4). cbn [andb b2n] in E4.
    apply (admission_move T P A l _ m i addr GotTotal None Hinv Hi); cbn -[default]; try lia;
      intros a; specialize (E4 a); [rewrite andb_false_r; cbn -[default]; lia|].
    pose proof (inv_cap _ _ _ _ Hinv a). cbn -[default] in *. lia.
  - apply count_address_spec in Hl as (E1 & E2 & E3 & E5 & E4). cbn [andb] in E4.
    specialize (E5 eq_refl). rewrite (inv_max _ _ _ _ Hinv : per_address_max l = A) in E5.
    apply (admission_move T P A l _ m i addr GotTotal (Some Counted) Hinv Hi);
      cbn -[default b2n]; try (cbn; lia); intros a; specialize (E4 a).
    + rewrite andb_false_r, andb_true_r. cbn -[default b2n]. unfold b2n at 1. lia.
    + pose proof (inv_cap _ _ _ _ Hinv a) as Hc. cbn -[default] in Hc.
      case_bool_decide as Ead; cbn [b2n] in E4; [subst a|]; lia.
  - destruct (release_counted _ _ _ _ _ _ _ _ l l' Hinv Hi eq_refl eq_refl Hl)
      as (E1 & E2 & E3 & E4 & E5).
    apply (admission_move T P A l _ m i addr Counted None Hinv Hi); cbn -[default] in *; try lia;
      try done. intros a. specialize (E4 a). lia.
  - unfold acquire_pending in Hl. destruct (pending_free l) as [|n] eqn:E; [done|]. injection Hl as <-.
    apply (admission_move T P A l _ m i addr Counted (Some Pending) Hinv Hi); cbn -[default]; try lia;
      try done. apply (inv_cap _ _ _ _ Hinv).
  - destruct (release_counted _ _ _ _ _ _ _ _ (drop_pending l) l' Hinv Hi eq_refl eq_refl Hl)
      as (E1 & E2 & E3 & E4 & E5).
    apply (admission_move T P A l _ m i addr Pending (Some LoggedIn) Hinv Hi); cbn -[default] in *;
      try lia; try done. intros a. specialize (E4 a). rewrite andb_false_r. cbn -[default]. lia.
  - destruct (release_counted _ _ _ _ _ _ _ _ (drop_pending l) l' Hinv Hi eq_refl eq_refl Hl)
      as (E1 & E2 & E3 & E4 & E5).
    apply (admission_move T P A l _ m i addr Pending None Hinv Hi); cbn -[default] in *; try lia;
      try done. intros a. specialize (E4 a). lia.
  - apply (admission_move T P A l _ m i addr LoggedIn None Hinv Hi); cbn -[default]; try lia; try done.
    + intros a. rewrite andb_false_r. cbn -[default]. lia.
    + apply (inv_cap _ _ _ _ Hinv).
Qed.

Lemma reachable_inv T P A a : reachable T P A a → admission_inv T P A a.
Proof.
  induction 1 as [|a a' _ IH Hs]; [|by eapply admission_step_inv].
  split; cbn [limits conns limits_with total_free pending_free per_address per_address_max];
    try done; try (intros addr; rewrite lookup_empty; cbn); by rewrite ?Nat.add_0_r || apply le_0_n.
Qed.

(** In every state concurrent clients can bring about, no more than the
    configured number of clients are connected, no more than the configured
    number are logging in, no address has more logins pending than its cap,
    and releasing the count of a login that is pending never underflows. *)
Theorem admission_caps T P A a :
  reachable T P A a →
  (count_conns (λ _, true) (conns a) ≤ T)%nat ∧
  (count_conns is_pending (conns a) ≤ P)%nat ∧
  (∀ addr, count_conns (counts_for addr) (conns a) ≤ A)%nat ∧
  (∀ i addr ph, conns a !! i = Some (addr, ph) → counted ph = true →
     is_Some (release_address addr (limits a))).
Proof.
  intros Hr%reachable_inv. pose proof Hr as [Ht Hp Ha Hcap _]. split_and!; try lia.
  - intros addr. rewrite <-Ha. apply Hcap.
  - intros i addr ph Hi Hph. destruct (inv_counted _ _ _ _ i addr ph Hr Hi) as [n En].
    { rewrite counts_for_self, bool_decide_eq_true_2 by done. exact Hph. }
    unfold release_address. rewrite En. destruct n; eauto.
Qed.

Lemma admission_caps_witness :
  let a := mkAdmission (mkLimits 1 1 (<[V4 7 := 1%nat]> ∅) 3)
    (<[5 := (V4 7, Counted)]> (<[5 := (V4 7, GotTotal)]> ∅)) in
  (count_conns (λ _, true) (conns a) ≤ 2)%nat ∧ is_Some (release_address (V4 7) (limits a)).
Proof.
  intros a. destruct (admission_caps 2 1 3 a) as (H1 & _ & _ & H4).
  - eapply reach_step; [eapply reach_step; [apply reach_start|]|].
    + by apply (step_total _ (mkLimits 1 1 ∅ 3) ∅ 5 (V4 7)).
    + by apply (step_count (mkLimits 1 1 ∅ 3) (mkLimits 1 1 (<[V4 7 := 1%nat]> ∅) 3)).
  - split; [done|]. by eapply (H4 5).
Defined.

(** ** Allowlist *)

(** An IPv4 client seen through a dual-stack listener is judged as the same
    client seen directly, whatever networks are listed. *)
Lemma allows_mapped {IpNet} (contains : IpNet → IpAddr → bool) l z :
  u32 z → allows contains l (V6 (0xFFFF * 2 ^ 32 + z)) = allows contains l (V4 z).
Proof.
  intros Hz. unfold in_u in Hz. destruct l as [|nets]; [done|].
  unfold allows, to_canonical.
  rewrite Z.shiftr_div_pow2, Z.div_add_l, (Z.div_small z), Z.add_0_r by lia. cbn -[wrap Z.pow Z.mul].
  unfold wrap. by rewrite Z.add_comm, Z.mod_add, Z.mod_small by lia.
Qed.

(** A file that cannot be read, or a CIDR in it that does not parse, keeps the
    list in force. *)
Lemma reload_keeps {IpNet} (parse_net : string → option IpNet) cur r :
  r = None ∨ (∃ l c, r = Some (Some l) ∧ c ∈ l ∧ parse_net c = None) →
  reload parse_net r cur = cur.
Proof.
  intros [->|(l & c & -> & Hc & Hn)]; [done|]. unfold reload. cbn.
  destruct (mapM parse_net l) as [nets|] eqn:E; [|done].
  apply mapM_Some_1 in E. apply list_elem_of_lookup in Hc as [i Hi].
  eapply Forall2_lookup_l in E as (y & _ & Hy); [|done]. congruence.
Qed.
