(* ===== verification/Config.v ===== *)
(** Configuration and its validation: src/pgcluster/src/config/mod.rs and
    src/pgcluster/src/config/validate.rs.

    The records keep every field of the source's structs. A failed check is
    the fixed part of its message. Two parsers are parameters: the standard
    library's [SocketAddr] parser, and ipnet's CIDR parser. The theorems
    characterise the accepted configurations and derive the timing guarantee
    the validation exists for: a proxy cut off from the majority has lost its
    lease before a failover can be detected. *)
From S2P Require Import Prelude Topology Lease Pool Routing Admission.

Local Open Scope Z_scope.

(** ** The configuration *)

Inductive ClusterMode := Cluster | Coordinator.

Record ClusterConfig := mkClusterConfig {
  cluster_name : string;
  data_dir : string;
  mode : ClusterMode;
  secrets_file : option string
}.

Record RaftPeer := mkRaftPeer { peer_id : Z; peer_addr : string }.

Record RaftConfig := mkRaftConfig {
  node_id : Z;
  peers : list RaftPeer;
  heartbeat_interval_ms : Z;
  election_timeout_ms : Z;
  bootstrap : bool
}.

Definition default_heartbeat : Z := 150.
Definition default_election_timeout : Z := 500.

Record ConfigNode := mkConfigNode {
  cn_id : string;
  cn_agent_addr : string;
  cn_postgres_addr : string;
  cn_priority : Z;
  cn_tags : gmap string string
}.

Record ReplicationConfig := mkReplicationConfig {
  replication_user : string;
  replication_password_env : string;
  slot_prefix : string;
  cfg_replication_mode : ReplicationMode;
  sync_degrade_timeout_seconds : Z;
  max_slot_wal_keep_size_mb : Z
}.

Record ProxyConfig := mkProxyConfig {
  listen_addr : string;
  admin_listen_addr : string;
  health_listen_addr : string;
  pool : PoolConfig;
  read_routing : ReadRoutingConfig;
  auth_user : string;
  auth_password_env : string;
  quorum_lease_ms : Z;
  allowed_cidrs : option (list string);
  require_tls : bool;
  max_client_connections : Z;
  max_pending_logins : Z;
  max_pending_logins_per_address : Z;
  login_timeout_ms : Z
}.

Definition default_pool : PoolConfig := mkPoolConfig 25 600 5.
Definition default_read_routing : ReadRoutingConfig := mkReadRouting false (10 * 1024 * 1024).

Record FailoverConfig := mkFailoverConfig {
  health_check_interval_ms : Z;
  health_check_failures_before_failover : Z;
  agent_heartbeat_timeout_seconds : Z;
  promote_timeout_secs : Z;
  repoint_timeout_secs : Z
}.

Definition default_failover : FailoverConfig := mkFailoverConfig 500 3 10 30 60.

Record TlsConfig := mkTlsConfig {
  ca_cert : option string;
  cert : option string;
  key : option string;
  insecure_plaintext : bool;
  proxy_cert : option string;
  proxy_key : option string
}.

Record ApiConfig := mkApiConfig {
  api_listen_addr : string;
  api_keys : list string;
  public_read_endpoints : bool;
  insecure_no_auth : bool
}.

Record S3Config := mkS3Config {
  bucket : string;
  prefix : string;
  region : option string;
  endpoint : option string;
  path_style : bool
}.

Record PosixConfig := mkPosixConfig { posix_path : string }.

Record BackupConfig := mkBackupConfig {
  backup_enabled : bool;
  s3 : option S3Config;
  posix : option PosixConfig;
  prefer_replica : bool;
  interval_seconds : Z;
  delta_steps : Z;
  retain_full : Z;
  encryption_key_env : option string
}.

Record PgClusterConfig := mkConfig {
  cluster : ClusterConfig;
  raft : RaftConfig;
  cfg_nodes : list ConfigNode;
  replication : ReplicationConfig;
  proxy : ProxyConfig;
  failover : FailoverConfig;
  tls : TlsConfig;
  metrics_listen_addr : string;
  api : ApiConfig;
  backup : option BackupConfig
}.

(** ** Validation *)

Abbreviation checked := (result string unit).

(** [if bad { bail!(..) }]. *)
Definition ensure (good : bool) (message : string) : checked :=
  if good then Ok tt else Err message.

(** Run a fallible check on each element in turn. *)
Fixpoint check_each {A} (f : A → checked) (l : list A) : checked :=
  match l with
  | [] => Ok tt
  | x :: l' => f x ≫= λ _, check_each f l'
  end.

Definition MIN_QUORUM_LEASE_MS : Z := 200.

(** [rfind(':')] and the text on either side of it. *)
Definition parse_host_port (s : string) : checked :=
  match rsplit_once ":" s with
  | None => Err "missing port"%string
  | Some (host, port) =>
      if is_empty host then Err "missing host"%string
      else match parse_u16 port with Some _ => Ok tt | None => Err "invalid port"%string end
  end.

Definition validate_cluster (cfg : PgClusterConfig) : checked :=
  ensure (negb (is_empty (cluster_name (cluster cfg)))) "[cluster] name must not be empty" ≫= λ _,
  ensure (negb (is_empty (data_dir (cluster cfg)))) "[cluster] data_dir must not be empty".

Definition validate_raft (cfg : PgClusterConfig) : checked :=
  let r := raft cfg in
  let peer_ids : gset Z := list_to_set (peer_id <$> peers r) in
  ensure (negb (bool_decide (peers r = []))) "[raft] peers must contain at least one entry" ≫= λ _,
  ensure (bool_decide (node_id r ∈ peer_ids)) "[raft] node_id does not appear in peers list" ≫= λ _,
  ensure (Nat.eqb (size peer_ids) (length (peers r))) "[raft] duplicate peer IDs in peers list" ≫= λ _,
  check_each (λ p, parse_host_port (peer_addr p)) (peers r) ≫= λ _,
  ensure (wrap 64 (heartbeat_interval_ms r * 2) <=? election_timeout_ms r)
    "[raft] election_timeout_ms must be >= 2 x heartbeat_interval_ms".

Fixpoint check_nodes (seen : gset string) (l : list ConfigNode) : checked :=
  match l with
  | [] => Ok tt
  | n :: l' =>
      if is_empty (cn_id n) then Err "[[nodes.node]] id must not be empty"%string
      else if bool_decide (cn_id n ∈ seen) then Err "[[nodes.node]] duplicate node id"%string
      else check_nodes ({[cn_id n]} ∪ seen) l'
  end.

Definition validate_nodes (cfg : PgClusterConfig) : checked := check_nodes ∅ (cfg_nodes cfg).

Definition validate_replication (cfg : PgClusterConfig) : checked :=
  let r := replication cfg in
  ensure (bool_decide (cfg_replication_mode r = Async) || (2 <=? length (cfg_nodes cfg))%nat)
    "[replication] replication_mode sync and sync_strict need a standby" ≫= λ _,
  ensure (negb (sync_degrade_timeout_seconds r =? 0))
    "[replication] sync_degrade_timeout_seconds must be > 0" ≫= λ _,
  ensure (negb (max_slot_wal_keep_size_mb r =? 0))
    "[replication] max_slot_wal_keep_size_mb must be > 0".

Definition validate_tls (cfg : PgClusterConfig) : checked :=
  let t := tls cfg in
  let files := [ca_cert t; cert t; key t] in
  if insecure_plaintext t then
    ensure (negb (existsb (λ f : option string, match f with Some _ => true | None => false end) files))
      "[tls] set either certificate files or insecure_plaintext, not both"
  else
    ensure (negb (existsb (λ f : option string, match f with Some _ => false | None => true end) files))
      "[tls] ca_cert, cert and key are all required".

(** [k.trim().is_empty()]: no words. *)
Definition blank (k : string) : bool :=
  match split_whitespace k with [] => true | _ => false end.

Definition validate_api (cfg : PgClusterConfig) : checked :=
  let a := api cfg in
  ensure (negb (existsb blank (api_keys a))) "[api] api_keys must not contain an empty key" ≫= λ _,
  ensure (negb (bool_decide (api_keys a = []) && negb (insecure_no_auth a)))
    "[api] api_keys must contain at least one key" ≫= λ _,
  ensure (negb (negb (bool_decide (api_keys a = [])) && insecure_no_auth a))
    "[api] set either api_keys or insecure_no_auth, not both".

Definition check_store (b : BackupConfig) : checked :=
  match s3 b, posix b with
  | Some s3, None => ensure (negb (is_empty (bucket s3))) "[backup.s3] bucket must not be empty"
  | None, Some p => ensure (starts_with "/" (posix_path p)) "[backup.posix] path must be absolute"
  | _, _ => Err "[backup] set exactly one of [backup.s3] and [backup.posix]"%string
  end.

Definition validate_backup (cfg : PgClusterConfig) : checked :=
  match backup cfg with
  | None => Ok tt
  | Some b =>
      check_store b ≫= λ _,
      ensure (negb (interval_seconds b =? 0)) "[backup] interval_seconds must be > 0" ≫= λ _,
      ensure (negb (retain_full b =? 0)) "[backup] retain_full must be >= 1"
  end.

Section validation.
Context (parse_socket_addr : string → bool).
Context {IpNet : Type} (parse_net : string → option IpNet).

Definition validate_addresses (cfg : PgClusterConfig) : checked :=
  let bind_addrs := [listen_addr (proxy cfg); admin_listen_addr (proxy cfg);
    health_listen_addr (proxy cfg); metrics_listen_addr cfg; api_listen_addr (api cfg)] in
  check_each (λ a, ensure (parse_socket_addr a) "invalid bind address") bind_addrs ≫= λ _,
  check_each (λ n, parse_host_port (cn_postgres_addr n) ≫= λ _, parse_host_port (cn_agent_addr n))
    (cfg_nodes cfg).

(** The products and sums are [u64] operations, which wrap. *)
Definition detection_ms (cfg : PgClusterConfig) : Z :=
  wrap 64 (health_check_interval_ms (failover cfg) * health_check_failures_before_failover (failover cfg)).
Definition needed_ms (cfg : PgClusterConfig) : Z :=
  wrap 64 (wrap 64 (election_timeout_ms (raft cfg) * 2) + health_check_interval_ms (failover cfg)).
Definition heartbeat_timeout_ms (cfg : PgClusterConfig) : Z :=
  wrap 64 (agent_heartbeat_timeout_seconds (failover cfg) * 1000).

Definition validate_timing (cfg : PgClusterConfig) : checked :=
  let p := proxy cfg in
  ensure (negb (is_empty (auth_user p))) "[proxy] auth_user must not be empty" ≫= λ _,
  ensure match allowlist_parse parse_net (allowed_cidrs p) with Some _ => true | None => false end
    "[proxy] allowed_cidrs" ≫= λ _,
  ensure (negb (require_tls p && insecure_plaintext (tls cfg)))
    "[proxy] require_tls needs certificates, not insecure_plaintext" ≫= λ _,
  ensure (negb ((max_client_connections p =? 0) || (max_pending_logins p =? 0)
    || (max_pending_logins_per_address p =? 0) || (login_timeout_ms p =? 0)))
    "[proxy] limits must be above zero" ≫= λ _,
  ensure (MIN_QUORUM_LEASE_MS <=? quorum_lease_ms p) "[proxy] quorum_lease_ms too short" ≫= λ _,
  ensure (quorum_lease_ms p <? detection_ms cfg)
    "[proxy] quorum_lease_ms must be < failover detection time" ≫= λ _,
  ensure (needed_ms cfg <? heartbeat_timeout_ms cfg)
    "[failover] agent_heartbeat_timeout_seconds too short".

Definition validate (cfg : PgClusterConfig) : checked :=
  validate_cluster cfg ≫= λ _, validate_raft cfg ≫= λ _, validate_nodes cfg ≫= λ _,
  validate_addresses cfg ≫= λ _, validate_replication cfg ≫= λ _, validate_timing cfg ≫= λ _,
  validate_tls cfg ≫= λ _, validate_api cfg ≫= λ _, validate_backup cfg.

End validation.

(** ** Specifications *)

(** An address with a host and a port number. *)
Definition host_port (s : string) : Prop :=
  ∃ host port n, s = (host ++ String ":" port)%string ∧ host ≠ EmptyString ∧
    str_exists (Ascii.eqb ":") port = false ∧ parse_u16 port = Some n.

(** The configurations [validate] accepts, in plain terms. *)
Record config_valid (parse_socket_addr : string → bool) {IpNet} (parse_net : string → option IpNet)
    (cfg : PgClusterConfig) : Prop := mkValid {
  valid_cluster : cluster_name (cluster cfg) ≠ EmptyString ∧ data_dir (cluster cfg) ≠ EmptyString;
  valid_member : node_id (raft cfg) ∈ (peer_id <$> peers (raft cfg));
  valid_peers : NoDup (peer_id <$> peers (raft cfg));
  valid_peer_addrs : ∀ p, p ∈ peers (raft cfg) → host_port (peer_addr p);
  valid_election :
    wrap 64 (heartbeat_interval_ms (raft cfg) * 2) ≤ election_timeout_ms (raft cfg);
  valid_nodes : NoDup (cn_id <$> cfg_nodes cfg) ∧ EmptyString ∉ (cn_id <$> cfg_nodes cfg);
  valid_bind : ∀ a, a ∈ [listen_addr (proxy cfg); admin_listen_addr (proxy cfg);
    health_listen_addr (proxy cfg); metrics_listen_addr cfg; api_listen_addr (api cfg)] →
    parse_socket_addr a = true;
  valid_node_addrs : ∀ n, n ∈ cfg_nodes cfg →
    host_port (cn_postgres_addr n) ∧ host_port (cn_agent_addr n);
  valid_standby : cfg_replication_mode (replication cfg) = Async ∨ (2 ≤ length (cfg_nodes cfg))%nat;
  valid_replication : sync_degrade_timeout_seconds (replication cfg) ≠ 0 ∧
    max_slot_wal_keep_size_mb (replication cfg) ≠ 0;
  valid_auth : auth_user (proxy cfg) ≠ EmptyString;
  valid_cidrs : is_Some (allowlist_parse parse_net (allowed_cidrs (proxy cfg)));
  valid_require_tls : ¬ (require_tls (proxy cfg) = true ∧ insecure_plaintext (tls cfg) = true);
  valid_limits : max_client_connections (proxy cfg) ≠ 0 ∧ max_pending_logins (proxy cfg) ≠ 0 ∧
    max_pending_logins_per_address (proxy cfg) ≠ 0 ∧ login_timeout_ms (proxy cfg) ≠ 0;
  valid_lease : MIN_QUORUM_LEASE_MS ≤ quorum_lease_ms (proxy cfg) < detection_ms cfg;
  valid_heartbeat : needed_ms cfg < heartbeat_timeout_ms cfg;
  valid_tls : if insecure_plaintext (tls cfg)
    then ca_cert (tls cfg) = None ∧ cert (tls cfg) = None ∧ key (tls cfg) = None
    else is_Some (ca_cert (tls cfg)) ∧ is_Some (cert (tls cfg)) ∧ is_Some (key (tls cfg));
  valid_keys : (∀ k, k ∈ api_keys (api cfg) → blank k = false) ∧
    (insecure_no_auth (api cfg) = true ↔ api_keys (api cfg) = []);
  valid_backup : ∀ b, backup cfg = Some b → check_store b = Ok tt ∧
    interval_seconds b ≠ 0 ∧ retain_full b ≠ 0
}.

(** ** Checks *)

Lemma ensure_ok b m : ensure b m = Ok tt ↔ b = true.
Proof. by destruct b. Qed.

Lemma bind_ok (r : checked) (k : checked) : (r ≫= λ _, k) = Ok tt ↔ r = Ok tt ∧ k = Ok tt.
Proof. destruct r as [[]|]; cbn; naive_solver. Qed.

Lemma check_each_ok {A} (f : A → checked) l :
  check_each f l = Ok tt ↔ ∀ x, x ∈ l → f x = Ok tt.
Proof.
  induction l as [|x l IH]; cbn [check_each].
  - split; [|done]. intros _ x Hx. by apply not_elem_of_nil in Hx.
  - rewrite bind_ok, IH. setoid_rewrite elem_of_cons. naive_solver.
Qed.

Lemma parse_host_port_ok s : parse_host_port s = Ok tt ↔ host_port s.
Proof.
  unfold parse_host_port, host_port. split.
  - destruct (rsplit_once ":" s) as [[h p]|] eqn:E; [|done].
    apply rsplit_once_Some in E as [-> Hp]. destruct h as [|c h]; [done|]. cbn [is_empty].
    destruct (parse_u16 p) as [n|] eqn:En; [|done]. intros _. by exists (String c h), p, n.
  - intros (h & p & n & -> & Hh & Hp & Hn). rewrite rsplit_once_app by done.
    destruct h; [done|]. cbn [is_empty]. by rewrite Hn.
Qed.

Lemma check_nodes_ok l seen :
  check_nodes seen l = Ok tt ↔
  NoDup (cn_id <$> l) ∧ EmptyString ∉ (cn_id <$> l) ∧ ∀ i, i ∈ (cn_id <$> l) → i ∉ seen.
Proof.
  revert seen. induction l as [|n l IH]; intros seen; cbn [check_nodes fmap list_fmap].
  - split; [|done]. intros _. split_and!; [constructor|apply not_elem_of_nil|].
    intros i Hi. by apply not_elem_of_nil in Hi.
  - rewrite NoDup_cons, not_elem_of_cons. destruct (cn_id n) as [|c s] eqn:E; cbn [is_empty].
    { split; [done|]. naive_solver. }
    rewrite <-E. case_bool_decide as Hs.
    + split; [done|]. intros (_ & _ & Hd). exfalso. apply (Hd (cn_id n)); [by left|done].
    + rewrite IH. split.
      * intros (Hnd & Hne & Hd). split_and!; [|done|congruence|done|].
        -- intros Hin. apply (Hd _ Hin). set_solver.
        -- intros i [->|Hi]%elem_of_cons; [done|]. specialize (Hd i Hi). set_solver.
      * intros ([Hni Hnd] & [_ Hne] & Hd). split_and!; [done..|]. intros i Hi.
        assert (i ∉ seen) by (apply Hd; by right). set_solver.
Qed.

Lemma validate_raft_ok cfg :
  validate_raft cfg = Ok tt ↔
  node_id (raft cfg) ∈ (peer_id <$> peers (raft cfg)) ∧
  NoDup (peer_id <$> peers (raft cfg)) ∧
  (∀ p, p ∈ peers (raft cfg) → host_port (peer_addr p)) ∧
  wrap 64 (heartbeat_interval_ms (raft cfg) * 2) ≤ election_timeout_ms (raft cfg).
Proof.
  unfold validate_raft. rewrite !bind_ok, !ensure_ok, check_each_ok.
  rewrite negb_true_iff, bool_decide_eq_false, bool_decide_eq_true, Nat.eqb_eq, Z.leb_le.
  setoid_rewrite parse_host_port_ok. rewrite elem_of_list_to_set.
  rewrite <-(length_fmap peer_id (peers (raft cfg))), size_NoDup.
  split; [naive_solver|]. intros (Hm & Hnd & Ha & He). split_and!; try done.
  intros E. rewrite E in Hm. by apply not_elem_of_nil in Hm.
Qed.

Lemma validate_tls_ok cfg :
  validate_tls cfg = Ok tt ↔
  if insecure_plaintext (tls cfg)
  then ca_cert (tls cfg) = None ∧ cert (tls cfg) = None ∧ key (tls cfg) = None
  else is_Some (ca_cert (tls cfg)) ∧ is_Some (cert (tls cfg)) ∧ is_Some (key (tls cfg)).
Proof.
  unfold validate_tls. destruct (insecure_plaintext (tls cfg)); rewrite ensure_ok;
    destruct (ca_cert (tls cfg)), (cert (tls cfg)), (key (tls cfg)); cbn; split; try done;
    unfold is_Some; naive_solver.
Qed.

Lemma existsb_false {A} (f : A → bool) l :
  negb (existsb f l) = true ↔ ∀ x, x ∈ l → f x = false.
Proof.
  induction l as [|x l IH]; cbn.
  - split; [|done]. intros _ x Hx. by apply not_elem_of_nil in Hx.
  - rewrite negb_orb, andb_true_iff, IH, negb_true_iff. setoid_rewrite elem_of_cons. naive_solver.
Qed.

Lemma validate_api_ok cfg :
  validate_api cfg = Ok tt ↔
  (∀ k, k ∈ api_keys (api cfg) → blank k = false) ∧
  (insecure_no_auth (api cfg) = true ↔ api_keys (api cfg) = []).
Proof.
  unfold validate_api. rewrite !bind_ok, !ensure_ok, existsb_false.
  destruct (insecure_no_auth (api cfg)), (bool_decide_reflect (api_keys (api cfg) = [])); cbn;
    naive_solver.
Qed.

Lemma validate_backup_ok cfg :
  validate_backup cfg = Ok tt ↔
  ∀ b, backup cfg = Some b → check_store b = Ok tt ∧ interval_seconds b ≠ 0 ∧ retain_full b ≠ 0.
Proof.
  unfold validate_backup. destruct (backup cfg) as [b|]; [|by split; [intros _ b|]].
  rewrite !bind_ok, !ensure_ok, !negb_true_iff, !Z.eqb_neq. split; [by intros ? ? [= <-]|auto].
Qed.

Section validation_proofs.
Context (parse_socket_addr : string → bool).
Context {IpNet : Type} (parse_net : string → option IpNet).

Lemma validate_timing_ok cfg :
  validate_timing parse_net cfg = Ok tt ↔
  auth_user (proxy cfg) ≠ EmptyString ∧
  is_Some (allowlist_parse parse_net (allowed_cidrs (proxy cfg))) ∧
  ¬ (require_tls (proxy cfg) = true ∧ insecure_plaintext (tls cfg) = true) ∧
  (max_client_connections (proxy cfg) ≠ 0 ∧ max_pending_logins (proxy cfg) ≠ 0 ∧
   max_pending_logins_per_address (proxy cfg) ≠ 0 ∧ login_timeout_ms (proxy cfg) ≠ 0) ∧
  MIN_QUORUM_LEASE_MS ≤ quorum_lease_ms (proxy cfg) < detection_ms cfg ∧
  needed_ms cfg < heartbeat_timeout_ms cfg.
Proof.
  unfold validate_timing. rewrite !bind_ok, !ensure_ok, is_empty_false.
  rewrite !negb_true_iff, !orb_false_iff, !Z.eqb_neq, andb_false_iff, Z.leb_le, !Z.ltb_lt.
  rewrite <-!not_true_iff_false.
  assert (match allowlist_parse parse_net (allowed_cidrs (proxy cfg)) with
          | Some _ => true | None => false end = true ↔
    is_Some (allowlist_parse parse_net (allowed_cidrs (proxy cfg)))) as ->
    by (destruct (allowlist_parse _ _); unfold is_Some; naive_solver).
  split; [naive_solver|].
  intros (? & ? & Ht & (? & ? & ? & ?) & [? ?] & ?). split_and!; try done.
  destruct (require_tls (proxy cfg)); [right|left]; naive_solver.
Qed.

Lemma validate_valid cfg :
  validate parse_socket_addr parse_net cfg = Ok tt ↔
  config_valid parse_socket_addr parse_net cfg.
Proof.
  unfold validate. rewrite !bind_ok.
  unfold validate_cluster, validate_addresses, validate_replication, validate_nodes.
  rewrite !bind_ok, !ensure_ok, !is_empty_false, validate_raft_ok, check_nodes_ok, !check_each_ok.
  rewrite validate_timing_ok, validate_tls_ok, validate_api_ok, validate_backup_ok.
  setoid_rewrite ensure_ok. setoid_rewrite bind_ok. setoid_rewrite parse_host_port_ok.
  rewrite orb_true_iff, bool_decide_eq_true, Nat.leb_le, !negb_true_iff, !Z.eqb_neq. split.
  - intros. destruct_and!. by constructor.
  - intros []. destruct_and!. by split_and!.
Qed.

(** [validate] accepts exactly the configurations that satisfy every
    stated requirement. *)
Theorem validate_iff cfg :
  validate parse_socket_addr parse_net cfg = Ok tt ↔
  config_valid parse_socket_addr parse_net cfg.
Proof. apply validate_valid. Qed.

(** Partition safety rests on the lease being shorter than failover
    detection. Under an accepted configuration whose detection time does not
    overflow, take a proxy whose last successful quorum rounds all started
    before it was cut off at [cut]. At any time when the majority, which needs
    [health_check_failures_before_failover] rounds of
    [health_check_interval_ms] from then on, could have detected the failure,
    the proxy's lease is no longer held, so it routes nothing. *)
Theorem isolated_proxy_stops_before_failover cfg o rounds cut now :
  validate parse_socket_addr parse_net cfg = Ok tt →
  0 ≤ health_check_interval_ms (failover cfg) * health_check_failures_before_failover (failover cfg)
    < 2 ^ 44 →
  Forall (λ a, o ≤ a ∧ a ≤ cut) rounds → o ≤ cut → cut ≤ now →
  now - o < 2 ^ 64 * 1000000 - 1000000 →
  cut + health_check_interval_ms (failover cfg) * health_check_failures_before_failover (failover cfg)
    * 1000000 ≤ now →
  is_held now (foldl (flip renew) (lease_new o (quorum_lease_ms (proxy cfg) * 1000000)) rounds) = false.
Proof.
  intros Hv Hr Hrounds Ho Hc Hnow Hdet.
  assert (MIN_QUORUM_LEASE_MS ≤ quorum_lease_ms (proxy cfg) < detection_ms cfg) as Hl.
  { unfold validate in Hv. rewrite !bind_ok, validate_timing_ok in Hv. by destruct_and!. }
  unfold MIN_QUORUM_LEASE_MS, detection_ms in Hl. rewrite wrap_id in Hl by (unfold in_u; lia).
  apply not_true_iff_false. intros Hh. apply lease_not_held_past_duration in Hh; try lia.
  - destruct Hh as (a & Ha & Hlt). rewrite Forall_forall in Hrounds.
    specialize (Hrounds a Ha). lia.
  - eapply Forall_impl; [done|]. cbn. lia.
Qed.

End validation_proofs.

(** The configuration of the defaults, with one node. *)
Definition test_config : PgClusterConfig :=
  mkConfig (mkClusterConfig "main" "/var/lib" Cluster None)
    (mkRaftConfig 1 [mkRaftPeer 1 "10.0.0.1:7000"] default_heartbeat default_election_timeout true)
    [mkConfigNode "pg1" "10.0.0.1:7001" "10.0.0.1:5432" 100 ∅]
    (mkReplicationConfig "repl" "PG_REPLICATION_PASSWORD" "pgcluster_" Async 30 10240)
    (mkProxyConfig "0.0.0.0:5432" "0.0.0.0:5433" "0.0.0.0:8008" default_pool default_read_routing
       "pgcluster_auth" "PGCLUSTER_AUTH_PASSWORD" 1000 None false 10000 512 64 10000)
    default_failover (mkTlsConfig None None None true None None) "0.0.0.0:9190"
    (mkApiConfig "0.0.0.0:8009" ["secret"] false false) None.

Lemma isolated_proxy_stops_before_failover_witness :
  is_held 1600000000 (foldl (flip renew) (lease_new 0 (1000 * 1000000)) [0; 100000000]) = false.
Proof.
  apply (isolated_proxy_stops_before_failover (λ _, true) (λ s, Some s) test_config 0 [0; 100000000]
    100000000 1600000000); [vm_compute; reflexivity|cbn; lia|repeat constructor; lia|lia|lia|lia|cbn; lia].
Defined.

(** The sums are not checked for overflow: an election timeout of 2^63 ms
    counts as none. *)
Lemma timing_overflow_accepted :
  let cfg := mkConfig (cluster test_config)
    (mkRaftConfig 1 (peers (raft test_config)) 150 (2 ^ 63) true) (cfg_nodes test_config)
    (replication test_config) (proxy test_config) default_failover (tls test_config)
    (metrics_listen_addr test_config) (api test_config) None in
  validate (λ _, true) (λ s, Some s) cfg = Ok tt ∧
  agent_heartbeat_timeout_seconds (failover cfg) * 1000 < 2 * election_timeout_ms (raft cfg).
Proof. split; [vm_compute; reflexivity|cbn; lia]. Qed.
