(* ===== verification/Effects.v ===== *)
(** Effectful code as programs over events.

    The control loops of pgcluster (failover, switchover, node monitor) call
    agents, write to Raft, read clocks and share an atomic flag. Such code is a
    [prog]: a tree that asks the outside an [event] and continues with whatever
    it answers. [all_runs p Q] says that [Q] holds of the result and the trace
    of every run of [p], whatever the answers; [run] executes a program against
    a concrete environment, and its runs are among those [all_runs] speaks of.
    [safe_on] is for calls whose answers depend on a state and change it.

    The second half declares the events of the control plane, one for each
    call that leaves the process: the RPCs of src/proto/agent.proto as
    src/pgcluster/src/agent_clients.rs wraps them, Raft writes, SQL on a
    primary, time, the topology watch and the shared flag. *)
From S2P Require Import Prelude Topology.

Local Open Scope Z_scope.

(** ** Programs *)

Inductive prog {E : Type} (R : E → Type) (A : Type) : Type :=
| Ret (a : A)
| Vis (e : E) (k : R e → prog R A).
Arguments Ret {E R A} a.
Arguments Vis {E R A} e k.

Record obs {E : Type} (R : E → Type) := Obs { obs_ev : E; obs_ans : R obs_ev }.
Arguments Obs {E R} _ _.
Arguments obs_ev {E R} _.
Arguments obs_ans {E R} _.

Section programs.
Context {E : Type} {R : E → Type}.
Implicit Types (e : E).

Fixpoint bind_prog {A B} (f : A → prog R B) (p : prog R A) : prog R B :=
  match p with
  | Ret a => f a
  | Vis e k => Vis e (λ r, bind_prog f (k r))
  end.

#[global] Instance prog_ret : MRet (prog R) := λ A a, Ret a.
#[global] Instance prog_bind : MBind (prog R) := λ A B f p, bind_prog f p.
#[global] Instance prog_fmap : FMap (prog R) := λ A B f p, bind_prog (λ a, Ret (f a)) p.

(** One event, returning its answer. *)
Definition call (e : E) : prog R (R e) := Vis e Ret.

(** [?] on a [Result]: stop with the error, which is [None]. *)
Definition try_bind {A B} (p : prog R (option A)) (f : A → prog R (option B))
    : prog R (option B) :=
  p ≫= λ o : option A, match o with Some a => f a | None => Ret None end.

(** A [for] loop whose body returns nothing. *)
Fixpoint for_each {A} (f : A → prog R ()) (l : list A) : prog R () :=
  match l with
  | [] => Ret ()
  | x :: l => f x ≫= λ _, for_each f l
  end.

(** [tokio::time::timeout]: the timer can fire while any call is pending. The
    call was made, and its answer is lost. [expired] asks whether it fired. *)
Fixpoint timeout (expired : prog R bool) {A} (p : prog R A) : prog R (option A) :=
  match p with
  | Ret a => Ret (Some a)
  | Vis e k => Vis e (λ r, expired ≫= λ b : bool, if b then Ret None else timeout expired (k r))
  end.

(** [Q] holds of the result and the trace of every run. *)
Fixpoint all_runs {A} (p : prog R A) (Q : A → list (obs R) → Prop) : Prop :=
  match p with
  | Ret a => Q a []
  | Vis e k => ∀ r, all_runs (k r) (λ a tr, Q a (Obs e r :: tr))
  end.

(** A run against an environment that answers from its state. *)
Fixpoint run {S A} (env : ∀ e, S → R e * S) (p : prog R A) (s : S)
    : A * list (obs R) * S :=
  match p with
  | Ret a => (a, [], s)
  | Vis e k =>
      let '(r, s) := env e s in
      let '(a, tr, s) := run env (k r) s in (a, Obs e r :: tr, s)
  end.

(** Every call of every run satisfies [P]. *)
Fixpoint only {A} (P : obs R → Prop) (p : prog R A) : Prop :=
  match p with
  | Ret _ => True
  | Vis e k => ∀ r, P (Obs e r) ∧ only P (k r)
  end.

(** Every result satisfies [Q]. *)
Definition returns {A} (Q : A → Prop) (p : prog R A) : Prop := all_runs p (λ a _, Q a).

(** Whenever a call of [tr] satisfies [P], what precedes it satisfies [C]. *)
Definition preceded (P : obs R → Prop) (C : list (obs R) → Prop) (tr : list (obs R)) : Prop :=
  ∀ before o after, tr = before ++ o :: after → P o → C before.

(** ** Laws *)

Lemma all_runs_mono {A} (p : prog R A) (Q Q' : A → list (obs R) → Prop) :
  all_runs p Q → (∀ a tr, Q a tr → Q' a tr) → all_runs p Q'.
Proof.
  revert Q Q'. induction p as [a|e k IH]; intros Q Q' H HQ; cbn in *; [auto|].
  intros r. eapply IH; [apply H|]. cbn. auto.
Qed.

Lemma all_runs_bind {A B} (p : prog R A) (f : A → prog R B) Q :
  all_runs p (λ a tr, all_runs (f a) (λ b tr', Q b (tr ++ tr'))) →
  all_runs (p ≫= f) Q.
Proof.
  unfold mbind, prog_bind. revert Q.
  induction p as [a|e k IH]; intros Q H; cbn in *; [exact H|].
  intros r. apply IH. exact (H r).
Qed.

(** Each run of [run] is one of the runs. *)
Lemma all_runs_run {S A} (env : ∀ e, S → R e * S) (p : prog R A) s Q :
  all_runs p Q → Q (run env p s).1.1 (run env p s).1.2.
Proof.
  revert s Q. induction p as [a|e k IH]; intros s Q H; cbn in *; [exact H|].
  destruct (env e s) as [r s'] eqn:He. specialize (IH r s' _ (H r)).
  destruct (run env (k r) s') as [[a tr] s'']. exact IH.
Qed.

Lemma all_runs_conj {A} (p : prog R A) Q Q' :
  all_runs p Q → all_runs p Q' → all_runs p (λ a tr, Q a tr ∧ Q' a tr).
Proof.
  revert Q Q'. induction p as [a|e k IH]; intros Q Q' H H'; cbn in *; [done|].
  intros r. apply (IH r); auto.
Qed.

(** A step that can fail, and what follows it. *)
Lemma all_runs_try {A B} (p : prog R (option A)) (f : A → prog R (option B)) P Q :
  all_runs p P → (∀ tr, P None tr → Q None tr) →
  (∀ a tr, P (Some a) tr → all_runs (f a) (λ b tr', Q b (tr ++ tr'))) →
  all_runs (try_bind p f) Q.
Proof.
  intros Hp Hn Hs. unfold try_bind. apply all_runs_bind. eapply all_runs_mono; [exact Hp|].
  cbn beta. intros [a|] tr H; [by apply Hs|]. cbn. rewrite app_nil_r. by apply Hn.
Qed.

Lemma all_runs_True {A} (p : prog R A) : all_runs p (λ _ _, True).
Proof. induction p; cbn; auto. Qed.

Lemma returns_bind {A B} (Q : B → Prop) (p : prog R A) f :
  (∀ a, returns Q (f a)) → returns Q (p ≫= f).
Proof.
  intros Hf. apply all_runs_bind. eapply all_runs_mono; [apply all_runs_True|].
  intros a tr _. apply Hf.
Qed.

Lemma returns_then {A B} (P : A → Prop) (Q : B → Prop) (p : prog R A) f :
  returns P p → (∀ a, P a → returns Q (f a)) → returns Q (p ≫= f).
Proof. intros Hp Hf. apply all_runs_bind. eapply all_runs_mono; [exact Hp|]. intros a tr Ha. by apply Hf. Qed.

Lemma returns_try {A B} (Q : option B → Prop) (p : prog R (option A)) f :
  Q None → (∀ a, returns Q (f a)) → returns Q (try_bind p f).
Proof. intros Hn Hf. apply returns_bind. by intros [a|]. Qed.

Lemma only_runs {A} P (p : prog R A) : only P p → all_runs p (λ _ tr, Forall P tr).
Proof.
  induction p as [a|e k IH]; cbn; intros H; [constructor|].
  intros r. destruct (H r) as [HP Hk]. eapply all_runs_mono; [by apply IH|]. cbn. auto.
Qed.

Lemma only_mono {A} (P P' : obs R → Prop) (p : prog R A) :
  only P p → (∀ o, P o → P' o) → only P' p.
Proof. intros H HP. induction p as [a|e k IH]; cbn in *; [done|]. naive_solver. Qed.

Lemma only_bind {A B} P (p : prog R A) (f : A → prog R B) :
  only P p → (∀ a, only P (f a)) → only P (p ≫= f).
Proof.
  intros Hp Hf. unfold mbind, prog_bind.
  induction p as [a|e k IH]; cbn in *; [done|]. naive_solver.
Qed.

Lemma only_for_each {A} P (f : A → prog R ()) l :
  (∀ x, x ∈ l → only P (f x)) → only P (for_each f l).
Proof.
  induction l as [|x l IH]; intros H; cbn; [done|].
  apply only_bind; [apply H; constructor|]. intros _. apply IH.
  intros y Hy. apply H. by constructor.
Qed.

Lemma only_mapM {A B} P (f : A → prog R B) l :
  (∀ x, x ∈ l → only P (f x)) → only P (mapM f l).
Proof.
  induction l as [|x l IH]; intros H; cbn [mapM]; [done|].
  apply only_bind; [apply H; constructor|]. intros y.
  apply only_bind; [apply IH; intros z Hz; apply H; by constructor|done].
Qed.

Lemma only_timeout {A} P expired (p : prog R A) :
  only P expired → only P p → only P (timeout expired p).
Proof.
  intros He. induction p as [a|e k IH]; intros H; cbn in *; [done|].
  intros r. split; [apply H|]. apply only_bind; [done|].
  intros []; [done|]. apply IH, H.
Qed.

Lemma preceded_none P C tr : Forall (λ o, ¬ P o) tr → preceded P C tr.
Proof.
  intros H before o after -> Ho. apply Forall_app in H as [_ H]. by inversion H.
Qed.

Lemma preceded_app P (C : list (obs R) → Prop) tr1 tr2 :
  preceded P C tr1 → preceded P (λ b, C (tr1 ++ b)) tr2 → preceded P C (tr1 ++ tr2).
Proof.
  intros H1 H2 before o after Heq Ho.
  apply app_eq_inv in Heq as [(k & -> & Heq)|(k & -> & Heq)]; [|by eapply H2].
  destruct k as [|o' k]; cbn in Heq; simplify_eq; [|by eapply H1].
  specialize (H2 [] o after eq_refl Ho). by rewrite !app_nil_r in H2.
Qed.

Lemma preceded_quiet P (C : list (obs R) → Prop) tr1 tr2 :
  Forall (λ o, ¬ P o) tr1 → (∀ b, C b → C (tr1 ++ b)) → preceded P C tr2 →
  preceded P C (tr1 ++ tr2).
Proof.
  intros Hq HC H2. apply preceded_app; [by apply preceded_none|].
  intros before o after Heq Ho. apply HC. by eapply H2.
Qed.

Lemma preceded_cons P (C : list (obs R) → Prop) o tr :
  ¬ P o → preceded P (λ b, C (o :: b)) tr → preceded P C (o :: tr).
Proof. intros Ho H [|o' before] p after Heq Hp; simplify_eq/=; [done|by eapply H]. Qed.

Lemma preceded_mono P (C C' : list (obs R) → Prop) tr :
  preceded P C tr → (∀ b, C b → C' b) → preceded P C' tr.
Proof. intros H HC before o after Heq Ho. eauto. Qed.

(** A loop that collects results: the trace is that of the bodies in turn. *)
Lemma all_runs_mapM {A B} (f : A → prog R B) (P : A → B → list (obs R) → Prop) l :
  (∀ x, x ∈ l → all_runs (f x) (P x)) →
  all_runs (mapM f l) (λ ys tr, ∃ trs, tr = concat trs ∧ Forall3 P l ys trs).
Proof.
  induction l as [|x l IH]; intros H; cbn [mapM]; [by exists []; split; [|constructor]|].
  apply all_runs_bind. eapply all_runs_mono; [apply H; constructor|]. cbn. intros y tr Hy.
  apply all_runs_bind. eapply all_runs_mono; [apply IH|].
  { intros z Hz. apply H. by constructor. }
  cbn. intros ys tr' (trs & -> & H3). exists (tr :: trs). rewrite app_nil_r.
  split; [done|by constructor].
Qed.
End programs.

(** ** Runs on a state *)

(** [step] says what a call may answer in a state, and the state after it. *)
Section states.
Context {E : Type} {R : E → Type} {W : Type} {step : W → ∀ e : E, R e → W → Prop}.

(** Along every run of [p] from [w], [I] holds at every point, also where the
    run is cut short, [P] of every call, and [Q] at the end. *)
Fixpoint safe_on {A} (I : W → Prop) (P : E → Prop) (p : prog R A) (Q : A → W → Prop) (w : W) : Prop :=
  I w ∧
  match p with
  | Ret a => Q a w
  | Vis e k => P e ∧ ∀ r w', step w e r w' → safe_on I P (k r) Q w'
  end.

(** The states a run may be left in, wherever it is cut short. *)
Inductive reached_on : ∀ {A}, prog R A → W → W → Prop :=
| reached_here A (p : prog R A) w : reached_on p w w
| reached_step A e (k : R e → prog R A) w r w' w'' :
    step w e r w' → reached_on (k r) w' w'' → reached_on (Vis e k) w w''.

(** A run to its end. *)
Inductive ends_on : ∀ {A}, prog R A → W → A → W → Prop :=
| ends_ret A (a : A) w : ends_on (Ret a) w a w
| ends_step A e (k : R e → prog R A) w r w' a w'' :
    step w e r w' → ends_on (k r) w' a w'' → ends_on (Vis e k) w a w''.

Section safe.
Context (I : W → Prop) (P : E → Prop).

Lemma safe_mono {A} (p : prog R A) (Q Q' : A → W → Prop) w :
  safe_on I P p Q w → (∀ a w, I w → Q a w → Q' a w) → safe_on I P p Q' w.
Proof.
  intros Hp HQ. revert w Hp. induction p as [a|e k IH]; cbn; intros w [HI Hp]; (split; [done|]); [auto|].
  destruct Hp as [HP Hk]. split; [done|]. intros r w' Hs. apply IH; auto.
Qed.

Lemma safe_bind {A B} (p : prog R A) (f : A → prog R B) Q w :
  safe_on I P p (λ a w, safe_on I P (f a) Q w) w → safe_on I P (p ≫= f) Q w.
Proof.
  unfold mbind, prog_bind. revert w. induction p as [a|e k IH]; cbn; intros w [HI Hp]; [done|].
  split; [done|]. destruct Hp as [HP Hk]. split; [done|]. intros r w' Hs. apply IH; auto.
Qed.

Lemma safe_ret {A} (a : A) (Q : A → W → Prop) w : I w → Q a w → safe_on I P (Ret a) Q w.
Proof. by split. Qed.

Lemma safe_call {B} e (f : R e → prog R B) Q w :
  I w → P e → (∀ r w', step w e r w' → safe_on I P (f r) Q w') → safe_on I P (call e ≫= f) Q w.
Proof. by repeat split. Qed.

(** A part, up to what is to be known after it. *)
Lemma safe_bind_mono {A B} (p : prog R A) (f : A → prog R B) (Q' : A → W → Prop) Q w :
  safe_on I P p Q' w → (∀ a w, I w → Q' a w → safe_on I P (f a) Q w) → safe_on I P (p ≫= f) Q w.
Proof. intros Hp Hf. apply safe_bind. eapply safe_mono; [exact Hp|]. auto. Qed.

Lemma safe_try {A B} (p : prog R (option A)) (f : A → prog R (option B)) (Q' : A → W → Prop) Q w :
  safe_on I P p (λ o w, match o with Some a => Q' a w | None => Q None w end) w →
  (∀ a w, I w → Q' a w → safe_on I P (f a) Q w) → safe_on I P (try_bind p f) Q w.
Proof.
  intros Hp Hf. eapply safe_bind_mono; [exact Hp|]. intros [a|] w' HI HR; [auto|by apply safe_ret].
Qed.
End safe.

(** What holds of a program along the runs holds under weaker demands. *)
Lemma safe_weaken {A} (I I' : W → Prop) (P P' : E → Prop) (p : prog R A) (Q Q' : A → W → Prop) w :
  safe_on I P p Q w → (∀ w, I w → I' w) → (∀ e, P e → P' e) → (∀ a w, I w → Q a w → Q' a w) → safe_on I' P' p Q' w.
Proof.
  intros Hp HI HP HQ. revert w Hp. induction p as [a|e k IH]; cbn; intros w [Hw Hp]; (split; [auto|]); [auto|].
  destruct Hp as [He Hk]. split; [auto|]. intros r w' Hs. apply IH. auto.
Qed.

Lemma safe_True {A} (p : prog R A) w : safe_on (λ _, True) (λ _, True) p (λ _ _, True) w.
Proof. revert w. induction p as [a|e k IH]; cbn; auto. Qed.

(** [I] and [Q] of what a program does may be strengthened by what it keeps. *)
Lemma safe_and {A} (I J : W → Prop) (P : E → Prop) (p : prog R A) (Q Q' : A → W → Prop) w :
  safe_on I P p Q w → safe_on J P p Q' w → safe_on (λ w, I w ∧ J w) P p (λ a w, Q a w ∧ Q' a w) w.
Proof.
  revert w. induction p as [a|e k IH]; cbn; intros w [Hi Hp] [Hj Hr]; (split; [done|]); [done|].
  destruct Hp as [He Hk], Hr as [_ Hl]. split; [done|]. intros r w' Hs. apply IH; auto.
Qed.

Lemma safe_forall {A X} (I : X → W → Prop) (p : prog R A) (Q : X → A → W → Prop) w :
  (∀ x, safe_on (I x) (λ _, True) p (Q x) w) → safe_on (λ w, ∀ x, I x w) (λ _, True) p (λ a w, ∀ x, Q x a w) w.
Proof.
  revert w. induction p as [a|e k IH]; cbn; intros w Hp; (split; [intros x; apply (Hp x)|]); [intros x; apply (Hp x)|].
  split; [done|]. intros r w' Hs. apply IH. intros x. by apply (Hp x).
Qed.

Lemma safe_returns {A} (I : W → Prop) (P : E → Prop) (p : prog R A) (Q : A → W → Prop) (T : A → Prop) w :
  safe_on I P p Q w → returns T p → safe_on I P p (λ a w, Q a w ∧ T a) w.
Proof.
  revert w. induction p as [a|e k IH]; cbn; intros w [Hi Hp] Ht; (split; [done|]); [done|].
  destruct Hp as [He Hk]. split; [done|]. intros r w' Hs. apply IH; [auto|]. apply Ht.
Qed.

(** A program whose calls keep [I]. *)
Lemma safe_only_on {A} (I : W → Prop) (P : E → Prop) (p : prog R A) w :
  (∀ e, inhabited (R e)) → only (λ o, P (obs_ev o)) p → (∀ w e r w', P e → I w → step w e r w' → I w') → I w →
  safe_on I P p (λ _ _, True) w.
Proof.
  intros Hin Hp HI. revert w. induction p as [a|e k IH]; cbn; intros w Hw; (split; [done|]); [done|]. cbn in Hp.
  assert (P e) as He by (destruct (Hin e) as [r]; apply (Hp r)).
  split; [done|]. intros r w' Hs. apply IH; [apply Hp|]. eauto.
Qed.

Lemma safe_reached {A} I P (p : prog R A) Q w w' : safe_on I P p Q w → reached_on p w w' → I w'.
Proof.
  intros Hs Hr. revert Hs. induction Hr as [A p w|A e k w r w1 w2 Hstep Hr IH]; intros Hs.
  - by destruct p, Hs.
  - destruct Hs as [_ [_ Hk]]. apply (IH Q). by apply Hk.
Qed.

Lemma safe_ends {A} I P (p : prog R A) Q w a w' : safe_on I P p Q w → ends_on p w a w' → Q a w'.
Proof.
  intros Hs He. induction He as [A a w|A e k w r w1 a w2 Hstep He IH]; [by destruct Hs|].
  destruct Hs as [_ [_ Hk]]. apply IH. by apply Hk.
Qed.

Lemma ends_bind {A B} (p : prog R A) (f : A → prog R B) w a w' b w'' :
  ends_on p w a w' → ends_on (f a) w' b w'' → ends_on (p ≫= f) w b w''.
Proof.
  unfold mbind, prog_bind. intros Hp. induction Hp as [A a w|A e k w r w1 a w2 Hs _ IH]; intros Hf; cbn; [done|].
  econstructor; [exact Hs|]. by apply IH.
Qed.

(** A state that answers by itself. *)
Lemma run_ends {A} (env : ∀ e, W → R e * W) (p : prog R A) w :
  (∀ e w, step w e (env e w).1 (env e w).2) → ends_on p w (run env p w).1.1 (run env p w).2.
Proof.
  intros Henv. revert w. induction p as [a|e k IH]; intros w; cbn; [constructor|].
  specialize (Henv e w). destruct (env e w) as [r w1]. specialize (IH r w1).
  destruct (run env (k r) w1) as [[a tr] w2]. by econstructor.
Qed.

Lemma run_ends_with {A} (env : ∀ e, W → R e * W) (p : prog R A) w a :
  (∀ e w, step w e (env e w).1 (env e w).2) → (run env p w).1.1 = a → ends_on p w a (run env p w).2.
Proof. intros Henv <-. by apply run_ends. Qed.
End states.

Arguments safe_on {E R W} step {A} I P p Q w.
Arguments reached_on {E R W} step {A} p w w'.
Arguments ends_on {E R W} step {A} p w a w'.

(** Calls that return a [Result] and their propagation. *)
Notation "x ←? p ; q" := (try_bind p (λ x, q))
  (at level 20, p at level 100, q at level 200, right associativity).

(** ** The control plane's calls *)

(** src/proto/agent.proto, the messages pgcluster reads or sends. *)
Record ReplicaStatus := mkReplicaStatus {
  application_name : string;
  rs_flush_lsn : Z;
  rs_replay_lsn : Z;
  replay_lag_us : Z;
  state : string
}.

Record StatusResponse := mkStatusResponse {
  is_in_recovery : bool;
  received_lsn : Z;
  replayed_lsn : Z;
  sent_lsn : Z;
  timeline : Z;
  postgres_version : string;
  active_connections : Z;
  postgres_running : bool;
  replicas : list ReplicaStatus;
  replication_conninfo : string;
  parameters : gmap string string;
  lost_slots : list string;
  has_data : bool;
  backup_config_version : string;
  proxy_auth_version : string
}.

Record SeedRequest := mkSeedRequest {
  sr_primary_host : string;
  sr_primary_port : Z;
  sr_user : string;
  sr_password : string;
  sr_slot_name : string;
  sr_application_name : string;
  sr_force : bool
}.

Record RestoreRequest := mkRestoreRequest {
  backup_name : string;
  target_time : string;
  rr_force : bool;
  rr_standby : option SeedRequest;
  rr_settings : gmap string string
}.

(** src/pgcluster/src/failover/seed.rs. *)
Record SeedPlan := mkSeedPlan {
  sp_node_id : string;
  sp_agent_addr : string;
  primary_host : string;
  primary_port : Z;
  primary_addr : string;
  sp_user : string;
  sp_password : string;
  slot_name : string
}.

(** Tasks the monitor leaves running in the background. *)
Inductive task := SeedTask (plan : SeedPlan) | RejoinTask (plan : SeedPlan).

Inductive event :=
(* raft *)
| ClientWrite (cmd : TopologyCommand)
| CurrentTopology
| CurrentLeader
| MyId
| LeaseHeld
(* agents: a connection from the pool, then one RPC on it *)
| Connect (node addr : string)
| Evict (node : string)
| GetStatus (node : string)
| Heartbeat (node : string)
| Promote (node : string)
| Demote (node conninfo slot app : string)
| StopPostgres (node mode : string)
| Detach (node : string)
| Seed (node : string) (req : SeedRequest)
| Rewind (node : string) (req : SeedRequest)
| RestoreBackup (node : string) (req : RestoreRequest)
| SetParameters (node : string) (params : gmap string string)
| ConfigureBackups (node : string) (settings : gmap string string) (version : string)
| SetProxyAuth (node user password version : string)
(* SQL on a primary *)
| SqlConnect (url : string)
| SqlCreateSlot (url slot : string)
| SqlOrphans (url pattern : string) (max_lag : Z)
| SqlDropSlot (url slot : string)
(* time, tasks and credentials *)
| InstantNow
| UnixSecs
| Sleep (ms : Z)
| TimerFired
| JoinOrder (tasks : nat)
| Spawn (t : task)
| Credential (name : string)
| EnvVar (name : string)
(* shared in the process *)
| BeginDrain
| EndDrain
| TryAcquireOp
| ReleaseOp
| LoadOp.

(** What each call answers. An RPC answers [None] when it fails and otherwise
    the [success] field of its response; error texts are only logged. Joining
    a set of tasks gives their indices in completion order, without those that
    panicked. *)
Definition answer (e : event) : Type :=
  match e with
  | ClientWrite _ | Connect _ _ | Heartbeat _ | SqlConnect _ | SqlCreateSlot _ _
  | SqlDropSlot _ _ | TimerFired | TryAcquireOp | LoadOp | LeaseHeld => bool
  | Promote _ | Demote _ _ _ _ | StopPostgres _ _ | Seed _ _ | Rewind _ _ | RestoreBackup _ _
  | SetParameters _ _ | ConfigureBackups _ _ _ | SetProxyAuth _ _ _ _ | Detach _ => option bool
  | GetStatus _ => option StatusResponse
  | SqlOrphans _ _ _ => option (list string)
  | CurrentTopology => ClusterTopology
  | CurrentLeader => option Z
  | MyId | InstantNow | UnixSecs => Z
  | Credential _ | EnvVar _ => string
  | JoinOrder n => {l : list nat | l ⊆+ seq 0 n}
  | Evict _ | Sleep _ | Spawn _ | BeginDrain | EndDrain | ReleaseOp => unit
  end.

(** Code of the control plane that returns [A]. *)
Abbreviation eff := (prog answer).
Abbreviation trace := (list (obs answer)).

Definition ask (e : event) : eff (answer e) := call e.

Definition join_order (n : nat) (o : answer (JoinOrder n)) : list nat := `o.

Lemma all_runs_ask {B} e (f : answer e → eff B) Q :
  (∀ r, all_runs (f r) (λ b tr, Q b (Obs e r :: tr))) → all_runs (ask e ≫= f) Q.
Proof. intros Hf r. apply Hf. Qed.

(** [get_or_connect(node, addr).await?] followed by one RPC. *)
Definition on_agent {A} (node addr : string) (rpc : eff (option A)) : eff (option A) :=
  ok ← ask (Connect node addr); if ok : bool then rpc else Ret None.

(** The answers of a [JoinSet], in completion order. *)
Definition join_all {A} (results : list A) : eff (list A) :=
  o ← ask (JoinOrder (length results));
  Ret (omap (λ i : nat, results !! i) (join_order _ o)).

(** The [Some] results, in order. *)
Definition somes {A} (l : list (option A)) : list A := omap (λ o, o) l.

Definition expired : eff bool := ask TimerFired.

Lemma somes_submseteq {A} (l k : list (option A)) : l ⊆+ k → somes l ⊆+ somes k.
Proof. unfold somes. induction 1; cbn; repeat case_match; eauto using submseteq. Qed.

Lemma submseteq_NoDup {A} (l k : list A) : l ⊆+ k → NoDup k → NoDup l.
Proof. intros [k' ->]%submseteq_Permutation [? _]%NoDup_app. done. Qed.

(** Runs of the fan-out lose at most results. *)
Lemma omap_seq {A} (l : list A) n : omap (λ i, l !! (i - n)%nat) (seq n (length l)) = l.
Proof.
  revert n. induction l as [|x l IH]; intros n; cbn; [done|].
  rewrite Nat.sub_diag. cbn. f_equal. rewrite <- (IH (S n)) at 2.
  apply list_omap_ext, Forall_Forall2_diag, Forall_forall. intros i Hi.
  apply elem_of_seq in Hi. destruct i as [|i]; [lia|].
  by replace (S i - n)%nat with (S (i - n)) by lia.
Qed.

Lemma join_all_runs {A} (results : list A) :
  all_runs (join_all results) (λ l tr, l ⊆+ results ∧ length tr = 1%nat).
Proof.
  intros [o Ho]. cbn. split; [|done].
  assert (E : omap (λ i, results !! i) (seq 0 (length results)) = results).
  { etrans; [|exact (omap_seq results 0)].
    apply list_omap_ext, Forall_Forall2_diag, Forall_forall. intros i _. by rewrite Nat.sub_0_r. }
  unfold join_order. cbn.
  enough (omap (λ i, results !! i) o ⊆+ omap (λ i, results !! i) (seq 0 (length results)))
    by (by rewrite E in *). clear E.
  induction Ho; cbn; repeat case_match; eauto using submseteq.
Qed.

(** Walk through a program, leaving the calls to [tac]. *)
Ltac only_steps tac :=
  repeat match goal with
  | |- only _ (Ret _) => exact I
  | |- only _ (mret _) => exact I
  | |- only _ (ask _) => intros ?; split; [tac|exact I]
  | |- only _ (mbind _ _) => apply only_bind; [|intros ?]
  | |- only _ (timeout _ _) => apply only_timeout
  | |- only _ (for_each _ _) => apply only_for_each; intros ? ?
  | |- only _ (mapM _ _) => apply only_mapM; intros ? ?
  | |- only _ (on_agent _ _ _) => unfold on_agent
  | |- only _ (try_bind _ _) => unfold try_bind
  | |- only _ (join_all _) => unfold join_all
  | |- only _ expired => unfold expired
  | |- only _ (match ?x with _ => _ end) => destruct x
  end.
