(* ===== verification/Scram.v ===== *)
(** SCRAM-SHA-256 on both sides of the proxy: src/pgcluster/src/proxy/scram.rs.

    The proxy is a SCRAM server to its clients ([authenticate_client]) and a
    SCRAM client to the backends ([login_to_backend]), with the keys a client's
    proof reveals. Both are programs over the calls they make: exact reads,
    writes and random bytes. SHA-256, HMAC and base64 are an interface
    ([ScramCrypto]).

    [conversation] runs two programs against each other, in any interleaving.
    [scram_relay] says that a client with the right password is let in and that
    the keys it leaves then log in to a backend, whichever way the four
    programs are scheduled; [login_accepted_proved] what is known of every
    accepted client; [proof_for_own_verifier] when the proxy gives a backend a
    proof, and [backend_need_not_prove] that it does not insist on one back. *)
From S2P Require Import Prelude Effects Protocol.

Local Open Scope Z_scope.

(** ** What the proxy uses of other crates *)

Definition base64_char (c : ascii) : bool :=
  let n := Z.of_N (N_of_ascii c) in
  between 48 57 n || between 65 90 n || between 97 122 n || (n =? 43) || (n =? 47) || (n =? 61).

Definition is_key (k : bytes) : Prop := length k = 32%nat ∧ Forall is_byte k.

Class ScramCrypto := {
  hmac : bytes → bytes → bytes;
  sha256 : bytes → bytes;
  b64_encode : bytes → string;
  b64_decode : string → option bytes;
  hmac_key : ∀ k m, is_key (hmac k m);
  sha256_key : ∀ m, is_key (sha256 m);
  b64_round_trip : ∀ l, Forall is_byte l → b64_decode (b64_encode l) = Some l;
  b64_alphabet : ∀ l, str_exists (λ c, negb (base64_char c)) (b64_encode l) = false;
  b64_length : ∀ l, (String.length (b64_encode l) ≤ 2 * length l + 4)%nat;
  b64_gs2 : b64_encode [110; 44; 44] = "biws"
}.

(** ** Texts and bytes *)

(** [str::as_bytes] and [std::str::from_utf8]. *)
Definition as_bytes (s : string) : bytes := Z.of_N ∘ N_of_ascii <$> list_ascii_of_string s.
Definition of_bytes (b : bytes) : string := string_of_list_ascii (ascii_of_N ∘ Z.to_N <$> b).
Definition text (b : bytes) : option string := if utf8_valid b then Some (of_bytes b) else None.

(** [rsplit_once] with a text as the separator. *)
Fixpoint rsplit_once_str (sep s : string) : option (string * string) :=
  match s with
  | EmptyString => None
  | String a s' =>
      match rsplit_once_str sep s' with
      | Some (l, r) => Some (String a l, r)
      | None => r ← strip_prefix sep s; Some (EmptyString, r)
      end
  end.

Section scram.
Context `{!ScramCrypto}.

(** ** Keys and verifiers *)

Definition MECHANISM : string := "SCRAM-SHA-256".
Definition NONCE_BYTES : nat := 18.
Definition MAX_FRAME : Z := 1024 * 1024.
Definition AUTH_OK : Z := 0.
Definition AUTH_SASL : Z := 10.
Definition AUTH_SASL_CONTINUE : Z := 11.
Definition AUTH_SASL_FINAL : Z := 12.

Definition xor (a b : bytes) : bytes := zip_with Z.lxor a b.

Definition keys_equal (a b : bytes) : bool :=
  foldl (λ d '(x, y), Z.lor d (Z.lxor x y)) 0 (zip a b) =? 0.

Definition key_from_base64 (s : string) : option bytes :=
  b ← b64_decode s; if (length b =? 32)%nat then Some b else None.

Definition salted_password (password : string) (salt : bytes) (iterations : Z) : bytes :=
  let u := hmac (as_bytes password) (salt ++ be_bytes 4 1) in
  snd (Nat.iter (Z.to_nat (iterations - 1))
         (λ '(u, out), let u := hmac (as_bytes password) u in (u, xor out u)) (u, u)).

Definition make_verifier (password : string) (salt : bytes) (iterations : Z) : string :=
  let salted := salted_password password salt iterations in
  let stored_key := sha256 (hmac salted (as_bytes "Client Key")) in
  let server_key := hmac salted (as_bytes "Server Key") in
  ("SCRAM-SHA-256$" ++ format_dec iterations ++ ":" ++ b64_encode salt ++ "$" ++
   b64_encode stored_key ++ ":" ++ b64_encode server_key)%string.

Record Verifier := mkVerifier {
  iterations : Z;
  salt : bytes;
  stored_key : bytes;
  server_key : bytes
}.

Definition verifier_parse (stored : string) : option Verifier :=
  rest ← strip_prefix "SCRAM-SHA-256$" stored;
  '(params, keys) ← split_once "$" rest;
  '(iterations, salt) ← split_once ":" params;
  '(stored_key, server_key) ← split_once ":" keys;
  iterations ← parse_u32 iterations;
  salt ← b64_decode salt;
  stored_key ← key_from_base64 stored_key;
  server_key ← key_from_base64 server_key;
  Some (mkVerifier iterations salt stored_key server_key).

Definition verifier_mock (role : string) (secret : bytes) : Verifier :=
  mkVerifier 4096 (take 16 (hmac secret (as_bytes role))) (hmac secret (as_bytes "stored"))
    (hmac secret (as_bytes "server")).

Record Credentials := mkCredentials { client_key : bytes; verifier : Verifier }.

(** ** Calls *)

Inductive io := ReadExact (n : nat) | WriteAll (b : bytes) | FillBytes (n : nat).

Definition io_ans (e : io) : Type :=
  match e with ReadExact _ => option bytes | WriteAll _ => bool | FillBytes _ => bytes end.

Abbreviation ioprog := (prog io_ans).

(** [?] on a [Result] with an error of its own. *)
Definition rbind {E A B} (p : ioprog (result E A)) (f : A → ioprog (result E B)) : ioprog (result E B) :=
  p ≫= λ r : result E A, match r with Ok a => f a | Err e => Ret (Err e) end.

Notation "x ←! p ; q" := (rbind p (λ x, q)) (at level 20, p at level 100, q at level 200, right associativity).

(** A step that fails with the given error. *)
Definition or_err {E A} (e : E) (p : ioprog (option A)) : ioprog (result E A) := ok_or e <$> p.

Definition pure_or {E A} (e : E) (o : option A) : ioprog (result E A) := Ret (ok_or e o).

Definition check {E} (e : E) (b : bool) : ioprog (result E ()) := Ret (if b then Ok () else Err e).

Definition read_exact_io (n : nat) : ioprog (option bytes) := call (R := io_ans) (ReadExact n).

Definition write_frame (kind : Z) (body : bytes) : ioprog (option ()) :=
  ok ← call (R := io_ans) (WriteAll (write_message kind body)) : ioprog bool;
  Ret (if ok : bool then Some () else None).

Definition nonce : ioprog string := b64_encode <$> (call (R := io_ans) (FillBytes NONCE_BYTES) : ioprog bytes).

Definition read_frame : ioprog (option (Z * bytes)) :=
  kind ←? read_exact_io 1;
  len ←? read_exact_io 4;
  let length := be_value len in
  if (4 <=? length) && (length <=? MAX_FRAME) then
    body ←? read_exact_io (Z.to_nat (length - 4));
    Ret (Some (be_value kind, body))
  else Ret None.

Definition encode_frame (kind : Z) (body : bytes) : bytes :=
  kind :: be_bytes 4 (wrap 32 (wrap 32 (Z.of_nat (length body)) + 4)) ++ body.

Definition auth_message (code : Z) (data : bytes) : bytes := be_bytes 4 code ++ data.

(** [find_map] over the parts: the first whose prefix is [key=]. *)
Fixpoint first_value (key : ascii) (parts : list string) : option string :=
  match parts with
  | [] => None
  | p :: parts =>
      match strip_prefix (String key "=") p with Some v => Some v | None => first_value key parts end
  end.

Definition attribute (message : string) (key : ascii) : option string :=
  first_value key (split "," message).

(** ** The server side *)

Inductive ClientAuthError := Rejected | Protocol.

(** [splitn(3, ',')]: the flag, the authorization id, and whether more follows. *)
Definition parse_initial_response (body : bytes) : option (string * string) :=
  end_ ← position0 body;
  mechanism ← text (take end_ body);
  _ ← guard (String.eqb mechanism MECHANISM);
  _ ← guard (end_ + 5 <= length body)%nat;
  client_first ← text (drop (end_ + 5) body);
  '(flag, rest) ← split_once "," client_first;
  '(authzid, _) ← split_once "," rest;
  _ ← guard (String.eqb flag "n" || String.eqb flag "y");
  Some (client_first, flag ++ "," ++ authzid ++ ",")%string.

Definition server_first_message (v : Verifier) (combined_nonce : string) : string :=
  "r=" ++ combined_nonce ++ ",s=" ++ b64_encode (salt v) ++ ",i=" ++ format_dec (iterations v).

Definition auth_text (client_first_bare server_first without_proof : string) : string :=
  client_first_bare ++ "," ++ server_first ++ "," ++ without_proof.

(** From the client's final message on. *)
Definition hear_final (v : Verifier) (client_first_bare gs2_header combined_nonce server_first : string)
    : ioprog (result ClientAuthError Credentials) :=
  let e := Protocol in
  frame ←! or_err e read_frame;
  let '(kind, body) := frame in
  _ ←! check e (kind =? 112);
  client_final ←! pure_or e (text body);
  parts ←! pure_or e (rsplit_once_str ",p=" client_final);
  let '(without_proof, proof) := parts in
  _ ←! check e (bool_decide (attribute without_proof "r" = Some combined_nonce));
  _ ←! check e (bool_decide (attribute without_proof "c" = Some (b64_encode (as_bytes gs2_header))));
  proof ←! pure_or e (key_from_base64 proof);
  let auth := auth_text client_first_bare server_first without_proof in
  let client_key := xor proof (hmac (stored_key v) (as_bytes auth)) in
  _ ←! check Rejected (keys_equal (sha256 client_key) (stored_key v));
  let signature := b64_encode (hmac (server_key v) (as_bytes auth)) in
  _ ←! or_err e (write_frame 82 (auth_message AUTH_SASL_FINAL (as_bytes ("v=" ++ signature)%string)));
  _ ←! or_err e (write_frame 82 (be_bytes 4 AUTH_OK));
  Ret (Ok (mkCredentials client_key v)).

(** From the client's first message on. *)
Definition hear_first (v : Verifier) : ioprog (result ClientAuthError Credentials) :=
  let e := Protocol in
  frame ←! or_err e read_frame;
  let '(kind, body) := frame in
  _ ←! check e (kind =? 112);
  initial ←! pure_or e (parse_initial_response body);
  let '(client_first, gs2_header) := initial in
  client_first_bare ←! pure_or e (strip_prefix gs2_header client_first);
  client_nonce ←! pure_or e (attribute client_first_bare "r");
  server_nonce ← nonce;
  let combined_nonce := (client_nonce ++ server_nonce)%string in
  let server_first := server_first_message v combined_nonce in
  _ ←! or_err e (write_frame 82 (auth_message AUTH_SASL_CONTINUE (as_bytes server_first)));
  hear_final v client_first_bare gs2_header combined_nonce server_first.

Definition sasl_offer : bytes := auth_message AUTH_SASL (as_bytes MECHANISM ++ [0; 0]).

Definition authenticate_client (v : Verifier) : ioprog (result ClientAuthError Credentials) :=
  _ ←! or_err Protocol (write_frame 82 sasl_offer);
  hear_first v.

(** ** The client side *)

(** [Looping] is no error of the source: the loops run on a given fuel. *)
Inductive BackendLoginError := Refused (frame : bytes) | Failed | Looping.

Definition check_same_verifier (server_first : string) (v : Verifier) : option () :=
  salt_text ← attribute server_first "s";
  iterations_text ← attribute server_first "i";
  _ ← guard (b64_decode salt_text = Some (salt v));
  guard (parse_u32 iterations_text = Some (iterations v));;
  Some ().

(** [from_utf8_lossy] changes no NUL and no piece that is the mechanism's name,
    so the pieces are those of the bytes. *)
Definition offers_mechanism (data : bytes) : bool :=
  existsb (λ m, bool_decide (m = as_bytes MECHANISM)) (split0 data).

Definition send (body : bytes) : ioprog (result BackendLoginError ()) :=
  or_err Failed (write_frame 112 body).

Definition client_first_message (client_first_bare : string) : bytes :=
  let client_first := ("n,," ++ client_first_bare)%string in
  as_bytes MECHANISM ++ [0] ++ be_bytes 4 (Z.of_nat (String.length client_first)) ++ as_bytes client_first.

(** The loop up to [AuthenticationOk]; [auth] is what was signed so far. *)
Fixpoint login_auth (fuel : nat) (c : Credentials) (client_nonce auth : string)
    : ioprog (result BackendLoginError ()) :=
  match fuel with
  | O => Ret (Err Looping)
  | S fuel =>
      let v := verifier c in
      let client_first_bare := ("n=,r=" ++ client_nonce)%string in
      frame ←! or_err Failed read_frame;
      let '(kind, body) := frame in
      if kind =? 69 then Ret (Err (Refused (encode_frame kind body)))
      else
        _ ←! check Failed (kind =? 82);
        _ ←! check Failed (4 <=? length body)%nat;
        let code := to_i32 (be_value (take 4 body)) in
        let data := drop 4 body in
        if code =? AUTH_OK then Ret (Ok ())
        else if code =? AUTH_SASL then
          _ ←! check Failed (offers_mechanism data);
          _ ←! send (client_first_message client_first_bare);
          login_auth fuel c client_nonce auth
        else if code =? AUTH_SASL_CONTINUE then
          server_first ←! pure_or Failed (text data);
          server_nonce ←! pure_or Failed (attribute server_first "r");
          _ ←! check Failed (starts_with client_nonce server_nonce);
          _ ←! pure_or Failed (check_same_verifier server_first v);
          let without_proof := ("c=biws,r=" ++ server_nonce)%string in
          let auth := auth_text client_first_bare server_first without_proof in
          let signature := hmac (stored_key v) (as_bytes auth) in
          let proof := b64_encode (xor (client_key c) signature) in
          _ ←! send (as_bytes (without_proof ++ ",p=" ++ proof)%string);
          login_auth fuel c client_nonce auth
        else if code =? AUTH_SASL_FINAL then
          server_final ←! pure_or Failed (text data);
          signature ←! pure_or Failed (attribute server_final "v" ≫= key_from_base64);
          _ ←! check Failed (keys_equal signature (hmac (server_key v) (as_bytes auth)));
          login_auth fuel c client_nonce auth
        else Ret (Err Failed)
  end.

(** The loop from there to [ReadyForQuery]. *)
Fixpoint login_rest (fuel : nat) (rest : bytes) : ioprog (result BackendLoginError bytes) :=
  match fuel with
  | O => Ret (Err Looping)
  | S fuel =>
      frame ←! or_err Failed read_frame;
      let '(kind, body) := frame in
      let frame := encode_frame kind body in
      if kind =? 69 then Ret (Err (Refused frame))
      else if kind =? 90 then Ret (Ok (rest ++ frame))
      else login_rest fuel (rest ++ frame)
  end.

Definition login_to_backend (fuel : nat) (startup : bytes) (c : Credentials)
    : ioprog (result BackendLoginError bytes) :=
  ok ← (call (R := io_ans) (WriteAll startup) : ioprog bool);
  _ ←! check Failed ok;
  client_nonce ← nonce;
  _ ←! login_auth fuel c client_nonce EmptyString;
  login_rest fuel [].

(** ** Two programs that talk to each other *)

Record side (A : Type) := mkSide { side_prog : ioprog A; inbox : bytes; randoms : list bytes }.
Arguments mkSide {A} _ _ _.
Arguments side_prog {A} _.
Arguments inbox {A} _.
Arguments randoms {A} _.

Definition deliver {A} (out : bytes) (s : side A) : side A :=
  mkSide (side_prog s) (inbox s ++ out) (randoms s).

(** One call of a program whose peer's bytes are in its inbox, and the bytes it
    sends. A read waits for all its bytes. *)
Definition advance {A} (s : side A) : option (side A * bytes) :=
  match side_prog s with
  | Ret _ => None
  | Vis e k =>
      match e return (io_ans e → ioprog A) → option (side A * bytes) with
      | ReadExact n => λ k,
          if (n <=? length (inbox s))%nat
          then Some (mkSide (k (Some (take n (inbox s)))) (drop n (inbox s)) (randoms s), [])
          else None
      | WriteAll b => λ k, Some (mkSide (k true) (inbox s) (randoms s), b)
      | FillBytes _ => λ k,
          match randoms s with
          | r :: rs => Some (mkSide (k r) (inbox s) rs, [])
          | [] => None
          end
      end k
  end.

Inductive talk {A B} : side A * side B → side A * side B → Prop :=
| talk_left a a' out b : advance a = Some (a', out) → talk (a, b) (a', deliver out b)
| talk_right a b b' out : advance b = Some (b', out) → talk (a, b) (deliver out a, b').

(** However the two are scheduled, they can only end with these results. *)
Definition concludes {A B} (a : side A) (b : side B) (ra : A) (rb : B) : Prop :=
  ∀ c, rtc talk (a, b) c →
    ∃ ina rsa inb rsb, rtc talk c (mkSide (Ret ra) ina rsa, mkSide (Ret rb) inb rsb).

Lemma deliver_deliver {A} x y (s : side A) : deliver y (deliver x s) = deliver (x ++ y) s.
Proof. unfold deliver. cbn. by rewrite <-app_assoc. Qed.

(** What arrives meanwhile does not change a call. *)
Lemma advance_deliver {A} (s s' : side A) out x :
  advance s = Some (s', out) → advance (deliver x s) = Some (deliver x s', out).
Proof.
  unfold advance, deliver. destruct s as [[a|[n|b|n] k] i rs]; cbn; [done|..].
  - destruct (Nat.leb_spec n (length i)); [|done]. intros [= <- <-].
    rewrite length_app. destruct (Nat.leb_spec n (length i + length x)); [|lia].
    cbn. by rewrite take_app_le, drop_app_le by done.
  - by intros [= <- <-].
  - destruct rs; [done|]. by intros [= <- <-].
Qed.

Lemma talk_diamond {A B} (c c1 c2 : side A * side B) :
  talk c c1 → talk c c2 → c1 = c2 ∨ ∃ c3, talk c1 c3 ∧ talk c2 c3.
Proof.
  intros H1 H2. destruct H1 as [a a1 o1 b Ha|a b b1 o1 Hb];
    inversion H2 as [a' a2 o2 b' Ha'|a' b' b2 o2 Hb']; subst.
  - rewrite Ha in Ha'. injection Ha' as -> ->. by left.
  - right. exists (deliver o2 a1, deliver o1 b2). split.
    + apply talk_right. by apply advance_deliver.
    + apply talk_left. by apply advance_deliver.
  - right. exists (deliver o1 a2, deliver o2 b1). split.
    + apply talk_left. by apply advance_deliver.
    + apply talk_right. by apply advance_deliver.
  - rewrite Hb in Hb'. injection Hb' as -> ->. by left.
Qed.

Lemma talk_swing {A B} n (c c1 f : side A * side B) :
  nsteps talk n c f → (∀ f', ¬ talk f f') → talk c c1 → ∃ m, n = S m ∧ nsteps talk m c1 f.
Proof.
  intros Hn Hf. revert c1. induction Hn as [f|n c c2 f Hs Hr IH]; intros c1 H1; [by edestruct Hf|].
  exists n. split; [done|]. destruct (talk_diamond _ _ _ Hs H1) as [->|(c3 & H23 & H13)]; [done|].
  destruct (IH Hf c3 H23) as (m & -> & Hm). econstructor; eauto.
Qed.

Lemma ended {A B} (ra : A) (rb : B) ina rsa inb rsb c :
  ¬ talk (mkSide (Ret ra) ina rsa, mkSide (Ret rb) inb rsb) c.
Proof. inversion 1; discriminate. Qed.

Lemma concludes_intro {A B} (a : side A) (b : side B) ra rb ina rsa inb rsb :
  rtc talk (a, b) (mkSide (Ret ra) ina rsa, mkSide (Ret rb) inb rsb) → concludes a b ra rb.
Proof.
  intros Hr c Hc. exists ina, rsa, inb, rsb. pose proof (ended ra rb ina rsa inb rsb) as Hf.
  revert Hf. generalize dependent (mkSide (Ret ra) ina rsa, mkSide (Ret rb) inb rsb). intros f Hr Hf.
  apply rtc_nsteps in Hr as [n Hn]. revert n Hn.
  induction Hc as [c|c c1 c' Hs _ IH]; intros n Hn; [apply rtc_nsteps; eauto|].
  destruct (talk_swing _ _ _ _ Hn Hf Hs) as (m & _ & Hm). by eapply IH.
Qed.

(** ** Steps of a conversation *)

(** The left side reads, writes or draws; what is left to do is [f]. *)
Lemma left_write {A B E} (e : E) kind body (f : () → ioprog (result E A)) i rs (b : side B) :
  talk (mkSide (rbind (or_err e (write_frame kind body)) f) i rs, b)
       (mkSide (f ()) i rs, deliver (write_message kind body) b).
Proof. by apply talk_left. Qed.

Lemma right_write {A B E} (e : E) kind body (f : () → ioprog (result E B)) i rs (a : side A) :
  talk (a, mkSide (rbind (or_err e (write_frame kind body)) f) i rs)
       (deliver (write_message kind body) a, mkSide (f ()) i rs).
Proof. by apply talk_right. Qed.

Lemma left_write_opt {A B} kind body (f : option () → ioprog A) i rs (b : side B) :
  talk (mkSide (write_frame kind body ≫= f) i rs, b)
       (mkSide (f (Some ())) i rs, deliver (write_message kind body) b).
Proof. by apply talk_left. Qed.

Lemma left_nonce {A B} (f : string → ioprog A) i r rs (b : side B) :
  talk (mkSide (nonce ≫= f) i (r :: rs), b) (mkSide (f (b64_encode r)) i rs, deliver [] b).
Proof. by apply talk_left. Qed.

Lemma right_nonce {A B} (f : string → ioprog B) i r rs (a : side A) :
  talk (a, mkSide (nonce ≫= f) i (r :: rs)) (deliver [] a, mkSide (f (b64_encode r)) i rs).
Proof. by apply talk_right. Qed.

Lemma deliver_nil {A} (s : side A) : deliver [] s = s.
Proof. destruct s. unfold deliver. cbn. by rewrite app_nil_r. Qed.

(** A side that has a whole frame in its inbox can read it. *)
Definition frame_fits (kind : Z) (body : bytes) : Prop :=
  is_byte kind ∧ Z.of_nat (length body) + 4 ≤ MAX_FRAME.

Inductive moves {A} : side A → side A → Prop :=
| moves_refl s : moves s s
| moves_step s s' s'' : advance s = Some (s', []) → moves s' s'' → moves s s''.

Lemma moves_left {A B} (s s' : side A) (b : side B) : moves s s' → rtc talk (s, b) (s', b).
Proof.
  induction 1 as [s|s s1 s2 Ha _ IH]; [done|]. eapply rtc_l; [by apply talk_left|]. by rewrite deliver_nil.
Qed.

Lemma moves_right {A B} (a : side A) (s s' : side B) : moves s s' → rtc talk (a, s) (a, s').
Proof.
  induction 1 as [s|s s1 s2 Hadv _ IH]; [done|]. eapply rtc_l; [by apply talk_right|]. by rewrite deliver_nil.
Qed.

Lemma advance_read {A} n (k : option bytes → ioprog A) x rest rs :
  length x = n →
  advance (mkSide (Vis (ReadExact n) k) (x ++ rest) rs) = Some (mkSide (k (Some x)) rest rs, []).
Proof.
  intros <-. cbn. rewrite length_app. destruct (Nat.leb_spec (length x) (length x + length rest)); [|lia].
  by rewrite take_app_length, drop_app_length.
Qed.

Lemma right_read_all {A B E} (e : E) x (f : bytes → ioprog (result E B)) rs (a : side A) :
  talk (a, mkSide (rbind (or_err e (read_exact_io (length x))) f) x rs) (a, mkSide (f x) [] rs).
Proof.
  pose proof (advance_read (length x)
    (λ o, Ret (ok_or e o) ≫= λ r : result E bytes, match r with Ok y => f y | Err e => Ret (Err e) end)
    x [] rs eq_refl) as Hadv.
  rewrite app_nil_r in Hadv. rewrite <-(deliver_nil a) at 2. by apply talk_right.
Qed.

Ltac frame_moves :=
  let Hk := fresh in let Hl := fresh in
  intros [Hk Hl]; unfold write_message; unfold MAX_FRAME in Hl; rewrite frame_length by lia;
  rewrite <-app_comm_cons; change (?kind :: ?l) with ([kind] ++ l);
  eapply moves_step; [by apply advance_read|]; rewrite <-app_assoc;
  eapply moves_step; [apply advance_read, be_bytes_length|];
  cbn -[Z.to_nat be_bytes Z.leb]; rewrite be_value_be_bytes by lia;
  match goal with |- context [4 <=? ?n] =>
    destruct (Z.leb_spec 4 n); [|lia]; destruct (Z.leb_spec n MAX_FRAME); [|unfold MAX_FRAME in *; lia] end;
  eapply moves_step; [apply advance_read; lia|]; apply moves_refl.

Lemma read_frame_moves {A} (f : option (Z * bytes) → ioprog A) kind body rest rs :
  frame_fits kind body →
  moves (mkSide (read_frame ≫= f) (write_message kind body ++ rest) rs)
        (mkSide (f (Some (kind, body))) rest rs).
Proof. frame_moves. Qed.

Lemma read_frame_or_err {E A} (e : E) (f : Z * bytes → ioprog (result E A)) kind body rest rs :
  frame_fits kind body →
  moves (mkSide (rbind (or_err e read_frame) f) (write_message kind body ++ rest) rs)
        (mkSide (f (kind, body)) rest rs).
Proof. frame_moves. Qed.

(** ** The honest parties *)

(** A client with the password, as libpq runs it; it ends with the two last
    frames it is sent. *)
Definition scram_client (password : string) (salt : bytes) (iterations : Z) (flag : string)
    : ioprog (option (option (Z * bytes) * option (Z * bytes))) :=
  frame ←? read_frame;
  n ← nonce;
  let bare := ("n=,r=" ++ n)%string in
  let gs2 := (flag ++ ",,")%string in
  let first := (gs2 ++ bare)%string in
  _ ←? write_frame 112
         (as_bytes MECHANISM ++ [0] ++ be_bytes 4 (Z.of_nat (String.length first)) ++ as_bytes first);
  frame ←? read_frame;
  server_first ←? Ret (text (drop 4 frame.2));
  server_nonce ←? Ret (attribute server_first "r");
  let without_proof := ("c=" ++ b64_encode (as_bytes gs2) ++ ",r=" ++ server_nonce)%string in
  let auth := auth_text bare server_first without_proof in
  let client_key := hmac (salted_password password salt iterations) (as_bytes "Client Key") in
  let signature := hmac (sha256 client_key) (as_bytes auth) in
  let proof := b64_encode (xor client_key signature) in
  _ ←? write_frame 112 (as_bytes (without_proof ++ ",p=" ++ proof)%string);
  last ← read_frame;
  ok ← read_frame;
  Ret (Some (last, ok)).

(** A server that checks the proof as Postgres does, then reports a parameter
    and that it is ready. *)
Definition backend_server (startup : bytes) (v : Verifier) : ioprog (result ClientAuthError ()) :=
  _ ←! or_err Protocol (read_exact_io (length startup));
  _ ←! authenticate_client v;
  _ ←! or_err Protocol (write_frame 83 [97; 0; 98; 0]);
  _ ←! or_err Protocol (write_frame 90 [73]);
  Ret (Ok ()).

(** ** Texts *)

Definition ascii_text (s : string) : Prop := str_exists (λ c, (128 <=? Z.of_N (N_of_ascii c))) s = false.
Definition plain (s : string) : Prop := str_exists (λ c, negb (base64_char c)) s = false.

Lemma str_exists_app f (a b : string) : str_exists f (a ++ b) = str_exists f a || str_exists f b.
Proof. induction a as [|c a IH]; [done|]. cbn. by rewrite IH, orb_assoc. Qed.

Lemma str_exists_impl (f g : ascii → bool) s :
  (∀ c, f c = true → g c = true) → str_exists g s = false → str_exists f s = false.
Proof.
  intros Hfg. induction s as [|c s IH]; [done|]. cbn. intros [Hc Hs]%orb_false_iff.
  rewrite IH by done. specialize (Hfg c). destruct (f c); [|done]. by rewrite Hfg in Hc.
Qed.

Lemma base64_ascii c : base64_char c = true → (128 <=? Z.of_N (N_of_ascii c)) = false.
Proof. unfold base64_char, between. intros Hc. destruct (Z.leb_spec 128 (Z.of_N (N_of_ascii c))); [|done]. lia. Qed.

Lemma plain_ascii s : plain s → ascii_text s.
Proof.
  apply str_exists_impl. intros c Hc. destruct (base64_char c) eqn:E; [|done].
  by rewrite base64_ascii in Hc.
Qed.

Lemma plain_no c s : plain s → base64_char c = false → str_exists (Ascii.eqb c) s = false.
Proof. intros Hs Hc. revert Hs. apply str_exists_impl. intros d ->%Ascii.eqb_eq. by rewrite Hc. Qed.

Lemma plain_app_iff a b : plain (a ++ b)%string ↔ plain a ∧ plain b.
Proof. unfold plain. rewrite str_exists_app. apply orb_false_iff. Qed.

Lemma ascii_app a b : ascii_text (a ++ b)%string ↔ ascii_text a ∧ ascii_text b.
Proof. unfold ascii_text. rewrite str_exists_app. apply orb_false_iff. Qed.

Lemma plain_b64 l : plain (b64_encode l).
Proof. apply b64_alphabet. Qed.

Lemma plain_digits fuel n acc : 0 ≤ n → plain acc → plain (digits_fuel fuel 10 n acc).
Proof.
  revert n acc. induction fuel as [|fuel IH]; intros n acc Hn Hacc; [done|]. cbn [digits_fuel].
  assert (plain (String (digit_char (n mod 10)) acc)).
  { unfold plain. cbn. rewrite Hacc, orb_false_r. pose proof (Z.mod_pos_bound n 10 ltac:(lia)) as Hm.
    assert (In (n mod 10) [0; 1; 2; 3; 4; 5; 6; 7; 8; 9]) as Hin by (cbn; lia).
    repeat (destruct Hin as [<-|Hin]; [reflexivity|]). done. }
  case_match; [done|]. apply IH; [apply Z.div_pos; lia|done].
Qed.

Lemma plain_dec n : 0 ≤ n → plain (format_dec n).
Proof. intros Hn. by apply plain_digits. Qed.

Lemma digits_length fuel radix n acc :
  (String.length (digits_fuel fuel radix n acc) ≤ fuel + String.length acc)%nat.
Proof.
  revert n acc. induction fuel as [|fuel IH]; intros n acc; [done|]. cbn [digits_fuel].
  case_match; [cbn; lia|]. etrans; [apply IH|]. cbn. lia.
Qed.

Lemma length_as_bytes s : length (as_bytes s) = String.length s.
Proof. unfold as_bytes. rewrite length_fmap. induction s; cbn; congruence. Qed.

Lemma as_bytes_app a b : as_bytes (a ++ b)%string = as_bytes a ++ as_bytes b.
Proof. unfold as_bytes. induction a as [|c a IH]; [done|]. cbn. by rewrite IH. Qed.

Lemma as_bytes_byte s : Forall is_byte (as_bytes s).
Proof.
  unfold as_bytes. apply Forall_fmap, Forall_forall. intros c _. unfold in_u. cbn.
  pose proof (N_ascii_bounded c). lia.
Qed.

Lemma of_as_bytes s : of_bytes (as_bytes s) = s.
Proof.
  unfold of_bytes, as_bytes. induction s as [|c s IH]; [done|]. cbn. rewrite N2Z.id, ascii_N_embedding.
  by rewrite IH.
Qed.

Lemma text_ascii s : ascii_text s → text (as_bytes s) = Some s.
Proof.
  intros Hs. unfold text. rewrite of_as_bytes. assert (utf8_valid (as_bytes s) = true) as ->; [|done].
  unfold ascii_text in Hs. induction s as [|c s IH]; [done|]. cbn in Hs. apply orb_false_iff in Hs as [Hc Hs].
  cbn. assert (between 0 127 (Z.of_N (N_of_ascii c)) = true) as ->; [|by apply IH].
  unfold between. apply Z.leb_gt in Hc. apply andb_true_iff. split; apply Z.leb_le; lia.
Qed.

(** ** Attributes *)

Lemma split_last c s : str_exists (Ascii.eqb c) s = false → split c s = [s].
Proof.
  induction s as [|a s IH]; [done|]. cbn. intros [Ha Hs]%orb_false_iff. rewrite Ascii.eqb_sym, Ha.
  by rewrite IH.
Qed.

Lemma split_cons c s r : str_exists (Ascii.eqb c) s = false → split c (s ++ String c r) = s :: split c r.
Proof.
  induction s as [|a s IH]; cbn; [by rewrite Ascii.eqb_refl|]. intros [Ha Hs]%orb_false_iff.
  rewrite Ascii.eqb_sym, Ha. by rewrite IH.
Qed.

Lemma split_plain_last s : plain s → split "," s = [s].
Proof. intros Hs. apply split_last. by apply plain_no. Qed.

Lemma split_plain_cons s r : plain s → split "," (s ++ String "," r) = s :: split "," r.
Proof. intros Hs. apply split_cons. by apply plain_no. Qed.

Lemma plain_attr k s : base64_char k = true → plain s → plain (String k (String "=" s)).
Proof. intros Hk Hs. unfold plain. cbn. by rewrite Hk, Hs. Qed.

Lemma server_first_parts n s i :
  plain n → plain s → plain i →
  split "," ("r=" ++ n ++ ",s=" ++ s ++ ",i=" ++ i) =
  [("r=" ++ n)%string; ("s=" ++ s)%string; ("i=" ++ i)%string].
Proof.
  intros Hn Hs Hi.
  etrans; [apply (split_plain_cons ("r=" ++ n) ("s=" ++ s ++ ",i=" ++ i)), plain_attr; done|]. f_equal.
  etrans; [apply (split_plain_cons ("s=" ++ s) ("i=" ++ i)), plain_attr; done|]. f_equal.
  by apply split_plain_last, plain_attr.
Qed.

Lemma attribute_bare n : plain n → attribute ("n=,r=" ++ n) "r" = Some n.
Proof.
  intros Hn. unfold attribute. assert (split "," ("n=,r=" ++ n) = ["n="; ("r=" ++ n)%string]) as ->; [|done].
  etrans; [by apply (split_plain_cons "n=" ("r=" ++ n))|]. f_equal. by apply split_plain_last, plain_attr.
Qed.

Lemma final_parts c n :
  plain c → plain n → split "," ("c=" ++ c ++ ",r=" ++ n) = [("c=" ++ c)%string; ("r=" ++ n)%string].
Proof.
  intros Hc Hn. etrans; [apply (split_plain_cons ("c=" ++ c) ("r=" ++ n)), plain_attr; done|]. f_equal.
  by apply split_plain_last, plain_attr.
Qed.

Lemma attribute_final c n :
  plain c → plain n →
  attribute ("c=" ++ c ++ ",r=" ++ n) "r" = Some n ∧ attribute ("c=" ++ c ++ ",r=" ++ n) "c" = Some c.
Proof. intros Hc Hn. unfold attribute. by rewrite final_parts. Qed.

Lemma attribute_server_first n s i :
  plain n → plain s → plain i →
  let m := ("r=" ++ n ++ ",s=" ++ s ++ ",i=" ++ i)%string in
  attribute m "r" = Some n ∧ attribute m "s" = Some s ∧ attribute m "i" = Some i.
Proof. intros Hn Hs Hi. unfold attribute. by rewrite server_first_parts. Qed.

Lemma strip_comma c t : base64_char c = true → strip_prefix ",p=" (String c t) = None.
Proof.
  intros Hc. change ((if Ascii.eqb "," c then strip_prefix "p=" t else None) = None).
  by destruct (Ascii.eqb_spec "," c) as [<-|].
Qed.

Lemma rsplit_plain_None s : plain s → rsplit_once_str ",p=" s = None.
Proof.
  induction s as [|c s IH]; [done|]. intros [Hc Hs]%orb_false_iff. apply negb_false_iff in Hc.
  cbn [rsplit_once_str]. by rewrite IH, strip_comma.
Qed.

Lemma rsplit_plain l r : plain r → rsplit_once_str ",p=" (l ++ ",p=" ++ r) = Some (l, r).
Proof.
  intros Hr. induction l as [|c l IH].
  - cbn [String.append rsplit_once_str]. rewrite (rsplit_plain_None r), !strip_comma by done.
    cbn. by destruct r.
  - cbn [String.append rsplit_once_str] in *. by rewrite IH.
Qed.

(** ** Keys *)

Lemma keys_equal_iff a b : length a = length b → keys_equal a b = true ↔ a = b.
Proof.
  unfold keys_equal. intros Hl. rewrite Z.eqb_eq.
  assert (∀ d, foldl (λ d '(x, y), Z.lor d (Z.lxor x y)) d (zip a b) = 0 ↔ d = 0 ∧ a = b) as Hfold.
  { revert b Hl. induction a as [|x a IH]; intros [|y b] Hl d; try done; [cbn; naive_solver|].
    cbn. rewrite IH by (cbn in Hl; lia). rewrite Z.lor_eq_0_iff, Z.lxor_eq_0_iff. naive_solver. }
  rewrite Hfold. naive_solver.
Qed.

Lemma xor_cancel a b : length a = length b → xor (xor a b) b = a.
Proof.
  unfold xor. revert b. induction a as [|x a IH]; intros [|y b] Hl; try done. cbn. f_equal.
  - by rewrite Z.lxor_assoc, Z.lxor_nilpotent, Z.lxor_0_r.
  - apply IH. cbn in Hl. lia.
Qed.

Lemma lxor_byte x y : is_byte x → is_byte y → is_byte (Z.lxor x y).
Proof.
  unfold in_u. intros Hx Hy. assert (0 ≤ Z.lxor x y) by (apply Z.lxor_nonneg; lia). split; [done|].
  destruct (Z.eq_dec (Z.lxor x y) 0) as [->|]; [done|]. apply Z.log2_lt_pow2; [lia|].
  eapply Z.le_lt_trans; [apply Z.log2_lxor; lia|].
  apply Z.max_lub_lt; [destruct (Z.eq_dec x 0) as [->|]|destruct (Z.eq_dec y 0) as [->|]];
    try done; apply Z.log2_lt_pow2; lia.
Qed.

Lemma xor_key a b : is_key a → is_key b → is_key (xor a b).
Proof.
  intros [Hla Ha] [Hlb Hb]. split; [unfold xor; rewrite length_zip_with; lia|]. clear Hla Hlb. revert b Hb.
  induction Ha as [|x a Hx Ha IH]; intros b Hb; [constructor|]. destruct Hb as [|y b Hy Hb]; [constructor|].
  constructor; [by apply lxor_byte|]. by apply IH.
Qed.

Lemma key_b64 k : is_key k → key_from_base64 (b64_encode k) = Some k.
Proof.
  intros [Hl Hk]. unfold key_from_base64. rewrite b64_round_trip by done. cbn. by rewrite Hl.
Qed.

(** What a stored password stands for. *)
Definition verifier_of (password : string) (salt : bytes) (iterations : Z) : Verifier :=
  let salted := salted_password password salt iterations in
  mkVerifier iterations salt (sha256 (hmac salted (as_bytes "Client Key"))) (hmac salted (as_bytes "Server Key")).

Lemma split_colon n l : plain n → split_once ":" (n ++ ":" ++ l) = Some (n, l).
Proof. intros Hn. apply split_once_app. by apply plain_no. Qed.

Lemma split_dollar n l r :
  plain n → plain l → split_once "$" (n ++ ":" ++ l ++ "$" ++ r) = Some ((n ++ ":" ++ l)%string, r).
Proof.
  intros Hn Hl. assert (n ++ ":" ++ l ++ "$" ++ r = (n ++ ":" ++ l) ++ String "$" r)%string as ->.
  { rewrite <-str_app_assoc. reflexivity. }
  apply split_once_app. by rewrite !str_exists_app, (plain_no _ n), (plain_no _ l).
Qed.

Lemma verifier_parse_make password salt iterations :
  Forall is_byte salt → u32 iterations →
  verifier_parse (make_verifier password salt iterations) = Some (verifier_of password salt iterations).
Proof.
  intros Hs Hi. unfold verifier_parse, make_verifier. rewrite strip_prefix_app. cbn [mbind option_bind].
  assert (plain (format_dec iterations)) as Hd by (apply plain_dec; unfold in_u in Hi; lia).
  rewrite split_dollar; [|done|apply plain_b64]. cbn [mbind option_bind].
  rewrite (split_colon (format_dec iterations)) by done. cbn [mbind option_bind].
  rewrite split_colon by apply plain_b64. cbn [mbind option_bind]. unfold parse_u32, format_dec.
  rewrite from_str_radix_format by (unfold in_u in Hi; lia). cbn [mbind option_bind].
  rewrite b64_round_trip by done. cbn [mbind option_bind].
  by rewrite !key_b64 by (apply sha256_key || apply hmac_key).
Qed.

(** ** A conversation that succeeds *)

Lemma pure_or_Some {E A B} (e : E) (a : A) (f : A → ioprog (result E B)) : rbind (pure_or e (Some a)) f = f a.
Proof. done. Qed.

Lemma check_true {E B} (e : E) (f : () → ioprog (result E B)) : rbind (check e true) f = f ().
Proof. done. Qed.

(** A program that goes on after another one. *)
Lemma advance_bind {A C} (f : A → ioprog C) p i rs p' i' rs' out :
  advance (mkSide p i rs) = Some (mkSide p' i' rs', out) →
  advance (mkSide (p ≫= f) i rs) = Some (mkSide (p' ≫= f) i' rs', out).
Proof.
  destruct p as [a|[n|b|n] k]; [done|..]; cbn.
  - destruct (n <=? length i)%nat; [|done]. by intros [= <- <- <- <-].
  - by intros [= <- <- <- <-].
  - destruct rs; [done|]. by intros [= <- <- <- <-].
Qed.

Lemma talk_bind_right {A B C} (f : B → ioprog C) (c c' : side A * side B) :
  rtc talk c c' →
  rtc talk (c.1, mkSide (side_prog c.2 ≫= f) (inbox c.2) (randoms c.2))
           (c'.1, mkSide (side_prog c'.2 ≫= f) (inbox c'.2) (randoms c'.2)).
Proof.
  induction 1 as [c|c c1 c2 Hs _ IH]; [done|]. eapply rtc_l; [|exact IH]. clear IH.
  destruct Hs as [a a' out b Ha|a b b' out Hb].
  - by apply (talk_left a a' out (mkSide (side_prog b ≫= f) (inbox b) (randoms b))).
  - destruct b as [p i rs], b' as [p' i' rs']. apply talk_right. by apply advance_bind.
Qed.

(** The client's first message, and what is made of it. *)
Lemma parse_initial_message flag n l :
  flag = "n" ∨ flag = "y" → plain n → length l = 4%nat →
  parse_initial_response (as_bytes MECHANISM ++ [0] ++ l ++ as_bytes (flag ++ ",," ++ "n=,r=" ++ n)) =
  Some ((flag ++ ",," ++ "n=,r=" ++ n)%string, (flag ++ ",,")%string).
Proof.
  intros Hf Hn Hl. destruct l as [|l1 [|l2 [|l3 [|l4 [|]]]]]; try done.
  set (first := (flag ++ ",," ++ "n=,r=" ++ n)%string).
  assert (text (as_bytes first) = Some first) as Ht.
  { apply text_ascii. unfold first. rewrite !ascii_app. apply plain_ascii in Hn. by destruct Hf as [-> | ->]. }
  unfold parse_initial_response.
  assert (position0 (as_bytes MECHANISM ++ [0] ++ [l1; l2; l3; l4] ++ as_bytes first) = Some 13%nat) as -> by done.
  cbn [mbind option_bind].
  assert (text (take 13 (as_bytes MECHANISM ++ [0] ++ [l1; l2; l3; l4] ++ as_bytes first)) = Some MECHANISM)
    as -> by reflexivity.
  cbn [mbind option_bind]. rewrite option_guard_True by done. cbn [mbind option_bind].
  rewrite option_guard_True by (rewrite !length_app; cbn; lia). cbn [mbind option_bind].
  change (drop (13 + 5) _) with (as_bytes first). rewrite Ht. cbn [mbind option_bind].
  destruct Hf as [-> | ->]; cbn; by rewrite option_guard_True.
Qed.

Definition first_body (l : bytes) (first : string) : bytes :=
  as_bytes MECHANISM ++ [0] ++ l ++ as_bytes first.

Definition final_text (gs2 comb bare server_first : string) (ck stored : bytes) : string :=
  let without_proof := ("c=" ++ b64_encode (as_bytes gs2) ++ ",r=" ++ comb)%string in
  without_proof ++ ",p=" ++
  b64_encode (xor ck (hmac stored (as_bytes (auth_text bare server_first without_proof)))).

Definition signature_text (gs2 comb bare server_first : string) (v : Verifier) : string :=
  "v=" ++ b64_encode (hmac (server_key v) (as_bytes (auth_text bare server_first
            ("c=" ++ b64_encode (as_bytes gs2) ++ ",r=" ++ comb)))).

Lemma frame_fits_text kind pre s :
  is_byte kind → (length pre ≤ 100)%nat → Z.of_nat (String.length s) ≤ 100000 → frame_fits kind (pre ++ as_bytes s).
Proof. intros Hk Hp Hs. split; [done|]. rewrite length_app, length_as_bytes. unfold MAX_FRAME. lia. Qed.

Lemma hear_first_steps {A} v flag n l r rs (a : side A) :
  flag = "n" ∨ flag = "y" → plain n → length l = 4%nat → Z.of_nat (String.length n) ≤ 1000 →
  let bare := ("n=,r=" ++ n)%string in
  let comb := (n ++ b64_encode r)%string in
  let sf := server_first_message v comb in
  rtc talk (a, mkSide (hear_first v) (write_message 112 (first_body l (flag ++ ",," ++ bare))) (r :: rs))
    (deliver (write_message 82 (auth_message AUTH_SASL_CONTINUE (as_bytes sf))) a,
     mkSide (hear_final v bare (flag ++ ",,") comb sf) [] rs).
Proof.
  intros Hf Hn Hl Hlen bare comb sf. unfold hear_first.
  rewrite <-(app_nil_r (write_message 112 _)).
  etrans; [apply moves_right, read_frame_or_err|].
  { unfold first_body. rewrite 2!app_assoc. apply frame_fits_text; [done|rewrite !length_app, Hl; cbn; lia|].
    unfold bare. rewrite !str_app_length. destruct Hf as [-> | ->]; cbn; lia. }
  cbn beta iota. change (112 =? 112) with true. rewrite check_true. unfold first_body, bare.
  rewrite parse_initial_message, pure_or_Some by done. cbn beta iota.
  rewrite str_app_assoc. rewrite strip_prefix_app, pure_or_Some. cbn beta iota.
  rewrite attribute_bare, pure_or_Some by done.
  eapply rtc_l; [apply right_nonce|]. rewrite deliver_nil.
  eapply rtc_l; [apply right_write|]. done.
Qed.

Lemma hear_final_steps {A} v gs2 comb bare sf ck rs (a : side A) :
  plain comb → is_key ck → stored_key v = sha256 ck →
  Z.of_nat (String.length comb) ≤ 10000 → (String.length gs2 ≤ 10)%nat →
  rtc talk (a, mkSide (hear_final v bare gs2 comb sf)
                 (write_message 112 (as_bytes (final_text gs2 comb bare sf ck (stored_key v)))) rs)
    (deliver (write_message 82 (auth_message AUTH_SASL_FINAL (as_bytes (signature_text gs2 comb bare sf v))) ++
              write_message 82 (be_bytes 4 AUTH_OK)) a,
     mkSide (Ret (Ok (mkCredentials ck v))) [] rs).
Proof.
  intros Hc Hck Hst Hlen Hg. unfold hear_final, final_text.
  set (without := ("c=" ++ b64_encode (as_bytes gs2) ++ ",r=" ++ comb)%string).
  set (sig := hmac (stored_key v) (as_bytes (auth_text bare sf without))).
  assert (is_key sig) as Hsig by apply hmac_key.
  assert (plain (b64_encode (xor ck sig))) as Hp by apply plain_b64.
  pose proof (b64_length (xor ck sig)) as L1. pose proof (b64_length (as_bytes gs2)) as L2.
  rewrite length_as_bytes in L2. rewrite (proj1 (xor_key ck sig Hck Hsig)) in L1.
  assert (ascii_text (without ++ ",p=" ++ b64_encode (xor ck sig))) as Hascii.
  { unfold without. rewrite !ascii_app. repeat split; try done; apply plain_ascii; done || apply plain_b64. }
  rewrite <-(app_nil_r (write_message 112 _)).
  etrans; [apply moves_right, read_frame_or_err|].
  { apply (frame_fits_text 112 []); [done|cbn; lia|]. unfold without. rewrite !str_app_length. cbn. lia. }
  cbn beta iota. change (112 =? 112) with true. rewrite check_true, text_ascii, pure_or_Some by done.
  rewrite rsplit_plain, pure_or_Some by done. cbn beta iota.
  destruct (attribute_final (b64_encode (as_bytes gs2)) comb) as [Ar Ac]; [apply plain_b64|done|].
  rewrite !bool_decide_eq_true_2, !check_true by done.
  rewrite key_b64, pure_or_Some by (by apply xor_key). fold sig.
  rewrite xor_cancel by (by rewrite (proj1 Hck), (proj1 Hsig)).
  assert (keys_equal (sha256 ck) (stored_key v) = true) as -> by (rewrite Hst; by apply keys_equal_iff).
  rewrite check_true.
  eapply rtc_l; [apply right_write|]. eapply rtc_l; [apply right_write|].
  rewrite deliver_deliver. done.
Qed.

Lemma server_first_ascii v n :
  plain n → plain (format_dec (iterations v)) → ascii_text (server_first_message v n).
Proof.
  intros Hn Hi. unfold server_first_message. rewrite !ascii_app. pose proof (plain_b64 (salt v)).
  repeat split; try done; by apply plain_ascii.
Qed.

(** A client with the right password is let in, and sent the server's signature. *)
Lemma client_logs_in password sl it flag nc ns :
  u32 it → Forall is_byte sl → (length sl ≤ 1000)%nat → flag = "n" ∨ flag = "y" →
  length nc = NONCE_BYTES → length ns = NONCE_BYTES →
  let v := verifier_of password sl it in
  let ck := hmac (salted_password password sl it) (as_bytes "Client Key") in
  let bare := ("n=,r=" ++ b64_encode nc)%string in
  let comb := (b64_encode nc ++ b64_encode ns)%string in
  let sf := server_first_message v comb in
  let signature := signature_text (flag ++ ",,") comb bare sf v in
  concludes (mkSide (scram_client password sl it flag) [] [nc])
    (mkSide (authenticate_client v) [] [ns])
    (Some (Some (82, auth_message AUTH_SASL_FINAL (as_bytes signature)), Some (82, be_bytes 4 AUTH_OK)))
    (Ok (mkCredentials ck v)).
Proof.
  intros Hi Hsalt Hlen Hf Hnc Hns v ck bare comb sf signature.
  pose proof (b64_length nc) as L1. pose proof (b64_length ns) as L2. pose proof (b64_length sl) as L3.
  rewrite Hnc in L1. rewrite Hns in L2. unfold NONCE_BYTES in L1, L2.
  assert (plain comb) as Hc by (apply plain_app_iff; split; apply plain_b64).
  eapply concludes_intro. unfold authenticate_client.
  eapply rtc_l; [apply right_write|]. unfold deliver at 1. cbn [side_prog inbox randoms].
  unfold scram_client, try_bind. rewrite <-(app_nil_r ([] ++ _)).
  etrans; [apply moves_left, read_frame_moves|]. { split; [done|]. by vm_compute. }
  cbn beta iota. eapply rtc_l; [apply left_nonce|]. rewrite deliver_nil.
  eapply rtc_l; [apply left_write_opt|]. unfold deliver at 1. cbn [side_prog inbox randoms].
  rewrite <-str_app_assoc. etrans.
  { apply (hear_first_steps v flag (b64_encode nc) _ ns []); [done|apply plain_b64|apply be_bytes_length|lia]. }
  fold bare comb. unfold deliver at 1. cbn [side_prog inbox randoms].
  rewrite <-(app_nil_r ([] ++ _)).
  assert (plain (format_dec it)) as Hd by (apply plain_dec; unfold in_u in Hi; lia).
  pose proof (digits_length 64 10 it EmptyString) as L4. cbn [String.length] in L4.
  etrans; [apply moves_left, read_frame_moves|].
  { apply frame_fits_text; [done|rewrite be_bytes_length; lia|]. unfold server_first_message, v, verifier_of, comb, format_dec.
    cbn [salt iterations]. rewrite !str_app_length. cbn [String.length]. lia. }
  cbn beta iota. cbn [snd]. unfold auth_message at 1. rewrite drop_app_length' by (by rewrite be_bytes_length).
  destruct (attribute_server_first comb (b64_encode sl) (format_dec it) Hc (plain_b64 _) Hd) as (Ar & _ & _).
  rewrite text_ascii by (apply server_first_ascii; done || apply plain_b64).
  change (Ret (Some ?x) ≫= ?f) with (f (Some x)). cbn beta iota.
  change (attribute (server_first_message v comb) "r" = Some comb) in Ar. rewrite Ar.
  change (Ret (Some ?x) ≫= ?f) with (f (Some x)). cbn beta iota.
  eapply rtc_l; [apply left_write_opt|]. unfold deliver at 1. cbn [side_prog inbox randoms].
  etrans.
  { apply (hear_final_steps v (flag ++ ",,") comb bare sf ck []); [done|apply hmac_key|done| |].
    - unfold comb. rewrite str_app_length. lia.
    - rewrite str_app_length. destruct Hf as [-> | ->]; cbn; lia. }
  unfold deliver at 1. cbn [side_prog inbox randoms app].
  etrans; [apply moves_left, read_frame_moves|].
  { apply frame_fits_text; [done|rewrite be_bytes_length; lia|]. unfold signature_text. rewrite str_app_length.
    match goal with |- context [b64_encode ?l] => pose proof (b64_length l) as L5 end.
    rewrite (proj1 (hmac_key _ _)) in L5. cbn [String.length]. lia. }
  rewrite <-(app_nil_r (write_message 82 (be_bytes 4 AUTH_OK))).
  etrans; [apply moves_left, read_frame_moves|]. { split; [done|]. by vm_compute. }
  done.
Qed.

Lemma attribute_signature l : attribute ("v=" ++ b64_encode l) "v" = Some (b64_encode l).
Proof.
  unfold attribute. rewrite split_plain_last; [done|]. apply plain_attr; [done|apply plain_b64].
Qed.

Lemma same_verifier v n :
  plain n → u32 (iterations v) → Forall is_byte (salt v) →
  check_same_verifier (server_first_message v n) v = Some ().
Proof.
  intros Hn Hi Hs. unfold check_same_verifier, server_first_message.
  assert (plain (format_dec (iterations v))) as Hd by (apply plain_dec; unfold in_u in Hi; lia).
  destruct (attribute_server_first n (b64_encode (salt v)) (format_dec (iterations v)) Hn (plain_b64 _) Hd)
    as (_ & -> & ->). cbn [mbind option_bind].
  rewrite option_guard_True by (by apply b64_round_trip). cbn [mbind option_bind].
  by rewrite option_guard_True by (apply from_str_radix_format; unfold in_u in Hi; lia).
Qed.

Lemma talk_bind_left {A B C} (f : A → ioprog C) (c c' : side A * side B) :
  rtc talk c c' →
  rtc talk (mkSide (side_prog c.1 ≫= f) (inbox c.1) (randoms c.1), c.2)
           (mkSide (side_prog c'.1 ≫= f) (inbox c'.1) (randoms c'.1), c'.2).
Proof.
  induction 1 as [c|c c1 c2 Hs _ IH]; [done|]. eapply rtc_l; [|exact IH]. clear IH.
  destruct Hs as [a a' out b Ha|a b b' out Hb].
  - destruct a as [p i rs], a' as [p' i' rs']. apply talk_left. by apply advance_bind.
  - by apply (talk_right (mkSide (side_prog a ≫= f) (inbox a) (randoms a)) b b' out).
Qed.

Lemma auth_code code data :
  0 ≤ code < 2 ^ 31 →
  (4 <=? length (auth_message code data))%nat = true ∧
  to_i32 (be_value (take 4 (auth_message code data))) = code ∧ drop 4 (auth_message code data) = data.
Proof.
  intros Hc. unfold auth_message. split; [|split].
  - apply Nat.leb_le. rewrite length_app, be_bytes_length. lia.
  - rewrite take_app_length' by (by rewrite be_bytes_length). rewrite be_value_be_bytes by lia.
    unfold to_i32. by destruct (Z.ltb_spec code (2 ^ 31)); [|lia].
  - by rewrite drop_app_length' by (by rewrite be_bytes_length).
Qed.

(** One turn of the loop of [login_auth], for each message of a server. *)
Section turns.
Context {B : Type} (b : side B) (c : Credentials) (n : string) (auth : string) (fuel : nat) (rs : list bytes).

(** The start of a turn: an authentication message with a code. *)
Ltac hear code :=
  cbn [login_auth]; etrans; [apply moves_left, read_frame_or_err|]; [|cbn beta iota];
  [|change (82 =? 69) with false; change (82 =? 82) with true; cbn beta iota; rewrite check_true;
    match goal with |- context [auth_message _ ?d] =>
      let H1 := fresh in let H2 := fresh in let H3 := fresh in
      destruct (auth_code code d ltac:(unfold code; lia)) as (H1 & H2 & H3); rewrite H1, H2, H3, check_true;
      clear H1 H2 H3 end].

Lemma turn_ok rest :
  rtc talk (mkSide (login_auth (S fuel) c n auth) (write_message 82 (be_bytes 4 AUTH_OK) ++ rest) rs, b)
           (mkSide (Ret (Ok ())) rest rs, b).
Proof.
  change (be_bytes 4 AUTH_OK) with (auth_message AUTH_OK []). hear AUTH_OK; [|done].
  split; [done|]. by vm_compute.
Qed.

Lemma turn_offer :
  rtc talk (mkSide (login_auth (S fuel) c n auth) (write_message 82 sasl_offer) rs, b)
           (mkSide (login_auth fuel c n auth) [] rs,
            deliver (write_message 112 (client_first_message ("n=,r=" ++ n))) b).
Proof.
  rewrite <-(app_nil_r (write_message 82 _)). unfold sasl_offer. hear AUTH_SASL; [split; [done|]; by vm_compute|].
  change (AUTH_SASL =? AUTH_OK) with false. change (AUTH_SASL =? AUTH_SASL) with true. cbn beta iota.
  assert (offers_mechanism (as_bytes MECHANISM ++ [0; 0]) = true) as -> by (by vm_compute).
  rewrite check_true. eapply rtc_l; [apply left_write|]. done.
Qed.

Lemma turn_continue sn :
  let v := verifier c in
  let comb := (n ++ sn)%string in
  plain comb → Z.of_nat (String.length comb) ≤ 10000 → (length (salt v) ≤ 1000)%nat →
  u32 (iterations v) → Forall is_byte (salt v) →
  let sf := server_first_message v comb in
  rtc talk (mkSide (login_auth (S fuel) c n auth)
              (write_message 82 (auth_message AUTH_SASL_CONTINUE (as_bytes sf))) rs, b)
           (mkSide (login_auth fuel c n (auth_text ("n=,r=" ++ n) sf ("c=biws,r=" ++ comb))) [] rs,
            deliver (write_message 112
              (as_bytes (final_text "n,," comb ("n=,r=" ++ n) sf (client_key c) (stored_key v)))) b).
Proof.
  intros v comb Hc Hl Hs Hi Hsalt sf. rewrite <-(app_nil_r (write_message 82 _)).
  assert (plain (format_dec (iterations v))) as Hd by (apply plain_dec; unfold in_u in Hi; lia).
  pose proof (digits_length 64 10 (iterations v) EmptyString) as L1. pose proof (b64_length (salt v)) as L2.
  cbn [String.length] in L1. hear AUTH_SASL_CONTINUE.
  { apply frame_fits_text; [done|rewrite be_bytes_length; lia|]. unfold sf, server_first_message, format_dec.
    rewrite !str_app_length. cbn [String.length]. lia. }
  change (AUTH_SASL_CONTINUE =? AUTH_OK) with false. change (AUTH_SASL_CONTINUE =? AUTH_SASL) with false.
  change (AUTH_SASL_CONTINUE =? AUTH_SASL_CONTINUE) with true. cbn beta iota.
  rewrite text_ascii, pure_or_Some by (by apply server_first_ascii).
  destruct (attribute_server_first comb (b64_encode (salt v)) (format_dec (iterations v)) Hc (plain_b64 _) Hd)
    as (Ar & _ & _).
  change (attribute sf "r" = Some comb) in Ar. rewrite Ar, pure_or_Some. unfold comb at 1.
  rewrite starts_with_app, check_true. unfold sf at 1. rewrite same_verifier, pure_or_Some by done.
  eapply rtc_l; [apply left_write|]. unfold final_text. rewrite b64_gs2. done.
Qed.

Lemma turn_final rest :
  let signature := hmac (server_key (verifier c)) (as_bytes auth) in
  rtc talk (mkSide (login_auth (S fuel) c n auth)
              (write_message 82 (auth_message AUTH_SASL_FINAL (as_bytes ("v=" ++ b64_encode signature))) ++ rest) rs, b)
           (mkSide (login_auth fuel c n auth) rest rs, b).
Proof.
  intros signature. pose proof (hmac_key (server_key (verifier c)) (as_bytes auth)) as Hk. fold signature in Hk.
  pose proof (b64_length signature) as L1. rewrite (proj1 Hk) in L1. hear AUTH_SASL_FINAL.
  { apply frame_fits_text; [done|rewrite be_bytes_length; lia|]. rewrite str_app_length. cbn [String.length]. lia. }
  change (AUTH_SASL_FINAL =? AUTH_OK) with false. change (AUTH_SASL_FINAL =? AUTH_SASL) with false.
  change (AUTH_SASL_FINAL =? AUTH_SASL_CONTINUE) with false.
  change (AUTH_SASL_FINAL =? AUTH_SASL_FINAL) with true. cbn beta iota.
  rewrite text_ascii, pure_or_Some by (apply plain_ascii, plain_attr; [done|apply plain_b64]).
  rewrite attribute_signature. cbn [mbind option_bind]. rewrite key_b64, pure_or_Some by done.
  fold signature. by rewrite (proj2 (keys_equal_iff signature signature eq_refl) eq_refl), check_true.
Qed.
End turns.

Definition backend_rest : bytes := encode_frame 83 [97; 0; 98; 0] ++ encode_frame 90 [73].

Lemma rest_turns {B} fuel rs (b : side B) :
  rtc talk (mkSide (login_rest (S (S fuel)) []) (write_message 83 [97; 0; 98; 0] ++ write_message 90 [73]) rs, b)
           (mkSide (Ret (Ok backend_rest)) [] rs, b).
Proof.
  rewrite <-(app_nil_r (write_message 90 _)). cbn [login_rest].
  etrans; [apply moves_left, read_frame_or_err|]. { split; [done|]. by vm_compute. }
  etrans; [apply moves_left, (read_frame_or_err Failed)|]. { split; [done|]. by vm_compute. }
  done.
Qed.

(** The login loop against the server side of SCRAM. *)
Lemma auth_dialogue c nb ns fuel :
  let v := verifier c in
  is_key (client_key c) → stored_key v = sha256 (client_key c) →
  u32 (iterations v) → Forall is_byte (salt v) → (length (salt v) ≤ 1000)%nat →
  length nb = NONCE_BYTES → length ns = NONCE_BYTES →
  rtc talk (mkSide (login_auth (4 + fuel) c (b64_encode nb) EmptyString) [] [], mkSide (authenticate_client v) [] [ns])
           (mkSide (Ret (Ok ())) [] [], mkSide (Ret (Ok c)) [] []).
Proof.
  intros v Hkey Hst Hi Hsalt Hlen Hnb Hns.
  pose proof (b64_length nb) as L1. pose proof (b64_length ns) as L2.
  rewrite Hnb in L1. rewrite Hns in L2. unfold NONCE_BYTES in L1, L2.
  set (n := b64_encode nb) in *. set (comb := (n ++ b64_encode ns)%string).
  assert (plain comb) as Hc by (apply plain_app_iff; split; apply plain_b64).
  assert (Z.of_nat (String.length comb) ≤ 10000) as Hcl by (unfold comb; rewrite str_app_length; lia).
  eapply rtc_l; [apply right_write|]. unfold deliver at 1. cbn [side_prog inbox randoms app Nat.add].
  etrans; [apply turn_offer|]. unfold deliver at 1. cbn [side_prog inbox randoms app].
  etrans.
  { apply (hear_first_steps v "n" n _ ns []); [by left|apply plain_b64|apply be_bytes_length|lia]. }
  fold comb. unfold deliver at 1. cbn [side_prog inbox randoms app].
  etrans; [by apply turn_continue|]. unfold deliver at 1. cbn [side_prog inbox randoms app].
  etrans; [by apply (hear_final_steps v "n,," comb _ _ (client_key c)); [..|cbn; lia]|].
  unfold deliver at 1. cbn [side_prog inbox randoms app]. unfold signature_text. rewrite b64_gs2.
  etrans; [apply turn_final|]. rewrite <-(app_nil_r (write_message 82 (be_bytes 4 AUTH_OK))).
  etrans; [apply turn_ok|]. by destruct c.
Qed.

(** The keys a client leaves log in to a backend that stores the same verifier. *)
Lemma keys_log_in c startup fuel nb ns :
  let v := verifier c in
  is_key (client_key c) → stored_key v = sha256 (client_key c) →
  u32 (iterations v) → Forall is_byte (salt v) → (length (salt v) ≤ 1000)%nat →
  length nb = NONCE_BYTES → length ns = NONCE_BYTES →
  concludes (mkSide (login_to_backend (4 + fuel) startup c) [] [nb])
    (mkSide (backend_server startup v) [] [ns]) (Ok backend_rest) (Ok ()).
Proof.
  intros v Hkey Hst Hi Hsalt Hlen Hnb Hns.
  eapply concludes_intro. unfold login_to_backend, backend_server.
  eapply rtc_l; [by apply talk_left|]. eapply rtc_l; [by apply talk_left|]. rewrite deliver_nil.
  unfold deliver at 1. cbn [side_prog inbox randoms app].
  eapply rtc_l; [apply right_read_all|].
  etrans.
  { pose proof (auth_dialogue c nb ns fuel Hkey Hst Hi Hsalt Hlen Hnb Hns) as Hd.
    apply (talk_bind_left (λ r : result BackendLoginError (),
      match r with Ok _ => login_rest (4 + fuel) [] | Err e => Ret (Err e) end)) in Hd.
    apply (talk_bind_right (λ r : result ClientAuthError Credentials,
      match r with
      | Ok _ => _ ←! or_err Protocol (write_frame 83 [97; 0; 98; 0]);
                _ ←! or_err Protocol (write_frame 90 [73]); Ret (Ok ())
      | Err e => Ret (Err e)
      end)) in Hd.
    exact Hd. }
  cbn [fst snd side_prog inbox randoms].
  eapply rtc_l; [apply right_write|]. eapply rtc_l; [apply right_write|]. rewrite deliver_deliver.
  unfold deliver at 1. cbn [side_prog inbox randoms app]. apply (rest_turns (2 + fuel)).
Qed.

(** The exact texts a client with the password is shown, and the keys it leaves. *)
Definition client_keys (password : string) (sl : bytes) (it : Z) : bytes :=
  hmac (salted_password password sl it) (as_bytes "Client Key").

(** C15 The stored password of a role lets in a client that knows the password: it
    is shown the server's signature and let in, however the two are scheduled.
    The credentials the proxy keeps then log in to a backend that stores the
    same password, and the proxy gets what the backend reports up to its
    readiness. *)
Theorem scram_relay password sl it flag nc np startup fuel nb ns :
  u32 it → Forall is_byte sl → (length sl ≤ 1000)%nat → flag = "n" ∨ flag = "y" →
  Forall (λ r, length r = NONCE_BYTES) [nc; np; nb; ns] →
  ∃ v, verifier_parse (make_verifier password sl it) = Some v ∧
    let c := mkCredentials (client_keys password sl it) v in
    let comb := (b64_encode nc ++ b64_encode np)%string in
    let signature := signature_text (flag ++ ",,") comb ("n=,r=" ++ b64_encode nc) (server_first_message v comb) v in
    concludes (mkSide (scram_client password sl it flag) [] [nc]) (mkSide (authenticate_client v) [] [np])
      (Some (Some (82, auth_message AUTH_SASL_FINAL (as_bytes signature)), Some (82, be_bytes 4 AUTH_OK)))
      (Ok c) ∧
    concludes (mkSide (login_to_backend (4 + fuel) startup c) [] [nb])
      (mkSide (backend_server startup v) [] [ns]) (Ok backend_rest) (Ok ()).
Proof.
  intros Hit Hsl Hlen Hf Hn. rewrite !Forall_cons in Hn. destruct Hn as (Hnc & Hnp & Hnb & Hns & _).
  exists (verifier_of password sl it). split; [by apply verifier_parse_make|]. split.
  - by apply client_logs_in.
  - apply keys_log_in; try done. apply hmac_key.
Qed.

(** ** What an accepted client has shown *)

Abbreviation trace := (list (obs io_ans)).

Lemma runs_rbind {E A B} (p : ioprog (result E A)) (f : A → ioprog (result E B)) P Q :
  all_runs p P → (∀ e tr, P (Err e) tr → Q (Err e) tr) →
  (∀ a tr, P (Ok a) tr → all_runs (f a) (λ b tr', Q b (tr ++ tr'))) → all_runs (rbind p f) Q.
Proof.
  intros Hp He Hf. unfold rbind. apply all_runs_bind. eapply all_runs_mono; [exact Hp|].
  intros [a|e] tr Ht; [by apply Hf|]. cbn. rewrite app_nil_r. by apply He.
Qed.

Lemma runs_pure {E A B} (e : E) (o : option A) (f : A → ioprog (result E B)) Q :
  (o = None → Q (Err e) []) → (∀ a, o = Some a → all_runs (f a) Q) → all_runs (rbind (pure_or e o) f) Q.
Proof. destruct o; cbn; auto. Qed.

Lemma runs_check {E B} (e : E) (b : bool) (f : () → ioprog (result E B)) Q :
  (b = false → Q (Err e) []) → (b = true → all_runs (f ()) Q) → all_runs (rbind (check e b) f) Q.
Proof. destruct b; cbn; auto. Qed.

Lemma runs_write {E B} (e : E) kind body (f : () → ioprog (result E B)) Q :
  let o := Obs (R := io_ans) (WriteAll (write_message kind body)) in
  Q (Err e) [o false] → all_runs (f ()) (λ r tr, Q r (o true :: tr)) →
  all_runs (rbind (or_err e (write_frame kind body)) f) Q.
Proof. intros o Hf Ht [|]; [exact Ht|exact Hf]. Qed.

Lemma runs_nonce {B} (f : string → ioprog B) Q :
  (∀ n, all_runs (f (b64_encode n)) (λ r tr, Q r (Obs (R := io_ans) (FillBytes NONCE_BYTES) n :: tr))) →
  all_runs (nonce ≫= f) Q.
Proof. intros Hf n. apply Hf. Qed.

Definition is_write (o : obs io_ans) : Prop := match obs_ev o with WriteAll _ => True | _ => False end.
Definition silent : trace → Prop := Forall (λ o, ¬ is_write o).

Lemma runs_read {E} (e : E) :
  all_runs (or_err e read_frame) (λ r tr, silent tr ∧
    ∀ kind body, r = Ok (kind, body) → ∃ m, Obs (R := io_ans) (ReadExact m) (Some body) ∈ tr).
Proof.
  assert (∀ n (r : option bytes), ¬ is_write (Obs (R := io_ans) (ReadExact n) r)) as Hn by (intros ?? []).
  cbn. intros [kind|]; cbn; [|split; [by repeat constructor|done]].
  intros [len|]; cbn; [|split; [by repeat constructor|done]].
  destruct (_ && _); cbn; [|split; [by repeat constructor|done]].
  intros [body|]; cbn; [|split; [by repeat constructor|done]]. split; [by repeat constructor|].
  intros k b [= <- <-]. eexists. do 2 right. left.
Qed.

Definition is_auth_ok (o : obs io_ans) : Prop := obs_ev o = WriteAll (write_message 82 (be_bytes 4 AUTH_OK)).

(** The final message of a client, read in this run, that proves [ck]. *)
Definition final_proved (v : Verifier) (bare gs2 comb sf : string) (tr : trace) (ck : bytes) : Prop :=
  ∃ m body without_proof proof p,
    Obs (R := io_ans) (ReadExact m) (Some body) ∈ tr ∧
    text body = Some (without_proof ++ ",p=" ++ proof)%string ∧
    attribute without_proof "r" = Some comb ∧
    attribute without_proof "c" = Some (b64_encode (as_bytes gs2)) ∧
    key_from_base64 proof = Some p ∧
    ck = xor p (hmac (stored_key v) (as_bytes (auth_text bare sf without_proof))) ∧
    sha256 ck = stored_key v.

Lemma rsplit_str_Some sep s l r : rsplit_once_str sep s = Some (l, r) → s = (l ++ sep ++ r)%string.
Proof.
  revert l. induction s as [|a s IH]; intros l; [done|]. cbn [rsplit_once_str].
  destruct (rsplit_once_str sep s) as [[l' r']|].
  - intros [= <- <-]. cbn. f_equal. by apply IH.
  - destruct (strip_prefix sep (String a s)) eqn:E; cbn; [|done]. intros [= <- <-].
    by apply strip_prefix_Some in E.
Qed.

Lemma hear_final_runs v bare gs2 comb sf :
  is_key (stored_key v) →
  all_runs (hear_final v bare gs2 comb sf) (λ r tr,
    (∀ c, r = Ok c → verifier c = v ∧ final_proved v bare gs2 comb sf tr (client_key c)) ∧
    preceded is_auth_ok (λ before, ∃ ck, final_proved v bare gs2 comb sf before ck) tr).
Proof.
  intros Hk. unfold hear_final. eapply runs_rbind; [apply runs_read|..].
  { intros e tr [Hq _]. split; [done|]. apply preceded_none. eapply Forall_impl; [exact Hq|].
    unfold is_auth_ok, is_write. intros o Ho E. by rewrite E in Ho. }
  intros [kind body] tr [Hq Hread]. destruct (Hread _ _ eq_refl) as [m Hm]. clear Hread.
  assert (preceded is_auth_ok (λ before, ∃ ck, final_proved v bare gs2 comb sf before ck) (tr ++ [])) as Hno.
  { rewrite app_nil_r. apply preceded_none. eapply Forall_impl; [exact Hq|].
    unfold is_auth_ok, is_write. intros o Ho E. by rewrite E in Ho. }
  apply runs_check; [by split|]. intros _. apply runs_pure; [by split|]. intros client_final Ht.
  apply runs_pure; [by split|]. intros [without proof] Hsplit%rsplit_str_Some.
  apply runs_check; [by split|]. intros Hr%bool_decide_eq_true_1.
  apply runs_check; [by split|]. intros Hc%bool_decide_eq_true_1.
  apply runs_pure; [by split|]. intros p Hp. apply runs_check; [by split|]. intros Heq.
  assert (∀ tr', final_proved v bare gs2 comb sf (tr ++ tr')
    (xor p (hmac (stored_key v) (as_bytes (auth_text bare sf without))))) as Hproved.
  { intros tr'. exists m, body, without, proof, p. rewrite Ht, Hsplit. repeat split; try done.
    - apply elem_of_app. by left.
    - apply keys_equal_iff in Heq; [done|]. by rewrite (proj1 (sha256_key _)), (proj1 Hk). }
  assert (∀ tr', preceded is_auth_ok (λ before, ∃ ck, final_proved v bare gs2 comb sf before ck) (tr ++ tr')) as Hpre.
  { intros tr'. apply preceded_app; [by rewrite app_nil_r in Hno|]. intros before o after _ _. eauto. }
  intros [|]; [|by split; [|apply Hpre]]. intros [|]; (split; [|apply Hpre]); [|done].
  intros c [= <-]. cbn. by split; [|apply Hproved].
Qed.

(** The same of the whole login: the nonce in it was drawn in this run. *)
Definition proved (v : Verifier) (tr : trace) (ck : bytes) : Prop :=
  ∃ cn n bare gs2, Obs (R := io_ans) (FillBytes NONCE_BYTES) n ∈ tr ∧
    let comb := (cn ++ b64_encode n)%string in
    final_proved v bare gs2 comb (server_first_message v comb) tr ck.

Lemma final_proved_app v bare gs2 comb sf tr tr' ck :
  final_proved v bare gs2 comb sf tr' ck → final_proved v bare gs2 comb sf (tr ++ tr') ck.
Proof.
  intros (m & body & w & proof & p & Hm & Hrest). exists m, body, w, proof, p. split; [|done].
  apply elem_of_app. by right.
Qed.

Definition accepted_ok (v : Verifier) (r : result ClientAuthError Credentials) (tr : trace) : Prop :=
  (∀ c, r = Ok c → verifier c = v ∧ proved v tr (client_key c)) ∧
  preceded is_auth_ok (λ before, ∃ ck, proved v before ck) tr.

Lemma accepted_ok_cons v r o tr : ¬ is_auth_ok o → accepted_ok v r tr → accepted_ok v r (o :: tr).
Proof.
  intros Ho [Hr Hp]. assert (∀ tr ck, proved v tr ck → proved v (o :: tr) ck) as Hcons.
  { intros tr0 ck (cn & n & bare & gs2 & Hn & Hf). exists cn, n, bare, gs2. split; [by right|].
    by apply (final_proved_app _ _ _ _ _ [o]). }
  split; [intros c Hc; destruct (Hr c Hc); split; auto|].
  apply preceded_cons; [done|]. eapply preceded_mono; [exact Hp|]. cbn. naive_solver.
Qed.

Lemma accepted_ok_app v r tr tr' :
  Forall (λ o, ¬ is_auth_ok o) tr → accepted_ok v r tr' → accepted_ok v r (tr ++ tr').
Proof. induction 1; [done|]. intros Hr. apply accepted_ok_cons; auto. Qed.

Lemma accepted_ok_err v e : accepted_ok v (Err e) [].
Proof. split; [done|]. by apply preceded_none. Qed.

Lemma silent_not_ok tr : silent tr → Forall (λ o, ¬ is_auth_ok o) tr.
Proof. intros Hq. eapply Forall_impl; [exact Hq|]. unfold is_auth_ok, is_write. intros o Ho E. by rewrite E in Ho. Qed.

Lemma not_auth_ok code data ok :
  0 < code < 256 →
  ¬ is_auth_ok (Obs (R := io_ans) (WriteAll (write_message 82 (auth_message code data))) ok).
Proof.
  intros Hc E. unfold is_auth_ok in E.
  apply (f_equal (λ e, match e with WriteAll l => l !! 8%nat | _ => None end)) in E.
  cbn -[Z.div Z.modulo] in E. injection E as E.
  rewrite Z.div_1_r, Z.mod_small in E by lia. change (code = 0) in E. lia.
Qed.

(** C16 A client is let in, and told so, only after it sent a proof for this very
    login: for the nonce drawn for it, the verifier's salt and the binding it
    asked for, made with a key that hashes to the stored one. *)
Theorem login_accepted_proved v :
  is_key (stored_key v) → all_runs (authenticate_client v) (accepted_ok v).
Proof.
  intros Hk. unfold authenticate_client.
  apply runs_write; [apply accepted_ok_cons; [by apply not_auth_ok|apply accepted_ok_err]|].
  eapply all_runs_mono; [|intros r tr Hr; apply accepted_ok_cons; [by apply not_auth_ok|exact Hr]].
  unfold hear_first. eapply runs_rbind; [apply runs_read|..].
  { intros e tr [Hq _]. rewrite <-(app_nil_r tr). apply accepted_ok_app, accepted_ok_err. by apply silent_not_ok. }
  intros [kind body] tr [Hq _]. apply silent_not_ok in Hq.
  eapply all_runs_mono; [|intros r tr' Hr; apply accepted_ok_app; [done|exact Hr]].
  apply runs_check; [intros _; apply accepted_ok_err|intros _].
  apply runs_pure; [intros _; apply accepted_ok_err|intros [client_first gs2] _].
  apply runs_pure; [intros _; apply accepted_ok_err|intros bare _].
  apply runs_pure; [intros _; apply accepted_ok_err|intros cn _].
  apply runs_nonce. intros n.
  apply runs_write.
  { apply accepted_ok_cons; [done|]. apply accepted_ok_cons; [by apply not_auth_ok|apply accepted_ok_err]. }
  eapply all_runs_mono; [by apply hear_final_runs|]. intros r tr' [Hr Hp].
  set (o1 := Obs (R := io_ans) (FillBytes _) n). set (o2 := Obs (R := io_ans) (WriteAll _) true).
  set (comb := (cn ++ b64_encode n)%string) in *.
  assert (∀ tr0 ck, final_proved v bare gs2 comb (server_first_message v comb) tr0 ck →
    proved v (o1 :: o2 :: tr0) ck) as Hdrawn.
  { intros tr0 ck Hf. exists cn, n, bare, gs2. split; [left|]. by apply (final_proved_app _ _ _ _ _ [o1; o2]). }
  split; [intros c Hc; destruct (Hr c Hc); auto|].
  apply preceded_cons; [done|]. apply preceded_cons; [by apply not_auth_ok|].
  eapply preceded_mono; [exact Hp|]. naive_solver.
Qed.

(** ** What a backend is sent *)

(** A challenge of the backend's, read in this run, that the proxy answers: it
    extends the proxy's nonce and names the verifier the keys belong to. *)
Definition challenged (c : Credentials) (n : string) (tr : trace) (body : bytes) : Prop :=
  ∃ m data sf sn, Obs (R := io_ans) (ReadExact m) (Some data) ∈ tr ∧
    text (drop 4 data) = Some sf ∧ attribute sf "r" = Some sn ∧ starts_with n sn = true ∧
    check_same_verifier sf (verifier c) = Some () ∧
    let without_proof := ("c=biws,r=" ++ sn)%string in
    body = as_bytes (without_proof ++ ",p=" ++ b64_encode (xor (client_key c)
             (hmac (stored_key (verifier c)) (as_bytes (auth_text ("n=,r=" ++ n) sf without_proof)))))%string.

Definition wrote (body : bytes) (o : obs io_ans) : Prop := obs_ev o = WriteAll (write_message 112 body).

(** Every message sent is the first one, which holds no key, or such an answer. *)
Definition answers_only (c : Credentials) (n : string) (tr : trace) : Prop :=
  ∀ body, preceded (wrote body)
    (λ before, body = client_first_message ("n=,r=" ++ n) ∨ challenged c n before body) tr.

Lemma answers_only_nil c n : answers_only c n [].
Proof. intros body. by apply preceded_none. Qed.

Lemma answers_only_app c n tr tr' :
  answers_only c n tr → (∀ body, preceded (wrote body)
    (λ before, body = client_first_message ("n=,r=" ++ n) ∨ challenged c n (tr ++ before) body) tr') →
  answers_only c n (tr ++ tr').
Proof. intros H1 H2 body. apply preceded_app; [apply H1|apply H2]. Qed.

Lemma challenged_app c n tr tr' body : challenged c n tr' body → challenged c n (tr ++ tr') body.
Proof.
  intros (m & data & sf & sn & Hm & Hrest). exists m, data, sf, sn. split; [|done]. apply elem_of_app. by right.
Qed.

Lemma answers_only_later c n tr tr' :
  answers_only c n tr → answers_only c n tr' → answers_only c n (tr ++ tr').
Proof.
  intros H1 H2. apply answers_only_app; [done|]. intros body. eapply preceded_mono; [apply H2|]. cbn.
  intros b [?|?]; [by left|right; by apply challenged_app].
Qed.

Lemma answers_only_silent c n tr : silent tr → answers_only c n tr.
Proof.
  intros Hq body. apply preceded_none. eapply Forall_impl; [exact Hq|]. unfold wrote, is_write.
  intros o Ho E. by rewrite E in Ho.
Qed.

(** Sending one message, if it is one of those, and going on. *)
Lemma runs_send {B} c n tr body (f : () → ioprog (result BackendLoginError B)) :
  answers_only c n tr → body = client_first_message ("n=,r=" ++ n) ∨ challenged c n tr body →
  all_runs (f ()) (λ _ tr', answers_only c n tr') →
  all_runs (rbind (send body) f) (λ _ tr', answers_only c n (tr ++ tr')).
Proof.
  intros Htr Hbody Hf.
  assert (∀ ok, answers_only c n (tr ++ [Obs (R := io_ans) (WriteAll (write_message 112 body)) ok])) as Hone.
  { intros ok. apply answers_only_app; [done|]. intros body' before o after Heq Hw.
    destruct before as [|o' [|]]; [|done..]. injection Heq as <- _. rewrite app_nil_r.
    assert (body' = body) as ->; [|done]. unfold wrote in Hw. cbn in Hw. by injection Hw. }
  apply runs_write; [apply Hone|]. eapply all_runs_mono; [exact Hf|]. intros r tr' Hr.
  rewrite cons_middle, app_assoc. by apply answers_only_later.
Qed.

Lemma login_auth_runs fuel c n auth :
  all_runs (login_auth fuel c n auth) (λ _ tr, answers_only c n tr).
Proof.
  revert auth. induction fuel as [|fuel IH]; intros auth; cbn [login_auth]; [apply answers_only_nil|].
  eapply runs_rbind; [apply runs_read|intros e tr [Hq _]; by apply answers_only_silent|].
  intros [kind body] tr [Hq Hread]. destruct (Hread _ _ eq_refl) as [m Hm]. clear Hread.
  apply (answers_only_silent c n) in Hq.
  assert (answers_only c n (tr ++ [])) as Hend by (by rewrite app_nil_r).
  destruct (kind =? 69); [exact Hend|]. apply runs_check; [done|intros _]. apply runs_check; [done|intros _].
  destruct (_ =? AUTH_OK); [exact Hend|]. destruct (_ =? AUTH_SASL).
  { apply runs_check; [done|intros _]. apply runs_send; [done|by left|apply IH]. }
  destruct (_ =? AUTH_SASL_CONTINUE).
  { apply runs_pure; [done|intros sf Hsf]. apply runs_pure; [done|intros sn Hsn].
    apply runs_check; [done|intros Hpre]. apply runs_pure; [done|intros [] Hsame].
    apply runs_send; [done| |apply IH]. right. by exists m, body, sf, sn. }
  destruct (_ =? AUTH_SASL_FINAL); [|exact Hend].
  apply runs_pure; [done|intros server_final _]. apply runs_pure; [done|intros signature _].
  apply runs_check; [done|intros _]. eapply all_runs_mono; [apply IH|]. intros r tr'. by apply answers_only_later.
Qed.

Lemma login_rest_runs fuel rest : all_runs (login_rest fuel rest) (λ _ tr, silent tr).
Proof.
  revert rest. induction fuel as [|fuel IH]; intros rest; cbn [login_rest]; [constructor|].
  eapply runs_rbind; [apply runs_read|by intros e tr [Hq _]|]. intros [kind body] tr [Hq _].
  destruct (kind =? 69); [by cbn; rewrite app_nil_r|]. destruct (kind =? 90); [by cbn; rewrite app_nil_r|].
  eapply all_runs_mono; [apply IH|]. intros r tr' Hr. by apply Forall_app.
Qed.

(** After its startup message the proxy sends a backend only the first message,
    which holds no key, and proofs for challenges that extend a nonce drawn for
    this login and name the very verifier the client's keys were taken from. *)
Theorem proof_for_own_verifier fuel startup c :
  all_runs (login_to_backend fuel startup c) (λ _ tr,
    ∃ ok tr', tr = Obs (R := io_ans) (WriteAll startup) ok :: tr' ∧
      (tr' = [] ∨ ∃ n tr'', tr' = Obs (R := io_ans) (FillBytes NONCE_BYTES) n :: tr'' ∧
                            answers_only c (b64_encode n) tr'')).
Proof.
  unfold login_to_backend. intros [|]; cbn -[login_auth login_rest].
  2: { exists false, []. split; [done|]. by left. }
  intros n. eapply runs_rbind; [apply login_auth_runs|..].
  - intros e tr Hr. exists true. eexists. split; [done|]. right. by exists n, tr.
  - intros [] tr Hr. eapply all_runs_mono; [apply login_rest_runs|]. intros r tr' Hq.
    exists true. eexists. split; [done|]. right. exists n, (tr ++ tr'). split; [done|].
    apply answers_only_later; [done|]. by apply answers_only_silent.
Qed.

(** A server that knows nothing of the role. *)
Definition impostor (startup : bytes) : ioprog (result ClientAuthError ()) :=
  _ ←! or_err Protocol (read_exact_io (length startup));
  _ ←! or_err Protocol (write_frame 82 (be_bytes 4 AUTH_OK));
  _ ←! or_err Protocol (write_frame 90 [73]);
  Ret (Ok ()).

(** The proxy checks a backend's proof only if it is sent one: a backend that
    says at once that authentication succeeded is logged in to. *)
Theorem backend_need_not_prove fuel startup c nb :
  concludes (mkSide (login_to_backend (S fuel) startup c) [] [nb]) (mkSide (impostor startup) [] [])
    (Ok (encode_frame 90 [73])) (Ok ()).
Proof.
  eapply concludes_intro. unfold login_to_backend, impostor.
  eapply rtc_l; [by apply talk_left|]. eapply rtc_l; [by apply talk_left|]. rewrite deliver_nil.
  unfold deliver at 1. cbn [side_prog inbox randoms app].
  eapply rtc_l; [apply right_read_all|].
  eapply rtc_l; [apply right_write|]. eapply rtc_l; [apply right_write|]. rewrite deliver_deliver.
  unfold deliver at 1. cbn [side_prog inbox randoms]. rewrite app_nil_l.
  pose proof (turn_ok (mkSide (Ret (Ok ())) [] []) c (b64_encode nb) EmptyString fuel []
    (write_message 90 [73]) : rtc (@talk _ (result ClientAuthError ())) _ _) as Hd.
  apply (talk_bind_left (λ r : result BackendLoginError (),
    match r with Ok _ => login_rest (S fuel) [] | Err e => Ret (Err e) end)) in Hd.
  etrans; [exact Hd|].
  cbn [fst snd side_prog inbox randoms]. rewrite <-(app_nil_r (write_message 90 [73])).
  etrans; [apply moves_left, (read_frame_or_err Failed)|]; [split; [done|]; by vm_compute|done].
Qed.
End scram.

Arguments mkSide {A} _ _ _.
Arguments side_prog {A} _.
Arguments inbox {A} _.
Arguments randoms {A} _.

(** ** An instance

    Base64 as RFC 4648 writes it, and sums in place of hashes, to run the
    definitions on. *)

Definition symbols : string := "ABCDEFGHIJKLMNOPQRSTUVWXYZabcdefghijklmnopqrstuvwxyz0123456789+/".
Definition sym (n : Z) : ascii := default "A"%char (String.get (Z.to_nat (n mod 64)) symbols).

Fixpoint index_of (c : ascii) (n : Z) (s : string) : option Z :=
  match s with
  | EmptyString => None
  | String a s => if Ascii.eqb a c then Some n else index_of c (n + 1) s
  end.

Definition sym_value (c : ascii) : option Z := index_of c 0 symbols.

Fixpoint base64_encode (l : bytes) : string :=
  match l with
  | a :: b :: c :: l =>
      String (sym (a / 4)) (String (sym (a mod 4 * 16 + b / 16))
        (String (sym (b mod 16 * 4 + c / 64)) (String (sym (c mod 64)) (base64_encode l))))
  | [a; b] =>
      String (sym (a / 4)) (String (sym (a mod 4 * 16 + b / 16)) (String (sym (b mod 16 * 4)) "="))
  | [a] => String (sym (a / 4)) (String (sym (a mod 4 * 16)) "==")
  | [] => EmptyString
  end.

Fixpoint base64_decode (s : string) : option bytes :=
  match s with
  | EmptyString => Some []
  | String c1 (String c2 (String c3 (String c4 s'))) =>
      a ← sym_value c1;
      b ← sym_value c2;
      if Ascii.eqb c3 "=" then
        if Ascii.eqb c4 "=" && is_empty s' then Some [a * 4 + b / 16] else None
      else
        c ← sym_value c3;
        if Ascii.eqb c4 "=" then
          if is_empty s' then Some [a * 4 + b / 16; b mod 16 * 16 + c / 4] else None
        else
          d ← sym_value c4;
          rest ← base64_decode s';
          Some (a * 4 + b / 16 :: b mod 16 * 16 + c / 4 :: c mod 4 * 64 + d :: rest)
  | _ => None
  end.

Lemma triples_ind (P : bytes → Prop) :
  P [] → (∀ a, P [a]) → (∀ a b, P [a; b]) → (∀ a b c l, P l → P (a :: b :: c :: l)) → ∀ l, P l.
Proof.
  intros H0 H1 H2 H3. refine (fix go l := _).
  destruct l as [|a [|b [|c l]]]; [done|done|done|]. apply H3, go.
Qed.

Lemma sym_facts n :
  base64_char (sym n) = true ∧ Ascii.eqb (sym n) "=" = false ∧ (0 ≤ n < 64 → sym_value (sym n) = Some n).
Proof.
  assert (∀ m, (m < 64)%nat → base64_char (sym (Z.of_nat m)) = true ∧ Ascii.eqb (sym (Z.of_nat m)) "=" = false ∧
    sym_value (sym (Z.of_nat m)) = Some (Z.of_nat m)) as Htable.
  { intros m Hm. assert (forallb (λ m, base64_char (sym (Z.of_nat m)) && negb (Ascii.eqb (sym (Z.of_nat m)) "=") &&
      bool_decide (sym_value (sym (Z.of_nat m)) = Some (Z.of_nat m))) (seq 0 64) = true) as Hall by (by vm_compute).
    rewrite forallb_forall in Hall. specialize (Hall m ltac:(apply in_seq; lia)).
    rewrite !andb_true_iff, negb_true_iff, bool_decide_eq_true in Hall. naive_solver. }
  assert (sym n = sym (Z.of_nat (Z.to_nat (n mod 64)))) as E.
  { unfold sym. rewrite Z2Nat.id by (apply Z.mod_pos_bound; lia). by rewrite Zmod_mod. }
  pose proof (Z.mod_pos_bound n 64 ltac:(lia)). destruct (Htable (Z.to_nat (n mod 64)) ltac:(lia)) as (H1 & H2 & H3).
  rewrite E. split; [done|]. split; [done|]. intros Hn. rewrite H3. f_equal. rewrite Z2Nat.id by lia.
  by apply Z.mod_small.
Qed.

Ltac dm := Z.div_mod_to_equations; lia.

Lemma base64_round_trip l : Forall is_byte l → base64_decode (base64_encode l) = Some l.
Proof.
  induction l as [|a|a b|a b c l IH] using triples_ind; intros Hl; [done|..];
    rewrite !Forall_cons in Hl; unfold in_u in Hl; cbn [base64_encode base64_decode].
  - rewrite !(proj2 (proj2 (sym_facts _))) by dm. cbn. repeat f_equal; dm.
  - rewrite !(proj2 (proj2 (sym_facts _))) by dm. cbn [mbind option_bind].
    rewrite (proj1 (proj2 (sym_facts _))). cbn. do 2 f_equal; [dm|]. f_equal. dm.
  - rewrite !(proj2 (proj2 (sym_facts _))) by dm. cbn [mbind option_bind].
    rewrite !(proj1 (proj2 (sym_facts _))). cbn [mbind option_bind].
    rewrite IH by naive_solver. cbn [mbind option_bind]. repeat f_equal; dm.
Qed.

Definition byte_sum (l : bytes) : Z := foldr Z.add 0 l.
Definition filled (n : Z) : bytes := replicate 32 (n mod 256).

Lemma filled_key n : is_key (filled n).
Proof.
  split; [done|]. apply Forall_replicate. unfold in_u. pose proof (Z.mod_pos_bound n 256 ltac:(lia)). lia.
Qed.

#[export] Program Instance sum_crypto : ScramCrypto := {|
  hmac := λ k m, filled (byte_sum k + 3 * byte_sum m);
  sha256 := λ m, filled (byte_sum m + 1);
  b64_encode := base64_encode;
  b64_decode := base64_decode;
  b64_round_trip := base64_round_trip
|}.
Next Obligation. intros. apply filled_key. Qed.
Next Obligation. intros. apply filled_key. Qed.
Next Obligation.
  induction l as [|a|a b|a b c l IH] using triples_ind; cbn [base64_encode str_exists]; [done|..];
    by rewrite ?(proj1 (sym_facts _)), ?IH.
Qed.
Next Obligation.
  induction l as [|a|a b|a b c l IH] using triples_ind; cbn [base64_encode String.length length]; lia.
Qed.
Next Obligation. done. Qed.

Lemma scram_relay_witness :
  ∃ v, verifier_parse (make_verifier "secret" (as_bytes "0123456789abcdef") 16) = Some v ∧
    let c := mkCredentials (client_keys "secret" (as_bytes "0123456789abcdef") 16) v in
    concludes (mkSide (login_to_backend 4 [1; 2] c) [] [replicate 18 7])
      (mkSide (backend_server [1; 2] v) [] [replicate 18 8]) (Ok backend_rest) (Ok ()).
Proof.
  destruct (scram_relay "secret" (as_bytes "0123456789abcdef") 16 "n" (replicate 18 5) (replicate 18 6) [1; 2] 0
    (replicate 18 7) (replicate 18 8)) as (v & Hv & _ & Hb).
  - by vm_compute.
  - apply as_bytes_byte.
  - by vm_compute; lia.
  - by left.
  - by repeat constructor.
  - exists v. split; [exact Hv|exact Hb].
Defined.

Lemma login_accepted_proved_witness :
  all_runs (authenticate_client (verifier_mock "nobody" [1; 2; 3]))
    (accepted_ok (verifier_mock "nobody" [1; 2; 3])).
Proof.
  exact (login_accepted_proved (verifier_mock "nobody" [1; 2; 3]) (hmac_key [1; 2; 3] (as_bytes "stored"))).
Defined.
