(* ===== verification/Session.v ===== *)
(** One client's connection through the proxy:
    src/pgcluster/src/proxy/connection.rs, with the negotiation of ssl.rs and the
    verifier lookup of auth.rs.

    [connection_run] is a program over the calls it makes on its client, on the
    router, the pool and the backends. Error texts are fixed. The loop over the
    client's messages takes fuel, one unit for each message.

    [session_protocol] describes every run by an observer that only sees the
    calls ([observe]): nothing reaches a backend before the client proved its
    password; what is forwarded are the client's messages, each once and only
    after the quorum was found held since it was read; they go to the
    connection the session took from the pool under its own database and user;
    and it goes back when its transaction has ended, or when the session ends. *)
From S2P Require Import Prelude Topology Effects Protocol Scram Lease Routing Pool.

Local Open Scope Z_scope.

(** ** Calls *)

Record Login := mkLogin { startup : bytes; credentials : Credentials }.

Inductive call :=
| Handshake
| ReadStartup
| WriteClient (b : bytes)
| IsDraining
| HasQuorum
| PrimaryNodeId
| PrimaryAddr
| ReadBackend
| FetchVerifier (addr user : string)
| Authenticate (v : Verifier)
| PoolLogin (node_id addr : string) (login : Login)
| FinishLogin
| PoolInject (k : PoolKey) (conn : BackendConnection)
| ReadFrame
| PoolAcquire (k : PoolKey) (login : Login)
| PoolRelease (k : PoolKey) (conn : BackendConnection)
| ForwardAndPipe (conn : BackendConnection) (raw : bytes)
| Forward (conn : BackendConnection) (raw : bytes).

(** A stream is encrypted or not; the other answers are results. *)
Definition answer_of (e : call) : Type :=
  match e with
  | Handshake => option bool
  | ReadStartup => option FrontendMessage
  | WriteClient _ => bool
  | IsDraining | HasQuorum => bool
  | PrimaryNodeId | PrimaryAddr => option string
  | ReadBackend => option (string * string)
  | FetchVerifier _ _ => option Verifier
  | Authenticate _ => result ClientAuthError Credentials
  | PoolLogin _ _ _ => result BackendLoginError (BackendConnection * bytes)
  | FinishLogin | PoolInject _ _ | PoolRelease _ _ => ()
  | ReadFrame => option (FrontendMessage * bytes)
  | PoolAcquire _ _ => option BackendConnection
  | ForwardAndPipe _ _ => option Z
  | Forward _ _ => bool
  end.

Abbreviation conn_prog := (prog answer_of).
Definition do_call (e : call) : conn_prog (answer_of e) := Effects.call (R := answer_of) e.

(** ** Messages to the client *)

Definition say (severity code message : string) : conn_prog (option ()) :=
  ok ← do_call (WriteClient (write_error_response (as_bytes severity) (as_bytes code) (as_bytes message)));
  Ret (if ok : bool then Some () else None).

Definition NO_QUORUM_MESSAGE : string :=
  "proxy lost contact with the cluster majority; reconnect to another node".
Definition DRAINING_MESSAGE : string :=
  "server is draining connections for a planned switchover; reconnect shortly".

(** ** The loop *)

Record held := mkHeld { held_conn : BackendConnection; held_node : string; held_addr : string }.

(** What the session keeps between messages. *)
Record LoopState := mkLoop { session : SessionState; current : option held }.

(** How handling a message ends: the next one, the end of the loop, or an error
    that leaves [run] at once. *)
Inductive flow := Continue (st : LoopState) | Break (st : LoopState) | Fail.

(** The code points of a text, to classify it. *)
Fixpoint code_points (l : bytes) : list Z :=
  match l with
  | [] => []
  | a :: l1 =>
      if a <? 128 then a :: code_points l1
      else match l1 with
      | b :: l2 =>
          if a <? 224 then ((a - 192) * 64 + (b - 128)) :: code_points l2
          else match l2 with
          | c :: l3 =>
              if a <? 240 then (((a - 224) * 64 + (b - 128)) * 64 + (c - 128)) :: code_points l3
              else match l3 with
              | d :: l4 => ((((a - 240) * 64 + (b - 128)) * 64 + (c - 128)) * 64 + (d - 128)) :: code_points l4
              | [] => []
              end
          | [] => []
          end
      | [] => []
      end
  end.

(** Whether the backend replies to this message before reading more. *)
Definition answers_now (msg : FrontendMessage) : bool :=
  match msg with Sync | CopyDone | CopyFail _ => true | _ => false end.

Definition primary : conn_prog (option (string * string)) :=
  node ← do_call PrimaryNodeId;
  addr ← do_call PrimaryAddr;
  Ret (opt_zip node addr).

Definition resolve (target : RouteTarget) : conn_prog (option (string * string)) :=
  match target with ToPrimary => primary | ReplicaOrPrimary => do_call ReadBackend end.

Section connection.
(** What Unicode says of uppercase beyond ASCII. *)
Context (upper_above : Z → list Z).
Context (database user : string) (login : Login).

Definition key_for (node addr : string) : PoolKey := pool_key database user node addr.

(** [ensure_backend]: the connection and the loop's state with it. *)
Definition ensure_backend (st : LoopState) (node addr : string)
    : conn_prog (option (BackendConnection * LoopState)) :=
  match current st with
  | Some h =>
      if String.eqb (held_node h) node && String.eqb (held_addr h) addr then Ret (Some (held_conn h, st))
      else
        conn ←? do_call (PoolAcquire (key_for node addr) login);
        Ret (Some (conn, mkLoop (session st) (Some (mkHeld conn node addr))))
  | None =>
      conn ←? do_call (PoolAcquire (key_for node addr) login);
      Ret (Some (conn, mkLoop (session st) (Some (mkHeld conn node addr))))
  end.

Definition release_current (st : LoopState) : conn_prog LoopState :=
  match current st with
  | Some h =>
      _ ← do_call (PoolRelease (key_for (held_node h) (held_addr h)) (held_conn h));
      Ret (mkLoop (session st) None)
  | None => Ret st
  end.

(** Forward a message, send its answer to the client, and give the connection
    back when no transaction is open. *)
Definition exchange (st : LoopState) (conn : BackendConnection) (raw : bytes) : conn_prog flow :=
  status ← do_call (ForwardAndPipe conn raw);
  match status : option Z with
  | None => Ret Fail
  | Some status =>
      let st := mkLoop (update_from_ready_for_query status (session st)) (current st) in
      match txn_state (session st) with
      | Idle => st ← release_current st; Ret (Continue st)
      | _ => Ret (Continue st)
      end
  end.

(** Tell the client, then go on; an error in telling it ends the session. *)
Definition tell (severity code message : string) (next : flow) : conn_prog flow :=
  said ← say severity code message;
  Ret (match said : option () with Some _ => next | None => Fail end).

Definition on_query (sql raw : bytes) (st : LoopState) : conn_prog flow :=
  let intent := classify_statement upper_above (code_points sql) in
  let '(target, session) := route_intent intent (session st) in
  let st := mkLoop session (current st) in
  let go (found : string * string) :=
    got ← ensure_backend st found.1 found.2;
    match got : option (BackendConnection * LoopState) with
    | None => tell "ERROR" "08006" "backend connection failed" (Continue st)
    | Some (conn, st) => exchange st conn raw
    end in
  match current st with
  | Some h => go (held_node h, held_addr h)
  | None =>
      draining ← do_call IsDraining;
      if draining && bool_decide (target = ToPrimary)
      then tell "FATAL" "57P01" DRAINING_MESSAGE (Break st)
      else
        found ← resolve target;
        match found : option (string * string) with
        | None => tell "ERROR" "57P03" "no backend available" (Continue st)
        | Some found => go found
        end
  end.

Definition on_extended (msg : FrontendMessage) (raw : bytes) (st : LoopState) : conn_prog flow :=
  found ← match current st with
         | Some h => Ret (Some (held_node h, held_addr h))
         | None => primary
         end;
  match found : option (string * string) with
  | None => tell "ERROR" "57P03" "no primary" (Continue st)
  | Some (node, addr) =>
      got ← ensure_backend st node addr;
      match got : option (BackendConnection * LoopState) with
      | None => tell "ERROR" "08006" "backend unavailable" (Continue st)
      | Some (conn, st) =>
          if answers_now msg then exchange st conn raw
          else
            ok ← do_call (Forward conn raw);
            Ret (if ok : bool then Continue st else Fail)
      end
  end.

Definition on_message (msg : FrontendMessage) (raw : bytes) (st : LoopState) : conn_prog flow :=
  quorum ← do_call HasQuorum;
  if negb quorum && negb (match msg with Terminate => true | _ => false end)
  then tell "FATAL" "57P03" NO_QUORUM_MESSAGE (Break st)
  else
    match msg with
    | Terminate => Ret (Break st)
    | Query sql => on_query sql raw st
    | Parse _ _ _ | Bind _ _ _ | Execute _ _ | Describe _ _ | Sync | Flush | Close _ _
    | CopyData _ | CopyDone | CopyFail _ => on_extended msg raw st
    | PasswordMessage _ | StartupMessage _ | SslRequest | CancelRequest _ _ => Ret (Continue st)
    end.

(** The loop, and giving back the connection it still holds. *)
Fixpoint message_loop (fuel : nat) (st : LoopState) : conn_prog (option ()) :=
  match fuel with
  | O => Ret None
  | S fuel =>
      frame ← do_call ReadFrame;
      match frame : option (FrontendMessage * bytes) with
      | None => _ ← release_current st; Ret (Some ())
      | Some (msg, raw) =>
          next ← on_message msg raw st;
          match next : flow with
          | Continue st => message_loop fuel st
          | Break st => _ ← release_current st; Ret (Some ())
          | Fail => Ret None
          end
      end
  end.
End connection.

(** ** The whole connection *)

Definition param (name : string) (params : gmap bytes bytes) : string :=
  of_bytes (default [] (params !! as_bytes name)).

Section run.
Context (upper_above : Z → list Z) (require_tls : bool) (pairs_of : gmap bytes bytes → list (bytes * bytes)).

(** Tell the client why, and end without an error. *)
Definition refuse (code message : string) : conn_prog (option ()) := say "FATAL" code message.

(** From the startup message on. *)
Definition connection_start (fuel : nat) (params : gmap bytes bytes) : conn_prog (option ()) :=
  let database := param "database" params in
  let user := param "user" params in
  let session :=
    mkSession Idle false database user (param "application_name" params) ∅ None false None in
  draining ← do_call IsDraining;
  if draining : bool then refuse "57P01" DRAINING_MESSAGE
  else
  quorum ← do_call HasQuorum;
  if negb quorum then refuse "57P03" NO_QUORUM_MESSAGE
  else
  found ← primary;
  match found : option (string * string) with
  | None => refuse "57P03" "no primary available"
  | Some (node, addr) =>
      verifier ← do_call (FetchVerifier addr user);
      match verifier : option Verifier with
      | None => refuse "57P03" "the proxy cannot authenticate clients yet; try again shortly"
      | Some v =>
          auth ← do_call (Authenticate v);
          match auth : result ClientAuthError Credentials with
          | Err Rejected => refuse "28P01" "password authentication failed"
          | Err Protocol => Ret None
          | Ok c =>
              let login := mkLogin (encode_startup_message (pairs_of params)) c in
              logged_in ← do_call (PoolLogin node addr login);
              match logged_in : result BackendLoginError (BackendConnection * bytes) with
              | Err (Refused frame) =>
                  ok ← do_call (WriteClient frame);
                  Ret (if ok : bool then Some () else None)
              | Err _ => refuse "08006" "could not connect to primary"
              | Ok (conn, rest) =>
                  ok ← do_call (WriteClient rest);
                  if ok : bool then
                    _ ← do_call FinishLogin;
                    _ ← do_call (PoolInject (pool_key database user node addr) conn);
                    message_loop upper_above database user login fuel (mkLoop session None)
                  else Ret None
              end
          end
      end
  end.

Definition connection_run (fuel : nat) : conn_prog (option ()) :=
  stream ←? do_call Handshake;
  if require_tls && negb stream then refuse "28000" "this server requires TLS"
  else
    startup ←? do_call ReadStartup;
    match startup with
    | StartupMessage params => connection_start fuel params
    | _ => Ret None
    end.
End run.

(** ** An observer of the calls *)

(** What can be known of a session from its calls alone. *)
Record watch := mkWatch {
  w_client : option (string * string);          (** the database and user it asked for *)
  w_verifier : option Verifier;                 (** the verifier fetched for that user *)
  w_proved : option Credentials;                (** the keys its proof revealed *)
  w_message : option (bytes * bool);            (** the message not yet forwarded, and whether the
                                                    quorum was held since it was read *)
  w_held : option (BackendConnection * PoolKey); (** the connection taken from the pool *)
  w_idle : bool;                                (** no transaction is open on it *)
  w_over : bool                                 (** the session is ending *)
}.

Definition watch_start : watch := mkWatch None None None None None true false.

Definition see_message (m : option (bytes * bool)) (over : bool) (w : watch) : watch :=
  mkWatch (w_client w) (w_verifier w) (w_proved w) m (w_held w) (w_idle w) (w_over w || over).

Definition see_held (h : option (BackendConnection * PoolKey)) (w : watch) : watch :=
  mkWatch (w_client w) (w_verifier w) (w_proved w) (w_message w) h (w_idle w) (w_over w).

(** A message has gone to the backend: it is not sent again. *)
Definition see_sent (idle : bool) (w : watch) : watch :=
  mkWatch (w_client w) (w_verifier w) (w_proved w) None (w_held w) idle (w_over w).

Definition is_idle_status (status : Z) : bool := negb ((status =? 84) || (status =? 69)).

#[global] Instance pool_key_eq_dec : EqDecision PoolKey.
Proof. solve_decision. Defined.
#[global] Instance backend_connection_eq_dec : EqDecision BackendConnection.
Proof. solve_decision. Defined.
#[global] Instance verifier_eq_dec : EqDecision Verifier.
Proof. solve_decision. Defined.
#[global] Instance credentials_eq_dec : EqDecision Credentials.
Proof. solve_decision. Defined.

(** The key is one of this session's client. *)
Definition own_key (w : watch) (k : PoolKey) : bool :=
  bool_decide (w_client w = Some (key_database k, key_user k)).

(** What the session may forward now. *)
Definition may_send (w : watch) (conn : BackendConnection) (raw : bytes) : bool :=
  bool_decide (fst <$> w_held w = Some conn) && bool_decide (w_message w = Some (raw, true)) && negb (w_over w).

(** One call: [None] if it breaks the rules. *)
Definition observe (w : watch) (o : obs answer_of) : option watch :=
  match o with
  | Obs e r =>
      match e return answer_of e → option watch with
      | ReadStartup => λ r,
          match r with
          | Some (StartupMessage params) =>
              Some (mkWatch (Some (param "database" params, param "user" params)) None None None None true false)
          | _ => Some w
          end
      | FetchVerifier _ user => λ r,
          if bool_decide (snd <$> w_client w = Some user)
          then Some (mkWatch (w_client w) r None None None true false) else None
      | Authenticate v => λ r,
          if bool_decide (w_verifier w = Some v) then
            match r with
            | Ok c => Some (mkWatch (w_client w) (w_verifier w) (Some c) None None true false)
            | Err _ => Some w
            end
          else None
      | PoolLogin _ _ login => λ _, if bool_decide (w_proved w = Some (credentials login)) then Some w else None
      | PoolInject k _ => λ _, if own_key w k then Some w else None
      | ReadFrame => λ r,
          if bool_decide (is_Some (w_proved w)) then
            match r with
            | Some (msg, raw) =>
                Some (see_message (Some (raw, false)) (match msg with Terminate => true | _ => false end) w)
            | None => Some (see_message None true w)
            end
          else None
      | HasQuorum => λ b,
          match w_message w with
          | Some (raw, _) => Some (see_message (Some (raw, b)) (negb b) w)
          | None => Some w
          end
      | PoolAcquire k login => λ r,
          if own_key w k && bool_decide (w_proved w = Some (credentials login)) && bool_decide (w_held w = None) &&
             bool_decide (snd <$> w_message w = Some true) && negb (w_over w)
          then Some (match r with Some conn => see_held (Some (conn, k)) w | None => w end) else None
      | ForwardAndPipe conn raw => λ r,
          if may_send w conn raw
          then Some (see_sent (match r with Some status => is_idle_status status | None => false end) w) else None
      | Forward conn raw => λ _, if may_send w conn raw then Some (see_sent false w) else None
      | PoolRelease k conn => λ _,
          if bool_decide (w_held w = Some (conn, k)) && (w_idle w || w_over w)
          then Some (see_held None w) else None
      | _ => λ _, Some w
      end r
  end.

Fixpoint observe_all (w : watch) (tr : list (obs answer_of)) : option watch :=
  match tr with
  | [] => Some w
  | o :: tr => w ← observe w o; observe_all w tr
  end.

(** ** Runs under observation *)

Fixpoint watched {A} (w : watch) (p : conn_prog A) (Q : A → watch → Prop) : Prop :=
  match p with
  | Ret a => Q a w
  | Vis e k => ∀ r, ∃ w', observe w (Obs e r) = Some w' ∧ watched w' (k r) Q
  end.

Lemma watched_runs {A} w (p : conn_prog A) Q :
  watched w p Q → all_runs p (λ a tr, ∃ w', observe_all w tr = Some w' ∧ Q a w').
Proof.
  revert w. induction p as [a|e k IH]; intros w Hp; cbn in *; [by exists w|].
  intros r. destruct (Hp r) as (w1 & Ho & Hk). eapply all_runs_mono; [by apply IH|].
  intros a tr (w' & Htr & HQ). exists w'. cbn in Ho. by rewrite Ho.
Qed.

Lemma watched_bind {A B} w (p : conn_prog A) (f : A → conn_prog B) Q :
  watched w p (λ a w, watched w (f a) Q) → watched w (p ≫= f) Q.
Proof.
  unfold mbind, prog_bind. revert w. induction p as [a|e k IH]; intros w Hp; cbn in *; [done|].
  intros r. destruct (Hp r) as (w1 & Ho & Hk). eauto.
Qed.

Lemma watched_mono {A} w (p : conn_prog A) (Q Q' : A → watch → Prop) :
  watched w p Q → (∀ a w, Q a w → Q' a w) → watched w p Q'.
Proof.
  intros Hp HQ. revert w Hp. induction p as [a|e k IH]; intros w Hp; cbn in *; [auto|].
  intros r. destruct (Hp r) as (w1 & Ho & Hk). eauto.
Qed.

Lemma watched_call {B} w e (f : answer_of e → conn_prog B) Q :
  (∀ r, ∃ w', observe w (Obs e r) = Some w' ∧ watched w' (f r) Q) → watched w (do_call e ≫= f) Q.
Proof. intros Hr. apply watched_bind. exact Hr. Qed.

(** Calls the observer has no rule for. *)
Lemma watched_quiet {B} w e (f : answer_of e → conn_prog B) Q :
  (∀ r, observe w (Obs e r) = Some w) → (∀ r, watched w (f r) Q) → watched w (do_call e ≫= f) Q.
Proof. intros Ho Hf. apply watched_call. eauto. Qed.

Lemma watched_say {B} w severity code message (f : option () → conn_prog B) Q :
  (∀ r, watched w (f r) Q) → watched w (say severity code message ≫= f) Q.
Proof.
  intros Hf. apply watched_bind. unfold say. apply watched_quiet; [done|]. intros ok. apply Hf.
Qed.

Lemma watched_tell w severity code message next (Q : flow → watch → Prop) :
  Q next w → Q Fail w → watched w (tell severity code message next) Q.
Proof. intros Hn Hf. unfold tell. apply watched_say. by intros [[]|]. Qed.

(** ** The invariant of the loop *)

Section invariant.
Context (upper_above : Z → list Z) (database user : string) (login : Login).

Definition held_of (st : LoopState) : option (BackendConnection * PoolKey) :=
  (λ h, (held_conn h, key_for database user (held_node h) (held_addr h))) <$> current st.

Definition loop_inv (w : watch) (st : LoopState) : Prop :=
  w_client w = Some (database, user) ∧ w_proved w = Some (credentials login) ∧
  w_held w = held_of st ∧ w_over w = false.

(** While a message is handled that may be forwarded. *)
Definition ready_inv (raw : bytes) (w : watch) (st : LoopState) : Prop :=
  loop_inv w st ∧ w_message w = Some (raw, true).

Definition flow_ok (f : flow) (w : watch) : Prop :=
  match f with
  | Continue st => loop_inv w st
  | Break st => w_held w = held_of st ∧ (w_over w = true ∨ current st = None)
  | Fail => True
  end.

Lemma loop_inv_session w st s : loop_inv w st → loop_inv w (mkLoop s (current st)).
Proof. done. Qed.

Lemma loop_continue w st : loop_inv w st → flow_ok (Continue st) w.
Proof. done. Qed.

Lemma release_watched w st (Q : LoopState → watch → Prop) :
  w_held w = held_of st → current st = None ∨ w_idle w || w_over w = true →
  Q (mkLoop (session st) None) (see_held None w) → watched w (release_current database user st) Q.
Proof.
  intros Hh Hi HQ. unfold release_current, held_of in *. destruct st as [s [h|]]; cbn in *.
  - destruct Hi as [|Hi]; [done|]. intros []. eexists. cbn. rewrite bool_decide_eq_true_2, Hi by done.
    by split.
  - destruct w. cbn in *. by subst.
Qed.

Lemma ensure_watched raw w st node addr :
  ready_inv raw w st → (∀ h, current st = Some h → node = held_node h ∧ addr = held_addr h) →
  watched w (ensure_backend database user login st node addr) (λ r w',
    match r with
    | Some (conn, st') => ready_inv raw w' st' ∧ held_conn <$> current st' = Some conn
    | None => ready_inv raw w' st
    end).
Proof.
  intros [(Hc & Hp & Hh & Ho) Hm] Hcur. unfold ensure_backend. destruct (current st) as [h|] eqn:Ecur.
  - destruct (Hcur h eq_refl) as [-> ->]. rewrite !String.eqb_refl. cbn. rewrite Ecur. by repeat split.
  - apply watched_call. intros conn. cbn [observe]. unfold own_key, held_of in *. rewrite Ecur in Hh.
    rewrite !bool_decide_eq_true_2, Ho by (done || by rewrite Hm). cbn. eexists. split; [done|].
    destruct conn as [conn|]; cbn; [by repeat split|].
    split; [|done]. unfold loop_inv, held_of. by rewrite Ecur.
Qed.

Lemma idle_status status s :
  txn_state (update_from_ready_for_query status s) = Idle ↔ is_idle_status status = true.
Proof.
  unfold update_from_ready_for_query, is_idle_status.
  destruct (Z.eqb_spec status 73) as [->|]; [done|].
  destruct (Z.eqb_spec status 84), (Z.eqb_spec status 69); cbn; naive_solver.
Qed.

Lemma exchange_watched raw w st conn :
  ready_inv raw w st → held_conn <$> current st = Some conn →
  watched w (exchange database user st conn raw) flow_ok.
Proof.
  intros [(Hc & Hp & Hh & Ho) Hm] Hcur. unfold exchange. apply watched_call. intros status.
  cbn [observe]. unfold may_send. assert (fst <$> w_held w = Some conn) as Hconn.
  { rewrite Hh. unfold held_of. by destruct (current st); cbn in *. }
  rewrite !bool_decide_eq_true_2, Ho by done. cbn. eexists. split; [done|].
  destruct status as [status|]; [|done].
  destruct (txn_state (update_from_ready_for_query status (session st))) eqn:Et; try by repeat split.
  apply watched_bind. apply release_watched; [done|right|].
  - cbn. apply idle_status in Et. by rewrite Et.
  - by repeat split.
Qed.

Lemma primary_watched {B} w (f : option (string * string) → conn_prog B) Q :
  (∀ r, watched w (f r) Q) → watched w (primary ≫= f) Q.
Proof.
  intros Hf. apply watched_bind. unfold primary. apply watched_quiet; [done|]. intros node.
  apply watched_quiet; [done|]. intros addr. apply Hf.
Qed.

Lemma query_watched sql raw w st :
  ready_inv raw w st → watched w (on_query upper_above database user login sql raw st) flow_ok.
Proof.
  intros Hr. unfold on_query. destruct (route_intent _ _) as [target s].
  assert (ready_inv raw w (mkLoop s (current st))) as Hr' by done. clear Hr.
  cbv zeta. revert Hr'. generalize (mkLoop s (current st)). clear st. intros st' Hr'.
  assert (∀ node addr, (∀ h, current st' = Some h → node = held_node h ∧ addr = held_addr h) →
    watched w (ensure_backend database user login st' node addr ≫= λ got : option (BackendConnection * LoopState),
      match got with
      | None => tell "ERROR" "08006" "backend connection failed" (Continue st')
      | Some (conn, st) => exchange database user st conn raw
      end) flow_ok) as Hgo.
  { intros node addr Hcur. apply watched_bind. eapply watched_mono; [by eapply ensure_watched|].
    intros [[conn st]|] w' Hw'; cbn beta iota in Hw'.
    - destruct Hw' as [Hw' Hconn]. by apply exchange_watched.
    - apply watched_tell; [apply Hw'|done]. }
  destruct (current st') as [h|] eqn:Ecur; [by apply Hgo; intros ? [= <-]|].
  apply watched_quiet; [done|]. intros draining. destruct (draining && _).
  { apply watched_tell; [|done]. cbn. destruct Hr' as [(_ & _ & ? & _) _]. by split; [|right]. }
  assert (∀ r, watched w (match r : option (string * string) with
    | None => tell "ERROR" "57P03" "no backend available" (Continue st')
    | Some found => ensure_backend database user login st' found.1 found.2 ≫=
        λ got : option (BackendConnection * LoopState),
        match got with
        | None => tell "ERROR" "08006" "backend connection failed" (Continue st')
        | Some (conn, st) => exchange database user st conn raw
        end
    end) flow_ok) as Hres.
  { intros [[node addr]|]; [by apply Hgo|]. apply watched_tell; [apply Hr'|done]. }
  destruct target; [by apply primary_watched|by apply watched_quiet].
Qed.

Lemma extended_watched msg raw w st :
  ready_inv raw w st → watched w (on_extended database user login msg raw st) flow_ok.
Proof.
  intros Hr. unfold on_extended.
  assert (∀ node addr, (∀ h, current st = Some h → node = held_node h ∧ addr = held_addr h) →
    watched w (ensure_backend database user login st node addr ≫= λ got : option (BackendConnection * LoopState),
      match got with
      | None => tell "ERROR" "08006" "backend unavailable" (Continue st)
      | Some (conn, st) =>
          if answers_now msg then exchange database user st conn raw
          else ok ← do_call (Forward conn raw); Ret (if ok : bool then Continue st else Fail)
      end) flow_ok) as Hgo.
  { intros node addr Hcur. apply watched_bind. eapply watched_mono; [by eapply ensure_watched|].
    intros [[conn st']|] w' Hw'; cbn beta iota in Hw'; [|by apply watched_tell; [apply Hw'|]].
    destruct Hw' as [Hw' Hconn]. destruct (answers_now msg); [by apply exchange_watched|].
    destruct Hw' as [(Hc & Hp & Hh & Ho) Hm]. apply watched_call. intros ok. cbn [observe]. unfold may_send.
    assert (fst <$> w_held w' = Some conn) as Hc'.
    { rewrite Hh. unfold held_of. by destruct (current st'); cbn in *. }
    rewrite !bool_decide_eq_true_2, Ho by done. cbn. eexists. split; [done|]. by destruct ok. }
  destruct (current st) as [h|] eqn:Ecur; [by apply Hgo; intros ? [= <-]|].
  apply primary_watched. intros [[node addr]|]; [by apply Hgo|]. apply watched_tell; [apply Hr|done].
Qed.

(** Between messages: what is not forwarded is dropped. *)
Lemma message_watched msg raw w st :
  loop_inv w st → w_message w = Some (raw, false) → msg ≠ Terminate →
  watched w (on_message upper_above database user login msg raw st) flow_ok.
Proof.
  intros (Hc & Hp & Hh & Ho) Hm Ht. unfold on_message. apply watched_call. intros quorum.
  cbn [observe]. rewrite Hm. eexists. split; [done|]. destruct quorum; cbn [negb andb].
  - assert (ready_inv raw (see_message (Some (raw, true)) false w) st) as Hr.
    { repeat split; cbn; try done. by rewrite Ho. }
    destruct msg; try done; try (by apply query_watched); try (by apply extended_watched);
      cbn; unfold loop_inv; cbn; by rewrite Ho.
  - assert (match msg with Terminate => true | _ => false end = false) as -> by (by destruct msg).
    cbn [negb]. apply watched_tell; [|done]. cbn. split; [done|]. left. by rewrite Ho.
Qed.

Lemma terminate_watched raw w st :
  w_held w = held_of st → w_message w = Some (raw, false) → w_over w = true →
  watched w (on_message upper_above database user login Terminate raw st) flow_ok.
Proof.
  intros Hh Hm Ho. unfold on_message. apply watched_call. intros quorum. cbn [observe]. rewrite Hm.
  eexists. split; [done|]. assert (negb quorum && negb true = false) as -> by (by destruct quorum).
  cbn. split; [done|]. left. by rewrite Ho.
Qed.

Definition returned (r : option ()) (w : watch) : Prop := r = Some () → w_held w = None.

Lemma end_watched w st :
  w_held w = held_of st → w_over w = true ∨ current st = None →
  watched w (_ ← release_current database user st; Ret (Some ())) returned.
Proof.
  intros Hh Ho. apply watched_bind, release_watched; [done| |done].
  destruct Ho as [Ho|]; [right; by rewrite Ho, orb_true_r|by left].
Qed.

Lemma loop_watched fuel w st :
  loop_inv w st → watched w (message_loop upper_above database user login fuel st) returned.
Proof.
  revert w st. induction fuel as [|fuel IH]; intros w st Hinv; cbn [message_loop]; [done|].
  destruct Hinv as (Hc & Hp & Hh & Ho). apply watched_call. intros frame. cbn [observe].
  rewrite bool_decide_eq_true_2 by (rewrite Hp; eauto).
  destruct frame as [[msg raw]|]; (eexists; split; [done|]).
  2: { apply end_watched; [done|]. left. cbn. by rewrite orb_true_r. }
  apply watched_bind. eapply watched_mono.
  { assert (msg = Terminate ∨ msg ≠ Terminate) as [->|Ht] 
      by (destruct msg; first [left; reflexivity|right; discriminate]).
    - apply terminate_watched; [done..|]. cbn. by rewrite orb_true_r.
    - apply message_watched; [|done..]. repeat split; try done. cbn. rewrite Ho. by destruct msg. }
  intros [st'|st'|] w' Hf; [by apply IH| |done]. destruct Hf. by apply end_watched.
Qed.
End invariant.

(** ** Every run *)

Section theorem.
Context (upper_above : Z → list Z) (require_tls : bool) (pairs_of : gmap bytes bytes → list (bytes * bytes)).

Lemma refuse_watched w code message : w_held w = None → watched w (refuse code message) returned.
Proof. intros Hh. unfold refuse, say. apply watched_quiet; [done|]. by intros [|] ?. Qed.

Lemma start_watched fuel params w :
  w = mkWatch (Some (param "database" params, param "user" params)) None None None None true false →
  watched w (connection_start upper_above pairs_of fuel params) returned.
Proof.
  intros ->. unfold connection_start. apply watched_quiet; [done|]. intros [|]; [by apply refuse_watched|].
  apply watched_quiet; [done|]. intros [|]; cbn [negb]; [|by apply refuse_watched].
  apply primary_watched. intros [[node addr]|]; [|by apply refuse_watched].
  apply watched_call. intros v. cbn [observe]. rewrite bool_decide_eq_true_2 by done. eexists. split; [done|].
  destruct v as [v|]; [|by apply refuse_watched].
  apply watched_call. intros auth. cbn [observe]. rewrite bool_decide_eq_true_2 by done.
  destruct auth as [c|[|]]; (eexists; split; [done|]); [|by apply refuse_watched|done].
  apply watched_call. intros logged_in. cbn [observe]. rewrite bool_decide_eq_true_2 by done.
  eexists. split; [done|]. destruct logged_in as [[conn rest]|[frame| |]]; [|..|by apply refuse_watched].
  2: { apply watched_quiet; [done|]. by intros [|]. }
  2: by apply refuse_watched.
  apply watched_quiet; [done|]. intros [|]; [|done].
  apply watched_quiet; [done|]. intros []. apply watched_call. intros []. cbn [observe]. unfold own_key.
  rewrite bool_decide_eq_true_2 by done. eexists. split; [done|]. by apply loop_watched.
Qed.

(** C14 Whatever the client, the router, the pool and the backends answer, a
    connection's calls keep the observer's rules: no login to a backend and no
    message before the client proved the password of the user it asked for,
    with the verifier fetched for that user; connections are taken under the
    client's own database and user, one at a time; every message forwarded is
    the last one read, byte for byte, forwarded once, to the connection held,
    after the quorum was found held since it was read, and none once the
    session is ending; a connection goes back when its transaction has ended
    or the session is ending, and a session that ends without an error holds
    none. *)
Theorem session_protocol fuel :
  all_runs (connection_run upper_above require_tls pairs_of fuel) (λ r tr,
    ∃ w, observe_all watch_start tr = Some w ∧ (r = Some () → w_held w = None)).
Proof.
  apply (watched_runs watch_start _ returned). unfold connection_run, try_bind.
  apply watched_quiet; [done|]. intros [stream|]; [|done]. destruct (_ && _); [by apply refuse_watched|].
  apply watched_call. intros startup. destruct startup as [[]|]; cbn [observe];
    (eexists; split; [done|]); try done. by apply start_watched.
Qed.
End theorem.

(** ** Draining *)

(** Messages of the extended protocol are forwarded to the primary without
    asking whether the proxy drains; simple queries ask first. *)
Lemma extended_ignores_drain database user login msg raw st :
  only (λ o, obs_ev o ≠ IsDraining) (on_extended database user login msg raw st).
Proof.
  assert (∀ st node addr, only (λ o, obs_ev o ≠ IsDraining) (ensure_backend database user login st node addr)) as He.
  { intros st' node addr. unfold ensure_backend. destruct (current st'); [destruct (_ && _); [done|]|];
      intros [|]; by split. }
  assert (∀ st conn, only (λ o, obs_ev o ≠ IsDraining) (exchange database user st conn raw)) as Hx.
  { intros st' conn [status|]; (split; [done|]); [|done]. cbn. destruct (txn_state _); try done.
    unfold release_current. cbn. destruct (current st'); [|done]. intros []. by split. }
  assert (∀ a b c n, only (λ o, obs_ev o ≠ IsDraining) (tell a b c n)) as Ht by (intros a b c n [|]; by split).
  unfold on_extended. apply only_bind; [destruct (current st); [done|]; intros ?; split; [done|]; intros ?; by split|].
  intros [[node addr]|]; [|apply Ht]. apply only_bind; [apply He|].
  intros [[conn st']|]; [|apply Ht]. destruct (answers_now msg); [apply Hx|]. intros []; by split.
Qed.
