(* ===== verification/Failover.v ===== *)
(** Automatic failover: src/pgcluster/src/failover/.

    Candidate choice, promotion and its check, repointing, replication slots
    and seeding, as programs over the control plane's events. Every theorem
    quantifies over all answers of the agents, of Raft and of Postgres.

    [trigger_failover_refines] says a failover is one of three runs: it stops
    without touching anything, it stops after a failed promotion without
    writing to Raft, or it writes exactly one [SetPrimary], for a node that was
    promoted and seen out of recovery, and then repoints the others to it.
    [strict_candidate_most_current] is the durability argument of
    [sync_strict], and [rejoin_discards_after_failed_rewind] says when a data
    directory may be discarded. *)
From S2P Require Import Prelude Topology Lease Effects.

Local Open Scope Z_scope.

Definition postgres_url (user password addr : string) : string :=
  ("postgres://" ++ user ++ ":" ++ password ++ "@" ++ addr ++ "/postgres")%string.

(** ** Candidate choice: candidate.rs *)

Section candidate.
Context `{!HashOrder}.

(** [received_lsn.max(replayed_lsn)]. *)
Definition position (s : StatusResponse) : Z := Z.max (received_lsn s) (replayed_lsn s).

(** The filters of the loop that spawns the checks. *)
Definition asked (t : ClusterTopology) (failed : string) (e : string * NodeRole)
    : option (string * string) :=
  if String.eqb e.1 failed || negb (bool_decide (e.2 = Replica)) then None else
  match node_configs t !! e.1 with
  | None => None
  | Some cfg => if is_external cfg then None else Some (e.1, agent_addr cfg)
  end.

(** One spawned check. *)
Definition live_check (x : string * string) : eff (option (string * Z)) :=
  r ← timeout expired (on_agent x.1 x.2 (ask (GetStatus x.1)));
  match r : option (option StatusResponse) with
  | Some (Some s) =>
      Ret (if postgres_running s && is_in_recovery s then Some (x.1, position s) else None)
  | _ => _ ← ask (Evict x.1); Ret None
  end.

Definition live_positions (t : ClusterTopology) (failed : string) : eff (list (string * Z)) :=
  results ← mapM live_check (omap (asked t failed) (hash_iter (node_roles t)));
  finished ← join_all results;
  Ret (somes finished).

(** The order of the key [(lsn, priority)]. *)
Definition position_le (t : ClusterTopology) (a b : string * Z) : bool :=
  (a.2 <? b.2) || ((a.2 =? b.2) && (priority_of t a.1 <=? priority_of t b.1)).

Definition rank_positions (t : ClusterTopology) (positions : list (string * Z))
    : option (string * Z) := max_by_key (position_le t) positions.

(** The standbys [SyncStrict] waits for. *)
Definition strict_standbys (t : ClusterTopology) (failed : string) : list (string * NodeConfig) :=
  List.filter (λ e, negb (String.eqb e.1 failed) && negb (is_external e.2))
    (hash_iter (node_configs t)).

Definition pick_live_candidate (t : ClusterTopology) (failed : string)
    : eff (option (string * Z)) :=
  positions ← live_positions t failed;
  Ret (if bool_decide (replication_mode t = SyncStrict) &&
          (length positions <? length (strict_standbys t failed))%nat
       then None else rank_positions t positions).

End candidate.

(** ** Promotion: promote.rs *)

Definition promote_node (id addr : string) : eff (option ()) :=
  on_agent id addr
    (r ← ask (Promote id);
     Ret (match r : option bool with Some true => Some () | _ => None end)).

(** [attempts] is what is left of [1..=max_attempts]. *)
Fixpoint verify_promotion (id addr : string) (attempts : nat) (interval : Z)
    : eff (option ()) :=
  match attempts with
  | O => Ret None
  | S rest =>
      let retry := _ ← (if (0 <? rest)%nat then ask (Sleep interval) else Ret ());
                   verify_promotion id addr rest interval in
      on_agent id addr
        (r ← ask (GetStatus id);
         match r : option StatusResponse with
         | Some s => if negb (is_in_recovery s) && postgres_running s
                     then Ret (Some ()) else retry
         | None => _ ← ask (Evict id); retry
         end)
  end.

(** ** Events: events.rs *)

Definition build_failover_event (old_primary new_primary : string) (started : Z)
    (reason : string) (ran_degraded : bool) : eff FailoverEvent :=
  now_unix ← ask UnixSecs;
  now ← ask InstantNow;
  Ret (mkFailoverEvent old_primary new_primary now_unix
         (as_millis (duration_since now started)) reason ran_degraded).

(** ** Slots: slots.rs *)

Definition ensure_slot (url slot : string) : eff (option ()) :=
  ok ← ask (SqlConnect url);
  if ok : bool
  then made ← ask (SqlCreateSlot url slot); Ret (if made : bool then Some () else None)
  else Ret None.

Definition drop_slot (url slot : string) : eff (option ()) :=
  ok ← ask (SqlConnect url);
  if ok : bool
  then gone ← ask (SqlDropSlot url slot); Ret (if gone : bool then Some () else None)
  else Ret None.

Definition ensure_slots_for_replicas (url : string) (ids : list string) (prefix : string)
    : eff () :=
  ok ← ask (SqlConnect url);
  if ok : bool
  then for_each (λ id, _ ← ask (SqlCreateSlot url (prefix ++ id)%string); Ret ()) ids
  else Ret ().

(** The names dropped, or [None] when the query fails. *)
Definition drop_orphaned_slots (url prefix : string) (max_lag_bytes : Z)
    : eff (option (list string)) :=
  ok ← ask (SqlConnect url);
  if ok : bool
  then
    orphans ←? ask (SqlOrphans url (prefix ++ "%")%string (Z.min max_lag_bytes (2 ^ 63 - 1)));
    dropped ← mapM (λ slot : string, gone ← ask (SqlDropSlot url slot);
                                     Ret (if gone : bool then Some slot else None)) orphans;
    Ret (Some (somes dropped))
  else Ret None.

(** ** Repointing: repoint.rs *)

(** One turn of the loop: the node when it could not be repointed. *)
Definition repoint (info prefix : string) (x : string * string) : eff (option string) :=
  ok ← ask (Connect x.1 x.2);
  if ok : bool
  then
    r ← ask (Demote x.1 info (prefix ++ x.1)%string x.1);
    match r : option bool with
    | Some true => Ret None
    | Some false => Ret (Some x.1)
    | None => _ ← ask (Evict x.1); Ret (Some x.1)
    end
  else _ ← ask (Evict x.1); Ret (Some x.1).

Definition repoint_replicas (replicas : list (string * string)) (info prefix : string)
    : eff (list string) :=
  errors ← mapM (repoint info prefix) replicas;
  Ret (somes errors).

(** ** The failover: mod.rs *)

Section failover.
Context `{!HashOrder}.

(** The nodes repointed at the end: neither failed nor the candidate, and a
    replica or of unknown role. *)
Definition followers (t : ClusterTopology) (failed candidate : string) : list (string * string) :=
  (λ e, (e.1, agent_addr e.2)) <$>
  List.filter (λ e, match node_roles t !! e.1 with
                    | Some Replica | Some Unknown | None => true
                    | _ => false
                    end)
    (List.filter (λ e, negb (String.eqb e.1 failed) && negb (String.eqb e.1 candidate))
       (hash_iter (node_configs t))).

Definition repoint_followers (t : ClusterTopology) (failed candidate : string)
    (cfg : NodeConfig) (user password prefix : string) : eff () :=
  let replicas := followers t failed candidate in
  match replicas with
  | [] => Ret ()
  | _ =>
      _ ← ensure_slots_for_replicas (postgres_url user password (postgres_addr cfg))
            replicas.*1 prefix;
      _ ← repoint_replicas replicas (conninfo cfg user password) prefix;
      Ret ()
  end.

(** What follows a verified promotion. *)
Definition record_and_repoint (t : ClusterTopology) (failed candidate : string) (at_lsn : Z)
    (cfg : NodeConfig) (started : Z) (user password prefix : string) : eff () :=
  _ ← ask (ClientWrite (SetPrimary candidate at_lsn 1));
  event ← build_failover_event failed candidate started "health_check_failure" (sync_degraded t);
  _ ← ask (ClientWrite (RecordFailover (old_primary event) (new_primary event)
             (triggered_at event) (duration_ms event) (reason event) (ran_degraded event)));
  repoint_followers t failed candidate cfg user password prefix.

Definition trigger_failover (t : ClusterTopology) (failed user password prefix : string)
    : eff () :=
  started ← ask InstantNow;
  picked ← pick_live_candidate t failed;
  match picked : option (string * Z) with
  | None => Ret ()
  | Some (candidate, at_lsn) =>
      match node_configs t !! candidate with
      | None => Ret ()
      | Some cfg =>
          promoted ← promote_node candidate (agent_addr cfg);
          match promoted : option () with
          | None => Ret ()
          | Some _ =>
              verified ← verify_promotion candidate (agent_addr cfg) 3 500;
              match verified : option () with
              | None => Ret ()
              | Some _ =>
                  record_and_repoint t failed candidate at_lsn cfg started user password prefix
              end
          end
      end
  end.

End failover.

(** ** Seeding: seed.rs *)

Definition seed_plan (t : ClusterTopology) (id : string) (user password_env prefix : string)
    : eff (option SeedPlan) :=
  if String.eqb id (primary_node_id t) then Ret None else
  match node_configs t !! id with
  | None => Ret None
  | Some node =>
      match primary_postgres_addr t with
      | None => Ret None
      | Some addr =>
          match rsplit_once ":" addr with
          | None => Ret None
          | Some (host, port) =>
              match parse_u32 port with
              | None => Ret None
              | Some port =>
                  password ← ask (Credential password_env);
                  Ret (Some (mkSeedPlan id (agent_addr node) host port addr user password
                               (prefix ++ id)%string))
              end
          end
      end
  end.

Definition request (p : SeedPlan) (force : bool) : SeedRequest :=
  mkSeedRequest (primary_host p) (primary_port p) (sp_user p) (sp_password p) (slot_name p)
    (sp_node_id p) force.

Definition plan_ensure_slot (p : SeedPlan) : eff (option ()) :=
  ensure_slot (postgres_url (sp_user p) (sp_password p) (primary_addr p)) (slot_name p).

(** [if !response.success { bail!(..) }]. *)
Definition succeeded (rpc : eff (option bool)) : eff (option ()) :=
  r ← rpc; Ret (match r : option bool with Some true => Some () | _ => None end).

Definition run_seed (p : SeedPlan) (force : bool) : eff (option ()) :=
  _ ←? plan_ensure_slot p;
  on_agent (sp_node_id p) (sp_agent_addr p)
    (succeeded (ask (Seed (sp_node_id p) (request p force)))).

Definition run_from_backup (p : SeedPlan) (settings : gmap string string) (force : bool)
    : eff (option ()) :=
  _ ←? plan_ensure_slot p;
  on_agent (sp_node_id p) (sp_agent_addr p)
    (succeeded (ask (RestoreBackup (sp_node_id p)
       (mkRestoreRequest EmptyString EmptyString force (Some (request p false)) settings)))).

Definition rejoin (p : SeedPlan) : eff (option ()) :=
  _ ←? plan_ensure_slot p;
  on_agent (sp_node_id p) (sp_agent_addr p)
    (r ← ask (Rewind (sp_node_id p) (request p false));
     match r : option bool with
     | Some true => Ret (Some ())
     | Some false => run_seed p true
     | None => Ret None
     end).

(** ** What a failover may do *)

(** Calls that change nothing in the cluster. *)
Definition probe (o : obs answer) : Prop :=
  match obs_ev o with
  | InstantNow | Connect _ _ | GetStatus _ | TimerFired | Evict _ | JoinOrder _ => True
  | _ => False
  end.

(** Calls that check on [c] between its promotion and the Raft write. *)
Definition checking (c : string) (o : obs answer) : Prop :=
  match obs_ev o with
  | Connect n _ | GetStatus n | Evict n => n = c
  | Sleep _ => True
  | _ => False
  end.

(** The calls of a promotion. *)
Definition attempting (c : string) (o : obs answer) : Prop :=
  obs_ev o = Promote c ∨ checking c o.

(** What follows the Raft write: the history entry, slots on the new primary,
    and the other nodes sent to it. *)
Definition aftermath (t : ClusterTopology) (failed c : string) (cfg : NodeConfig)
    (user password prefix : string) (o : obs answer) : Prop :=
  match obs_ev o with
  | UnixSecs | InstantNow => True
  | ClientWrite (RecordFailover old new _ _ _ degraded) =>
      old = failed ∧ new = c ∧ degraded = sync_degraded t
  | SqlConnect url | SqlCreateSlot url _ => url = postgres_url user password (postgres_addr cfg)
  | Connect n _ | Evict n => n ≠ c ∧ n ≠ failed
  | Demote n info slot app =>
      n ≠ c ∧ n ≠ failed ∧ info = conninfo cfg user password ∧
      slot = (prefix ++ n)%string ∧ app = n
  | _ => False
  end.

Definition eligible (t : ClusterTopology) (failed c : string) (cfg : NodeConfig) : Prop :=
  c ≠ failed ∧ node_roles t !! c = Some Replica ∧ node_configs t !! c = Some cfg ∧
  is_external cfg = false.

(** [c] said in [tr] that it is a running standby at [lsn]. *)
Definition reported (tr : trace) (c : string) (lsn : Z) : Prop :=
  ∃ s, Obs (GetStatus c) (Some s) ∈ tr ∧
       postgres_running s = true ∧ is_in_recovery s = true ∧ position s = lsn.

(** The runs a failover promises. *)
Inductive failover_run (t : ClusterTopology) (failed user password prefix : string)
    : trace → Prop :=
| no_candidate probes :
    Forall probe probes →
    failover_run t failed user password prefix probes
| promotion_failed probes tries c cfg lsn :
    Forall probe probes → eligible t failed c cfg → reported probes c lsn →
    Forall (attempting c) tries →
    failover_run t failed user password prefix (probes ++ tries)
| failed_over probes tries rest c cfg lsn addr s w :
    Forall probe probes → eligible t failed c cfg → reported probes c lsn →
    Forall (checking c) tries → is_in_recovery s = false → postgres_running s = true →
    Forall (aftermath t failed c cfg user password prefix) rest →
    failover_run t failed user password prefix
      (probes ++ [Obs (Connect c addr) true; Obs (Promote c) (Some true)] ++ tries ++
       [Obs (GetStatus c) (Some s); Obs (ClientWrite (SetPrimary c lsn 1)) w] ++ rest).

(** How checking a promotion ends. *)
Definition verified (c : string) (r : option ()) (tr : trace) : Prop :=
  match r with
  | Some _ => ∃ tries s, tr = tries ++ [Obs (GetStatus c) (Some s)] ∧
      Forall (checking c) tries ∧ is_in_recovery s = false ∧ postgres_running s = true
  | None => Forall (checking c) tr
  end.

(** ** Lemmas on candidate choice *)

Lemma position_le_total t a b : position_le t a b = false → position_le t b a = true.
Proof.
  unfold position_le. rewrite orb_false_iff, andb_false_iff, orb_true_iff, andb_true_iff.
  rewrite !Z.ltb_ge, !Z.ltb_lt, !Z.eqb_neq, !Z.eqb_eq, !Z.leb_gt, !Z.leb_le. lia.
Qed.

Lemma position_le_trans t a b c :
  position_le t a b = true → position_le t b c = true → position_le t a c = true.
Proof.
  unfold position_le. rewrite !orb_true_iff, !andb_true_iff.
  rewrite !Z.ltb_lt, !Z.eqb_eq, !Z.leb_le. lia.
Qed.

Lemma position_le_lsn t a b : position_le t a b = true → a.2 ≤ b.2.
Proof. unfold position_le. rewrite orb_true_iff, andb_true_iff, Z.ltb_lt, Z.eqb_eq. lia. Qed.

Lemma asked_spec t failed e x :
  asked t failed e = Some x →
  x.1 = e.1 ∧ e.1 ≠ failed ∧ e.2 = Replica ∧
  ∃ cfg, node_configs t !! e.1 = Some cfg ∧ is_external cfg = false ∧ x.2 = agent_addr cfg.
Proof.
  unfold asked. destruct (String.eqb_spec e.1 failed); [done|].
  case_bool_decide; [|done]. cbn. destruct (node_configs t !! e.1) as [cfg|]; [|done].
  destruct (is_external cfg) eqn:?; [done|]. intros [= <-]. naive_solver.
Qed.

(** One check: it only probes, and a position is one the node reported. *)
Lemma live_check_runs x :
  all_runs (live_check x) (λ r tr, Forall probe tr ∧
    ∀ p, r = Some p → p.1 = x.1 ∧ reported tr x.1 p.2).
Proof.
  destruct x as [id addr]. unfold live_check, on_agent, expired, ask, call. cbn.
  intros ok late. destruct late; cbn.
  { intros ?. split; [by repeat constructor|done]. }
  destruct ok; cbn.
  2: { intros ?. split; [by repeat constructor|done]. }
  intros [s|] [|]; cbn; try (intros ?; split; [by repeat constructor|done]).
  split; [by repeat constructor|]. intros p. split_tests; [|done]. intros [= <-]. cbn.
  split; [done|]. exists s. bool_prop. set_solver.
Qed.

(** The positions of a run of checks: in the order of the nodes, each one
    reported in the trace. *)
Lemma checks_spec (xs : list (string * string)) (rs : list (option (string * Z))) trs :
  Forall3 (λ x r tr, Forall probe tr ∧ ∀ p, r = Some p → p.1 = x.1 ∧ reported tr x.1 p.2)
    xs rs trs →
  Forall probe (concat trs) ∧ (somes rs).*1 `sublist_of` xs.*1 ∧
  ∀ p : string * Z, p ∈ somes rs → reported (concat trs) p.1 p.2.
Proof.
  induction 1 as [|x r tr xs rs trs (Hp & Hr) H3 (IHp & IHs & IHr)]; cbn.
  { split_and!; [constructor|constructor|]. intros p Hin. by apply not_elem_of_nil in Hin. }
  split; [by apply Forall_app|].
  assert (Hlift : ∀ p : string * Z, p ∈ somes rs → reported (tr ++ concat trs) p.1 p.2).
  { intros p Hin. destruct (IHr p Hin) as (s & ? & ?). exists s. set_solver. }
  destruct r as [q|]; [|split; [by constructor|exact Hlift]].
  destruct (Hr q eq_refl) as (Hq & s & Hs & Hrest). split.
  - cbn. rewrite Hq. by constructor.
  - intros p [->|Hin]%elem_of_cons; [|by apply Hlift]. rewrite Hq. exists s. set_solver.
Qed.

Section candidate_lemmas.
Context `{!HashOrder}.

Lemma asked_ids t failed (l : list (string * NodeRole)) :
  (omap (asked t failed) l).*1 `sublist_of` l.*1.
Proof.
  induction l as [|e l IH]; cbn; [constructor|].
  destruct (asked t failed e) as [x|] eqn:Ha; cbn; [|by constructor].
  apply asked_spec in Ha as [-> _]. by constructor.
Qed.

Lemma asked_eligible t failed id :
  id ∈ (omap (asked t failed) (hash_iter (node_roles t))).*1 → ∃ cfg, eligible t failed id cfg.
Proof.
  intros (x & -> & (e & He & Ha)%list_elem_of_omap)%list_elem_of_fmap.
  destruct e as [id role]. apply elem_of_hash_iter in He.
  apply asked_spec in Ha as (-> & Hf & Hrole & cfg & Hc & Hx & _). cbn in *. subst role.
  by exists cfg.
Qed.

Lemma live_positions_runs t failed :
  all_runs (live_positions t failed) (λ ps tr,
    Forall probe tr ∧ NoDup ps.*1 ∧
    ∀ p, p ∈ ps → (∃ cfg, eligible t failed p.1 cfg) ∧ reported tr p.1 p.2).
Proof.
  apply all_runs_bind. eapply all_runs_mono.
  { apply all_runs_mapM. intros x _. apply live_check_runs. }
  cbn beta. intros rs tr (trs & -> & H3). apply checks_spec in H3 as (Hp & Hs & Hr).
  apply all_runs_bind. eapply all_runs_mono; [apply all_runs_conj; [apply join_all_runs|]|].
  { apply only_runs with (P := probe). intros r. done. }
  cbn beta. intros l tr' [[Hl _] Hp']. cbn [all_runs]. rewrite app_nil_r.
  assert (Hsub : somes l ⊆+ somes rs) by (by apply somes_submseteq).
  split; [by apply Forall_app|]. split.
  - eapply submseteq_NoDup; [by apply fmap_submseteq|].
    eapply sublist_NoDup; [|exact Hs]. eapply sublist_NoDup; [|apply asked_ids].
    apply hash_iter_NoDup.
  - intros p Hin. assert (Hin' : p ∈ somes rs) by (by eapply elem_of_submseteq).
    split.
    + apply asked_eligible. eapply elem_of_sublist; [|exact Hs]. by apply list_elem_of_fmap_2.
    + destruct (Hr p Hin') as (s & ? & ?). exists s. set_solver.
Qed.
End candidate_lemmas.

Section failover_theorems.
Context `{!HashOrder}.

Lemma rank_positions_spec t ps c lsn :
  rank_positions t ps = Some (c, lsn) → (c, lsn) ∈ ps ∧ ∀ p, p ∈ ps → p.2 ≤ lsn.
Proof.
  intros Hr. apply max_by_key_spec in Hr as [Hin Hmax];
    [|apply position_le_total|apply position_le_trans].
  split; [done|]. intros p Hp. by apply (position_le_lsn t p (c, lsn)), Hmax.
Qed.

Lemma strict_standbys_ids t failed :
  (strict_standbys t failed).*1 `sublist_of` (hash_iter (node_configs t)).*1.
Proof. apply fmap_sublist, lfilter_sublist. Qed.

Lemma elem_of_strict_standbys t failed id :
  id ∈ (strict_standbys t failed).*1 ↔
  ∃ cfg, node_configs t !! id = Some cfg ∧ id ≠ failed ∧ is_external cfg = false.
Proof.
  unfold strict_standbys. rewrite list_elem_of_fmap. split.
  - intros ([i cfg] & -> & [He%elem_of_hash_iter Hf]%elem_of_lfilter). bool_prop. cbn in *.
    bool_prop. eauto.
  - intros (cfg & Hc & Hn & Hx). exists (id, cfg). split; [done|].
    rewrite elem_of_lfilter, elem_of_hash_iter. cbn. rewrite Hx.
    by destruct (String.eqb_spec id failed).
Qed.

(** When as many nodes answer as are waited for, each of them answered. *)
Lemma strict_all_answer t failed (ps : list (string * Z)) id cfg :
  NoDup ps.*1 → (∀ p, p ∈ ps → ∃ cfg, eligible t failed p.1 cfg) →
  (length (strict_standbys t failed) ≤ length ps)%nat →
  node_configs t !! id = Some cfg → id ≠ failed → is_external cfg = false →
  id ∈ ps.*1.
Proof.
  intros Hnd Hel Hlen Hc Hn Hx.
  assert (Hsub : ps.*1 ⊆+ (strict_standbys t failed).*1).
  { apply NoDup_submseteq; [done|]. intros i (p & -> & Hp)%list_elem_of_fmap.
    destruct (Hel p Hp) as (c & ? & ? & ? & ?). apply elem_of_strict_standbys. eauto. }
  apply submseteq_length_Permutation in Hsub; [|by rewrite !length_fmap].
  rewrite Hsub. apply elem_of_strict_standbys. eauto.
Qed.

Lemma pick_live_candidate_runs t failed :
  all_runs (pick_live_candidate t failed) (λ r tr, Forall probe tr ∧
    ∀ c lsn, r = Some (c, lsn) →
      (∃ cfg, eligible t failed c cfg) ∧ reported tr c lsn ∧
      (replication_mode t = SyncStrict →
       ∀ id cfg, node_configs t !! id = Some cfg → id ≠ failed → is_external cfg = false →
         ∃ p, reported tr id p ∧ p ≤ lsn)).
Proof.
  apply all_runs_bind. eapply all_runs_mono; [apply live_positions_runs|].
  cbn beta. intros ps tr (Hp & Hnd & Hps). cbn [all_runs]. rewrite app_nil_r.
  split; [done|]. intros c lsn Hr.
  destruct (bool_decide _ && _) eqn:Hstrict; [done|].
  apply rank_positions_spec in Hr as [Hin Hmax]. destruct (Hps _ Hin) as [Hel Hrep].
  split_and!; [done|done|]. intros Hmode id cfg Hc Hn Hx.
  rewrite bool_decide_true in Hstrict by done. cbn in Hstrict. apply Nat.ltb_ge in Hstrict.
  assert (Hid : id ∈ ps.*1).
  { eapply strict_all_answer; [done| |done..]. intros q Hq. by apply Hps. }
  apply list_elem_of_fmap in Hid as ([i p] & Hi & Hip). cbn in Hi. subst i. exists p. split; [apply (Hps _ Hip)|apply (Hmax _ Hip)].
Qed.

(** C22 In every failover, the candidate is a standby that reported itself running
    and in recovery, at the position returned; and in [sync_strict] mode every
    node of the cluster but the failed one reported a position, none of them
    above the candidate's. So the position of the standby that acknowledged the
    last commit is reached by the candidate. *)
Theorem strict_candidate_most_current t failed :
  all_runs (pick_live_candidate t failed) (λ r tr,
    ∀ c lsn, r = Some (c, lsn) →
      (∃ cfg, eligible t failed c cfg) ∧ reported tr c lsn ∧
      (replication_mode t = SyncStrict →
       ∀ id cfg, node_configs t !! id = Some cfg → id ≠ failed → is_external cfg = false →
         ∃ p, reported tr id p ∧ p ≤ lsn)).
Proof. eapply all_runs_mono; [apply pick_live_candidate_runs|]. naive_solver. Qed.

Lemma promote_node_runs id addr :
  all_runs (promote_node id addr) (λ r tr,
    match r with
    | Some _ => tr = [Obs (Connect id addr) true; Obs (Promote id) (Some true)]
    | None => Forall (attempting id) tr
    end).
Proof.
  intros []; cbn; [|by repeat constructor; right].
  intros [[]|]; cbn; [done|..]; (constructor; [by right|]); by repeat constructor.
Qed.

Lemma verified_cons id o r tr : checking id o → verified id r tr → verified id r (o :: tr).
Proof.
  intros Ho. destruct r as [[]|]; cbn; [|by constructor].
  intros (tries & s & -> & ? & ?). exists (o :: tries), s. split; [done|].
  split; [by constructor|done].
Qed.

Lemma verify_promotion_runs id addr n interval :
  all_runs (verify_promotion id addr n interval) (verified id).
Proof.
  induction n as [|n IH]; [constructor|]. cbn [verify_promotion].
  set (retry := (if (0 <? n)%nat then _ else _) ≫= _).
  assert (Hretry : all_runs retry (verified id)).
  { apply all_runs_bind. destruct (0 <? n)%nat; cbn [all_runs ask call]; [intros u; cbn [app]|exact IH].
    eapply all_runs_mono; [exact IH|]. intros r tr H'. by apply verified_cons. }
  clearbody retry. intros []; cbn; [|by repeat constructor].
  intros [s|]; cbn.
  - destruct (negb _ && _) eqn:Hs; cbn.
    + bool_prop. by exists [Obs (Connect id addr) true], s; repeat constructor.
    + eapply all_runs_mono; [exact Hretry|]. intros r tr H'. by repeat (apply verified_cons; [done|]).
  - intros u. eapply all_runs_mono; [exact Hretry|]. intros r tr H'. by repeat (apply verified_cons; [done|]).
Qed.

Lemma elem_of_followers t failed c x :
  x ∈ followers t failed c → x.1 ≠ c ∧ x.1 ≠ failed.
Proof.
  intros (e & -> & [[_ He]%elem_of_lfilter _]%elem_of_lfilter)%list_elem_of_fmap.
  cbn. bool_prop. done.
Qed.

Lemma repoint_only P info prefix x :
  (∀ r, P (Obs (Connect x.1 x.2) r)) → (∀ r, P (Obs (Evict x.1) r)) →
  (∀ r, P (Obs (Demote x.1 info (prefix ++ x.1)%string x.1) r)) →
  only P (repoint info prefix x).
Proof. intros Hc He Hd []; cbn; split; auto. intros [[]|]; cbn; auto. Qed.

Lemma ensure_slots_only P url ids prefix :
  (∀ r, P (Obs (SqlConnect url) r)) →
  (∀ id r, id ∈ ids → P (Obs (SqlCreateSlot url (prefix ++ id)%string) r)) →
  only P (ensure_slots_for_replicas url ids prefix).
Proof.
  intros Hc Hs []; cbn; split; auto. apply only_for_each. intros id Hid r. cbn. auto.
Qed.

Lemma record_and_repoint_runs t failed c lsn cfg started user password prefix :
  all_runs (record_and_repoint t failed c lsn cfg started user password prefix) (λ _ tr,
    ∃ w rest, tr = Obs (ClientWrite (SetPrimary c lsn 1)) w :: rest ∧
              Forall (aftermath t failed c cfg user password prefix) rest).
Proof.
  intros w. eapply all_runs_mono;
    [apply (only_runs (aftermath t failed c cfg user password prefix))
    |intros ? rest Hrest; by exists w, rest].
  intros unix; split; [done|]. intros now; split; [done|]. intros w'; split; [done|].
  unfold repoint_followers. pose proof (elem_of_followers t failed c) as Hf.
  destruct (followers t failed c) as [|f fs]; [done|].
  apply only_bind; [by apply ensure_slots_only|intros _].
  apply only_bind; [|done]. apply only_bind; [|done].
  apply only_mapM. intros x Hx. destruct (Hf x Hx). by apply repoint_only.
Qed.


(** A rejoining node is told to discard its data only after its rewind, on a
    slot that exists, was answered with failure: not when the rewind worked,
    and not when the call itself failed. *)
Theorem rejoin_discards_after_failed_rewind p :
  all_runs (rejoin p) (λ _ tr,
    ∀ before req r after, tr = before ++ Obs (Seed (sp_node_id p) req) r :: after →
      Obs (Rewind (sp_node_id p) (request p false)) (Some false) ∈ before ∧
      Obs (SqlCreateSlot (postgres_url (sp_user p) (sp_password p) (primary_addr p))
             (slot_name p)) true ∈ before).
Proof.
  destruct p as [id addr host port paddr user pw slot].
  unfold rejoin, run_seed, plan_ensure_slot, ensure_slot, on_agent, succeeded, try_bind.
  intros []; cbn [all_runs]; [intros []|].
  1: intros []; [intros [[]|]|].
  2: intros []; [intros []|].
  2: intros []; [intros r0|].
  all: cbn [all_runs]; intros before req r after E.
  all: repeat (destruct before as [|? before]; [simplify_eq/=|]; simplify_list_eq).
  all: try (split; set_solver).
Qed.

End failover_theorems.

(** ** An execution *)

Definition test_status (recovery : bool) (received : Z) : StatusResponse :=
  mkStatusResponse recovery received 0 0 1 "16" 0 true [] EmptyString ∅ [] true
    EmptyString EmptyString.

(** Two standbys answer, [c] is ahead, and the node promoted leaves recovery;
    the state counts promotions. *)
Definition test_env (e : event) (promoted : bool) : answer e * bool :=
  match e with
  | GetStatus n =>
      (Some (test_status (negb promoted) (if String.eqb n "c" then 90 else 80)), promoted)
  | Promote _ => (Some true, true)
  | ClientWrite _ | Connect _ _ | Heartbeat _ | SqlConnect _ | SqlCreateSlot _ _
  | SqlDropSlot _ _ | TryAcquireOp | LeaseHeld => (true, promoted)
  | TimerFired | LoadOp => (false, promoted)
  | Demote _ _ _ _ | StopPostgres _ _ | Seed _ _ | Rewind _ _ | RestoreBackup _ _
  | SetParameters _ _ | ConfigureBackups _ _ _ | SetProxyAuth _ _ _ _ | Detach _ =>
      (Some true, promoted)
  | SqlOrphans _ _ _ => (None, promoted)
  | CurrentTopology => (default_topology, promoted)
  | CurrentLeader => (Some 1, promoted)
  | MyId => (1, promoted)
  | InstantNow | UnixSecs => (5, promoted)
  | Credential _ | EnvVar _ => ("secret", promoted)
  | JoinOrder n => (exist (λ l, l ⊆+ seq 0 n) (seq 0 n) (@reflexivity _ submseteq _ _), promoted)
  | Evict _ | Sleep _ | Spawn _ | BeginDrain | EndDrain | ReleaseOp => ((), promoted)
  end.

Definition test_node (id : string) : NodeConfig :=
  mkNodeConfig id (id ++ ":9000") (id ++ ":5432") 1 ∅.

Definition test_cluster : ClusterTopology :=
  with_replication_mode SyncStrict
    (with_node_roles {["a" := Offline; "b" := Replica; "c" := Replica]}
       (with_node_configs
          {["a" := test_node "a"; "b" := test_node "b"; "c" := test_node "c"]}
          (with_primary_node_id "a" default_topology))).

Definition writes (tr : trace) : list TopologyCommand :=
  omap (λ o, match obs_ev o with ClientWrite cmd => Some cmd | _ => None end) tr.

Definition demoted (tr : trace) : list (string * string) :=
  omap (λ o, match obs_ev o with Demote n info _ _ => Some (n, info) | _ => None end) tr.

Lemma failover_example :
  let tr := (run test_env (@trigger_failover map_order test_cluster "a" "u" "p" "pg_") false).1.2 in
  writes tr = [SetPrimary "c" 90 1; RecordFailover "a" "c" 5 0 "health_check_failure" false] ∧
  demoted tr = [("b", "host=c port=5432 user=u password=p")].
Proof. vm_compute. split; reflexivity. Qed.
