(* ===== verification/Monitor.v ===== *)
(** The node monitor: src/pgcluster/src/node_monitor/.

    The leader's loop: health checks of every agent, the failure tracker, the
    [sync] fallback and its timer, re-seed flags, stale primaries, and the
    decision to fail over. One turn of the loop is [monitor_tick]; the state it
    keeps between turns is [MonState].

    The theorems: a count of failures is the number of checks failed since the
    last one passed; the fallback to async fires only after the timeout without
    a standby; the fallback is recorded in Raft before commits stop waiting,
    and cleared only once they wait again; and a turn promotes a node only as
    the leader holding the quorum lease, with the shared operation flag, after
    the primary failed enough checks and was marked offline in Raft. *)
From S2P Require Import Prelude Topology Lease Config Effects Failover.

Local Open Scope Z_scope.

(** ** Failure tracking: failure_state.rs *)

Record FailureRecord := mkFailureRecord { count : Z; first_seen : Z; last_seen : Z }.

Record FailureTracker := mkTracker { failures : gmap string FailureRecord }.

Definition record_failure (id : string) (now : Z) (f : FailureTracker) : FailureTracker :=
  let rec := default (mkFailureRecord 0 now now) (failures f !! id) in
  mkTracker (<[id := mkFailureRecord (wrap 32 (count rec + 1)) (first_seen rec) now]> (failures f)).

Definition record_success (id : string) (f : FailureTracker) : FailureTracker :=
  mkTracker (delete id (failures f)).

Definition failure_count (id : string) (f : FailureTracker) : Z :=
  default 0 (count <$> failures f !! id).

Definition is_failed (id : string) (threshold : Z) (f : FailureTracker) : bool :=
  threshold <=? failure_count id f.

(** ** The sync fallback: replication.rs *)

Inductive Fallback := Stay | Degrade | Restore.

Global Instance Fallback_eq_dec : EqDecision Fallback.
Proof. solve_decision. Defined.

Record DegradeTimer := mkTimer { no_standby_since : option Z }.

(** [DegradeTimer::step]; times are nanoseconds. *)
Definition timer_step (t : ClusterTopology) (standby_streaming : bool) (timeout now : Z)
    (timer : DegradeTimer) : Fallback * DegradeTimer :=
  if negb (bool_decide (replication_mode t = Sync)) || standby_streaming then
    (if bool_decide (replication_mode t = Sync) && sync_degraded t && standby_streaming
     then Restore else Stay, mkTimer None)
  else if sync_degraded t then (Stay, timer)
  else
    let since := default now (no_standby_since timer) in
    if timeout <=? duration_since now since then (Degrade, mkTimer None)
    else (Stay, mkTimer (Some since)).

Record StalePrimaries := mkStale {
  sightings : gmap string Z;
  last_attempt : gmap string Z
}.

Definition sighted (id : string) (needed cooldown now : Z) (s : StalePrimaries)
    : bool * StalePrimaries :=
  let seen := wrap 32 (get_or 0 (sightings s) id + 1) in
  let s := mkStale (<[id := seen]> (sightings s)) (last_attempt s) in
  if seen <? needed then (false, s)
  else
    let cooled := match last_attempt s !! id with
                  | None => true
                  | Some last => cooldown <=? duration_since now last
                  end in
    (cooled, if cooled then mkStale (sightings s) (<[id := now]> (last_attempt s)) else s).

Definition cleared (id : string) (s : StalePrimaries) : StalePrimaries :=
  mkStale (delete id (sightings s)) (last_attempt s).

Definition lost_nodes (slots : list string) (prefix : string) : list string :=
  omap (strip_prefix prefix) slots.

(** ** Health checks: health_check.rs *)

Record HealthCheckResult := mkResult {
  r_node_id : string;
  reachable : bool;
  in_recovery : bool;
  flush_lsn : Z;
  replay_lsn : Z;
  r_timeline : Z;
  pg_running : bool;
  r_replication_conninfo : string;
  streaming_standbys : list string;
  r_parameters : gmap string string;
  r_lost_slots : list string;
  r_has_data : bool;
  r_backup_config_version : string;
  r_proxy_auth_version : string
}.

Definition unreachable_result (id : string) : HealthCheckResult :=
  mkResult id false false 0 0 0 false EmptyString [] ∅ [] true EmptyString EmptyString.

(** The result a status is normalised to. *)
Definition reached (id : string) (s : StatusResponse) : HealthCheckResult :=
  mkResult id true (is_in_recovery s) (if is_in_recovery s then received_lsn s else sent_lsn s)
    (replayed_lsn s) (timeline s) (postgres_running s) (replication_conninfo s)
    (application_name <$> List.filter (λ r, String.eqb (state r) "streaming") (replicas s))
    (parameters s) (lost_slots s) (has_data s) (backup_config_version s)
    (proxy_auth_version s).

Definition query_node (id addr : string) : eff HealthCheckResult :=
  ok ← ask (Connect id addr);
  if ok : bool
  then
    r ← ask (GetStatus id);
    match r : option StatusResponse with
    | Some s => Ret (reached id s)
    | None => _ ← ask (Evict id); Ret (unreachable_result id)
    end
  else _ ← ask (Evict id); Ret (unreachable_result id).

Definition check_node (id addr : string) : eff HealthCheckResult :=
  r ← timeout expired (query_node id addr);
  match r : option HealthCheckResult with
  | Some result => Ret result
  | None => _ ← ask (Evict id); Ret (unreachable_result id)
  end.

Definition send_heartbeat (id addr : string) : eff () :=
  r ← timeout expired
        (on_agent id addr (ok ← ask (Heartbeat id); Ret (if ok : bool then Some () else None)));
  match r : option (option ()) with
  | Some (Some _) => Ret ()
  | _ => ask (Evict id)
  end.

(** ** The monitor: mod.rs *)

Record AuthRole := mkAuthRole { role_user : string; role_password_env : string }.

Record NodeMonitor := mkMonitor {
  mon_config : FailoverConfig;
  mon_replication : ReplicationConfig;
  auth_role : AuthRole;
  backup_settings : option (gmap string string * string);
  slot_audit_ticks : Z
}.

(** What [run] keeps between turns. *)
Record MonState := mkMonState {
  tracker : FailureTracker;
  degrade_timer : DegradeTimer;
  stale_primaries : StalePrimaries;
  unseeded : StalePrimaries
}.

Definition with_tracker (f : FailureTracker) (st : MonState) : MonState :=
  mkMonState f (degrade_timer st) (stale_primaries st) (unseeded st).
Definition with_timer (d : DegradeTimer) (st : MonState) : MonState :=
  mkMonState (tracker st) d (stale_primaries st) (unseeded st).
Definition with_stale (s : StalePrimaries) (st : MonState) : MonState :=
  mkMonState (tracker st) (degrade_timer st) s (unseeded st).
Definition with_unseeded (s : StalePrimaries) (st : MonState) : MonState :=
  mkMonState (tracker st) (degrade_timer st) (stale_primaries st) s.

Definition initial_state : MonState := mkMonState (mkTracker ∅) (mkTimer None) (mkStale ∅ ∅) (mkStale ∅ ∅).

(** Durations in nanoseconds. *)
Definition from_secs (s : Z) : Z := s * 1000000000.
Definition REJOIN_COOLDOWN : Z := from_secs 60.
Definition ORPHAN_LAG_THRESHOLD : Z := 1024 * 1024 * 1024.

Definition SYNC_NAMES : string := "synchronous_standby_names".
Definition WAL_KEEP : string := "max_slot_wal_keep_size".

Section monitor.
Context `{!HashOrder}.

(** [backup::walg::version], a digest by the standard library's
    [DefaultHasher], whose algorithm is not specified. *)
Variable settings_version : gmap string string → string.

Definition monitor_new (config : FailoverConfig) (replication : ReplicationConfig)
    (role : AuthRole) (settings : option (gmap string string)) : NodeMonitor :=
  mkMonitor config replication role ((λ s, (s, settings_version s)) <$> settings) 120.

Section with_monitor.
Variable m : NodeMonitor.

Definition threshold : Z := health_check_failures_before_failover (mon_config m).
Definition repl_user : string := replication_user (mon_replication m).
Definition prefix : string := slot_prefix (mon_replication m).
Definition repl_password : eff string :=
  ask (Credential (replication_password_env (mon_replication m))).

(** *** Reconciling the primary's settings *)

Definition ensure_proxy_auth (t : ClusterTopology) (primary : HealthCheckResult) : eff () :=
  password ← ask (Credential (role_password_env (auth_role m)));
  let user := role_user (auth_role m) in
  let version := settings_version {[ user := password ]} in
  if String.eqb (r_proxy_auth_version primary) version then Ret () else
  match node_configs t !! primary_node_id t with
  | None => Ret ()
  | Some cfg =>
      _ ← on_agent (primary_node_id t) (agent_addr cfg)
            (ask (SetProxyAuth (primary_node_id t) user password version));
      Ret ()
  end.

Definition apply_parameters (t : ClusterTopology) (params : gmap string string) : eff bool :=
  let id := primary_node_id t in
  match node_configs t !! id with
  | None => Ret false
  | Some cfg =>
      r ← on_agent id (agent_addr cfg) (ask (SetParameters id params));
      Ret (bool_decide (r = Some true))
  end.

Definition write_needs_reseed (id : string) (flag : bool) : eff () :=
  _ ← ask (ClientWrite (SetNeedsReseed id flag)); Ret ().

Definition track_reseeds (t : ClusterTopology) (primary : HealthCheckResult) : eff () :=
  let lost := lost_nodes (r_lost_slots primary) prefix in
  _ ← for_each (λ id, if bool_decide (is_Some (node_configs t !! id)) &&
                         negb (bool_decide (id ∈ needs_reseed t))
                      then write_needs_reseed id true else Ret ()) lost;
  for_each (λ id, if negb (bool_decide (id ∈ lost)) &&
                     bool_decide (id ∈ streaming_standbys primary)
                  then write_needs_reseed id false else Ret ())
    (btree_iter (needs_reseed t)).

(** The settings the primary does not have yet. *)
Definition desired (primary : HealthCheckResult) (names : string) : gmap string string :=
  filter (λ kv, r_parameters primary !! kv.1 ≠ Some kv.2)
    {[ SYNC_NAMES := names;
       WAL_KEEP := format_dec (max_slot_wal_keep_size_mb (mon_replication m)) ]}.

(** The rest of [reconcile_replication], once the names are decided. *)
Definition apply_names (t : ClusterTopology) (primary : HealthCheckResult)
    (fallback : Fallback) (names : string) : eff () :=
  let params := desired primary names in
  applied ← (if bool_decide (params = ∅) then Ret true else apply_parameters t params);
  if applied : bool
  then
    _ ← (if bool_decide (fallback = Restore)
         then ask (ClientWrite (SetSyncDegraded false)) else Ret true);
    track_reseeds t primary
  else Ret ().

(** The [match fallback] of [reconcile_replication], and what follows it. *)
Definition act_on_fallback (t : ClusterTopology) (primary : HealthCheckResult)
    (fallback : Fallback) : eff () :=
  match fallback with
  | Stay => apply_names t primary Stay (synchronous_standby_names t)
  | Degrade =>
      ok ← ask (ClientWrite (SetSyncDegraded true));
      if ok : bool then apply_names t primary Degrade EmptyString else Ret ()
  | Restore => apply_names t primary Restore (standby_names t)
  end.

Definition standby_streaming (t : ClusterTopology) (primary : HealthCheckResult) : bool :=
  existsb (λ name, bool_decide (is_Some (node_configs t !! name))) (streaming_standbys primary).

Definition reconcile_replication (t : ClusterTopology) (primary : HealthCheckResult)
    (timer : DegradeTimer) : eff DegradeTimer :=
  _ ← ensure_proxy_auth t primary;
  now ← ask InstantNow;
  let '(fallback, timer) :=
    timer_step t (standby_streaming t primary)
      (from_secs (sync_degrade_timeout_seconds (mon_replication m))) now timer in
  _ ← act_on_fallback t primary fallback;
  Ret timer.

(** *** Nodes that need attention *)

Definition is_stale_primary (id : string) (result : HealthCheckResult) : eff bool :=
  t ← ask CurrentTopology;
  let primary := primary_node_id t in
  if negb (in_recovery result) && negb (is_empty primary) && negb (String.eqb primary id)
  then busy ← ask LoadOp; Ret (negb busy)
  else Ret false.

Definition push_backup_settings (id addr : string) (result : HealthCheckResult) : eff () :=
  match backup_settings m with
  | None => Ret ()
  | Some (settings, version) =>
      if String.eqb (r_backup_config_version result) version then Ret () else
      _ ← on_agent id addr (ask (ConfigureBackups id settings version)); Ret ()
  end.

Definition plan_for (id : string) : eff (option SeedPlan) :=
  t ← ask CurrentTopology;
  seed_plan t id repl_user (replication_password_env (mon_replication m)) prefix.

Definition spawn_seed (id : string) : eff () :=
  plan ← plan_for id;
  match plan : option SeedPlan with
  | Some p => ask (Spawn (SeedTask p))
  | None => Ret ()
  end.

Definition spawn_rejoin (id : string) : eff () :=
  plan ← plan_for id;
  match plan : option SeedPlan with
  | Some p => ask (Spawn (RejoinTask p))
  | None => Ret ()
  end.

(** What a spawned task runs. *)
Definition run_task (k : task) : eff (option ()) :=
  match k with
  | SeedTask p => run_seed p false
  | RejoinTask p => rejoin p
  end.

Definition audit_slots (t : ClusterTopology) : eff () :=
  match node_configs t !! primary_node_id t with
  | None => Ret ()
  | Some cfg =>
      password ← repl_password;
      _ ← drop_orphaned_slots (postgres_url repl_user password (postgres_addr cfg)) prefix
            ORPHAN_LAG_THRESHOLD;
      Ret ()
  end.

(** *** One health-check result *)

(** The primary came back before a failover completed. *)
Definition primary_recovered (t : ClusterTopology) (result : HealthCheckResult) : eff () :=
  let id := r_node_id result in
  if String.eqb id (primary_node_id t) && bool_decide (node_roles t !! id = Some Offline) &&
     negb (in_recovery result)
  then _ ← ask (ClientWrite (SetPrimary id (flush_lsn result) (r_timeline result))); Ret ()
  else Ret ().

(** A recovered replica that follows another primary is sent to this one. *)
Definition repoint_stale (t : ClusterTopology) (cfg : NodeConfig) (result : HealthCheckResult)
    : eff () :=
  let id := r_node_id result in
  if in_recovery result && negb (is_empty (primary_node_id t)) then
    match node_configs t !! primary_node_id t with
    | Some primary =>
        if is_target_of primary (r_replication_conninfo result) then Ret () else
        ok ← ask (Connect id (agent_addr cfg));
        if ok : bool
        then
          password ← repl_password;
          _ ← ask (Demote id (conninfo primary repl_user password) (prefix ++ id)%string id);
          Ret ()
        else Ret ()
    | None => Ret ()
    end
  else Ret ().

Definition mark_replica (t : ClusterTopology) (cfg : NodeConfig) (result : HealthCheckResult)
    : eff () :=
  let id := r_node_id result in
  match node_roles t !! id with
  | Some Offline | Some Unknown | Some Maintenance =>
      if String.eqb id (primary_node_id t) then Ret () else
      _ ← ask (ClientWrite (MarkReplica id (flush_lsn result)));
      repoint_stale t cfg result
  | _ => Ret ()
  end.

Definition on_healthy (t : ClusterTopology) (cfg : NodeConfig) (result : HealthCheckResult)
    (st : MonState) : eff MonState :=
  let id := r_node_id result in
  let st := with_tracker (record_success id (tracker st)) st in
  stale ← is_stale_primary id result;
  if stale : bool
  then
    now ← ask InstantNow;
    let '(act, seen) := sighted id threshold REJOIN_COOLDOWN now (stale_primaries st) in
    _ ← (if act : bool then spawn_rejoin id else Ret ());
    Ret (with_stale seen st)
  else
    let st := with_stale (cleared id (stale_primaries st)) st in
    _ ← push_backup_settings id (agent_addr cfg) result;
    _ ← primary_recovered t result;
    _ ← mark_replica t cfg result;
    _ ← ask (ClientWrite (UpdateFlushLsn id (flush_lsn result) (replay_lsn result)));
    Ret st.

(** The primary failed enough checks. *)
Definition fail_over (t : ClusterTopology) (id : string) (st : MonState) : eff MonState :=
  acquired ← ask TryAcquireOp;
  if acquired : bool
  then
    marked ← ask (ClientWrite (MarkOffline id));
    if marked : bool
    then
      password ← repl_password;
      _ ← trigger_failover t id repl_user password prefix;
      _ ← ask ReleaseOp;
      Ret (with_tracker (record_success id (tracker st)) st)
    else _ ← ask ReleaseOp; Ret st
  else Ret st.

Definition on_unhealthy (t : ClusterTopology) (id : string) (st : MonState) : eff MonState :=
  if bool_decide (node_roles t !! id = Some Maintenance) then Ret st else
  now ← ask InstantNow;
  let st := with_tracker (record_failure id now (tracker st)) st in
  if is_failed id threshold (tracker st) && String.eqb id (primary_node_id t)
  then fail_over t id st
  else Ret st.

Definition process_result (t : ClusterTopology) (st : MonState) (result : HealthCheckResult)
    : eff MonState :=
  let id := r_node_id result in
  match node_configs t !! id with
  | None => Ret st
  | Some cfg =>
      if reachable result && negb (r_has_data result) && negb (String.eqb id (primary_node_id t))
      then
        now ← ask InstantNow;
        let '(act, seen) := sighted id threshold REJOIN_COOLDOWN now (unseeded st) in
        _ ← (if act : bool then spawn_seed id else Ret ());
        Ret (with_unseeded seen st)
      else if reachable result && pg_running result then on_healthy t cfg result st
      else on_unhealthy t id st
  end.

Fixpoint process_results (t : ClusterTopology) (st : MonState) (l : list HealthCheckResult)
    : eff MonState :=
  match l with
  | [] => Ret st
  | r :: l => st' ← process_result t st r; process_results t st' l
  end.

(** The result the reconciliation looks for. *)
Definition primary_up (t : ClusterTopology) (r : HealthCheckResult) : bool :=
  String.eqb (r_node_id r) (primary_node_id t) && reachable r && pg_running r &&
  negb (in_recovery r).

Definition poll_all_nodes (t : ClusterTopology) (st : MonState) : eff MonState :=
  results ← mapM (λ e, check_node e.1 (agent_addr e.2)) (hash_iter (node_configs t));
  check_results ← join_all results;
  st ← match List.find (primary_up t) check_results with
       | Some primary =>
           timer ← reconcile_replication t primary (degrade_timer st);
           Ret (with_timer timer st)
       | None => Ret st
       end;
  process_results t st check_results.

(** *** The loops *)

(** One turn of [run], with the tick counter. *)
Definition monitor_tick (st : MonState) (ticks : Z) : eff (MonState * Z) :=
  let ticks := wrap 64 (ticks + 1) in
  leader ← ask CurrentLeader;
  match leader : option Z with
  | None => Ret (st, ticks)
  | Some leader_id =>
      my_id ← ask MyId;
      if negb (leader_id =? my_id) then Ret (st, ticks) else
      held ← ask LeaseHeld;
      if negb held then Ret (st, ticks) else
      t ← ask CurrentTopology;
      st ← poll_all_nodes t st;
      _ ← (if (ticks mod slot_audit_ticks m =? 0) && negb (is_empty (primary_node_id t))
           then audit_slots t else Ret ());
      Ret (st, ticks)
  end.

(** One turn of the heartbeat task. *)
Definition heartbeat_tick : eff () :=
  leader ← ask CurrentLeader;
  my_id ← ask MyId;
  if negb (bool_decide (leader = Some my_id)) then Ret () else
  held ← ask LeaseHeld;
  if negb held then Ret () else
  t ← ask CurrentTopology;
  for_each (λ e, send_heartbeat e.1 (agent_addr e.2)) (hash_iter (node_configs t)).

End with_monitor.
End monitor.

(** ** Specifications *)

(** A history of checks: the node, and when the check failed if it did. *)
Definition record_check (f : FailureTracker) (c : string * option Z) : FailureTracker :=
  match c.2 with
  | Some now => record_failure c.1 now f
  | None => record_success c.1 f
  end.

(** The failures of [id] since its last success, from the newest check back. *)
Fixpoint failures_since_success (id : string) (newest_first : list (string * option Z)) : Z :=
  match newest_first with
  | [] => 0
  | c :: older =>
      if String.eqb c.1 id
      then match c.2 with
           | Some _ => 1 + failures_since_success id older
           | None => 0
           end
      else failures_since_success id older
  end.

(** A history of timer steps: the topology, whether a standby streams, and the
    time. *)
Definition timer_after (timeout : Z) (h : list (ClusterTopology * bool * Z)) : DegradeTimer :=
  foldl (λ timer s, (timer_step s.1.1 s.1.2 timeout s.2 timer).2) (mkTimer None) h.

(** A step in [sync] mode that found no standby streaming. *)
Definition waiting (s : ClusterTopology * bool * Z) : Prop :=
  replication_mode s.1.1 = Sync ∧ s.1.2 = false.

(** A call that stops commits from waiting for a standby. *)
Definition clears_names (o : obs answer) : Prop :=
  match obs_ev o with
  | SetParameters _ params => params !! SYNC_NAMES = Some EmptyString
  | _ => False
  end.

(** A call that records that commits wait again. *)
Definition clears_flag (o : obs answer) : Prop :=
  obs_ev o = ClientWrite (SetSyncDegraded false).

(** The primary has the setting [names], by its own report or because it took
    it in [before]. *)
Definition names_applied (t : ClusterTopology) (primary : HealthCheckResult) (names : string)
    (before : trace) : Prop :=
  r_parameters primary !! SYNC_NAMES = Some names ∨
  ∃ params, params !! SYNC_NAMES = Some names ∧
            Obs (SetParameters (primary_node_id t) params) (Some true) ∈ before.

(** What the fallback does, in order. *)
Definition fallback_order `{!HashOrder} (t : ClusterTopology) (primary : HealthCheckResult) (tr : trace) : Prop :=
  (sync_required t = true → standby_names t ≠ EmptyString →
   preceded clears_names (λ before, Obs (ClientWrite (SetSyncDegraded true)) true ∈ before) tr) ∧
  preceded clears_flag (λ before,
    names_applied t primary (standby_names t) before ∧
    ∃ name cfg, name ∈ streaming_standbys primary ∧ node_configs t !! name = Some cfg) tr.

(** A call that promotes a node. *)
Definition promotes (o : obs answer) : Prop :=
  match obs_ev o with Promote _ => True | _ => False end.

(** What a call does to the shared operation flag: take it, give it back. *)
Definition flag_change (o : obs answer) : Z :=
  match o with
  | Obs e r => match e return answer e → Z with
               | TryAcquireOp => λ ok, if ok then 1 else 0
               | ReleaseOp => λ _, -1
               | _ => λ _, 0
               end r
  end.

Definition flag_held (tr : trace) : Z := foldr (λ o n, flag_change o + n) 0 tr.

(** A call that neither promotes nor touches the flag. *)
Definition quiet (o : obs answer) : Prop := ¬ promotes o ∧ flag_change o = 0.

(** The flag is taken, and [t]'s primary, which has failed enough checks
    counting this one, is marked offline. *)
Definition failover_due (m : NodeMonitor) (t : ClusterTopology) (st : MonState) (before : trace)
    : Prop :=
  Obs TryAcquireOp true ∈ before ∧
  Obs (ClientWrite (MarkOffline (primary_node_id t))) true ∈ before ∧
  threshold m ≤ wrap 32 (failure_count (primary_node_id t) (tracker st) + 1).

(** The leader, holding the quorum lease, read a topology whose primary is due
    for a failover. *)
Definition failover_guard (m : NodeMonitor) (st : MonState) (before : trace) : Prop :=
  ∃ me t, Obs CurrentLeader (Some me) ∈ before ∧ Obs MyId me ∈ before ∧
          Obs LeaseHeld true ∈ before ∧ Obs CurrentTopology t ∈ before ∧
          failover_due m t st before.

(** One result: it promotes only for the primary, when a failover is due. *)
Definition result_runs (m : NodeMonitor) (t : ClusterTopology) (st : MonState) (id : string) 
    (st' : MonState) (tr : trace) : Prop :=
  preceded promotes (λ b, id = primary_node_id t ∧ failover_due m t st b) tr ∧
  flag_held tr = 0 ∧
  ∀ i, i ≠ id → failure_count i (tracker st') = failure_count i (tracker st).

(** ** Theorems on the tracker and the timer *)

Lemma failure_count_record id f c :
  failure_count id (record_check f c) =
  if String.eqb c.1 id
  then match c.2 with Some _ => wrap 32 (failure_count id f + 1) | None => 0 end
  else failure_count id f.
Proof.
  destruct c as [i o]. unfold record_check, failure_count, record_failure, record_success. cbn.
  destruct (String.eqb_spec i id) as [->|Hne]; destruct o as [now|]; cbn.
  - rewrite lookup_insert_eq. by destruct (failures f !! id).
  - by rewrite lookup_delete_eq.
  - by rewrite lookup_insert_ne.
  - by rewrite lookup_delete_ne.
Qed.

(** After any history of checks of any nodes, the count the failover threshold
    is compared with is the number of checks the node failed since it last
    passed one, in 32 bits. *)
Theorem failure_count_consecutive id h :
  failure_count id (foldl record_check (mkTracker ∅) h) = wrap 32 (failures_since_success id (reverse h)).
Proof.
  induction h as [|c h IH] using rev_ind; [done|].
  rewrite foldl_snoc, failure_count_record, reverse_snoc, IH. cbn.
  destruct (String.eqb c.1 id); [|done]. destruct c.2; [|done].
  unfold wrap. by rewrite Zplus_mod_idemp_l, Z.add_comm.
Qed.

Lemma timer_since timeout h s :
  no_standby_since (timer_after timeout h) = Some s →
  ∃ h1 t b h2, h = h1 ++ (t, b, s) :: h2 ∧ Forall waiting ((t, b, s) :: h2).
Proof.
  revert s. induction h as [|[[t b] now] h IH] using rev_ind; intros s; [done|].
  unfold timer_after. rewrite foldl_snoc. fold (timer_after timeout h). cbn.
  unfold timer_step. destruct (negb _ || b) eqn:Hw; [done|].
  apply orb_false_iff in Hw as [Hmode%negb_false_iff%bool_decide_eq_true ->].
  assert (Hnew : waiting (t, false, now)) by done.
  assert (Hold : ∀ s', no_standby_since (timer_after timeout h) = Some s' →
    ∃ h1 t1 b h2, h ++ [(t, false, now)] = h1 ++ (t1, b, s') :: h2 ∧
                  Forall waiting ((t1, b, s') :: h2)).
  { intros s' (h1 & t1 & b1 & h2 & -> & Hall)%IH.
    exists h1, t1, b1, (h2 ++ [(t, false, now)]). rewrite <- app_assoc. split; [done|].
    inversion Hall; subst. constructor; [done|]. apply Forall_app. auto. }
  destruct (sync_degraded t); cbn; [apply Hold|].
  destruct (_ <=? _); cbn; [done|]. intros [= <-].
  destruct (no_standby_since _) as [s'|] eqn:Hs; cbn; [by apply Hold|].
  exists h, t, false, []. split; [done|]. by constructor.
Qed.

(** The fallback to async fires only when, for the whole timeout and up to the
    present check, every check found [sync] mode without a streaming standby. *)
Theorem degrade_after_timeout timeout h t streaming now :
  (timer_step t streaming timeout now (timer_after timeout h)).1 = Degrade →
  ∃ h1 t0 b0 since h2,
    h ++ [(t, streaming, now)] = h1 ++ (t0, b0, since) :: h2 ∧
    Forall waiting ((t0, b0, since) :: h2) ∧ timeout ≤ duration_since now since.
Proof.
  unfold timer_step. destruct (negb _ || streaming) eqn:Hw; cbn.
  { by destruct (_ && streaming). }
  apply orb_false_iff in Hw as [Hmode%negb_false_iff%bool_decide_eq_true ->].
  destruct (sync_degraded t); [done|]. destruct (_ <=? _) eqn:Ht; [|done]. intros _.
  apply Z.leb_le in Ht. assert (Hnew : waiting (t, false, now)) by done.
  destruct (no_standby_since _) as [s|] eqn:Hs; cbn in Ht.
  - apply timer_since in Hs as (h1 & t1 & b1 & h2 & -> & Hall).
    exists h1, t1, b1, s, (h2 ++ [(t, false, now)]). rewrite <- app_assoc. split_and!; [done| |done].
    inversion Hall; subst. constructor; [done|]. apply Forall_app. auto.
  - exists h, t, false, now, []. split_and!; [done|by constructor|done].
Qed.

Lemma degrade_after_timeout_witness :
  let t := with_replication_mode Sync default_topology in
  ∃ h1 t0 b0 since h2,
    [(t, false, 1); (t, false, 5)] ++ [(t, false, 12)] = h1 ++ (t0, b0, since) :: h2 ∧
    Forall waiting ((t0, b0, since) :: h2) ∧ 10 ≤ duration_since 12 since.
Proof.
  intros t. apply (degrade_after_timeout 10 [(t, false, 1); (t, false, 5)] t false 12).
  reflexivity.
Defined.

(** ** The order of the fallback's steps *)

Section monitor_theorems.
Context `{!HashOrder}.
Variable settings_version : gmap string string → string.
Variable m : NodeMonitor.

Lemma desired_names primary names :
  desired m primary names !! SYNC_NAMES = Some names ∨
  desired m primary names !! SYNC_NAMES = None ∧ r_parameters primary !! SYNC_NAMES = Some names.
Proof.
  unfold desired. rewrite map_lookup_filter.
  replace ({[SYNC_NAMES := names; _ := _]} !! SYNC_NAMES) with (Some names)
    by (by rewrite lookup_insert_eq).
  cbn. destruct (decide (r_parameters primary !! SYNC_NAMES = Some names)) as [E|E].
  - right. split; [|done]. by rewrite option_guard_False by (intros ?; done).
  - left. by rewrite option_guard_True.
Qed.

Lemma apply_parameters_runs t params :
  all_runs (apply_parameters t params) (λ ok tr,
    Forall (λ o, ¬ clears_flag o ∧
                 (clears_names o → params !! SYNC_NAMES = Some EmptyString)) tr ∧
    (ok = true → Obs (SetParameters (primary_node_id t) params) (Some true) ∈ tr)).
Proof.
  unfold apply_parameters. destruct (node_configs t !! _) as [cfg|]; [|done].
  intros []; cbn; [|by repeat constructor].
  intros [[]|]; cbn; (split; [by repeat constructor|]); intros; [set_solver|done..].
Qed.

Lemma track_reseeds_only t primary :
  only (λ o, ¬ clears_flag o ∧ ¬ clears_names o) (track_reseeds m t primary).
Proof.
  apply only_bind; [|intros _]; apply only_for_each; intros id _;
    (destruct (_ && _); [|done]); intros r; split; try done; split; by intros ?.
Qed.

Lemma ensure_proxy_auth_only t primary :
  only (λ o, ¬ clears_flag o ∧ ¬ clears_names o)
    (ensure_proxy_auth settings_version m t primary).
Proof.
  intros password; split; [split; by intros ?|]. cbn.
  destruct (String.eqb _ _); [done|]. destruct (node_configs t !! _); [|done].
  intros []; (split; [split; by intros ?|]); [|done].
  intros r; split; [split; by intros ?|done].
Qed.

(** After the settings: the flag, if it is cleared, then the re-seed flags. *)
Lemma clear_flag_runs t primary fallback :
  all_runs (_ ← (if bool_decide (fallback = Restore)
                 then ask (ClientWrite (SetSyncDegraded false)) else Ret true);
            track_reseeds m t primary)
    (λ _ tr, ∃ ws rest, tr = ws ++ rest ∧
       Forall (λ o, ¬ clears_flag o ∧ ¬ clears_names o) rest ∧
       Forall (λ o, clears_flag o ∧ fallback = Restore) ws ∧ (length ws ≤ 1)%nat).
Proof.
  apply all_runs_bind. case_bool_decide as Hf; cbn [all_runs ask call].
  - intros w. eapply all_runs_mono; [apply only_runs, track_reseeds_only|].
    cbn beta. intros _ rest Hrest.
    exists [Obs (ClientWrite (SetSyncDegraded false)) w], rest.
    split_and!; [done|done| |done]. by repeat constructor.
  - eapply all_runs_mono; [apply only_runs, track_reseeds_only|].
    cbn beta. intros _ rest Hrest. exists [], rest. split_and!; [done|done|constructor|cbn; lia].
Qed.

Lemma names_applied_app t primary names a b :
  names_applied t primary names a → names_applied t primary names (a ++ b).
Proof. intros [H0|(p & Hp & Hin)]; [by left|right]. exists p. set_solver. Qed.

(** The settings step of a run that goes on. *)
Lemma settings_applied t primary names :
  let params := desired m primary names in
  all_runs (if bool_decide (params = ∅) then Ret true else apply_parameters t params) (λ ok tr,
    Forall (λ o, ¬ clears_flag o ∧ (clears_names o → names = EmptyString)) tr ∧
    (ok = true → names_applied t primary names tr)).
Proof.
  intros params. pose proof (desired_names primary names) as Hd. fold params in Hd.
  clearbody params. case_bool_decide as He.
  - cbn. split; [constructor|]. intros _. left. destruct Hd as [Hd|[_ ?]]; [|done].
    rewrite He, lookup_empty in Hd. discriminate Hd.
  - eapply all_runs_mono; [apply apply_parameters_runs|]. cbn beta. intros ok tr [Hall Hok].
    split.
    + eapply Forall_impl; [exact Hall|]. cbn beta. intros o [? Hn]. split; [done|].
      intros Hc%Hn. destruct Hd as [Hd|[Hd _]]; by rewrite Hd in Hc; simplify_eq.
    + intros Htrue. destruct Hd as [Hd|[_ ?]]; [right; eauto|by left].
Qed.

(** The last part: it clears the names only when told to, and the flag only in
    a restore, after the names were applied. *)
Lemma apply_names_runs t primary fallback names :
  all_runs (apply_names m t primary fallback names) (λ _ tr,
    Forall (λ o, (clears_flag o → fallback = Restore) ∧
                 (clears_names o → names = EmptyString)) tr ∧
    preceded clears_flag (names_applied t primary names) tr).
Proof.
  apply all_runs_bind. eapply all_runs_mono; [apply settings_applied|]. cbn beta.
  intros ok tr [Htr Hok].
  assert (Hpre : preceded clears_flag (names_applied t primary names) tr).
  { apply preceded_none. eapply Forall_impl; [exact Htr|]. by intros o [? _]. }
  assert (Htr' : Forall (λ o, (clears_flag o → fallback = Restore) ∧
                              (clears_names o → names = EmptyString)) tr).
  { eapply Forall_impl; [exact Htr|]. naive_solver. }
  destruct ok; [|by cbn; rewrite app_nil_r]. specialize (Hok eq_refl).
  eapply all_runs_mono; [apply clear_flag_runs|]. cbn beta.
  intros _ tr' (ws & rest & -> & Hrest & Hws & Hlen). split.
  - rewrite !Forall_app. split_and!; [done|..]; (eapply Forall_impl; [done|]); [|naive_solver].
    cbn beta. intros o [Hc ?]. split; [done|]. destruct o as [e r].
    unfold clears_flag in Hc. cbn in Hc. by subst e.
  - apply preceded_app; [done|]. intros before o after _ _. by apply names_applied_app.
Qed.

Lemma timer_restore t streaming timeout now timer timer' :
  timer_step t streaming timeout now timer = (Restore, timer') → streaming = true.
Proof.
  unfold timer_step. destruct (negb _ || streaming) eqn:Hw; [|by repeat case_match].
  destruct streaming; [done|]. by rewrite andb_false_r.
Qed.

Lemma fallback_order_quiet t primary pre tr :
  Forall (λ o, ¬ clears_flag o ∧ ¬ clears_names o) pre →
  fallback_order t primary tr → fallback_order t primary (pre ++ tr).
Proof.
  intros Hpre [H1 H2]. split.
  - intros Hr Hn. apply preceded_quiet; [|set_solver|auto].
    eapply Forall_impl; [exact Hpre|]. by intros o [_ ?].
  - apply preceded_quiet; [| |done].
    + eapply Forall_impl; [exact Hpre|]. by intros o [? _].
    + intros b [Hb Hs]. split; [|done]. destruct Hb as [Hb|(p & Hp & Hin)]; [by left|right].
      exists p. set_solver.
Qed.

Lemma act_on_fallback_runs t primary fallback :
  (fallback = Restore → standby_streaming t primary = true) →
  all_runs (act_on_fallback m t primary fallback) (λ _ tr, fallback_order t primary tr).
Proof.
  intros Hfb. destruct fallback; cbn [act_on_fallback].
  - eapply all_runs_mono; [apply apply_names_runs|]. cbn beta. intros _ tr [Hall _]. split.
    + intros Hr Hn. apply preceded_none. eapply Forall_impl; [exact Hall|]. cbn beta.
      intros o [_ Hc] Ho%Hc. unfold synchronous_standby_names in Ho. by rewrite Hr in Ho.
    + apply preceded_none. eapply Forall_impl; [exact Hall|]. cbn beta. naive_solver.
  - intros []; cbn [all_runs].
    + eapply all_runs_mono; [apply apply_names_runs|]. cbn beta. intros _ tr [Hall _]. split.
      * intros _ _. apply preceded_cons; [by intros ?|]. intros before o after _ _. constructor.
      * apply preceded_none. constructor; [by intros ?|].
        eapply Forall_impl; [exact Hall|]. cbn beta. naive_solver.
    + split; [intros _ _|]; apply preceded_none; (constructor; [by intros ?|constructor]).
  - eapply all_runs_mono; [apply apply_names_runs|]. cbn beta. intros _ tr [Hall Hpre]. split.
    + intros _ Hn. apply preceded_none. eapply Forall_impl; [exact Hall|]. cbn beta.
      intros o [_ Hc] Ho%Hc. done.
    + eapply preceded_mono; [exact Hpre|]. intros b Hb. split; [done|].
      specialize (Hfb eq_refl). apply existsb_exists in Hfb as (name & Hin & Hc).
      apply bool_decide_eq_true in Hc as [cfg Hc]. exists name, cfg.
      split; [|done]. by apply list_elem_of_In.
Qed.

(** C30 In every run of the reconciliation: when commits have to wait for a standby,
    the setting that makes them wait is emptied only after Raft accepted that
    the cluster is degraded; and the degraded flag is cleared only while a
    standby of the cluster streams and after the primary has the setting that
    names the standbys. *)
Theorem sync_fallback_ordered t primary timer :
  all_runs (reconcile_replication settings_version m t primary timer) (λ _ tr,
    fallback_order t primary tr).
Proof.
  apply all_runs_bind. eapply all_runs_mono; [apply only_runs, ensure_proxy_auth_only|].
  cbn beta. intros _ pre Hpre. apply all_runs_bind. intros now. cbn [all_runs app].
  destruct (timer_step _ _ _ _ _) as [fallback timer'] eqn:Ht.
  apply all_runs_bind. eapply all_runs_mono; [apply act_on_fallback_runs|].
  { intros ->. by apply timer_restore in Ht. }
  cbn. intros _ tr Htr. rewrite app_nil_r. apply fallback_order_quiet; [done|].
  apply (fallback_order_quiet _ _ [_]); [|done]. repeat constructor; by intros ?.
Qed.

(** *** When a node is promoted *)

Lemma flag_held_app a b : flag_held (a ++ b) = flag_held a + flag_held b.
Proof. induction a as [|o a IH]; cbn; [done|]. unfold flag_held in *. cbn. lia. Qed.

Lemma quiet_runs {A} (p : eff A) C :
  only quiet p → all_runs p (λ _ tr, preceded promotes C tr ∧ flag_held tr = 0).
Proof.
  intros Hp. eapply all_runs_mono; [by apply only_runs|]. cbn beta. intros _ tr Htr. split.
  - apply preceded_none. eapply Forall_impl; [exact Htr|]. by intros o [? _].
  - clear -Htr. induction Htr as [|o tr [_ Ho] _ IH]; [done|]. cbn. unfold flag_held in IH. lia.
Qed.

Ltac quiet_steps := only_steps ltac:(split; [intros []|reflexivity]).

Lemma reconcile_quiet t primary timer :
  only quiet (reconcile_replication settings_version m t primary timer).
Proof.
  unfold reconcile_replication, ensure_proxy_auth, act_on_fallback, apply_names,
    apply_parameters, track_reseeds, write_needs_reseed. quiet_steps.
Qed.

Lemma check_node_quiet id addr : only quiet (check_node id addr).
Proof. unfold check_node, query_node. quiet_steps. Qed.

Lemma plan_for_quiet id : only quiet (plan_for m id).
Proof. unfold plan_for, seed_plan. quiet_steps. Qed.

Lemma audit_slots_quiet t : only quiet (audit_slots m t).
Proof. unfold audit_slots, drop_orphaned_slots, repl_password. quiet_steps. Qed.

Lemma on_healthy_quiet t cfg r st : only quiet (on_healthy m t cfg r st).
Proof.
  unfold on_healthy, is_stale_primary, spawn_rejoin, push_backup_settings, primary_recovered,
    mark_replica, repoint_stale, repl_password. quiet_steps. all: apply plan_for_quiet.
Qed.

Lemma trigger_failover_keeps_flag t failed user password pfx :
  only (λ o, flag_change o = 0) (trigger_failover t failed user password pfx).
Proof.
  assert (Hv : ∀ id addr n i, only (λ o, flag_change o = 0) (verify_promotion id addr n i)).
  { intros id addr n i. induction n as [|n IH]; cbn [verify_promotion]; [done|].
    only_steps ltac:(reflexivity). all: exact IH. }
  unfold trigger_failover, pick_live_candidate, live_positions, live_check, promote_node,
    record_and_repoint, build_failover_event, repoint_followers, ensure_slots_for_replicas,
    repoint_replicas, repoint.
  only_steps ltac:(reflexivity). apply Hv.
Qed.

Lemma flag_held_cons o tr : flag_held (o :: tr) = flag_change o + flag_held tr.
Proof. done. Qed.

Lemma flag_held_none tr : Forall (λ o, flag_change o = 0) tr → flag_held tr = 0.
Proof. induction 1 as [|o tr Ho _ IH]; [done|]. cbn. unfold flag_held in IH. lia. Qed.

(** The failover itself: it promotes with the flag and the mark, keeps the
    counts of other nodes and gives the flag back on every path. *)
Lemma fail_over_runs t st :
  let id := primary_node_id t in
  all_runs (fail_over m t id st) (λ st' tr,
    preceded promotes (λ b, Obs TryAcquireOp true ∈ b ∧
                            Obs (ClientWrite (MarkOffline id)) true ∈ b) tr ∧
    flag_held tr = 0 ∧
    ∀ i, i ≠ id → failure_count i (tracker st') = failure_count i (tracker st)).
Proof.
  intros id. intros []; cbn [all_runs].
  2: { split_and!; [|done|done]. apply preceded_none. repeat constructor. intros []. }
  intros []; cbn [all_runs].
  2: { intros u. split_and!; [|done|done]. apply preceded_none. repeat constructor; intros []. }
  intros password. cbn [all_runs]. apply all_runs_bind.
  eapply all_runs_mono; [apply only_runs, trigger_failover_keeps_flag|].
  cbn beta. intros _ tr Htr. intros u. cbn [all_runs app].
  split_and!.
  - do 3 (apply preceded_cons; [by intros []|]). intros before o after _ _. set_solver.
  - rewrite !flag_held_cons, flag_held_app, flag_held_none by done. done.
  - intros i Hi. unfold failure_count, record_success. cbn. by rewrite lookup_delete_ne.
Qed.

Lemma failure_count_failure id now f :
  failure_count id (record_failure id now f) = wrap 32 (failure_count id f + 1).
Proof.
  change (record_failure id now f) with (record_check f (id, Some now)).
  rewrite failure_count_record. cbn. by rewrite String.eqb_refl.
Qed.

Lemma failure_count_ne i id now f :
  i ≠ id → failure_count i (record_failure id now f) = failure_count i f.
Proof.
  intros Hne. change (record_failure id now f) with (record_check f (id, Some now)).
  rewrite failure_count_record. cbn.
  by destruct (String.eqb_spec id i).
Qed.

Lemma failure_count_success_ne i id f :
  i ≠ id → failure_count i (record_success id f) = failure_count i f.
Proof.
  intros Hne. change (record_success id f) with (record_check f (id, None)).
  rewrite failure_count_record. cbn.
  by destruct (String.eqb_spec id i).
Qed.

Lemma on_unhealthy_runs t id st : all_runs (on_unhealthy m t id st) (result_runs m t st id).
Proof.
  unfold on_unhealthy. case_bool_decide.
  { cbn. split_and!; [|done|done]. apply preceded_none. constructor. }
  apply all_runs_bind. intros now. cbn [all_runs app].
  destruct (is_failed id _ _ && String.eqb id _) eqn:Hf.
  - apply andb_true_iff in Hf as [Hf ->%String.eqb_eq].
    eapply all_runs_mono; [apply fail_over_runs|]. cbn beta.
    intros st' tr (Hp & Hh & Hc). split_and!.
    + apply preceded_cons; [intros []|]. eapply preceded_mono; [exact Hp|]. cbn beta.
      intros b [Ha Hm]. split; [done|]. split_and!; [set_solver|set_solver|].
      apply Z.leb_le in Hf. cbn in Hf. by rewrite failure_count_failure in Hf.
    + by rewrite flag_held_cons, Hh.
    + intros i Hi. rewrite Hc by done. cbn. by apply failure_count_ne.
  - cbn. split_and!; [|done|].
    + apply preceded_none. repeat constructor. intros [].
    + intros i Hi. cbn. by apply failure_count_ne.
Qed.

Lemma on_healthy_tracker t cfg r st :
  returns (λ st', tracker st' = record_success (r_node_id r) (tracker st)) (on_healthy m t cfg r st).
Proof.
  apply returns_bind. intros []; [|by repeat (apply returns_bind; intros ?)].
  apply returns_bind. intros now. destruct (sighted _ _ _ _ _) as [act seen].
  by apply returns_bind.
Qed.

Lemma process_result_runs t st r :
  all_runs (process_result m t st r) (result_runs m t st (r_node_id r)).
Proof.
  unfold process_result. destruct (node_configs t !! _) as [cfg|].
  2: { cbn. split_and!; [|done|done]. apply preceded_none. constructor. }
  destruct (_ && _ && _); [|destruct (_ && _); [|apply on_unhealthy_runs]].
  - eapply all_runs_mono; [apply all_runs_conj|].
    { apply quiet_runs. unfold spawn_seed. quiet_steps. apply plan_for_quiet. }
    { apply (returns_bind (λ st', tracker st' = tracker st)). intros now.
      destruct (sighted _ _ _ _ _) as [act seen]. by apply returns_bind. }
    cbn beta. intros st' tr [[? ?] E]. split_and!; [done|done|]. intros i _. by rewrite E.
  - eapply all_runs_mono; [apply all_runs_conj|].
    { apply quiet_runs, on_healthy_quiet. }
    { apply on_healthy_tracker. }
    cbn beta. intros st' tr [[? ?] E]. split_and!; [done|done|]. intros i Hi.
    rewrite E. by apply failure_count_success_ne.
Qed.

Lemma process_results_runs t st0 l : ∀ st,
  NoDup (r_node_id <$> l) →
  (primary_node_id t ∈ r_node_id <$> l →
   failure_count (primary_node_id t) (tracker st) =
   failure_count (primary_node_id t) (tracker st0)) →
  all_runs (process_results m t st l) (λ _ tr,
    preceded promotes (failover_due m t st0) tr ∧ flag_held tr = 0).
Proof.
  induction l as [|r l IH]; intros st Hnd Hc; cbn [process_results].
  { cbn. split; [|done]. apply preceded_none. constructor. }
  cbn in Hnd, Hc. apply NoDup_cons in Hnd as [Hr Hnd].
  apply all_runs_bind. eapply all_runs_mono; [apply process_result_runs|].
  intros st' tr (Hp & Hh & Hst). eapply all_runs_mono; [apply IH; [done|]|].
  { intros Hin. rewrite Hst; [by apply Hc; constructor|]. intros E. by rewrite E in Hin. }
  cbn beta. intros _ tr' [Hp' Hh']. rewrite flag_held_app, Hh, Hh'. split; [|done].
  apply preceded_app.
  - eapply preceded_mono; [exact Hp|]. intros b [Hid (? & ? & Ht)].
    split_and!; [done..|]. rewrite <- Hc; [done|]. rewrite <- Hid. constructor.
  - eapply preceded_mono; [exact Hp'|]. intros b (? & ? & ?). split_and!; [set_solver..|done].
Qed.

Lemma check_node_id id addr : returns (λ r, r_node_id r = id) (check_node id addr).
Proof.
  unfold check_node, query_node, expired, ask, call.
  intros [] []; cbn; [done| |done|by intros ? []].
  intros [s|] []; cbn; [done|done|done|by intros ? []].
Qed.

(** A quiet part before one that promotes under a condition. *)
Lemma quiet_bind {A B} (p : eff A) (f : A → eff B) (Q : A → Prop) (C : trace → Prop) :
  only quiet p → returns Q p → (∀ a b, C b → C (a ++ b)) →
  (∀ a, Q a → all_runs (f a) (λ _ tr, preceded promotes C tr ∧ flag_held tr = 0)) →
  all_runs (p ≫= f) (λ _ tr, preceded promotes C tr ∧ flag_held tr = 0).
Proof.
  intros Hq HQ HC Hf. apply all_runs_bind.
  eapply all_runs_mono; [apply all_runs_conj; [exact HQ|by apply only_runs]|].
  cbn beta. intros a tr [Ha Htr]. eapply all_runs_mono; [by apply Hf|].
  cbn beta. intros b tr' [Hp Hh]. split.
  - apply preceded_quiet; [|by auto|done]. eapply Forall_impl; [exact Htr|]. by intros o [? _].
  - rewrite flag_held_app, flag_held_none, Hh; [done|].
    eapply Forall_impl; [exact Htr|]. by intros o [_ ?].
Qed.

Lemma failover_due_app t st a b : failover_due m t st b → failover_due m t st (a ++ b).
Proof. intros (? & ? & ?). split_and!; [set_solver..|done]. Qed.

Lemma checks_ids t :
  returns (λ rs, r_node_id <$> rs = (hash_iter (node_configs t)).*1)
    (mapM (λ e, check_node e.1 (agent_addr e.2)) (hash_iter (node_configs t))).
Proof.
  eapply all_runs_mono.
  { apply all_runs_mapM with (P := λ e r _, r_node_id r = e.1). intros e _. apply check_node_id. }
  cbn beta. intros rs _ (trs & _ & H3). induction H3; cbn; congruence.
Qed.

Lemma poll_all_nodes_runs t st :
  all_runs (poll_all_nodes settings_version m t st) (λ _ tr,
    preceded promotes (failover_due m t st) tr ∧ flag_held tr = 0).
Proof.
  eapply quiet_bind; [|apply checks_ids|apply failover_due_app|].
  { quiet_steps. apply check_node_quiet. }
  intros rs Hids. apply quiet_bind with (Q := λ l, l ⊆+ rs); [quiet_steps| |apply failover_due_app|].
  { eapply all_runs_mono; [apply join_all_runs|]. naive_solver. }
  intros l Hl.
  apply quiet_bind with (Q := λ st', tracker st' = tracker st); [| |apply failover_due_app|].
  { quiet_steps. apply reconcile_quiet. }
  { destruct (List.find _ _); [by apply returns_bind|done]. }
  intros st' Est. apply process_results_runs; [|by rewrite Est].
  eapply submseteq_NoDup; [by apply fmap_submseteq|]. rewrite Hids. apply hash_iter_NoDup.
Qed.

(** C4 In every turn of the monitor's loop: a node is promoted only after this
    instance saw itself as the Raft leader holding the quorum lease, took the
    shared operation flag, and wrote to Raft that the primary is offline, with
    the primary's count of failed checks, this one included, at the threshold;
    and whatever fails on the way, the turn gives back the flag it took. *)
Theorem automatic_failover_guarded st ticks :
  all_runs (monitor_tick settings_version m st ticks) (λ _ tr,
    preceded promotes (failover_guard m st) tr ∧ flag_held tr = 0).
Proof.
  assert (Hq : ∀ tr : trace, Forall quiet tr →
    preceded promotes (failover_guard m st) tr ∧ flag_held tr = 0).
  { intros tr Htr. split; [apply preceded_none|apply flag_held_none];
      (eapply Forall_impl; [exact Htr|]); by intros o [??]. }
  apply all_runs_ask. intros [me|]; [|apply Hq; repeat constructor; intros []].
  apply all_runs_ask. intros my. destruct (me =? my) eqn:E; cbn [negb].
  2: { apply Hq. repeat constructor; intros []. }
  apply Z.eqb_eq in E as ->.
  apply all_runs_ask. intros []; cbn [negb]; [|apply Hq; repeat constructor; intros []].
  apply all_runs_ask. intros t. apply all_runs_bind.
  eapply all_runs_mono; [apply poll_all_nodes_runs|]. cbn beta. intros st' tr [Hp Hh].
  apply all_runs_bind. eapply all_runs_mono; [apply (quiet_runs _ (λ _, False))|].
  { quiet_steps. apply audit_slots_quiet. }
  cbn beta. intros _ tr' [Hp' Hh']. cbn [all_runs]. rewrite app_nil_r. split.
  - do 4 (apply preceded_cons; [intros []|]). apply preceded_app.
    + eapply preceded_mono; [exact Hp|]. intros b Hb. exists my, t.
      split_and!; [set_solver..|]. by do 4 apply (failover_due_app _ _ [_]).
    + by eapply preceded_mono; [exact Hp'|].
  - rewrite !flag_held_cons, flag_held_app, Hh, Hh'. done.
Qed.

Lemma heartbeat_tick_quiet : only quiet heartbeat_tick.
Proof. unfold heartbeat_tick, send_heartbeat. quiet_steps. Qed.

End monitor_theorems.
