(* ===== verification/Switchover.v ===== *)
(** Planned switchover and rolling restart: src/pgcluster/src/switchover/.

    [execute_switchover] is the hand-off step by step, for all answers of the
    agents and of Raft; [wait_for_replica_sync] and [wait_until_streaming] are
    loops against a deadline, run with fuel; [rolling_restart] composes them.

    [switchover_order] states what precedes each promotion and the Raft write,
    [lag_wait_terminates] that the wait ends when the clock advances while it
    sleeps, and [rolling_one_at_a_time] that a rolling restart stops a node only
    after the one stopped before streams again. *)
From S2P Require Import Prelude Topology Lease Config Effects Failover Monitor.

Local Open Scope Z_scope.

Record SwitchoverParams := mkParams {
  new_primary_id : string;
  max_lag_bytes : Z;
  sync_timeout_secs : Z;
  sw_user : string;
  sw_password : string;
  proxy_drain : bool;
  drain_timeout : Z;
  sw_slot_prefix : string
}.

Definition with_target (id : string) (p : SwitchoverParams) : SwitchoverParams :=
  mkParams id (max_lag_bytes p) (sync_timeout_secs p) (sw_user p) (sw_password p)
    (proxy_drain p) (drain_timeout p) (sw_slot_prefix p).

(** ** The hand-off: handoff.rs *)

Definition STEADY_READS : Z := 3.
Definition MAX_READS : nat := 50.

(** The loop of [wait_for_position_to_settle], with [reads] turns left. *)
Fixpoint settle (id addr : string) (reads : nat) (last : option Z) (steady : Z)
    : eff (option ()) :=
  match reads with
  | O => Ret None
  | S reads =>
      s ←? on_agent id addr (ask (GetStatus id));
      let pos := received_lsn s in
      let steady := if bool_decide (last = Some pos) then steady + 1 else 0 in
      if bool_decide (last = Some pos) && (steady =? STEADY_READS) then Ret (Some ())
      else _ ← ask (Sleep 200); settle id addr reads (Some pos) steady
  end.

Definition wait_for_position_to_settle (id addr : string) : eff (option ()) :=
  settle id addr MAX_READS None 0.

Definition leave_drain (p : SwitchoverParams) : eff () :=
  if proxy_drain p then ask EndDrain else Ret ().

(** Step 1. *)
Definition demote_old (old : string) (old_cfg : NodeConfig) (info prefix : string)
    : eff (option ()) :=
  on_agent old (agent_addr old_cfg)
    (succeeded (ask (Demote old info (prefix ++ old)%string old))).

(** Step 2: only a failure to connect ends the switchover. *)
Definition stop_old (old : string) (old_cfg : NodeConfig) : eff (option ()) :=
  on_agent old (agent_addr old_cfg)
    (r ← ask (StopPostgres old "fast");
     match r : option bool with
     | Some _ => Ret (Some ())
     | None => _ ← ask (Evict old); Ret (Some ())
     end).

(** Step 3, the [promoted] block. *)
Definition promote_new (new : string) (new_cfg : NodeConfig) : eff (option ()) :=
  _ ←? promote_node new (agent_addr new_cfg);
  verify_promotion new (agent_addr new_cfg) 3 500.

(** What step 3 does when the promotion fails. *)
Definition restore_old (old : string) (old_cfg : NodeConfig) (p : SwitchoverParams) : eff () :=
  _ ← on_agent old (agent_addr old_cfg) (ask (Promote old));
  leave_drain p.

Section switchover.
Context `{!HashOrder}.

Definition other_nodes (t : ClusterTopology) (new : string) : list (string * string) :=
  (λ cfg, (nc_node_id cfg, agent_addr cfg)) <$>
  List.filter (λ cfg, negb (String.eqb (nc_node_id cfg) new)) (hash_iter (node_configs t)).*2.

(** Step 5 and the history entry. *)
Definition repoint_others (t : ClusterTopology) (old new : string) (new_cfg : NodeConfig)
    (started : Z) (p : SwitchoverParams) : eff () :=
  let others := other_nodes t new in
  _ ← ensure_slots_for_replicas (postgres_url (sw_user p) (sw_password p) (postgres_addr new_cfg))
        others.*1 (sw_slot_prefix p);
  _ ← repoint_replicas others (conninfo new_cfg (sw_user p) (sw_password p)) (sw_slot_prefix p);
  now ← ask InstantNow;
  unix ← ask UnixSecs;
  _ ← ask (ClientWrite (RecordFailover old new unix (as_millis (duration_since now started))
             "planned_switchover" false));
  Ret ().

(** From step 3 on. *)
Definition take_over (t : ClusterTopology) (old : string) (old_cfg : NodeConfig) (new : string)
    (new_cfg : NodeConfig) (started : Z) (p : SwitchoverParams) : eff (option ()) :=
  promoted ← promote_new new new_cfg;
  match promoted : option () with
  | None => _ ← restore_old old old_cfg p; Ret None
  | Some _ =>
      ok ← ask (ClientWrite (SetPrimary new (flush_lsn_of t new) 0));
      if ok : bool
      then
        _ ← leave_drain p;
        _ ← repoint_others t old new new_cfg started p;
        Ret (Some ())
      else Ret None
  end.

Definition execute_switchover (t : ClusterTopology) (p : SwitchoverParams) : eff (option ()) :=
  let old := primary_node_id t in
  let new := new_primary_id p in
  started ← ask InstantNow;
  match node_configs t !! old, node_configs t !! new with
  | Some old_cfg, Some new_cfg =>
      _ ← (if proxy_drain p then _ ← ask BeginDrain; ask (Sleep (drain_timeout p)) else Ret ());
      let info := conninfo new_cfg (sw_user p) (sw_password p) in
      _ ←? demote_old old old_cfg info (sw_slot_prefix p);
      _ ←? stop_old old old_cfg;
      _ ←? wait_for_position_to_settle new (agent_addr new_cfg);
      take_over t old old_cfg new new_cfg started p
  | _, _ => Ret None
  end.

(** ** Waiting against a deadline: lag_wait.rs *)

(** [body] every [interval] until it says so or the deadline passes. [None]
    when the fuel runs out. *)
Fixpoint until_deadline (fuel : nat) (deadline interval : Z) (body : eff bool)
    : eff (option bool) :=
  match fuel with
  | O => Ret None
  | S fuel =>
      now ← ask InstantNow;
      if deadline <=? now then Ret (Some false) else
      finished ← body;
      if finished : bool then Ret (Some true) else
      _ ← ask (Sleep interval); until_deadline fuel deadline interval body
  end.

(** The lag of [target] behind the primary in [t]. *)
Definition lag_of (t : ClusterTopology) (target : string) : Z :=
  saturating_sub (flush_lsn_of t (primary_node_id t)) (flush_lsn_of t target).

Definition wait_for_replica_sync (fuel : nat) (target : string) (max_lag timeout : Z)
    : eff (option bool) :=
  now ← ask InstantNow;
  until_deadline fuel (now + timeout) 200
    (t ← ask CurrentTopology; Ret (lag_of t target <=? max_lag)).

(** ** The switchover: mod.rs *)

(** Fuel for a wait of [timeout] nanoseconds with [interval] milliseconds of
    sleep per turn. *)
Definition wait_fuel (timeout interval : Z) : nat :=
  (2 + Z.to_nat (timeout / (interval * 1000000)))%nat.

Definition planned_switchover (p : SwitchoverParams) : eff (option ()) :=
  let timeout := from_secs (sync_timeout_secs p) in
  synced ← wait_for_replica_sync (wait_fuel timeout 200) (new_primary_id p) (max_lag_bytes p)
             timeout;
  if bool_decide (synced = Some true)
  then t ← ask CurrentTopology; execute_switchover t p
  else Ret None.

(** ** Rolling restart: rolling.rs *)

Definition CATCH_UP_TIMEOUT : Z := from_secs 120.

(** The loop over the configured nodes: [None] at the first one that is not a
    healthy standby. *)
Fixpoint collect_standbys (t : ClusterTopology) (l : list (string * NodeConfig))
    : option (list string) :=
  match l with
  | [] => Some []
  | (id, cfg) :: l =>
      if String.eqb id (primary_node_id t) || is_external cfg then collect_standbys t l
      else match node_roles t !! id with
           | Some Replica => rest ← collect_standbys t l; Some (id :: rest)
           | _ => None
           end
  end.

Definition standbys_in_order (t : ClusterTopology) : option (list string) :=
  if is_empty (primary_node_id t) then None
  else sort_by str_leb <$> collect_standbys t (hash_iter (node_configs t)).

Definition restart_node (t : ClusterTopology) (id : string) : eff (option ()) :=
  match node_configs t !! id with
  | None => Ret None
  | Some cfg => on_agent id (agent_addr cfg) (succeeded (ask (StopPostgres id "fast")))
  end.

(** One look at the current primary. *)
Definition streams (id : string) : eff bool :=
  t ← ask CurrentTopology;
  match node_configs t !! primary_node_id t with
  | None => Ret false
  | Some primary =>
      status ← check_node (nc_node_id primary) (agent_addr primary);
      Ret (existsb (λ n, String.eqb n id) (streaming_standbys status))
  end.

Definition wait_until_streaming (id : string) : eff (option ()) :=
  now ← ask InstantNow;
  r ← until_deadline (wait_fuel CATCH_UP_TIMEOUT 500) (now + CATCH_UP_TIMEOUT) 500 (streams id);
  Ret (if bool_decide (r = Some true) then Some () else None).

Fixpoint restart_standbys (t : ClusterTopology) (ids : list string) : eff (option ()) :=
  match ids with
  | [] => Ret (Some ())
  | id :: ids =>
      _ ←? restart_node t id;
      _ ←? wait_until_streaming id;
      restart_standbys t ids
  end.

Definition rolling_restart (p : SwitchoverParams) : eff (option ()) :=
  t ← ask CurrentTopology;
  let old := primary_node_id t in
  match standbys_in_order t with
  | None => Ret None
  | Some ids =>
      _ ←? restart_standbys t ids;
      match ids with
      | [] => restart_node t old
      | _ =>
          picked ←? pick_live_candidate t old;
          _ ←? planned_switchover (with_target picked.1 p);
          wait_until_streaming old
      end
  end.

End switchover.

(** ** Specifications *)

Definition is_promote (o : obs answer) : Prop :=
  match obs_ev o with Promote _ => True | _ => False end.

Definition sets_primary (o : obs answer) : Prop :=
  match obs_ev o with ClientWrite (SetPrimary _ _ _) => True | _ => False end.

(** The received positions [id] reported, in order. *)
Definition reports (id : string) (tr : trace) : list Z :=
  omap (λ o, match o with
             | Obs e r => match e return answer e → option Z with
                          | GetStatus n => λ s, if String.eqb n id then received_lsn <$> s else None
                          | _ => λ _, None
                          end r
             end) tr.
Arguments reports : simpl never.

(** The last four reports agree. *)
Definition settled (id : string) (tr : trace) : Prop :=
  ∃ before pos, reports id tr = before ++ [pos; pos; pos; pos].

(** The old primary took its demotion and was told to stop, and the new one's
    position then settled. *)
Definition handed_off (t : ClusterTopology) (p : SwitchoverParams) (tr : trace) : Prop :=
  ∃ tr1 tr2 rest cfg r,
    tr = tr1 ++ tr2 ++ rest ∧
    node_configs t !! new_primary_id p = Some cfg ∧
    Obs (Demote (primary_node_id t) (conninfo cfg (sw_user p) (sw_password p))
           (sw_slot_prefix p ++ primary_node_id t)%string (primary_node_id t)) (Some true) ∈ tr1 ∧
    Obs (StopPostgres (primary_node_id t) "fast") r ∈ tr1 ∧
    settled (new_primary_id p) tr2.

(** [new] answered its promotion with success and was seen out of recovery. *)
Definition new_confirmed (new : string) (tr : trace) : Prop :=
  Obs (Promote new) (Some true) ∈ tr ∧
  ∃ s, Obs (GetStatus new) (Some s) ∈ tr ∧ is_in_recovery s = false ∧ postgres_running s = true.

(** What a run of the hand-off with result [r] guarantees. *)
Definition switchover_run (t : ClusterTopology) (p : SwitchoverParams) (r : option ()) (tr : trace)
    : Prop :=
  preceded is_promote (handed_off t p) tr ∧
  preceded sets_primary (new_confirmed (new_primary_id p)) tr ∧
  (r = Some () →
   Obs (ClientWrite (SetPrimary (new_primary_id p) (flush_lsn_of t (new_primary_id p)) 0)) true ∈ tr ∧
   (proxy_drain p = true → Obs EndDrain () ∈ tr)).

(** Calls of the hand-off before its promotions and its Raft write. *)
Definition preparing (o : obs answer) : Prop := ¬ is_promote o ∧ ¬ sets_primary o.

(** An honest clock: each reading is at least the one before plus the sleep in
    between. *)
Fixpoint clock_ok (last : option Z) (tr : trace) : Prop :=
  match tr with
  | [] => True
  | Obs e r :: tr =>
      match e return answer e → Prop with
      | InstantNow => λ now, match last with Some l => l ≤ now | None => True end ∧
                             clock_ok (Some now) tr
      | Sleep ms => λ _, clock_ok ((λ l, l + ms * 1000000) <$> last) tr
      | _ => λ _, clock_ok last tr
      end r
  end.

(** What a status says of standbys that stream. *)
Definition streaming_in (s : StatusResponse) : list string :=
  application_name <$> List.filter (λ r, String.eqb (state r) "streaming") (replicas s).

(** The nodes stopped and not yet seen streaming again, or [None] once a node
    was stopped while there was one. *)
Definition down_step (down : list string) (o : obs answer) : option (list string) :=
  match o with
  | Obs e r => match e return answer e → option (list string) with
               | StopPostgres n _ => λ _, if bool_decide (down = []) then Some [n] else None
               | GetStatus _ => λ s,
                   Some (match s with
                         | Some s => List.filter (λ n, negb (bool_decide (n ∈ streaming_in s))) down
                         | None => down
                         end)
               | _ => λ _, Some down
               end r
  end.

Fixpoint nodes_down (down : list string) (tr : trace) : option (list string) :=
  match tr with
  | [] => Some down
  | o :: tr => down ← down_step down o; nodes_down down tr
  end.

Definition is_stop (o : obs answer) : bool :=
  match obs_ev o with StopPostgres _ _ => true | _ => false end.

(** At most [k] nodes are stopped. *)
Definition stops_at_most {A} (k : nat) (p : eff A) : Prop :=
  all_runs p (λ _ tr, (length (List.filter is_stop tr) ≤ k)%nat).

(** ** The order of a hand-off *)

Ltac prep_steps := only_steps ltac:(split; intros []).

Lemma demote_old_runs old cfg info pfx :
  all_runs (demote_old old cfg info pfx) (λ r tr, Forall preparing tr ∧
    (r = Some () → Obs (Demote old info (pfx ++ old)%string old) (Some true) ∈ tr)).
Proof.
  apply all_runs_conj; [apply only_runs; unfold demote_old, succeeded; prep_steps|].
  intros []; cbn; [|done]. intros [[]|]; cbn; [intros _; set_solver|done..].
Qed.

Lemma stop_old_runs old cfg :
  all_runs (stop_old old cfg) (λ r tr, Forall preparing tr ∧
    (r = Some () → ∃ a, Obs (StopPostgres old "fast") a ∈ tr)).
Proof.
  apply all_runs_conj; [apply only_runs; unfold stop_old; prep_steps|].
  intros []; cbn; [|done].
  intros [b|]; cbn; [intros _; exists (Some b)|intros u _; exists None]; set_solver.
Qed.

Lemma settle_runs id addr n : ∀ last steady h,
  0 ≤ steady < STEADY_READS →
  match last with
  | None => steady = 0
  | Some p => ∃ pre, h = pre ++ replicate (Z.to_nat steady + 1) p
  end →
  all_runs (settle id addr n last steady) (λ r tr,
    r = Some () → ∃ pre pos, h ++ reports id tr = pre ++ [pos; pos; pos; pos]).
Proof.
  unfold STEADY_READS. induction n as [|n IH]; intros last steady h Hs Hh; [done|].
  cbn [settle]. apply all_runs_bind. intros []; cbn; [|done].
  intros [s|]; cbn [all_runs app]; [|done].
  assert (Hrep : ∀ tr, reports id (Obs (Connect id addr) true :: Obs (GetStatus id) (Some s) :: tr) =
                       received_lsn s :: reports id tr).
  { intros tr. unfold reports. cbn. by rewrite String.eqb_refl. }
  set (pos := received_lsn s) in *.
  destruct (bool_decide (last = Some pos) && _) eqn:Hdone; cbn [all_runs].
  - intros _. rewrite Hrep. apply andb_true_iff in Hdone as [->%bool_decide_eq_true Hst].
    destruct Hh as [pre ->]. rewrite bool_decide_true in Hst by done. apply Z.eqb_eq in Hst.
    unfold STEADY_READS in Hst.
    exists pre, pos. replace steady with 2 by lia. cbn. by rewrite <- app_assoc.
  - intros u. eapply all_runs_mono; [apply (IH (Some pos) _ (h ++ [pos]))|].
    + case_bool_decide; [|lia]. cbn in Hdone. apply Z.eqb_neq in Hdone.
      unfold STEADY_READS in *. lia.
    + case_bool_decide as Hl; [|by exists h]. subst last. destruct Hh as [pre ->]. exists pre.
      rewrite <- app_assoc. f_equal.
      replace (Z.to_nat (steady + 1) + 1)%nat with (Z.to_nat steady + 1 + 1)%nat by lia.
      by rewrite (replicate_add (Z.to_nat steady + 1) 1).
    + cbn beta. intros r tr Hr ->. destruct (Hr eq_refl) as (pre & q & E).
      exists pre, q. rewrite <- E. cbn [app].
      rewrite (Hrep (Obs (Sleep 200) u :: tr)), <- app_assoc. done.
Qed.

Lemma promote_new_runs new cfg :
  all_runs (promote_new new cfg) (λ r tr,
    Forall (λ o, ¬ sets_primary o) tr ∧ (r = Some () → new_confirmed new tr)).
Proof.
  apply all_runs_conj.
  { apply only_runs. unfold promote_new, promote_node.
    assert (Hv : ∀ n, only (λ o, ¬ sets_primary o) (verify_promotion new (agent_addr cfg) n 500)).
    { induction n as [|n IH]; cbn [verify_promotion]; [done|].
      only_steps ltac:(by intros []). all: exact IH. }
    only_steps ltac:(by intros []). apply Hv. }
  apply all_runs_bind. eapply all_runs_mono; [apply promote_node_runs|]. cbn beta.
  intros [[]|] tr1 Htr1; [|done]. subst tr1.
  eapply all_runs_mono; [apply verify_promotion_runs|]. cbn beta. intros r tr Hv ->.
  destruct Hv as (tries & s & -> & _ & Hrec & Hrun). split; [set_solver|].
  exists s. set_solver.
Qed.

Section switchover_theorems.
Context `{!HashOrder}.

Lemma repoint_others_quiet t old new cfg started p :
  only (λ o, ¬ sets_primary o) (repoint_others t old new cfg started p).
Proof.
  unfold repoint_others, ensure_slots_for_replicas, repoint_replicas, repoint.
  only_steps ltac:(by intros []).
Qed.

Lemma take_over_runs t old old_cfg new new_cfg started p :
  all_runs (take_over t old old_cfg new new_cfg started p) (λ r tr,
    preceded sets_primary (new_confirmed new) tr ∧
    (r = Some () →
     Obs (ClientWrite (SetPrimary new (flush_lsn_of t new) 0)) true ∈ tr ∧
     (proxy_drain p = true → Obs EndDrain () ∈ tr))).
Proof.
  apply all_runs_bind. eapply all_runs_mono; [apply promote_new_runs|]. cbn beta.
  intros [[]|] tr [Hq Hc].
  - specialize (Hc eq_refl). apply all_runs_ask. intros ok.
    assert (Hw : ∀ rest, Forall (λ o, ¬ sets_primary o) rest →
      preceded sets_primary (new_confirmed new)
        (tr ++ Obs (ClientWrite (SetPrimary new (flush_lsn_of t new) 0)) ok :: rest)).
    { intros rest Hrest. apply preceded_app; [by apply preceded_none|].
      intros before o after _ _. destruct Hc as (? & s & ? & ?).
      split; [set_solver|]. exists s. set_solver. }
    destruct ok; [|by split; [apply (Hw []); constructor|]].
    apply all_runs_bind.
    eapply all_runs_mono with (Q := λ _ tr', Forall (λ o, ¬ sets_primary o) tr' ∧
      (proxy_drain p = true → Obs EndDrain () ∈ tr')).
    { unfold leave_drain. destruct (proxy_drain p); cbn; [intros []|].
      - split; [by repeat constructor; intros []|set_solver].
      - by split; [constructor|]. }
    cbn beta. intros _ tr1 [H1 Hdrain]. apply all_runs_bind.
    eapply all_runs_mono; [apply only_runs, repoint_others_quiet|].
    cbn beta. intros _ tr2 H2. cbn [all_runs]. rewrite app_nil_r.
    split; [apply Hw; by apply Forall_app|]. intros _. split; [set_solver|].
    intros Hd. specialize (Hdrain Hd). set_solver.
  - eapply all_runs_mono with (Q := λ r tr', Forall (λ o, ¬ sets_primary o) tr' ∧ r = None).
    { apply all_runs_conj.
      - apply only_runs. unfold restore_old, leave_drain. only_steps ltac:(by intros []).
      - by apply (returns_bind (λ r, r = None)). }
    cbn beta. intros r tr' [Hq' ->]. split; [|done]. apply preceded_none. by apply Forall_app.
Qed.

Lemma switchover_run_prep t p tr : Forall preparing tr → switchover_run t p None tr.
Proof.
  intros Htr. split_and!; [..|done]; apply preceded_none;
    (eapply Forall_impl; [exact Htr|]); by intros o [??].
Qed.

Lemma settle_prep id addr n last steady : only preparing (settle id addr n last steady).
Proof.
  revert last steady. induction n as [|n IH]; intros last steady; cbn [settle]; [done|].
  prep_steps. apply IH.
Qed.

(** A step that can stop the hand-off, after preparations [pre]. *)
Lemma switchover_step t p (step : eff (option ())) (K : trace → Prop) (f : () → eff (option ())) pre :
  all_runs step (λ r tr, Forall preparing tr ∧ (r = Some () → K tr)) →
  Forall preparing pre →
  (∀ tr, Forall preparing tr → K tr →
    all_runs (f ()) (λ r tr', switchover_run t p r ((pre ++ tr) ++ tr'))) →
  all_runs (try_bind step f) (λ r tr, switchover_run t p r (pre ++ tr)).
Proof.
  intros Hs Hpre Hf. apply all_runs_bind. eapply all_runs_mono; [exact Hs|].
  cbn beta. intros [[]|] tr [Hq HK].
  - eapply all_runs_mono; [by apply Hf; [|apply HK]|]. cbn beta. intros r tr'.
    by rewrite <- app_assoc.
  - cbn. rewrite app_nil_r. apply switchover_run_prep. by apply Forall_app.
Qed.

(** C7 In every run of a planned switchover: no node is promoted before the old
    primary accepted its demotion to the new one, was told to stop, and the new
    one then reported the same position four times in a row; the topology names
    the new primary only after it answered its promotion with success and was
    seen running out of recovery; and a switchover that reports success wrote
    the new primary to Raft and ended the drain it began. *)
Theorem switchover_order t p : all_runs (execute_switchover t p) (switchover_run t p).
Proof.
  apply all_runs_ask. intros started. set (o0 := Obs InstantNow started).
  assert (H0 : preparing o0) by (split; intros []).
  destruct (node_configs t !! primary_node_id t) as [old_cfg|];
    [|apply switchover_run_prep; by constructor; [|constructor]].
  destruct (node_configs t !! new_primary_id p) as [new_cfg|] eqn:Hnew;
    [|apply switchover_run_prep; by constructor; [|constructor]].
  apply all_runs_bind. eapply all_runs_mono with (Q := λ _ tr, Forall preparing tr).
  { apply only_runs. prep_steps. }
  cbn beta. intros _ d Hd.
  apply (switchover_step t p _ _ _ (o0 :: d) (demote_old_runs _ _ _ _)); [by constructor|].
  intros tr1 H1 Hdem.
  apply (switchover_step t p _ _ _ _ (stop_old_runs _ _));
    [by apply Forall_app; split; [constructor|]|].
  intros tr2 H2 [a Hstop].
  apply (switchover_step t p _ (settled (new_primary_id p))).
  { apply all_runs_conj; [apply only_runs, settle_prep|].
    eapply all_runs_mono; [by apply (settle_runs _ _ _ None 0 [])|]. done. }
  { apply Forall_app; split; [apply Forall_app; split; [by constructor|done]|done]. }
  intros tr3 H3 Hset. set (pre := (((o0 :: d) ++ tr1) ++ tr2) ++ tr3).
  assert (Hpre : Forall preparing pre).
  { unfold pre. rewrite !Forall_app. split_and!; [by constructor|done..]. }
  eapply all_runs_mono; [apply take_over_runs|]. cbn beta. intros r tr4 [Hsp Hr].
  split_and!.
  - apply preceded_app.
    { apply preceded_none. eapply Forall_impl; [exact Hpre|]. by intros o [? _]. }
    intros before o after _ _. exists (((o0 :: d) ++ tr1) ++ tr2), tr3, before, new_cfg, a.
    split_and!; [by unfold pre; rewrite <- !app_assoc|done|set_solver|set_solver|done].
  - apply preceded_quiet; [| |done].
    { eapply Forall_impl; [exact Hpre|]. by intros o [_ ?]. }
    intros b (? & s & ? & ?). split; [set_solver|]. exists s. set_solver.
  - intros ->. destruct (Hr eq_refl) as [Hw Hd']. split; [set_solver|]. set_solver.
Qed.

End switchover_theorems.

(** ** The waits end *)

Definition no_sleep (o : obs answer) : Prop :=
  match obs_ev o with Sleep _ => False | _ => True end.

Lemma clock_ok_app l a b :
  Forall no_sleep a → clock_ok (Some l) (a ++ b) → ∃ l', l ≤ l' ∧ clock_ok (Some l') b.
Proof.
  revert l. induction a as [|[e r] a IH]; intros l Hn Hc; [by exists l|].
  inversion Hn as [|?? Ho Ha]; subst. cbn in Hc.
  destruct e; try (by apply IH).
  destruct Hc as [Hl Hc]. destruct (IH r Ha Hc) as (l' & ? & ?). exists l'. split; [lia|done].
Qed.

(** Each turn moves the clock by the interval, so this much fuel is enough. *)
Lemma until_deadline_ends deadline interval body fuel :
  only no_sleep body → 0 < interval →
  all_runs (until_deadline (S fuel) deadline interval body) (λ r tr,
    ∀ l, deadline - l ≤ Z.of_nat fuel * (interval * 1000000) →
         clock_ok (Some l) tr → r ≠ None).
Proof.
  intros Hb Hi. induction fuel as [|fuel IH].
  - cbn [until_deadline]. apply all_runs_ask. intros now.
    destruct (deadline <=? now) eqn:E; [done|]. apply Z.leb_gt in E.
    eapply all_runs_mono; [apply all_runs_True|]. cbn beta. intros r tr _ l Hd [Hl _]. lia.
  - remember (S fuel) as n eqn:En. cbn [until_deadline]. subst n.
    apply all_runs_ask. intros now. destruct (deadline <=? now); [done|].
    apply all_runs_bind. eapply all_runs_mono; [by apply only_runs|]. cbn beta.
    intros [] tb Htb; [done|]. apply all_runs_ask. intros u.
    eapply all_runs_mono; [exact IH|]. cbn beta. intros r tr Hr l Hd [Hl Hc].
    destruct (clock_ok_app now tb (Obs (Sleep interval) u :: tr) Htb Hc) as (l' & Hl' & Hc').
    apply (Hr (l' + interval * 1000000)); [lia|exact Hc'].
Qed.

Lemma wait_fuel_enough timeout interval :
  0 < interval →
  ∃ n, wait_fuel timeout interval = S n ∧ timeout ≤ Z.of_nat n * (interval * 1000000).
Proof.
  intros Hi. exists (S (Z.to_nat (timeout / (interval * 1000000)))). split; [done|].
  pose proof (Z.div_mod timeout (interval * 1000000) ltac:(lia)).
  pose proof (Z.mod_pos_bound timeout (interval * 1000000) ltac:(lia)). nia.
Qed.

(** A wait says it succeeded only when [body] did, last. *)
Lemma until_deadline_true P deadline interval body fuel :
  all_runs body (λ b tr, b = true → P tr) →
  (∀ a b, P a → P (b ++ a)) →
  all_runs (until_deadline fuel deadline interval body) (λ r tr, r = Some true → P tr).
Proof.
  intros Hb HP. induction fuel as [|fuel IH]; [done|]. cbn [until_deadline].
  apply all_runs_ask. intros now. destruct (deadline <=? now); [done|].
  apply all_runs_bind. eapply all_runs_mono; [exact Hb|]. cbn beta. intros [] tb Htb.
  - intros _. rewrite app_nil_r. apply (HP _ [_]). by apply Htb.
  - apply all_runs_ask. intros u. eapply all_runs_mono; [exact IH|]. cbn beta.
    intros r tr Hr E. apply (HP _ [_]), HP, (HP _ [_]). by apply Hr.
Qed.

(** Whenever the clock advances while the wait sleeps, the wait ends; and it
    reports success only when a topology it read has the target within the
    allowed lag. *)
Theorem lag_wait_terminates target max_lag timeout :
  all_runs (wait_for_replica_sync (wait_fuel timeout 200) target max_lag timeout) (λ r tr,
    (clock_ok None tr → r ≠ None) ∧
    (r = Some true → ∃ t, Obs CurrentTopology t ∈ tr ∧ lag_of t target ≤ max_lag)).
Proof.
  apply all_runs_ask. intros now. apply all_runs_conj.
  - destruct (wait_fuel_enough timeout 200) as (n & -> & Hn); [lia|].
    eapply all_runs_mono; [apply until_deadline_ends; [done|lia]|].
    cbn beta. intros r tr Hr [_ Hc]. apply (Hr now); [lia|done].
  - eapply all_runs_mono; [apply (until_deadline_true (λ tr,
      ∃ t, Obs CurrentTopology t ∈ tr ∧ lag_of t target ≤ max_lag))|].
    + intros t. cbn. intros Hl%Z.leb_le. exists t. set_solver.
    + intros a b (t & ? & ?). exists t. set_solver.
    + cbn beta. intros r tr Hr E. destruct (Hr E) as (t & ? & ?). exists t. set_solver.
Qed.

(** ** A rolling restart stops one node at a time *)

Lemma nodes_down_app down a b :
  nodes_down down (a ++ b) = (down' ← nodes_down down a; nodes_down down' b).
Proof.
  revert down. induction a as [|o a IH]; intros down; cbn; [done|].
  destruct (down_step down o) as [d|]; cbn; [apply IH|done].
Qed.

Lemma down_step_keeps down o :
  is_stop o = false → ∃ d, down_step down o = Some d ∧ ∀ n, n ∈ d → n ∈ down.
Proof.
  destruct o as [e r]. destruct e; cbn; try (by exists down).
  intros _. destruct r as [s|]; [|by exists down]. eexists. split; [done|].
  intros n. by rewrite elem_of_lfilter; intros [? _].
Qed.

Lemma nodes_down_keeps down tr :
  Forall (λ o, is_stop o = false) tr →
  ∃ d, nodes_down down tr = Some d ∧ ∀ n, n ∈ d → n ∈ down.
Proof.
  intros Htr. revert down. induction Htr as [|o tr Ho _ IH]; intros down; cbn; [by exists down|].
  destruct (down_step_keeps down o Ho) as (d & -> & Hd). cbn.
  destruct (IH d) as (d' & -> & Hd'). eauto.
Qed.

(** A status that shows [n] streaming takes it off the list. *)
Lemma nodes_down_seen down tr n p s :
  Forall (λ o, is_stop o = false) tr → Obs (GetStatus p) (Some s) ∈ tr → n ∈ streaming_in s →
  ∃ d, nodes_down down tr = Some d ∧ (∀ m, m ∈ d → m ∈ down) ∧ n ∉ d.
Proof.
  intros Htr (tr1 & tr2 & ->)%list_elem_of_split Hn.
  apply Forall_app in Htr as [H1 H2]. apply Forall_cons in H2 as [_ H2].
  rewrite nodes_down_app. destruct (nodes_down_keeps down tr1 H1) as (d1 & -> & Hd1). cbn.
  destruct (nodes_down_keeps
    (List.filter (λ n, negb (bool_decide (n ∈ streaming_in s))) d1) tr2 H2) as (d2 & -> & Hd2).
  exists d2. split; [done|]. split.
  - intros m Hm%Hd2. apply elem_of_lfilter in Hm as [? _]. auto.
  - intros Hin%Hd2. apply elem_of_lfilter in Hin as [_ Hf].
    by rewrite bool_decide_true in Hf.
Qed.

Lemma nodes_down_one tr :
  (length (List.filter is_stop tr) ≤ 1)%nat → is_Some (nodes_down [] tr).
Proof.
  assert (H0 : ∀ l, length (List.filter is_stop l) = 0%nat → Forall (λ o, is_stop o = false) l).
  { induction l as [|o l IH]; cbn; [constructor|]. destruct (is_stop o) eqn:E; cbn; [done|].
    intros ?. constructor; auto. }
  induction tr as [|o tr IH]; cbn; [done|].
  destruct (is_stop o) eqn:E; cbn.
  - intros Hl. destruct o as [e r]. destruct e; try done. cbn.
    edestruct (nodes_down_keeps [node] tr) as (d & -> & _); [apply H0; lia|done].
  - intros Hl. destruct (down_step_keeps [] o E) as (d & -> & Hd). cbn.
    destruct d as [|n d]; [by apply IH|]. exfalso. eapply not_elem_of_nil, (Hd n). constructor.
Qed.

Lemma stops_none {A} (p : eff A) : only (λ o, is_stop o = false) p → stops_at_most 0 p.
Proof.
  intros Hp. eapply all_runs_mono; [by apply only_runs|]. cbn beta. intros _ tr Htr.
  induction Htr as [|o tr Ho _ IH]; cbn; [lia|]. by rewrite Ho.
Qed.

Lemma stops_bind {A B} j k (p : eff A) (f : A → eff B) :
  stops_at_most j p → (∀ a, stops_at_most k (f a)) → stops_at_most (j + k) (p ≫= f).
Proof.
  intros Hp Hf. apply all_runs_bind. eapply all_runs_mono; [exact Hp|]. cbn beta.
  intros a tr Htr. eapply all_runs_mono; [apply Hf|]. cbn beta. intros b tr' Htr'.
  rewrite List.filter_app, length_app. lia.
Qed.

Lemma stops_ret {A} k (a : A) : stops_at_most k (Ret a).
Proof. cbn. lia. Qed.

Ltac no_stops := apply stops_none; only_steps ltac:(reflexivity).

Lemma restart_node_stops t id : stops_at_most 1 (restart_node t id).
Proof.
  unfold restart_node. destruct (node_configs t !! id); [|apply stops_ret].
  intros []; cbn; [|lia]. intros r. cbn. lia.
Qed.

Lemma stop_old_stops old cfg : stops_at_most 1 (stop_old old cfg).
Proof. intros []; cbn; [|lia]. intros [b|]; cbn; [lia|]. intros u. lia. Qed.

Lemma until_deadline_no_stop fuel deadline interval body :
  only (λ o, is_stop o = false) body →
  only (λ o, is_stop o = false) (until_deadline fuel deadline interval body).
Proof.
  intros Hb. induction fuel as [|fuel IH]; cbn [until_deadline]; [done|].
  only_steps ltac:(reflexivity); done.
Qed.

Lemma verify_no_stop id addr n i : only (λ o, is_stop o = false) (verify_promotion id addr n i).
Proof.
  induction n as [|n IH]; cbn [verify_promotion]; [done|].
  only_steps ltac:(reflexivity). all: exact IH.
Qed.

Lemma settle_no_stop id addr n last steady :
  only (λ o, is_stop o = false) (settle id addr n last steady).
Proof.
  revert last steady. induction n as [|n IH]; intros last steady; cbn [settle]; [done|].
  only_steps ltac:(reflexivity). apply IH.
Qed.

Section rolling.
Context `{!HashOrder}.

Lemma take_over_no_stop t old old_cfg new new_cfg started p :
  only (λ o, is_stop o = false) (take_over t old old_cfg new new_cfg started p).
Proof.
  unfold take_over, promote_new, promote_node, restore_old, leave_drain, repoint_others,
    ensure_slots_for_replicas, repoint_replicas, repoint.
  only_steps ltac:(reflexivity). apply verify_no_stop.
Qed.

Lemma execute_switchover_stops t p : stops_at_most 1 (execute_switchover t p).
Proof.
  unfold execute_switchover.
  apply (stops_bind 0 1); [no_stops|intros started].
  destruct (node_configs t !! primary_node_id t); [|apply stops_ret].
  destruct (node_configs t !! new_primary_id p); [|apply stops_ret].
  apply (stops_bind 0 1); [no_stops|intros _].
  apply (stops_bind 0 1); [unfold demote_old, succeeded; no_stops|].
  intros [[]|]; [|apply stops_ret].
  apply (stops_bind 1 0); [apply stop_old_stops|]. intros [[]|]; [|apply stops_ret].
  apply (stops_bind 0 0); [apply stops_none, settle_no_stop|].
  intros [[]|]; [|apply stops_ret].
  apply stops_none, take_over_no_stop.
Qed.

Lemma planned_switchover_stops p : stops_at_most 1 (planned_switchover p).
Proof.
  apply (stops_bind 0 1).
  { unfold wait_for_replica_sync. no_stops. apply until_deadline_no_stop. done. }
  intros synced. case_bool_decide; [|apply stops_ret].
  apply (stops_bind 0 1); [no_stops|]. intros t. apply execute_switchover_stops.
Qed.

Lemma check_node_streaming id addr n :
  all_runs (check_node id addr) (λ r tr,
    n ∈ streaming_standbys r → ∃ s, Obs (GetStatus id) (Some s) ∈ tr ∧ n ∈ streaming_in s).
Proof.
  assert (Hno : ∀ i (tr : trace), n ∈ streaming_standbys (unreachable_result i) →
    ∃ s, Obs (GetStatus id) (Some s) ∈ tr ∧ n ∈ streaming_in s).
  { intros i tr Hn. by apply not_elem_of_nil in Hn. }
  unfold check_node, query_node, expired, ask, call.
  intros [] []; cbn; [by intros; apply (Hno id)| |by intros; apply (Hno id)|].
  - intros [s|] []; cbn; [by intros; apply (Hno id)| |by intros; apply (Hno id)|].
    + intros Hn. exists s. split; [set_solver|done].
    + intros ? []; cbn; intros; by apply (Hno id).
  - intros ? []; cbn; intros; by apply (Hno id).
Qed.

Lemma streams_runs id :
  all_runs (streams id) (λ b tr, b = true →
    ∃ p s, Obs (GetStatus p) (Some s) ∈ tr ∧ id ∈ streaming_in s).
Proof.
  apply all_runs_ask. intros t. destruct (node_configs t !! _) as [cfg|]; [|done].
  apply all_runs_bind. eapply all_runs_mono; [apply (check_node_streaming _ _ id)|].
  cbn. intros r tr Hr (n & Hin & ->%String.eqb_eq)%existsb_exists. rewrite app_nil_r.
  destruct Hr as (s & ? & ?); [by apply list_elem_of_In|]. exists (nc_node_id cfg), s. set_solver.
Qed.

Lemma wait_until_streaming_only id : only (λ o, is_stop o = false) (wait_until_streaming id).
Proof.
  unfold wait_until_streaming. only_steps ltac:(reflexivity).
  apply until_deadline_no_stop. unfold streams, check_node, query_node.
  only_steps ltac:(reflexivity).
Qed.

Lemma wait_until_streaming_runs id :
  all_runs (wait_until_streaming id) (λ r tr, Forall (λ o, is_stop o = false) tr ∧
    (r = Some () → ∃ p s, Obs (GetStatus p) (Some s) ∈ tr ∧ id ∈ streaming_in s)).
Proof.
  apply all_runs_conj; [apply only_runs, wait_until_streaming_only|].
  apply all_runs_ask. intros now. apply all_runs_bind.
  eapply all_runs_mono; [apply until_deadline_true; [apply streams_runs|]|].
  { intros a b (p & s & ? & ?). exists p, s. set_solver. }
  cbn. intros r tr Hr. rewrite app_nil_r. case_bool_decide as E; [|done]. intros _.
  destruct (Hr E) as (p & s & ? & ?). exists p, s. set_solver.
Qed.

Lemma restart_node_down t id :
  all_runs (restart_node t id) (λ _ tr,
    ∃ d, nodes_down [] tr = Some d ∧ ∀ n, n ∈ d → n ∈ [id]).
Proof.
  unfold restart_node. destruct (node_configs t !! id); [|exists []; split; [done|set_solver]].
  intros []; cbn; [|exists []; split; [done|set_solver]]. intros r. exists [id]. by split.
Qed.

Lemma restart_standbys_runs t ids :
  all_runs (restart_standbys t ids) (λ r tr,
    is_Some (nodes_down [] tr) ∧ (r = Some () → nodes_down [] tr = Some [])).
Proof.
  induction ids as [|id ids IH]; cbn [restart_standbys]; [done|].
  apply all_runs_bind. eapply all_runs_mono; [apply (restart_node_down t id)|]. cbn beta.
  intros r tr1 (d1 & Hd1 & Hid). destruct r as [[]|]; [|by cbn; rewrite app_nil_r, Hd1].
  apply all_runs_bind. eapply all_runs_mono; [apply wait_until_streaming_runs|]. cbn beta.
  intros r tr2 [Hns Hs]. destruct r as [[]|].
  - destruct (Hs eq_refl) as (q & s & Hin & Hsi).
    destruct (nodes_down_seen d1 tr2 id q s Hns Hin Hsi) as (d2 & Hd2 & Hsub & Hout).
    assert (d2 = []) as ->.
    { destruct d2 as [|n d2]; [done|]. exfalso. apply Hout.
      assert (n = id) as <- by (apply list_elem_of_singleton, Hid, Hsub; constructor). constructor. }
    eapply all_runs_mono; [exact IH|]. cbn beta. intros r tr3.
    by rewrite nodes_down_app, Hd1; cbn; rewrite nodes_down_app, Hd2.
  - cbn. rewrite app_nil_r, nodes_down_app, Hd1. cbn.
    by destruct (nodes_down_keeps d1 tr2 Hns) as (d & -> & _).
Qed.

(** In every run of a rolling restart a node is stopped only when each node
    stopped before was since reported streaming by a primary. *)
Theorem rolling_one_at_a_time p :
  all_runs (rolling_restart p) (λ _ tr, is_Some (nodes_down [] tr)).
Proof.
  apply all_runs_ask. intros t. destruct (standbys_in_order t) as [ids|]; [|by exists []].
  apply all_runs_bind. eapply all_runs_mono; [apply restart_standbys_runs|]. cbn beta.
  intros [[]|] tr [Hd Hok]; [|by cbn; rewrite app_nil_r].
  eapply all_runs_mono with (Q := λ _ tr', (length (List.filter is_stop tr') ≤ 1)%nat).
  - destruct ids as [|i ids]; [apply restart_node_stops|].
    apply (stops_bind 0 1).
    { unfold pick_live_candidate, live_positions, live_check. no_stops. }
    intros [picked|]; [|apply stops_ret].
    apply (stops_bind 1 0); [apply planned_switchover_stops|]. intros [[]|]; [|apply stops_ret].
    apply stops_none. apply wait_until_streaming_only.
  - cbn beta. intros _ tr' Hl. cbn. rewrite nodes_down_app, Hok by done. by apply nodes_down_one.
Qed.

End rolling.

(** ** Executions *)

Definition test_params : SwitchoverParams := mkParams "c" 100 30 "u" "p" true 3000 "pg_".

(** Every node keeps reporting that it is in recovery, at one position. *)
Definition slow_env (e : event) (s : bool) : answer e * bool :=
  match e return answer e * bool → answer e * bool with
  | GetStatus _ => λ _, (Some (test_status true 90), s)
  | _ => λ r, r
  end (test_env e s).

(** The old primary refuses its demotion. *)
Definition refusing_env (e : event) (s : bool) : answer e * bool :=
  match e return answer e * bool → answer e * bool with
  | Demote _ _ _ _ => λ _, (Some false, s)
  | _ => λ r, r
  end (test_env e s).

Definition promoted (tr : trace) : list string :=
  omap (λ o, match o with
             | Obs e r => match e return answer e → option string with
                          | Promote n => λ ok, if bool_decide (ok = Some true) then Some n else None
                          | _ => λ _, None
                          end r
             end) tr.

Definition drains (tr : trace) : list bool :=
  omap (λ o, match obs_ev o with BeginDrain => Some true | EndDrain => Some false | _ => None end) tr.

(** A new primary that is slow to leave recovery and the old one restored after
    it both answer a promotion with success. *)
Lemma switchover_promotes_both :
  promoted (run slow_env (@execute_switchover map_order test_cluster test_params) false).1.2 =
  ["c"; "a"].
Proof. vm_compute. reflexivity. Qed.

(** A switchover that stops at the demotion leaves the proxy draining. *)
Lemma drain_left_open :
  drains (run refusing_env (@execute_switchover map_order test_cluster test_params) false).1.2 =
  [true].
Proof. vm_compute. reflexivity. Qed.
