(* ===== verification/Operations.v ===== *)
(** Operator requests, and how operations exclude each other:
    src/pgcluster/src/api/{switchover,failover,restart,maintenance,nodes}.rs.

    Each handler is a program that answers with an HTTP status and, where it
    starts one, a background task. Handlers, background tasks and turns of the
    node monitor run concurrently and share the flag [op_in_progress]; the last
    part runs any number of them interleaved, with the flag as the one shared
    variable, and [promotions_exclusive] says that no two of them are ever
    about to promote a node at the same time. *)
From S2P Require Import Prelude Topology Lease Config Effects Failover Monitor Switchover.

Local Open Scope Z_scope.

(** ** Handlers *)

(** The status, and the task left running. *)
Record reply := mkReply { http_status : Z; background : option (eff ()) }.

Definition answered (status : Z) : eff reply := Ret (mkReply status None).

Section handlers.
Context `{!HashOrder}.
Variable rep : ReplicationConfig.
Variable drain : bool.

Definition enter_maintenance (id : string) : eff reply :=
  t ← ask CurrentTopology;
  if negb (bool_decide (is_Some (node_configs t !! id))) then answered 404 else
  if String.eqb (primary_node_id t) id then answered 400 else
  ok ← ask (ClientWrite (MarkMaintenance id));
  answered (if ok : bool then 200 else 500).

Definition exit_maintenance (id : string) : eff reply :=
  t ← ask CurrentTopology;
  if negb (bool_decide (is_Some (node_configs t !! id))) then answered 404 else
  if negb (bool_decide (node_roles t !! id = Some Maintenance)) then answered 400 else
  ok ← ask (ClientWrite (MarkReplica id 0));
  answered (if ok : bool then 200 else 500).

Definition add_node_request (id agent postgres : string) (prio : option Z) (external : bool)
    : eff reply :=
  let tags : gmap string string := if external then {[ "role" := EXTERNAL_ROLE ]} else ∅ in
  ok ← ask (ClientWrite (AddNode (mkNodeConfig id agent postgres (default 100 prio) tags)));
  answered (if ok : bool then 201 else 500).

(** [drop_slot] of nodes.rs. *)
Definition drop_node_slot (t : ClusterTopology) (id : string) : eff () :=
  match primary_postgres_addr t with
  | None => Ret ()
  | Some addr =>
      password ← ask (Credential (replication_password_env rep));
      _ ← drop_slot (postgres_url (replication_user rep) password addr)
            (slot_prefix rep ++ id)%string;
      Ret ()
  end.

Definition remove_node_request (id : string) : eff reply :=
  _ ← ask (Evict id);
  t ← ask CurrentTopology;
  ok ← ask (ClientWrite (RemoveNode id));
  if ok : bool
  then _ ← drop_node_slot t id; answered 204
  else answered 500.

(** [settings] are those of the configured backups. *)
Definition seed_node (settings : option (gmap string string)) (id : string)
    (force from_backup : bool) : eff reply :=
  t ← ask CurrentTopology;
  plan ← seed_plan t id (replication_user rep) (replication_password_env rep) (slot_prefix rep);
  match plan : option SeedPlan with
  | None => answered 409
  | Some p =>
      match from_backup, settings with
      | true, None => answered 404
      | true, Some s => Ret (mkReply 202 (Some (_ ← run_from_backup p s force; Ret ())))
      | false, _ => Ret (mkReply 202 (Some (_ ← run_seed p force; Ret ())))
      end
  end.

Definition is_leader : eff bool :=
  leader ← ask CurrentLeader;
  me ← ask MyId;
  Ret (bool_decide (leader = Some me)).

Definition detach (t : ClusterTopology) (id addr : string) : eff (option ()) :=
  _ ←? on_agent id addr (succeeded (ask (Detach id)));
  ok ← ask (ClientWrite (RemoveNode id));
  if ok : bool
  then _ ← ask (Evict id); _ ← drop_node_slot t id; Ret (Some ())
  else Ret None.

Definition detach_node (id : string) : eff reply :=
  t ← ask CurrentTopology;
  match node_configs t !! id with
  | None => answered 404
  | Some node =>
      if negb (is_external node) then answered 409 else
      leader ← is_leader;
      if negb leader then answered 503 else
      got ← ask TryAcquireOp;
      if negb got then answered 409 else
      r ← detach t id (agent_addr node);
      _ ← ask ReleaseOp;
      answered (if bool_decide (r = Some ()) then 204 else 500)
  end.

Definition params_for (target : string) (max_lag timeout : Z) (password : string)
    : SwitchoverParams :=
  mkParams target max_lag timeout (replication_user rep) password drain 3000 (slot_prefix rep).

(** A background task under the guard that releases the flag when it ends. *)
Definition guarded {A} (p : eff A) : option (eff ()) := Some (_ ← p; ask ReleaseOp).

Definition trigger_switchover (target : string) (max_lag timeout : Z) : eff reply :=
  t ← ask CurrentTopology;
  match node_configs t !! target with
  | None => answered 404
  | Some cfg =>
      if String.eqb (primary_node_id t) target then answered 400 else
      if is_external cfg then answered 400 else
      match node_roles t !! target with
      | Some Replica =>
          got ← ask TryAcquireOp;
          if negb got then answered 409 else
          password ← ask (Credential (replication_password_env rep));
          Ret (mkReply 202 (guarded (planned_switchover (params_for target max_lag timeout password))))
      | _ => answered 400
      end
  end.

(** The task of a manual failover. *)
Definition manual_failover (t : ClusterTopology) (failed password : string) : eff () :=
  ok ← ask (ClientWrite (MarkOffline failed));
  if ok : bool
  then trigger_failover t failed (replication_user rep) password (slot_prefix rep)
  else Ret ().

Definition trigger_manual_failover (failed : string) : eff reply :=
  got ← ask TryAcquireOp;
  if negb got then answered 409 else
  t ← ask CurrentTopology;
  if negb (bool_decide (is_Some (node_configs t !! failed)))
  then _ ← ask ReleaseOp; answered 404
  else
    password ← ask (EnvVar (replication_password_env rep));
    Ret (mkReply 202 (guarded (manual_failover t failed password))).

Definition start_restart : eff reply :=
  leader ← is_leader;
  if negb leader then answered 503 else
  got ← ask TryAcquireOp;
  if negb got then answered 409 else
  password ← ask (Credential (replication_password_env rep));
  Ret (mkReply 202 (guarded (rolling_restart (params_for EmptyString (1024 * 1024) 60 password)))).

(** The requests that change the cluster. *)
Inductive request_ :=
| EnterMaintenance (id : string)
| ExitMaintenance (id : string)
| AddNodeReq (id agent postgres : string) (prio : option Z) (external : bool)
| RemoveNodeReq (id : string)
| SeedNodeReq (settings : option (gmap string string)) (id : string) (force from_backup : bool)
| DetachReq (id : string)
| SwitchoverReq (target : string) (max_lag timeout : Z)
| FailoverReq (failed : string)
| RestartReq.

Definition handle (q : request_) : eff reply :=
  match q with
  | EnterMaintenance id => enter_maintenance id
  | ExitMaintenance id => exit_maintenance id
  | AddNodeReq id a p prio ext => add_node_request id a p prio ext
  | RemoveNodeReq id => remove_node_request id
  | SeedNodeReq s id force fb => seed_node s id force fb
  | DetachReq id => detach_node id
  | SwitchoverReq target lag timeout => trigger_switchover target lag timeout
  | FailoverReq failed => trigger_manual_failover failed
  | RestartReq => start_restart
  end.

(** A request with the task it leaves. *)
Definition serve (q : request_) : eff () :=
  r ← handle q;
  match background r with
  | Some task => task
  | None => Ret ()
  end.

End handlers.

(** ** The flag discipline *)

(** [p], started while its task holds the flag or not ([b]), takes the flag
    only when it does not hold it, gives back only what it holds, promotes only
    while holding it, and ends with [Q]. *)
Fixpoint disciplined {A} (b : bool) (p : eff A) (Q : bool → A → Prop) : Prop :=
  match p with
  | Ret a => Q b a
  | Vis e k =>
      match e as e' return (answer e' → eff A) → Prop with
      | TryAcquireOp => λ k, b = false ∧ disciplined true (k true) Q ∧ disciplined false (k false) Q
      | ReleaseOp => λ k, b = true ∧ disciplined false (k ()) Q
      | Promote n => λ k, b = true ∧ ∀ r, disciplined b (k r) Q
      | _ => λ k, ∀ r, disciplined b (k r) Q
      end k
  end.

(** A task that ends without the flag. *)
Definition well_behaved (b : bool) (p : eff ()) : Prop := disciplined b p (λ b' _, b' = false).

(** ** Tasks running together *)

(** What a call does to the flag, and the answers it can get. *)
Definition flag_step (e : event) (r : answer e) (flag flag' : bool) : Prop :=
  match e return answer e → Prop with
  | TryAcquireOp => λ ok, ok = negb flag ∧ flag' = true
  | ReleaseOp => λ _, flag' = false
  | _ => λ _, flag' = flag
  end r.

Section system.
Context `{!HashOrder}.
Variable settings_version : gmap string string → string.
Variable m : NodeMonitor.
Variable drain : bool.

(** What can start: a request, a turn of the monitor or of the heartbeats, or
    a task the monitor spawned. *)
Inductive starts : eff () → Prop :=
| starts_request q : starts (serve (mon_replication m) drain q)
| starts_tick st ticks : starts (_ ← monitor_tick settings_version m st ticks; Ret ())
| starts_heartbeats : starts heartbeat_tick
| starts_task k : starts (_ ← run_task k; Ret ()).

(** The flag and the running tasks. One task makes its next call, or a new one
    starts. *)
Inductive sys_step : bool * list (eff ()) → bool * list (eff ()) → Prop :=
| task_step flag flag' before e k after r :
    flag_step e r flag flag' →
    sys_step (flag, before ++ Vis e k :: after) (flag', before ++ k r :: after)
| task_start flag tasks p :
    starts p → sys_step (flag, tasks) (flag, p :: tasks).

Definition reachable : bool * list (eff ()) → Prop := rtc sys_step (false, []).

(** At most one task is about to promote. *)
Definition exclusive (s : bool * list (eff ())) : Prop :=
  ∀ i j n n' k k', s.2 !! i = Some (Vis (Promote n) k) → s.2 !! j = Some (Vis (Promote n') k') → i = j.

(** Who holds the flag. *)
Definition flag_inv (s : bool * list (eff ())) : Prop :=
  ∃ holds, Forall2 well_behaved holds s.2 ∧
           length (List.filter (λ b, b) holds) = (if s.1 then 1 else 0)%nat.

End system.

(** ** Lemmas on the discipline *)

Definition flagless (o : obs answer) : Prop :=
  match obs_ev o with TryAcquireOp | ReleaseOp => False | _ => True end.

Definition calm (o : obs answer) : Prop :=
  match obs_ev o with TryAcquireOp | ReleaseOp | Promote _ => False | _ => True end.

Lemma disciplined_mono {A} b (p : eff A) (Q Q' : bool → A → Prop) :
  disciplined b p Q → (∀ b a, Q b a → Q' b a) → disciplined b p Q'.
Proof.
  intros Hp HQ. revert b Hp. induction p as [a|e k IH]; intros b; cbn; [auto|].
  destruct e; try (intros Hk r; by apply IH); naive_solver.
Qed.

Lemma disciplined_bind {A B} b (p : eff A) (f : A → eff B) Q :
  disciplined b p (λ b' a, disciplined b' (f a) Q) → disciplined b (p ≫= f) Q.
Proof.
  unfold mbind, prog_bind. revert b. induction p as [a|e k IH]; intros b; cbn; [auto|].
  destruct e; try (intros Hk r; by apply IH); naive_solver.
Qed.

Lemma calm_disciplined {A} b (p : eff A) :
  only calm p → disciplined b p (λ b' _, b' = b).
Proof.
  induction p as [a|e k IH]; intros Hp; cbn in *; [done|].
  destruct e; try (intros r; apply IH, Hp).
  - destruct (Hp None) as [[] _].
  - destruct (Hp true) as [[] _].
  - destruct (Hp ()) as [[] _].
Qed.

Lemma flagless_disciplined {A} (p : eff A) :
  only flagless p → disciplined true p (λ b' _, b' = true).
Proof.
  induction p as [a|e k IH]; intros Hp; cbn in *; [done|].
  destruct e; try (intros r; apply IH, Hp).
  - split; [done|]. intros r. apply IH, Hp.
  - destruct (Hp true) as [[] _].
  - destruct (Hp ()) as [[] _].
Qed.

(** A calm part before the rest. *)
Lemma calm_bind {A B} b (p : eff A) (f : A → eff B) Q :
  only calm p → (∀ a, disciplined b (f a) Q) → disciplined b (p ≫= f) Q.
Proof.
  intros Hp Hf. apply disciplined_bind.
  eapply disciplined_mono; [by apply calm_disciplined|]. by intros b' a ->.
Qed.

Ltac calm_steps := only_steps ltac:(exact I).

Lemma flagless_bind {A B} (p : eff A) (f : A → eff B) Q :
  only flagless p → (∀ a, disciplined true (f a) Q) → disciplined true (p ≫= f) Q.
Proof.
  intros Hp Hf. apply disciplined_bind.
  eapply disciplined_mono; [by apply flagless_disciplined|]. by intros b' a ->.
Qed.

Lemma calm_flagless {A} (p : eff A) : only calm p → only flagless p.
Proof. intros Hp. eapply only_mono; [exact Hp|]. intros [e r]. by destruct e. Qed.

(** The task a reply leaves ends without the flag. *)
Definition replied (b : bool) (r : reply) : Prop :=
  match background r with
  | None => b = false
  | Some task => well_behaved b task
  end.

Lemma acquire_bind {B} (f : bool → eff B) Q :
  disciplined true (f true) Q → disciplined false (f false) Q →
  disciplined false (ask TryAcquireOp ≫= f) Q.
Proof. by split. Qed.

Lemma release_bind {B} (f : () → eff B) Q :
  disciplined false (f ()) Q → disciplined true (ask ReleaseOp ≫= f) Q.
Proof. by split. Qed.

(** Walk through a handler, leaving its calm parts and its background tasks. *)
Ltac handler_steps :=
  repeat match goal with
  | |- disciplined _ (answered _) _ => reflexivity
  | |- disciplined _ (mbind _ (ask TryAcquireOp)) _ => apply acquire_bind
  | |- disciplined _ (mbind _ (ask ReleaseOp)) _ => apply release_bind
  | |- disciplined true (mbind _ _) _ => apply flagless_bind; [calm_steps|intros ?]
  | |- disciplined _ (mbind _ _) _ => apply calm_bind; [calm_steps|intros ?]
  | |- disciplined _ (if negb true then _ else _) _ => cbn [negb]
  | |- disciplined _ (if negb false then _ else _) _ => cbn [negb]
  | |- disciplined _ (match ?x with _ => _ end) _ => destruct x
  end.

Section discipline.
Context `{!HashOrder}.
Variable settings_version : gmap string string → string.
Variable m : NodeMonitor.
Variable drain : bool.

Lemma verify_flagless id addr n i : only flagless (verify_promotion id addr n i).
Proof. induction n as [|n IH]; cbn [verify_promotion]; [done|]. calm_steps. all: exact IH. Qed.

Lemma trigger_failover_flagless t failed user password pfx :
  only flagless (trigger_failover t failed user password pfx).
Proof.
  unfold trigger_failover, pick_live_candidate, live_positions, live_check, promote_node,
    record_and_repoint, build_failover_event, repoint_followers, ensure_slots_for_replicas,
    repoint_replicas, repoint. calm_steps. apply verify_flagless.
Qed.

Lemma settle_flagless id addr n last steady : only flagless (settle id addr n last steady).
Proof.
  revert last steady. induction n as [|n IH]; intros last steady; cbn [settle]; [done|].
  calm_steps. apply IH.
Qed.

Lemma until_deadline_flagless fuel deadline interval body :
  only flagless body → only flagless (until_deadline fuel deadline interval body).
Proof.
  intros Hb. induction fuel as [|fuel IH]; cbn [until_deadline]; [done|]. calm_steps; done.
Qed.

Lemma planned_switchover_flagless p : only flagless (planned_switchover p).
Proof.
  unfold planned_switchover, wait_for_replica_sync, execute_switchover, demote_old, succeeded,
    stop_old, wait_for_position_to_settle, take_over, promote_new, promote_node, restore_old,
    leave_drain, repoint_others, ensure_slots_for_replicas, repoint_replicas, repoint.
  calm_steps; [by apply until_deadline_flagless|apply settle_flagless|apply verify_flagless].
Qed.

Lemma wait_until_streaming_flagless id : only flagless (wait_until_streaming id).
Proof.
  unfold wait_until_streaming. calm_steps. apply until_deadline_flagless.
  unfold streams, check_node, query_node. calm_steps.
Qed.

Lemma rolling_restart_flagless p : only flagless (rolling_restart p).
Proof.
  assert (Hr : ∀ t ids, only flagless (restart_standbys t ids)).
  { intros t ids. induction ids as [|id ids IH]; cbn [restart_standbys]; [done|].
    unfold restart_node, succeeded. calm_steps; [apply wait_until_streaming_flagless|done]. }
  unfold rolling_restart, restart_node, succeeded, pick_live_candidate, live_positions, live_check.
  calm_steps; [apply Hr|apply planned_switchover_flagless|apply wait_until_streaming_flagless].
Qed.

(** A background task under the guard. *)
Lemma guarded_disciplined {A} (p : eff A) :
  only flagless p → well_behaved true (_ ← p; ask ReleaseOp).
Proof. intros Hp. by apply flagless_bind. Qed.

Lemma plan_calm t id user env pfx : only calm (seed_plan t id user env pfx).
Proof. unfold seed_plan. calm_steps. Qed.

Lemma run_seed_calm p force : only calm (run_seed p force).
Proof. unfold run_seed, plan_ensure_slot, ensure_slot, succeeded. calm_steps. Qed.

Lemma run_task_calm k : only calm (run_task k).
Proof.
  destruct k; cbn [run_task]; [apply run_seed_calm|].
  unfold rejoin, plan_ensure_slot, ensure_slot. calm_steps. apply run_seed_calm.
Qed.

Lemma run_from_backup_calm p s force : only calm (run_from_backup p s force).
Proof. unfold run_from_backup, plan_ensure_slot, ensure_slot, succeeded. calm_steps. Qed.

Lemma drop_node_slot_calm rep t id : only calm (drop_node_slot rep t id).
Proof. unfold drop_node_slot, drop_slot. calm_steps. Qed.

Lemma detach_calm rep t id addr : only calm (detach rep t id addr).
Proof. unfold detach, succeeded. calm_steps. apply drop_node_slot_calm. Qed.

Lemma handle_disciplined rep q : disciplined false (handle rep drain q) replied.
Proof.
  destruct q; cbn [handle];
    unfold enter_maintenance, exit_maintenance, add_node_request, remove_node_request,
      seed_node, detach_node, trigger_switchover, trigger_manual_failover, start_restart,
      is_leader, guarded; handler_steps.
  all: try apply drop_node_slot_calm. all: try apply plan_calm. 
  all: try apply calm_flagless, detach_calm.
  - apply calm_bind; [apply run_from_backup_calm|done].
  - apply calm_bind; [apply run_seed_calm|done].
  - apply guarded_disciplined, planned_switchover_flagless.
  - apply guarded_disciplined. unfold manual_failover. calm_steps.
    apply trigger_failover_flagless.
  - apply guarded_disciplined, rolling_restart_flagless.
Qed.

Lemma serve_disciplined rep q : well_behaved false (serve rep drain q).
Proof.
  apply disciplined_bind. eapply disciplined_mono; [apply handle_disciplined|].
  intros b r Hr. unfold replied in Hr. by destruct (background r).
Qed.

Lemma on_healthy_calm t cfg r st : only calm (on_healthy m t cfg r st).
Proof.
  unfold on_healthy, is_stale_primary, spawn_rejoin, push_backup_settings, primary_recovered,
    mark_replica, repoint_stale, repl_password, plan_for. calm_steps. all: apply plan_calm.
Qed.

Lemma reconcile_calm t primary timer :
  only calm (reconcile_replication settings_version m t primary timer).
Proof.
  unfold reconcile_replication, ensure_proxy_auth, act_on_fallback, apply_names,
    apply_parameters, track_reseeds, write_needs_reseed. calm_steps.
Qed.

Lemma process_result_disciplined t st r :
  disciplined false (process_result m t st r) (λ b _, b = false).
Proof.
  unfold process_result, spawn_seed, plan_for, on_unhealthy, fail_over, repl_password.
  handler_steps; try reflexivity; try apply plan_calm.
  - apply calm_disciplined, on_healthy_calm.
  - apply trigger_failover_flagless.
Qed.

Lemma poll_all_nodes_disciplined t st :
  disciplined false (poll_all_nodes settings_version m t st) (λ b _, b = false).
Proof.
  apply calm_bind; [unfold check_node, query_node; calm_steps|intros results].
  apply calm_bind; [calm_steps|intros l].
  apply calm_bind; [calm_steps; apply reconcile_calm|intros st'].
  revert st'. induction l as [|r l IH]; intros st'; cbn [process_results]; [done|].
  apply disciplined_bind. eapply disciplined_mono; [apply process_result_disciplined|].
  intros b st'' ->. apply IH.
Qed.

Lemma monitor_tick_disciplined st ticks :
  well_behaved false (_ ← monitor_tick settings_version m st ticks; Ret ()).
Proof.
  apply disciplined_bind. apply calm_bind; [calm_steps|]. intros [leader|]; [|done].
  apply calm_bind; [calm_steps|intros me]. destruct (negb _); [done|].
  apply calm_bind; [calm_steps|intros []]; [|done].
  apply calm_bind; [calm_steps|intros t]. apply disciplined_bind.
  eapply disciplined_mono; [apply poll_all_nodes_disciplined|]. intros b st' ->.
  apply calm_bind; [|done]. unfold audit_slots, drop_orphaned_slots, repl_password. calm_steps.
Qed.

Lemma starts_disciplined p : starts settings_version m drain p → well_behaved false p.
Proof.
  intros [q|st ticks| |k].
  - apply serve_disciplined.
  - apply monitor_tick_disciplined.
  - apply calm_disciplined. unfold heartbeat_tick, send_heartbeat. calm_steps.
  - apply calm_bind; [apply run_task_calm|done].
Qed.

(** A task's next call keeps the discipline, and changes what it holds as it
    changes the flag. *)
Lemma disciplined_step b e (k : answer e → eff ()) r flag flag' :
  well_behaved b (Vis e k) → flag_step e r flag flag' → (b = true → flag = true) →
  ∃ b', well_behaved b' (k r) ∧
        (Nat.b2n b' + Nat.b2n flag = Nat.b2n b + Nat.b2n flag')%nat.
Proof.
  intros Hw Hf Hb. destruct e; cbn in Hw, Hf;
    try (subst flag'; exists b; split; [apply Hw|lia]).
  - destruct Hf as [-> ->], Hw as (-> & Ht & Hn). destruct flag; cbn.
    + by exists false.
    + by exists true.
  - destruct Hw as [-> Hw]. destruct r. subst flag'. exists false.
    split; [done|]. by rewrite Hb.
Qed.

Lemma holders_app (a b : list bool) :
  length (List.filter (λ b, b) (a ++ b)) =
  (length (List.filter (λ b, b) a) + length (List.filter (λ b, b) b))%nat.
Proof. by rewrite List.filter_app, length_app. Qed.

Lemma holders_cons b (l : list bool) :
  length (List.filter (λ b, b) (b :: l)) = (Nat.b2n b + length (List.filter (λ b, b) l))%nat.
Proof. by destruct b. Qed.

Lemma flag_inv_step s s' :
  sys_step settings_version m drain s s' → flag_inv s → flag_inv s'.
Proof.
  intros [flag flag' before e k after r Hf|flag tasks p Hp] (holds & Hall & Hlen).
  - apply Forall2_app_inv_r in Hall as (h1 & h2 & H1 & H2 & ->).
    apply Forall2_cons_inv_r in H2 as (b & h2' & Hw & H2 & ->).
    rewrite holders_app, holders_cons in Hlen. cbn [fst] in Hlen.
    destruct (disciplined_step b e k r flag flag' Hw Hf) as (b' & Hw' & Hn).
    { intros ->. destruct flag; [done|]. cbn in Hlen. lia. }
    exists (h1 ++ b' :: h2'). split; [by apply Forall2_app; [|constructor]|].
    rewrite holders_app, holders_cons. cbn [fst].
    destruct flag, flag'; cbn in *; lia.
  - exists (false :: holds). split; [|done]. constructor; [|done]. by apply starts_disciplined.
Qed.

Lemma holder_unique (holds : list bool) i j :
  (length (List.filter (λ b, b) holds) ≤ 1)%nat →
  holds !! i = Some true → holds !! j = Some true → i = j.
Proof.
  revert i j. induction holds as [|b holds IH]; intros i j; [done|].
  assert (H0 : ∀ l n, l !! n = Some true → (1 ≤ length (List.filter (λ b, b) l))%nat).
  { intros l. induction l as [|b' l IHl]; intros n; [done|]. rewrite holders_cons.
    destruct n as [|n]; cbn; [intros [= ->]; cbn; lia|]. intros Hn%IHl. lia. }
  rewrite holders_cons. destruct i as [|i], j as [|j]; cbn; [done|..].
  - intros Hl [= ->] Hj%H0. cbn in Hl. lia.
  - intros Hl Hi%H0 [= ->]. cbn in Hl. lia.
  - intros Hl Hi Hj. f_equal. apply IH; [lia|done|done].
Qed.

Lemma reachable_flag_inv s : reachable settings_version m drain s → flag_inv s.
Proof.
  assert (Hall : ∀ s s', rtc (sys_step settings_version m drain) s s' → flag_inv s → flag_inv s').
  { intros s1 s2. induction 1; eauto using flag_inv_step. }
  intros Hr. eapply Hall; [exact Hr|]. exists []. by split; [constructor|].
Qed.

(** C2 Run any number of operator requests, their background tasks, monitor and
    heartbeat turns and tasks the monitor spawned, interleaved call by call and
    with all answers possible: never are two of them about to promote a node. *)
Theorem promotions_exclusive s : reachable settings_version m drain s → exclusive s.
Proof.
  intros (holds & Hall & Hlen)%reachable_flag_inv i j n n' k k' Hi Hj.
  destruct (Forall2_lookup_r _ _ _ _ _ Hall Hi) as (b & Hb & [-> _]).
  destruct (Forall2_lookup_r _ _ _ _ _ Hall Hj) as (b' & Hb' & [-> _]).
  eapply holder_unique; [|done|done]. rewrite Hlen. destruct s.1; lia.
Qed.

End discipline.

(** ** An execution *)

(** The next call of the one running task, answered by [test_env] over the
    cluster of the failover example. *)
Definition advance (s : bool * eff ()) : bool * eff () :=
  match s.2 with
  | Ret _ => s
  | Vis e k =>
      match e as e' return (answer e' → eff ()) → bool * eff () with
      | TryAcquireOp => λ k, (true, k (negb s.1))
      | ReleaseOp => λ k, (false, k ())
      | CurrentTopology => λ k, (s.1, k test_cluster)
      | e' => λ k, (s.1, k (test_env e' false).1)
      end k
  end.

Fixpoint advance_n (n : nat) (s : bool * eff ()) : bool * eff () :=
  match n with O => s | S n => advance_n n (advance s) end.

Definition test_monitor : NodeMonitor :=
  mkMonitor default_failover (mkReplicationConfig "u" "PW" "pg_" Sync 30 1024)
    (mkAuthRole "auth" "AUTH") None 120.

(** A manual failover of [a], started and run for [n] calls. *)
Definition test_system (n : nat) : bool * list (eff ()) :=
  let s := advance_n n (false, @serve map_order (mon_replication test_monitor) true (FailoverReq "a")) in
  (s.1, [s.2]).

(** The node the first task is about to promote. *)
Definition promoting (s : bool * list (eff ())) : option string :=
  match s.2 with
  | Vis (Promote n) _ :: _ => Some n
  | _ => None
  end.

Lemma advance_reachable `{!HashOrder} v m d s :
  reachable v m d (s.1, [s.2]) → reachable v m d ((advance s).1, [(advance s).2]).
Proof.
  intros Hr. destruct s as [flag [a|e k]]; [done|]. eapply rtc_r; [exact Hr|].
  destruct e; cbn; eapply (task_step v m d flag _ [] _ k []); cbn; reflexivity || by split.
Qed.

Lemma test_system_reachable v n :
  @reachable map_order v test_monitor true (test_system n).
Proof.
  unfold test_system. set (p := serve _ _ _).
  assert (H0 : @reachable map_order v test_monitor true (false, [p])).
  { apply rtc_once, task_start. apply (@starts_request map_order). }
  change (false, [p]) with ((false, p).1, [(false, p).2]) in H0.
  revert H0. generalize (false, p). clear p.
  induction n as [|n IH]; intros s Hs; cbn; [done|]. by apply IH, advance_reachable.
Qed.

Lemma promotions_exclusive_witness :
  promoting (test_system 15) = Some "c" ∧ exclusive (test_system 15).
Proof.
  split.
  - vm_compute. reflexivity.
  - apply (@promotions_exclusive map_order (λ _, EmptyString) test_monitor true).
    apply test_system_reachable.
Defined.
