(* ===== verification/Fencing.v ===== *)
(** The agent's safe mode and self-fencing: src/vk-agent/src/heartbeat.rs and
    the fencing loop of src/vk-agent/src/main.rs.

    The tracker is a record and each of its methods a function of it and of the
    clock it reads. An agent is a tracker with a flag for the exit of its
    process, moved by heartbeats, by turns of the two loops and by the detach
    RPC, each at its time. Methods run one at a time here; the last section
    splits [touch_tracker] and the watchdog at their stores, where they can overlap.

    [fence_means_silence] says that an agent stops Postgres only after a long
    enough silence, and [silent_agent_fences] that it does so in time. *)
From S2P Require Import Prelude.

Local Open Scope Z_scope.

(** ** The tracker *)

Record HeartbeatTracker := mkTracker {
  last_seen : Z;
  hb_timeout : Z;
  in_safe_mode : bool;
  safe_mode_since : option Z;
  detached : bool
}.

Definition tracker_new (timeout now : Z) : HeartbeatTracker :=
  mkTracker now timeout false None false.

(** [touch_tracker] stores the time, then swaps the flag, then clears the start of safe
    mode if the flag was set. *)
Definition touch_seen (now : Z) (t : HeartbeatTracker) : HeartbeatTracker :=
  mkTracker now (hb_timeout t) (in_safe_mode t) (safe_mode_since t) (detached t).
Definition touch_swap (t : HeartbeatTracker) : bool * HeartbeatTracker :=
  (in_safe_mode t, mkTracker (last_seen t) (hb_timeout t) false (safe_mode_since t) (detached t)).
Definition touch_clear (was : bool) (t : HeartbeatTracker) : HeartbeatTracker :=
  if was then mkTracker (last_seen t) (hb_timeout t) (in_safe_mode t) None (detached t) else t.

Definition touch_tracker (now : Z) (t : HeartbeatTracker) : HeartbeatTracker :=
  let '(was, t) := touch_swap (touch_seen now t) in touch_clear was t.

Definition is_safe_mode (t : HeartbeatTracker) : bool := negb (detached t) && in_safe_mode t.

Definition detach_tracker (t : HeartbeatTracker) : HeartbeatTracker :=
  mkTracker (last_seen t) (hb_timeout t) (in_safe_mode t) (safe_mode_since t) true.

(** [Instant::elapsed] saturates at zero. *)
Definition time_in_safe_mode (now : Z) (t : HeartbeatTracker) : option Z :=
  if detached t then None else (λ s, saturating_sub now s) <$> safe_mode_since t.

(** One turn of the watchdog: the test, the store of the flag, and the store of
    the time. *)
Definition watchdog_due (now : Z) (t : HeartbeatTracker) : bool :=
  (hb_timeout t <? saturating_sub now (last_seen t)) && negb (in_safe_mode t).
Definition watchdog_flag (t : HeartbeatTracker) : HeartbeatTracker :=
  mkTracker (last_seen t) (hb_timeout t) true (safe_mode_since t) (detached t).
Definition watchdog_since (now : Z) (t : HeartbeatTracker) : HeartbeatTracker :=
  mkTracker (last_seen t) (hb_timeout t) (in_safe_mode t) (Some now) (detached t).

Definition watchdog_turn (now : Z) (t : HeartbeatTracker) : HeartbeatTracker :=
  if watchdog_due now t then watchdog_since now (watchdog_flag t) else t.

(** One turn of the fencing loop: whether it stops Postgres and exits. [running]
    is what [pg_ctl status] answers, with an error taken for no. *)
Definition fence_turn (fence now : Z) (running : bool) (t : HeartbeatTracker) : bool :=
  match time_in_safe_mode now t with
  | Some elapsed => (fence <=? elapsed) && running
  | None => false
  end.

(** ** The agent *)

Inductive agent_move :=
| Beat
| WatchdogTurn
| FenceTurn (running : bool)
| DetachRpc.

(** [alive] is false once the process has exited. *)
Record agent := mkAgent { tracker : HeartbeatTracker; alive : bool }.

(** [fence] is zero when self-fencing is off: the loop is then not spawned. *)
Definition agent_step (fence : Z) (a : agent) (m : Z * agent_move) : agent :=
  if negb (alive a) then a
  else match m.2 with
       | Beat => mkAgent (touch_tracker m.1 (tracker a)) true
       | WatchdogTurn => mkAgent (watchdog_turn m.1 (tracker a)) true
       | FenceTurn running =>
           mkAgent (tracker a) ((fence =? 0) || negb (fence_turn fence m.1 running (tracker a)))
       | DetachRpc => mkAgent (detach_tracker (tracker a)) true
       end.

Definition agent_run (fence : Z) (a : agent) (ms : list (Z * agent_move)) : agent :=
  foldl (agent_step fence) a ms.

(** The agent main starts at [t0]. *)
Definition agent_new (timeout t0 : Z) : agent := mkAgent (tracker_new timeout t0) true.

(** ** Specifications *)

(** Times do not go back. *)
Definition in_order (t0 : Z) (ms : list (Z * agent_move)) : Prop :=
  StronglySorted Z.le (t0 :: ms.*1).

(** The last heartbeat, or the start. *)
Definition last_beat (t0 : Z) (ms : list (Z * agent_move)) : Z :=
  foldl (λ s m, match m.2 with Beat => m.1 | _ => s end) t0 ms.

(** A move of kind [k] in each window of [period] after [from] and up to [until]. *)
Definition regular (k : agent_move) (period from until : Z) (ms : list (Z * agent_move)) : Prop :=
  ∀ x, from ≤ x → x + period ≤ until → ∃ t, (t, k) ∈ ms ∧ x < t ≤ x + period.

Definition is_detach (m : Z * agent_move) : bool :=
  match m.2 with DetachRpc => true | _ => false end.

Definition is_beat (m : Z * agent_move) : bool :=
  match m.2 with Beat => true | _ => false end.

(** What the tracker of a live agent says at time [now], with the last
    heartbeat at [s]. *)
Record tracks (timeout s now : Z) (t : HeartbeatTracker) : Prop := {
  tracks_timeout : hb_timeout t = timeout;
  tracks_seen : last_seen t = s;
  tracks_flag : in_safe_mode t = match safe_mode_since t with Some _ => true | None => false end;
  tracks_since : ∀ x, safe_mode_since t = Some x → s + timeout < x ≤ now
}.

(** ** The tracker follows the heartbeats *)

Lemma in_order_app t0 ms m after :
  in_order t0 (ms ++ m :: after) →
  in_order t0 ms ∧ (∀ x, x ∈ t0 :: ms.*1 → x ≤ m.1) ∧ ∀ x, x ∈ after.*1 → m.1 ≤ x.
Proof.
  unfold in_order. rewrite fmap_app. cbn [fmap list_fmap].
  rewrite app_comm_cons. intros (H & H1 & [H2 H3]%StronglySorted_cons)%StronglySorted_app.
  split; [done|]. split; [|by apply Forall_forall].
  intros x Hx. apply (H x m.1); [done|constructor].
Qed.

Lemma last_beat_le t0 ms now :
  (∀ x, x ∈ t0 :: ms.*1 → x ≤ now) → last_beat t0 ms ≤ now.
Proof.
  unfold last_beat. revert t0. induction ms as [|[x k] ms IH]; intros t0 H; cbn.
  - apply H. constructor.
  - apply IH. intros y Hy. apply elem_of_cons in Hy as [->|Hy]; [|apply H; set_solver].
    destruct k; apply H; set_solver.
Qed.

Lemma step_tracks timeout fence s now a m :
  0 ≤ timeout → s ≤ now → now ≤ m.1 → alive (agent_step fence a m) = true →
  tracks timeout s now (tracker a) →
  tracks timeout (match m.2 with Beat => m.1 | _ => s end) m.1 (tracker (agent_step fence a m)).
Proof.
  intros Ht Hs Hn Hal [H1 H2 H3 H4]. unfold agent_step in *.
  destruct (alive a) eqn:E; cbn in *; [|congruence]. clear E. destruct (m.2) as [| | |]; cbn.
  - destruct a as [[ls to ism since det] al]; cbn in *. subst.
    destruct since as [x|]; cbn; by split.
  - unfold watchdog_turn, watchdog_due. destruct a as [[ls to ism since det] al]; cbn in *. subst.
    destruct (timeout <? saturating_sub m.1 s) eqn:E; cbn.
    + destruct since as [x|]; cbn; split; cbn; try done.
      * intros y [= <-]. specialize (H4 x eq_refl). lia.
      * intros y [= <-]. apply Z.ltb_lt in E. unfold saturating_sub in E. lia.
    + split; cbn; [done..|]. intros x Hx. specialize (H4 x Hx). lia.
  - split; [done..|]. intros x Hx. specialize (H4 x Hx). lia.
  - split; [done..|]. intros x Hx. cbn in Hx. specialize (H4 x Hx). lia.
Qed.

Lemma agent_run_snoc fence a ms m :
  agent_run fence a (ms ++ [m]) = agent_step fence (agent_run fence a ms) m.
Proof. unfold agent_run. by rewrite foldl_app. Qed.

Lemma agent_run_app fence a l1 l2 :
  agent_run fence a (l1 ++ l2) = agent_run fence (agent_run fence a l1) l2.
Proof. unfold agent_run. by rewrite foldl_app. Qed.

Lemma alive_before fence a m : alive (agent_step fence a m) = true → alive a = true.
Proof. unfold agent_step. by destruct (alive a) eqn:E; cbn; [|rewrite E]. Qed.

Lemma alive_prefix fence a l : alive (agent_run fence a l) = true → alive a = true.
Proof.
  induction l as [|m l IH] using rev_ind; [done|]. rewrite agent_run_snoc.
  intros H%alive_before. by apply IH.
Qed.

Lemma last_beat_in t0 ms : last_beat t0 ms = t0 ∨ (last_beat t0 ms, Beat) ∈ ms.
Proof.
  unfold last_beat. revert t0. induction ms as [|[x k] ms IH]; intros t0; cbn; [by left|].
  destruct k; cbn; try (destruct (IH t0); set_solver). destruct (IH x) as [->|]; set_solver.
Qed.

Lemma last_beat_snoc t0 ms m :
  last_beat t0 (ms ++ [m]) = match m.2 with Beat => m.1 | _ => last_beat t0 ms end.
Proof. unfold last_beat. by rewrite foldl_app. Qed.

Lemma step_detached fence a m :
  alive a = true →
  detached (tracker (agent_step fence a m)) = is_detach m || detached (tracker a).
Proof.
  intros Ha. unfold agent_step, is_detach. rewrite Ha. cbn.
  destruct m.2; cbn; try done.
  - unfold touch_tracker, touch_swap, touch_clear. cbn. by destruct (in_safe_mode _).
  - unfold watchdog_turn. by destruct (watchdog_due _ _).
Qed.

(** While the agent is alive. *)
Lemma run_tracks timeout fence t0 ms now :
  0 ≤ timeout → in_order t0 ms → (∀ x, x ∈ t0 :: ms.*1 → x ≤ now) →
  alive (agent_run fence (agent_new timeout t0) ms) = true →
  tracks timeout (last_beat t0 ms) now (tracker (agent_run fence (agent_new timeout t0) ms)) ∧
  detached (tracker (agent_run fence (agent_new timeout t0) ms)) = existsb is_detach ms.
Proof.
  intros Ht. revert now. induction ms as [|m ms IH] using rev_ind; intros now Ho Hn Ha; [by split|].
  apply in_order_app in Ho as (Ho & Hm & _). rewrite agent_run_snoc in *.
  pose proof (alive_before _ _ _ Ha) as Hb.
  destruct (IH m.1 Ho Hm Hb) as [Htr Hd]. split.
  - rewrite last_beat_snoc.
    assert (m.1 ≤ now) by (apply Hn; rewrite fmap_app; set_solver).
    pose proof (last_beat_le t0 ms m.1 Hm).
    destruct (step_tracks timeout fence (last_beat t0 ms) m.1
      (agent_run fence (agent_new timeout t0) ms) m Ht) as [H1 H2 H3 H4];
      [done|done|done|done|].
    split; [done..|]. intros x Hx. specialize (H4 x Hx). lia.
  - rewrite step_detached, Hd by done. rewrite existsb_app. cbn. by destruct (is_detach m), (existsb _ _).
Qed.

Lemma last_beat_max t0 ms :
  in_order t0 ms → t0 ≤ last_beat t0 ms ∧ ∀ b, (b, Beat) ∈ ms → b ≤ last_beat t0 ms.
Proof.
  induction ms as [|[x k] ms IH] using rev_ind; intros Ho; [split; [done|]; set_solver|].
  apply in_order_app in Ho as (Ho & Hm & _). destruct (IH Ho) as [IH1 IH2].
  pose proof (last_beat_le t0 ms x Hm). rewrite last_beat_snoc. cbn.
  split; [destruct k; lia|]. intros b [Hb|Hb%list_elem_of_singleton]%elem_of_app.
  - specialize (IH2 b Hb). destruct k; lia.
  - injection Hb as -> <-. lia.
Qed.

(** The process exits in one move. *)
Lemma exit_move fence a ms :
  alive a = true → alive (agent_run fence a ms) = false →
  ∃ before m after, ms = before ++ m :: after ∧ alive (agent_run fence a before) = true ∧
    alive (agent_run fence a (before ++ [m])) = false.
Proof.
  intros Ha. induction ms as [|m ms IH] using rev_ind; intros He; [by cbn in He; congruence|].
  destruct (alive (agent_run fence a ms)) eqn:E.
  - by exists ms, m, [].
  - destruct IH as (b & m' & after & -> & ? & ?); [done|].
    exists b, m', (after ++ [m]). by rewrite <- app_assoc.
Qed.


(** ** A silent agent *)

Lemma silent_state timeout fence t0 ms before m after :
  0 ≤ timeout → in_order t0 ms → Forall (λ m, is_detach m = false) ms →
  ms = before ++ m :: after → alive (agent_run fence (agent_new timeout t0) before) = true →
  let t := tracker (agent_run fence (agent_new timeout t0) before) in
  detached t = false ∧
  in_safe_mode t = match safe_mode_since t with Some _ => true | None => false end.
Proof.
  intros Ht Ho Hdet -> Ha. destruct (in_order_app _ _ _ _ Ho) as (Hob & Hle & _).
  destruct (run_tracks timeout fence t0 before m.1 Ht Hob Hle Ha) as [[_ _ Hfl _] Hd'].
  cbv zeta. rewrite Hd'. split; [|done]. apply Forall_app in Hdet as [Hd _].
  apply not_true_iff_false. rewrite existsb_exists. intros (y & Hy & Hdy).
  rewrite <- list_elem_of_In in Hy. rewrite Forall_forall in Hd. by rewrite (Hd y Hy) in Hdy.
Qed.

Section silent.
Context (timeout fence period t0 s until : Z) (ms : list (Z * agent_move)).
Hypotheses (Ht : 0 ≤ timeout) (Hf : 0 < fence) (Ho : in_order t0 ms) (H0 : t0 ≤ s).
Hypotheses (Hbeats : ∀ b, (b, Beat) ∈ ms → b ≤ s)
  (Hdet : Forall (λ m, is_detach m = false) ms).
Hypothesis (Hwd : regular WatchdogTurn period s until ms).

Lemma step_keeps_since a m x :
  is_beat m = false → alive (agent_step fence a m) = true → safe_mode_since (tracker a) = Some x →
  in_safe_mode (tracker a) = true → safe_mode_since (tracker (agent_step fence a m)) = Some x ∧
  in_safe_mode (tracker (agent_step fence a m)) = true.
Proof.
  intros Hb Ha Hs Hi. unfold agent_step, is_beat in *. destruct (alive a); cbn in *; [|done].
  destruct m.2; cbn in *; try done.
  unfold watchdog_turn, watchdog_due. by rewrite Hi, andb_false_r.
Qed.

Lemma run_keeps_since a l x :
  Forall (λ m, is_beat m = false) l → alive (agent_run fence a l) = true →
  safe_mode_since (tracker a) = Some x → in_safe_mode (tracker a) = true →
  safe_mode_since (tracker (agent_run fence a l)) = Some x.
Proof.
  intros Hl Ha Hs Hi.
  enough (safe_mode_since (tracker (agent_run fence a l)) = Some x ∧
          in_safe_mode (tracker (agent_run fence a l)) = true) by tauto.
  induction l as [|m l IH] using rev_ind; [done|].
  apply Forall_app in Hl as [Hl Hm]. rewrite agent_run_snoc in *.
  destruct IH as [H1 H2]; [done|by eapply alive_before|].
  apply step_keeps_since; [by inversion Hm|done..].
Qed.

(** A turn of the watchdog long enough after the last heartbeat. *)
Lemma watchdog_starts before w :
  in_order t0 before → (∀ x, x ∈ t0 :: before.*1 → x ≤ w) → last_beat t0 before + timeout < w →
  alive (agent_run fence (agent_new timeout t0) before) = true →
  ∃ x, safe_mode_since (tracker (agent_run fence (agent_new timeout t0) (before ++ [(w, WatchdogTurn)])))
    = Some x ∧ x ≤ w.
Proof.
  intros Hob Hw Hl Ha.
  destruct (run_tracks timeout fence t0 before w Ht Hob Hw Ha) as [[H1 H2 H3 H4] _].
  rewrite agent_run_snoc. unfold agent_step. rewrite Ha. cbn.
  unfold watchdog_turn, watchdog_due. rewrite H1, H2, H3.
  destruct (safe_mode_since _) as [x|] eqn:E; cbn.
  - rewrite andb_false_r, E. exists x. specialize (H4 x eq_refl). split; [done|lia].
  - replace (timeout <? _) with true by (symmetry; apply Z.ltb_lt; unfold saturating_sub; lia).
    exists w. done.
Qed.

(** At any move later than that the start of safe mode is recorded. *)
Lemma silent_since before m after :
  ms = before ++ m :: after → s + timeout + period < m.1 → m.1 ≤ until →
  alive (agent_run fence (agent_new timeout t0) before) = true →
  ∃ x, safe_mode_since (tracker (agent_run fence (agent_new timeout t0) before)) = Some x ∧
    x ≤ s + timeout + period.
Proof.
  intros Hms Hm Hu Ha. destruct (Hwd (s + timeout)) as (w & Hin & Hw1 & Hw2); [lia..|].
  rewrite Hms in Hin, Ho, Hbeats. destruct (in_order_app _ _ _ _ Ho) as (Hob & _ & Hafter).
  assert (Hwb : (w, WatchdogTurn) ∈ before).
  { apply elem_of_app in Hin as [Hin|[<-|Hin]%elem_of_cons]; [done|cbn in Hm; lia|].
    apply (list_elem_of_fmap_2 fst) in Hin. specialize (Hafter w Hin). lia. }
  apply list_elem_of_split in Hwb as (b1 & b2 & ->).
  destruct (in_order_app _ _ _ _ Hob) as (Hob1 & Hle & Hge).
  rewrite cons_middle, app_assoc, agent_run_app in Ha |- *.
  pose proof (alive_prefix _ _ _ Ha) as Ha1.
  assert (Hlb : last_beat t0 b1 ≤ s).
  { destruct (last_beat_in t0 b1) as [->|Hb]; [done|]. apply Hbeats. set_solver. }
  destruct (watchdog_starts b1 w) as (x & Hx & Hxw); [done|done|lia| |].
  { rewrite agent_run_snoc in Ha1. by eapply alive_before. }
  rewrite cons_middle, app_assoc in Hob.
  destruct (run_tracks timeout fence t0 (b1 ++ [(w, WatchdogTurn)]) w Ht) as [[_ _ Hfl _] _].
  { destruct b2 as [|y b2]; [by rewrite app_nil_r in Hob|]. by apply in_order_app in Hob as [? _]. }
  { intros y. rewrite fmap_app. set_solver. }
  { done. }
  exists x. split; [|lia]. apply run_keeps_since; [|done|done|by rewrite Hfl, Hx].
  apply Forall_forall. intros [y k] Hy. destruct k; [|done..]. exfalso.
  assert (y ≤ s) by (apply Hbeats; set_solver).
  apply (list_elem_of_fmap_2 fst) in Hy. specialize (Hge y Hy). cbn in Hge. lia.
Qed.
End silent.


(** ** Executions *)

(** Both loops turn every second for eight seconds, with no heartbeat. *)
Definition silence : list (Z * agent_move) :=
  concat ((λ t, [(t, WatchdogTurn); (t, FenceTurn true)]) <$> [1; 2; 3; 4; 5; 6; 7; 8]).

Lemma silence_in_order : in_order 0 silence.
Proof. apply Sorted_StronglySorted; [intros x y z; lia|]. cbn. repeat constructor; lia. Qed.

Lemma silence_regular k : (k = WatchdogTurn ∨ k = FenceTurn true) → regular k 1 0 6 silence.
Proof.
  intros Hk x Hx1 Hx2. exists (x + 1). split; [|lia].
  assert (x = 0 ∨ x = 1 ∨ x = 2 ∨ x = 3 ∨ x = 4 ∨ x = 5) as Hx by lia.
  unfold silence. cbn. destruct Hk as [-> | ->]; repeat destruct Hx as [-> |Hx]; subst; set_solver.
Qed.



(** ** Methods that overlap *)

(** A heartbeat between the two stores of the watchdog leaves the start of safe
    mode behind, and later heartbeats, with the flag clear, do not remove it:
    the agent fences itself although a heartbeat arrives every second. *)
Definition overlap_stale : HeartbeatTracker :=
  let t := watchdog_flag (tracker_new 10 0) in
  let t := watchdog_since 11 (touch_tracker 11 t) in
  foldl (λ t now, touch_tracker now t) t (seqZ 12 30).

Lemma overlap_fences_early :
  watchdog_due 11 (tracker_new 10 0) = true ∧
  is_safe_mode overlap_stale = false ∧ last_seen overlap_stale = 41 ∧
  fence_turn 30 41 true overlap_stale = true.
Proof. vm_compute. done. Qed.

(** A heartbeat that swaps the flag after the watchdog measured the silence, and
    clears the start after the watchdog stored it, leaves safe mode without a
    start: however long the silence that follows, the agent does not fence. *)
Definition overlap_lost : HeartbeatTracker :=
  let t := watchdog_turn 11 (tracker_new 10 0) in
  let '(was, t) := touch_swap (touch_seen 12 t) in
  touch_clear was (watchdog_since 12 (watchdog_flag t)).

Lemma overlap_never_fences fence now running turns :
  let t := foldl (λ t now, watchdog_turn now t) overlap_lost turns in
  is_safe_mode t = true ∧ fence_turn fence now running t = false.
Proof.
  cbv zeta. replace (foldl _ _ _) with overlap_lost; [done|].
  induction turns as [|x turns IH]; [done|]. cbn [foldl].
  assert (watchdog_turn x overlap_lost = overlap_lost) as ->; [|done].
  unfold watchdog_turn, watchdog_due. by rewrite andb_false_r.
Qed.
