(* ===== verification/Standby.v ===== *)
(** Turning a data directory into a standby's: src/vk-agent/src/standby.rs and
    the texts src/vk-agent/src/files.rs writes.

    The functions on texts are here, and the calls that write them in Agent.v:
    taking the password out of a conninfo string, a line of .pgpass, and the
    update of postgresql.auto.conf. The readers of the second half say what
    libpq and Postgres take from these files.

    [auto_conf_round_trip] and [pgpass_round_trip] say that what is written is
    what is read; [standby_follows] composes them for the conninfo strings
    pgcluster sends. *)
From S2P Require Import Prelude Topology.

Local Open Scope string_scope.

(** ** Texts *)

Definition LF : ascii := "010".
Definition CR : ascii := "013".
Definition QUOTE : ascii := "'".
Definition BACKSLASH : ascii := "\".

Definition no_char (c : ascii) (s : string) : bool := negb (str_exists (Ascii.eqb c) s).

(** [str::trim_matches] with a character. *)
Fixpoint trim_start_char (c : ascii) (s : string) : string :=
  match s with
  | EmptyString => EmptyString
  | String a s' => if Ascii.eqb a c then trim_start_char c s' else s
  end.

Fixpoint trim_end_char (c : ascii) (s : string) : string :=
  match s with
  | EmptyString => EmptyString
  | String a s' =>
      match trim_end_char c s' with
      | EmptyString => if Ascii.eqb a c then EmptyString else String a EmptyString
      | r => String a r
      end
  end.

Definition trim_quotes (s : string) : string := trim_end_char QUOTE (trim_start_char QUOTE s).

(** [str::trim]. [skip] counts the bytes left of a white space character. *)
Fixpoint trim_start (skip : nat) (s : string) : string :=
  match s with
  | EmptyString => EmptyString
  | String _ s' =>
      match skip with
      | S k => trim_start k s'
      | O => match space_len s with O => s | S k => trim_start k s' end
      end
  end.

Fixpoint all_space (skip : nat) (s : string) : bool :=
  match s with
  | EmptyString => true
  | String _ s' =>
      match skip with
      | S k => all_space k s'
      | O => match space_len s with O => false | S k => all_space k s' end
      end
  end.

Fixpoint trim_end (s : string) : string :=
  match s with
  | EmptyString => EmptyString
  | String a s' => if all_space 0 s then EmptyString else String a (trim_end s')
  end.

Definition trim (s : string) : string := trim_end (trim_start 0 s).

(** [str::lines]: the line feed is dropped with a carriage return before it. *)
Fixpoint strip_cr (s : string) : string :=
  match s with
  | EmptyString => EmptyString
  | String a EmptyString => if Ascii.eqb a CR then EmptyString else s
  | String a s' => String a (strip_cr s')
  end.

Fixpoint lines_from (cur s : string) : list string :=
  match s with
  | EmptyString => match cur with EmptyString => [] | _ => [cur] end
  | String a s' =>
      if Ascii.eqb a LF then strip_cr cur :: lines_from EmptyString s'
      else lines_from (cur ++ String a EmptyString) s'
  end.

Definition lines (s : string) : list string := lines_from EmptyString s.

Fixpoint ends_with (c : ascii) (s : string) : bool :=
  match s with
  | EmptyString => false
  | String a EmptyString => Ascii.eqb a c
  | String _ s' => ends_with c s'
  end.

(** [Path::join] with a relative name, displayed. *)
Definition path_join (dir name : string) : string :=
  if is_empty dir || ends_with "/" dir then dir ++ name else dir ++ "/" ++ name.

(** ** standby.rs *)

Definition token_value (key token : string) : option string :=
  trim_quotes <$> strip_prefix (key ++ "=") token.

Definition is_password (token : string) : bool := starts_with "password=" token.

Definition extract_conninfo_password (conninfo : string) : string * option string :=
  let tokens := split_whitespace conninfo in
  (join " " (List.filter (λ t, negb (is_password t)) tokens),
   last (omap (token_value "password") tokens)).

Definition conninfo_value (conninfo key : string) : option string :=
  head (omap (token_value key) (split_whitespace conninfo)).

(** ** files.rs *)

Definition esc (s : string) : string :=
  replace_char ":" (String BACKSLASH ":") (replace_char BACKSLASH (String BACKSLASH (String BACKSLASH EmptyString)) s).

Definition pgpass_content (host port database user password : string) : string :=
  esc host ++ ":" ++ esc port ++ ":" ++ esc database ++ ":" ++ esc user ++ ":" ++ esc password ++
  String LF EmptyString.

(** Whether a line of the file sets [key]. *)
Definition sets_key (key line : string) : bool :=
  let trimmed := trim line in
  String.eqb trimmed key || starts_with (key ++ " =") trimmed || starts_with (key ++ "=") trimmed.

Definition one_line (value : string) : string := replace_char CR " " (replace_char LF " " value).

Definition new_line (key value : string) : string :=
  key ++ " = " ++ String QUOTE (replace_char QUOTE (String QUOTE (String QUOTE EmptyString)) (one_line value) ++
  String QUOTE EmptyString).

Definition end_line (content : string) : string :=
  if ends_with LF content then content else content ++ String LF EmptyString.

(** The lines an update writes. *)
Definition updated_lines (existing key value : string) : list string :=
  let ls := (λ line, if sets_key key line then new_line key value else line) <$> lines existing in
  if existsb (sets_key key) (lines existing) then ls else (ls ++ [new_line key value])%list.

(** The file after an update. *)
Definition updated_auto_conf (existing key value : string) : string :=
  end_line (join (String LF EmptyString) (updated_lines existing key value)).

(** What [configure_standby] stores as [primary_conninfo], and in .pgpass. *)
Definition stored_conninfo (dir conninfo app : string) : string * option string :=
  let '(stored, password) := extract_conninfo_password conninfo in
  let stored := if is_empty app then stored else stored ++ " application_name=" ++ app in
  match password with
  | Some password =>
      let host := default "*" (conninfo_value conninfo "host") in
      let port := default "5432" (conninfo_value conninfo "port") in
      let user := default "*" (conninfo_value conninfo "user") in
      (stored ++ " passfile=" ++ path_join dir ".pgpass",
       Some (pgpass_content host port "replication" user password))
  | None => (stored, None)
  end.

(** ** The readers *)

(** A quoted value up to the end of its line. Backslashes, which Postgres reads
    as escapes, are not read here. *)
Fixpoint unquote (s : string) : option string :=
  match s with
  | EmptyString => None
  | String a s' =>
      if Ascii.eqb a QUOTE then
        match s' with
        | EmptyString => Some EmptyString
        | String b s'' => if Ascii.eqb b QUOTE then String QUOTE <$> unquote s'' else None
        end
      else if Ascii.eqb a BACKSLASH then None
      else String a <$> unquote s'
  end.

(** A line as ALTER SYSTEM writes it. *)
Definition line_value (key line : string) : option string :=
  strip_prefix (key ++ " = " ++ String QUOTE EmptyString) (trim line) ≫= unquote.

(** The last setting of a key counts. *)
Definition setting (key content : string) : option string :=
  last (omap (line_value key) (lines content)).

(** The fields of a line of .pgpass: a backslash escapes the character after
    it, and a colon ends a field. *)
Fixpoint pgpass_fields (cur s : string) : list string :=
  match s with
  | EmptyString => [cur]
  | String a s' =>
      if Ascii.eqb a BACKSLASH then
        match s' with
        | EmptyString => [cur ++ String a EmptyString]
        | String b s'' => pgpass_fields (cur ++ String b EmptyString) s''
        end
      else if Ascii.eqb a ":" then cur :: pgpass_fields EmptyString s'
      else if Ascii.eqb a LF then [cur]
      else pgpass_fields (cur ++ String a EmptyString) s'
  end.

(** A name of a setting: printable, without an equals sign. *)
Definition key_ok (key : string) : Prop :=
  is_empty key = false ∧ printable_str key = true ∧ no_char "=" key = true.

#[local] Arguments Ascii.eqb _ _ : simpl never.

(** ** Trimming *)

Lemma space_len_snoc (c : ascii) x :
  (c = CR ∨ c = QUOTE) → x ≠ EmptyString → space_len (x ++ String c EmptyString) = space_len x.
Proof.
  intros Hc Hx. destruct x as [|a [|b [|d x]]]; [done|..]; unfold space_len; cbn [append list_ascii_of_string fmap list_fmap];
    destruct (_ || _)%N; try done; destruct Hc as [-> | ->]; cbn; rewrite ?andb_false_r; try done.
Qed.

Lemma all_space_cr k x : all_space k (x ++ String CR EmptyString) = all_space k x.
Proof.
  revert k. induction x as [|a x IH]; intros [|k]; cbn [append all_space]; [done|done| |apply IH].
  change (String a (x ++ String CR EmptyString)) with (String a x ++ String CR EmptyString).
  rewrite space_len_snoc by (done || by left). destruct (space_len (String a x)); [done|apply IH].
Qed.

Lemma trim_end_cr x : trim_end (x ++ String CR EmptyString) = trim_end x.
Proof.
  induction x as [|a x IH]; [done|]. cbn [append trim_end]. rewrite IH.
  change (String a (x ++ String CR EmptyString)) with (String a x ++ String CR EmptyString).
  by rewrite all_space_cr.
Qed.

Lemma trim_start_cr k x :
  trim_start k (x ++ String CR EmptyString) =
  if all_space k x then EmptyString else trim_start k x ++ String CR EmptyString.
Proof.
  revert k. induction x as [|a x IH]; intros [|k]; cbn [append trim_start all_space];
    [done|done| |apply IH].
  change (String a (x ++ String CR EmptyString)) with (String a x ++ String CR EmptyString).
  rewrite space_len_snoc by (done || by left). destruct (space_len (String a x)); [done|apply IH].
Qed.

Lemma trim_start_all k x : all_space k x = true → trim_start k x = EmptyString.
Proof.
  revert k. induction x as [|a x IH]; intros [|k]; cbn [trim_start all_space]; [done..| |apply IH].
  destruct (space_len (String a x)); [done|apply IH].
Qed.

Lemma strip_cr_cases x : strip_cr x = x ∨ x = strip_cr x ++ String CR EmptyString.
Proof.
  induction x as [|a x IH]; [by left|]. destruct x as [|b x].
  - cbn. destruct (Ascii.eqb a CR) eqn:E; [|by left].
    apply Ascii.eqb_eq in E as ->. by right.
  - cbn [strip_cr] in *. destruct IH as [IH|IH]; [left; by f_equal|right].
    cbn [append]. by f_equal.
Qed.

(** A carriage return at the end of a line is trimmed like any white space. *)
Lemma trim_strip_cr x : trim (strip_cr x) = trim x.
Proof.
  destruct (strip_cr_cases x) as [->|E]; [done|]. rewrite E at 2. unfold trim.
  rewrite trim_start_cr. destruct (all_space 0 (strip_cr x)) eqn:Ha.
  - by rewrite trim_start_all.
  - by rewrite trim_end_cr.
Qed.

Lemma space_len_quote x : (space_len (x ++ String QUOTE EmptyString) ≤ String.length x)%nat.
Proof.
  destruct x as [|a x]; [done|]. rewrite space_len_snoc by (done || by right).
  unfold space_len. destruct x as [|b [|d x]]; cbn [list_ascii_of_string fmap list_fmap String.length];
    repeat case_match; lia.
Qed.

Lemma all_space_quote k x :
  (k ≤ String.length x)%nat → all_space k (x ++ String QUOTE EmptyString) = false.
Proof.
  revert k. induction x as [|a x IH]; intros k Hk; [by destruct k; [|cbn in Hk; lia]|].
  pose proof (space_len_quote (String a x)) as Hl.
  cbn [append all_space String.length] in *. destruct k as [|k]; [|apply IH; lia].
  destruct (space_len _) as [|j]; [done|]. apply IH. lia.
Qed.

Lemma trim_end_quote x : trim_end (x ++ String QUOTE EmptyString) = x ++ String QUOTE EmptyString.
Proof.
  induction x as [|a x IH]; [done|].
  pose proof (all_space_quote 0 (String a x)) as H.
  cbn [append trim_end] in *. rewrite H, IH by (cbn; lia). done.
Qed.

Lemma trim_quoted a x : printable a = true →
  trim (String a x ++ String QUOTE EmptyString) = String a x ++ String QUOTE EmptyString.
Proof.
  intros Ha. unfold trim. cbn [append trim_start].
  rewrite space_len_printable by done. apply (trim_end_quote (String a x)).
Qed.

(** ** Lines *)

Lemma no_char_app c a b : no_char c (a ++ b) = no_char c a && no_char c b.
Proof.
  unfold no_char. induction a as [|x a IH]; cbn; [done|].
  destruct (Ascii.eqb c x); cbn; [done|apply IH].
Qed.

Lemma lines_from_word cur w s :
  no_char LF w = true → lines_from cur (w ++ s) = lines_from (cur ++ w) s.
Proof.
  revert cur. induction w as [|a w IH]; intros cur Hw; [by rewrite str_app_nil_r|].
  unfold no_char in Hw. cbn in Hw. apply negb_true_iff, orb_false_iff in Hw as [Ha Hw].
  cbn [append lines_from]. rewrite Ascii.eqb_sym, Ha, IH by (unfold no_char; by rewrite Hw).
  by rewrite <- str_app_snoc.
Qed.

Lemma lines_cons w s :
  no_char LF w = true → lines (w ++ String LF s) = strip_cr w :: lines s.
Proof. intros Hw. unfold lines. by rewrite lines_from_word. Qed.

Lemma lines_no_lf s : Forall (λ l, no_char LF l = true) (lines s).
Proof.
  unfold lines. assert (H : no_char LF EmptyString = true) by done. revert H.
  generalize EmptyString as cur. induction s as [|a s IH]; intros cur Hc; cbn [lines_from].
  - destruct cur; repeat constructor; done.
  - destruct (Ascii.eqb a LF) eqn:E.
    + constructor; [|by apply IH]. destruct (strip_cr_cases cur) as [->|Ec]; [done|].
      rewrite Ec, no_char_app in Hc. by apply andb_true_iff in Hc as [? _].
    + apply IH. rewrite no_char_app, Hc. unfold no_char. cbn. by rewrite Ascii.eqb_sym, E.
Qed.

Lemma ends_with_snoc c x : ends_with c (x ++ String c EmptyString) = true.
Proof.
  induction x as [|a x IH]; [cbn; apply Ascii.eqb_refl|]. cbn [append ends_with].
  by destruct (x ++ String c EmptyString) eqn:E; [destruct x|].
Qed.

Lemma ends_with_no_char c x : no_char c x = true → ends_with c x = false.
Proof.
  unfold no_char. induction x as [|a x IH]; [done|]. cbn. rewrite negb_true_iff, orb_false_iff.
  intros [Ha Hx]. rewrite Ascii.eqb_sym in Ha. destruct x; [done|]. apply IH. by rewrite Hx.
Qed.

Lemma end_line_cons x j :
  end_line (x ++ String LF j) = x ++ String LF (if is_empty j then EmptyString else end_line j).
Proof.
  unfold end_line. destruct j as [|a j]; cbn [is_empty]; [by rewrite ends_with_snoc|].
  assert (ends_with LF (x ++ String LF (String a j)) = ends_with LF (String a j)) as ->.
  { induction x as [|b x IH]; [done|]. cbn [append ends_with]. rewrite IH. by destruct x. }
  destruct (ends_with LF (String a j)); [done|]. by rewrite <- str_app_assoc.
Qed.

Lemma line_value_strip_cr k x : line_value k (strip_cr x) = line_value k x.
Proof. unfold line_value. by rewrite trim_strip_cr. Qed.

Lemma line_value_empty k : line_value k EmptyString = None.
Proof. unfold line_value. by destruct k. Qed.

(** Reading the lines of a written file. *)
Lemma read_written k ls :
  ls ≠ [] → Forall (λ l, no_char LF l = true) ls →
  omap (line_value k) (lines (end_line (join (String LF EmptyString) ls))) = omap (line_value k) ls.
Proof.
  intros Hne. induction ls as [|x ls IH]; intros Hl; [done|]. apply Forall_cons in Hl as [Hx Hl].
  destruct ls as [|y ls].
  - cbn [join]. unfold end_line. rewrite ends_with_no_char, lines_cons by done. cbn.
    by rewrite line_value_strip_cr.
  - cbn [join append]. rewrite end_line_cons, lines_cons by done.
    specialize (IH ltac:(done) Hl). cbn [omap list_omap] in *. rewrite line_value_strip_cr, <- IH.
    cbn [join] in *. set (j := match ls with [] => y | _ => _ end) in *.
    destruct j; [|done]. cbn [is_empty]. unfold end_line. cbn -[line_value].
    rewrite Ascii.eqb_refl. cbn -[line_value]. by rewrite line_value_empty.
Qed.

(** ** Lines of the file *)

Lemma starts_with_inv p s : starts_with p s = true → ∃ r, s = p ++ r.
Proof.
  revert s. induction p as [|a p IH]; intros s; [by exists s|]. destruct s as [|b s]; [done|].
  cbn. intros [->%Ascii.eqb_eq (r & ->)%IH]%andb_true_iff. by exists r.
Qed.

Lemma printable_no_char c s : printable c = false → printable_str s = true →
  str_exists (Ascii.eqb c) s = false.
Proof.
  intros Hc. induction s as [|a s IH]; [done|]. cbn. intros [Ha Hs]%andb_true_iff.
  rewrite IH, orb_false_r by done. apply Ascii.eqb_neq. intros <-. congruence.
Qed.

Lemma app_sep_inj c a b r1 r2 :
  str_exists (Ascii.eqb c) a = false → str_exists (Ascii.eqb c) b = false →
  a ++ String c r1 = b ++ String c r2 → a = b.
Proof.
  intros Ha Hb E. apply (f_equal (split_once c)) in E.
  rewrite !split_once_app in E by done. by injection E.
Qed.

Lemma line_value_form key line v :
  line_value key line = Some v → ∃ r, trim line = (key ++ " = ") ++ String QUOTE r.
Proof.
  unfold line_value. destruct (strip_prefix _ _) as [r|] eqn:E; [|done]. intros _.
  exists r. apply strip_prefix_Some in E. rewrite E. by rewrite !str_app_assoc, <- str_app_assoc.
Qed.

(** A line sets at most one key. *)
Lemma sets_one_key key key' line :
  key_ok key → key_ok key' → sets_key key line = true → key' ≠ key → line_value key' line = None.
Proof.
  intros (_ & Hp & He) (_ & Hp' & He') Hs Hne. destruct (line_value key' line) as [v|] eqn:Hv; [|done].
  destruct Hne. apply line_value_form in Hv as [r Hr]. unfold sets_key in Hs. rewrite Hr in Hs.
  rewrite <- str_app_assoc in Hs. cbn [append] in Hs.
  apply (printable_no_char " ") in Hp; [|done]. apply (printable_no_char " ") in Hp'; [|done].
  unfold no_char in He, He'. apply negb_true_iff in He, He'.
  apply orb_true_iff in Hs as [[Hs%String.eqb_eq|Hs]%orb_true_iff|Hs].
  - rewrite <- Hs in Hp. clear - Hp. exfalso.
    induction key' as [|a key' IH]; cbn in Hp; [done|]. apply orb_false_iff in Hp as [_ Hp]. auto.
  - apply starts_with_inv in Hs as [r' Hs]. rewrite <- str_app_assoc in Hs. cbn [append] in Hs.
    by apply app_sep_inj in Hs.
  - apply starts_with_inv in Hs as [r' Hs]. rewrite <- str_app_assoc in Hs. cbn [append] in Hs.
    rewrite (str_app_snoc key' " ") in Hs. apply app_sep_inj in Hs; [| |done].
    + rewrite <- Hs in Hp. clear - Hp. exfalso.
      induction key' as [|a key' IH]; cbn in Hp; [done|]. apply orb_false_iff in Hp as [_ Hp]. auto.
    + clear - He'. induction key' as [|a key' IH]; [done|]. cbn in *.
      apply orb_false_iff in He' as [-> He']. auto.
Qed.

Lemma sets_key_value key line v : line_value key line = Some v → sets_key key line = true.
Proof.
  intros [r Hr]%line_value_form. unfold sets_key. rewrite Hr, <- str_app_assoc.
  cbn [append].
  replace (key ++ _) with ((key ++ " =") ++ String " " (String QUOTE r)) by by rewrite <- str_app_assoc.
  by rewrite starts_with_app, orb_true_r.
Qed.

Lemma unquote_quoted v : no_char BACKSLASH v = true →
  unquote (replace_char QUOTE (String QUOTE (String QUOTE EmptyString)) v ++ String QUOTE EmptyString)
  = Some v.
Proof.
  unfold no_char. induction v as [|a v IH]; [done|]. cbn. rewrite negb_true_iff, orb_false_iff.
  intros [Hb Hv]. rewrite Ascii.eqb_sym in Hb. destruct (Ascii.eqb a QUOTE) eqn:E.
  - apply Ascii.eqb_eq in E as ->. cbn. rewrite IH by (by rewrite Hv). done.
  - cbn. rewrite E, Hb, IH by (by rewrite Hv). done.
Qed.

Lemma replace_no_char c d r s :
  no_char d r = true → no_char d s = true → no_char d (replace_char c r s) = true.
Proof.
  intros Hr. induction s as [|a s IH]; [done|]. unfold no_char in *. cbn.
  rewrite negb_true_iff, orb_false_iff. intros [Ha Hs]. destruct (Ascii.eqb a c).
  - fold (no_char d (r ++ replace_char c r s)). rewrite no_char_app. unfold no_char.
    rewrite Hr, IH by (by rewrite Hs). done.
  - cbn. rewrite Ha. apply IH. by rewrite Hs.
Qed.

Lemma replace_gone c r s : no_char c r = true → no_char c (replace_char c r s) = true.
Proof.
  intros Hr. induction s as [|a s IH]; [done|]. cbn. destruct (Ascii.eqb a c) eqn:E.
  - by rewrite no_char_app, Hr, IH.
  - unfold no_char in *. cbn. by rewrite Ascii.eqb_sym, E.
Qed.

Lemma one_line_no_lf v : no_char LF (one_line v) = true.
Proof. apply replace_no_char; [done|]. by apply replace_gone. Qed.

Lemma one_line_no_backslash v : no_char BACKSLASH v = true → no_char BACKSLASH (one_line v) = true.
Proof. intros H. by repeat apply replace_no_char. Qed.

Lemma replace_char_id c r s : no_char c s = true → replace_char c r s = s.
Proof.
  unfold no_char. induction s as [|a s IH]; [done|]. cbn. rewrite negb_true_iff, orb_false_iff.
  intros [Ha Hs]. rewrite Ascii.eqb_sym in Ha. rewrite Ha, IH; [done|by rewrite Hs].
Qed.

Lemma one_line_id v : no_char LF v = true → no_char CR v = true → one_line v = v.
Proof. intros H1 H2. unfold one_line. rewrite (replace_char_id LF) by done. by apply replace_char_id. Qed.

Lemma new_line_no_lf key v : printable_str key = true → no_char LF (new_line key v) = true.
Proof.
  intros Hk. unfold new_line. rewrite !no_char_app. unfold no_char at 1.
  rewrite printable_no_char by done. cbn [negb andb].
  change (String QUOTE ?x) with (String QUOTE EmptyString ++ x). rewrite !no_char_app.
  rewrite replace_no_char; [done|done|apply one_line_no_lf].
Qed.

Lemma new_line_value key v :
  key_ok key → no_char BACKSLASH v = true → line_value key (new_line key v) = Some (one_line v).
Proof.
  intros (Hne & Hp & _) Hb. unfold line_value, new_line. destruct key as [|a key]; [done|].
  cbn in Hp. apply andb_true_iff in Hp as [Ha _].
  set (q := replace_char _ _ _).
  replace (String a key ++ " = " ++ String QUOTE (q ++ String QUOTE EmptyString))
    with (String a (key ++ " = " ++ String QUOTE q) ++ String QUOTE EmptyString)
    by (cbn; by rewrite <- !str_app_assoc).
  rewrite trim_quoted by done.
  replace (String a (key ++ " = " ++ String QUOTE q) ++ String QUOTE EmptyString)
    with ((String a key ++ " = " ++ String QUOTE EmptyString) ++ q ++ String QUOTE EmptyString)
    by (cbn; by rewrite <- !str_app_assoc).
  rewrite strip_prefix_app. apply unquote_quoted. by apply one_line_no_backslash.
Qed.

Lemma last_all {A} (v : A) l : (∀ x, x ∈ l → x = v) → l ≠ [] → last l = Some v.
Proof.
  intros H Hl. destruct (last l) as [y|] eqn:E; [|by apply last_None in E].
  apply last_Some in E as [l' ->]. f_equal. apply H. set_solver.
Qed.

Lemma updated_lines_no_lf existing key value :
  printable_str key = true → Forall (λ l, no_char LF l = true) (updated_lines existing key value).
Proof.
  intros Hk. unfold updated_lines.
  assert (Forall (λ l, no_char LF l = true)
    ((λ line, if sets_key key line then new_line key value else line) <$> lines existing)).
  { apply Forall_fmap. eapply Forall_impl; [apply lines_no_lf|]. intros l Hl. cbn.
    case_match; [by apply new_line_no_lf|done]. }
  case_match; [done|]. apply Forall_app. split; [done|]. constructor; [by apply new_line_no_lf|done].
Qed.

Lemma updated_lines_set existing key value :
  ∃ l, l ∈ updated_lines existing key value ∧ l = new_line key value.
Proof.
  exists (new_line key value). split; [|done]. unfold updated_lines.
  destruct (existsb _ _) eqn:E; [|set_solver].
  apply existsb_exists in E as (l & Hl & Hs). rewrite <- list_elem_of_In in Hl.
  apply list_elem_of_fmap. exists l. by rewrite Hs.
Qed.

Lemma read_updated k existing key value :
  printable_str key = true →
  setting k (updated_auto_conf existing key value) =
  last (omap (line_value k) (updated_lines existing key value)).
Proof.
  intros Hk. unfold setting. f_equal. apply read_written; [|by apply updated_lines_no_lf].
  destruct (updated_lines_set existing key value) as (l & Hl & _).
  intros E. rewrite E in Hl. by apply elem_of_nil in Hl.
Qed.

Lemma setting_updated existing key value :
  key_ok key → no_char BACKSLASH value = true →
  setting key (updated_auto_conf existing key value) = Some (one_line value).
Proof.
  intros Hk Hb. pose proof Hk as (_ & Hp & _). rewrite read_updated by done. apply last_all.
  - intros x (l & Hl & Hx)%list_elem_of_omap. unfold updated_lines in Hl.
    assert (l = new_line key value) as ->; [|by rewrite new_line_value in Hx; simplify_eq].
    pose proof (sets_key_value _ _ _ Hx) as Hs. destruct (existsb _ _) eqn:E.
    + apply list_elem_of_fmap in Hl as (l0 & -> & _).
      destruct (sets_key key l0) eqn:E0; [done|congruence].
    + apply elem_of_app in Hl as [(l0 & -> & Hl0)%list_elem_of_fmap|Hl%list_elem_of_singleton]; [|done].
      destruct (sets_key key l0) eqn:E0; [done|congruence].
  - destruct (updated_lines_set existing key value) as (l & Hl & ->). intros E.
    apply (elem_of_nil (one_line value)). rewrite <- E. apply list_elem_of_omap.
    eexists. split; [exact Hl|]. by apply new_line_value.
Qed.

Lemma setting_updated_ne existing key value key' :
  key_ok key → no_char BACKSLASH value = true → key_ok key' → key' ≠ key →
  setting key' (updated_auto_conf existing key value) = setting key' existing.
Proof.
  intros Hk Hb Hk' Hne. pose proof Hk as (_ & Hp & _). rewrite read_updated by done. unfold setting. f_equal.
    assert (Hnew : line_value key' (new_line key value) = None).
    { apply (sets_one_key key); [done|done| |done].
      eapply sets_key_value. by apply new_line_value. }
    assert (Hls : omap (line_value key')
      ((λ line, if sets_key key line then new_line key value else line) <$> lines existing) =
      omap (line_value key') (lines existing)).
    { induction (lines existing) as [|l ls IH]; [done|]. cbn -[line_value]. rewrite IH.
      destruct (sets_key key l) eqn:E; [|done]. rewrite Hnew.
      by rewrite (sets_one_key key key' l). }
    unfold updated_lines. case_match; [done|]. rewrite omap_app. cbn -[line_value].
    by rewrite Hnew, app_nil_r.
Qed.

(** After an update of postgresql.auto.conf the key reads back as the value, with
    its line breaks replaced by spaces, whatever the file held; and every other
    key reads as before. *)
Theorem auto_conf_round_trip existing key value :
  key_ok key → no_char BACKSLASH value = true →
  setting key (updated_auto_conf existing key value) = Some (one_line value) ∧
  ∀ key', key_ok key' → key' ≠ key →
    setting key' (updated_auto_conf existing key value) = setting key' existing.
Proof.
  intros Hk Hb. split; [by apply setting_updated|]. intros key' Hk' Hne. by apply setting_updated_ne.
Qed.

(** ** The password file *)

Lemma esc_cons a s :
  esc (String a s) =
  (if Ascii.eqb a BACKSLASH then String BACKSLASH (String BACKSLASH EmptyString)
   else if Ascii.eqb a ":" then String BACKSLASH ":" else String a EmptyString) ++ esc s.
Proof.
  unfold esc. cbn. destruct (Ascii.eqb a BACKSLASH); [done|]. cbn. by destruct (Ascii.eqb a ":").
Qed.

Lemma pgpass_fields_esc cur s rest :
  no_char LF s = true → pgpass_fields cur (esc s ++ rest) = pgpass_fields (cur ++ s) rest.
Proof.
  revert cur. induction s as [|a s IH]; intros cur Hs; [by rewrite str_app_nil_r|].
  unfold no_char in Hs. cbn in Hs. apply negb_true_iff, orb_false_iff in Hs as [Ha Hs].
  rewrite (str_app_snoc cur a s), <- IH by (unfold no_char; by rewrite Hs).
  rewrite esc_cons, <- str_app_assoc. rewrite Ascii.eqb_sym in Ha.
  destruct (Ascii.eqb a BACKSLASH) eqn:E; [apply Ascii.eqb_eq in E as ->; done|].
  destruct (Ascii.eqb a ":") eqn:E'; [apply Ascii.eqb_eq in E' as ->; done|].
  cbn. by rewrite E, E', Ha.
Qed.

Lemma pgpass_round_trip host port database user password :
  Forall (λ s, no_char LF s = true) [host; port; database; user; password] →
  pgpass_fields EmptyString (pgpass_content host port database user password) =
  [host; port; database; user; password].
Proof.
  rewrite !Forall_cons. intros (Hh & Hp & Hd & Hu & Hw & _). unfold pgpass_content.
  rewrite pgpass_fields_esc by done. cbn [append pgpass_fields].
  change (Ascii.eqb ":" BACKSLASH) with false. change (Ascii.eqb ":" ":") with true. cbn match.
  do 3 (rewrite pgpass_fields_esc by done; cbn [append pgpass_fields];
        change (Ascii.eqb ":" BACKSLASH) with false; change (Ascii.eqb ":" ":") with true; cbn match).
  rewrite pgpass_fields_esc by done. done.
Qed.

(** ** The conninfo pgcluster sends *)

Lemma trim_end_char_id c s : no_char c s = true → trim_end_char c s = s.
Proof.
  unfold no_char. induction s as [|a s IH]; [done|]. cbn. rewrite negb_true_iff, orb_false_iff.
  intros [Ha Hs]. rewrite Ascii.eqb_sym in Ha. rewrite IH, Ha by (by rewrite Hs). by destruct s.
Qed.

Lemma trim_quotes_id s : no_char QUOTE s = true → trim_quotes s = s.
Proof.
  intros H. unfold trim_quotes. rewrite trim_end_char_id; destruct s as [|a s]; try done;
  unfold no_char in H |- *; cbn in H |- *; rewrite negb_true_iff, orb_false_iff in H;
  destruct H as [Ha Hs]; rewrite Ascii.eqb_sym in Ha; rewrite Ha; [done|].
  cbn. by rewrite Ascii.eqb_sym, Ha, Hs.
Qed.

(** A word in a conninfo string: printable, without quotes and backslashes. *)
Definition plain (s : string) : bool :=
  printable_str s && no_char QUOTE s && no_char BACKSLASH s.

Lemma plain_app a b : plain (a ++ b) = plain a && plain b.
Proof.
  unfold plain. rewrite printable_app, !no_char_app.
  by destruct (printable_str a), (printable_str b), (no_char QUOTE a), (no_char QUOTE b),
    (no_char BACKSLASH a), (no_char BACKSLASH b).
Qed.

Lemma plain_spec s : plain s = true →
  printable_str s = true ∧ no_char QUOTE s = true ∧ no_char BACKSLASH s = true ∧ no_char LF s = true.
Proof.
  unfold plain. intros [[Hp Hq]%andb_true_iff Hb]%andb_true_iff. split_and!; try done.
  unfold no_char. by rewrite printable_no_char.
Qed.

(** What can stand in a value: no backslash and no line break. *)
Definition clean (s : string) : bool := no_char BACKSLASH s && no_char LF s && no_char CR s.

Lemma clean_app a b : clean (a ++ b) = clean a && clean b.
Proof.
  unfold clean. rewrite !no_char_app.
  by destruct (no_char BACKSLASH a), (no_char BACKSLASH b), (no_char LF a), (no_char LF b),
    (no_char CR a), (no_char CR b).
Qed.

Lemma plain_clean s : plain s = true → clean s = true.
Proof.
  unfold plain, clean. intros [[Hp _]%andb_true_iff ->]%andb_true_iff.
  unfold no_char. by rewrite !printable_no_char.
Qed.

Lemma host_port_plain cfg host port :
  plain (postgres_addr cfg) = true → postgres_host_port cfg = (host, port) →
  plain host = true ∧ plain port = true.
Proof.
  unfold postgres_host_port. intros Hp Hs.
  destruct (rsplit_once ":" (postgres_addr cfg)) as [[h p]|] eqn:E; cbn in Hs; simplify_eq; [|done].
  apply rsplit_once_Some in E as [E _].
  rewrite E, plain_app in Hp. apply andb_true_iff in Hp as [? Hp]. split; [done|].
  change (String ":" port) with (":" ++ port) in Hp. rewrite plain_app in Hp.
  by apply andb_true_iff in Hp as [_ ?].
Qed.

#[local] Arguments Ascii.eqb !_ !_ /.

(** What is stored for a node's conninfo. *)
Lemma stored_conninfo_eq cfg host port user password dir app :
  postgres_host_port cfg = (host, port) → plain (postgres_addr cfg) = true →
  plain user = true → plain password = true → is_empty app = false →
  stored_conninfo dir (conninfo cfg user password) app =
  ("host=" ++ host ++ " port=" ++ port ++ " user=" ++ user ++ " application_name=" ++ app ++
   " passfile=" ++ path_join dir ".pgpass",
   Some (pgpass_content host port "replication" user password)).
Proof.
  intros Hhp Ha Hu Hw Happ. destruct (host_port_plain _ _ _ Ha Hhp) as [Hh Hp].
  apply plain_spec in Ha as (Ha & _), Hh as (_ & Hh & _), Hp as (_ & Hp & _),
    Hu as (Hu & Hu' & _), Hw as (Hw & Hw' & _).
  unfold stored_conninfo, extract_conninfo_password, conninfo_value.
  rewrite (conninfo_words _ _ _ _ _ Hhp) by done. rewrite Happ.
  unfold token_value, is_password. cbn -[trim_quotes pgpass_content].
  rewrite !trim_quotes_id by done. f_equal.
  rewrite <- !str_app_assoc. cbn. rewrite <- ?str_app_assoc. done.
Qed.

Lemma stored_words host port user app file :
  printable_str host = true → printable_str port = true → printable_str user = true →
  printable_str app = true → printable_str file = true →
  split_whitespace ("host=" ++ host ++ " port=" ++ port ++ " user=" ++ user ++
    " application_name=" ++ app ++ " passfile=" ++ file) =
  ["host=" ++ host; "port=" ++ port; "user=" ++ user; "application_name=" ++ app;
   "passfile=" ++ file].
Proof.
  intros Hh Hp Hu Ha Hf.
  transitivity (split_whitespace (("host=" ++ host) ++ String " " (("port=" ++ port) ++ String " "
     (("user=" ++ user) ++ String " " (("application_name=" ++ app) ++ String " "
     ("passfile=" ++ file)))))); [done|].
  by rewrite !split_whitespace_cons, split_whitespace_last
    by (done || rewrite printable_app; done).
Qed.

(** ** Paths below a directory *)

Lemma path_join_app dir a x : path_join dir (a ++ x) = (path_join dir a ++ x)%string.
Proof. unfold path_join. case_match; by rewrite <- ?str_app_assoc. Qed.

Lemma starts_with_cancel p a b : starts_with (p ++ a) (p ++ b) = starts_with a b.
Proof. induction p as [|c p IH]; cbn; [done|]. by rewrite Ascii.eqb_refl. Qed.

Lemma str_app_inj_l (a b c : string) : (a ++ b = a ++ c)%string → b = c.
Proof. induction a as [|x a IH]; cbn; [done|]. intros [= E]. auto. Qed.

Lemma path_join_inj d a b : path_join d a = path_join d b → a = b.
Proof.
  unfold path_join. case_match; [apply str_app_inj_l|]. intros E%str_app_inj_l. by apply str_app_inj_l in E.
Qed.

Lemma path_join_eqb d a b : String.eqb (path_join d a) (path_join d b) = String.eqb a b.
Proof.
  destruct (String.eqb_spec a b) as [->|Hne]; [apply String.eqb_refl|]. apply String.eqb_neq.
  intros E. by apply path_join_inj in E.
Qed.

Lemma starts_with_join d a b : starts_with (path_join d a) (path_join d b) = starts_with a b.
Proof. unfold path_join. case_match; by rewrite !starts_with_cancel. Qed.

Lemma ends_with_app c a b : b ≠ EmptyString → ends_with c (a ++ b) = ends_with c b.
Proof.
  intros Hb. induction a as [|x a IH]; [done|]. cbn [String.append]. rewrite <- IH.
  destruct (a ++ b)%string eqn:E; [|done]. destruct a; cbn in E; [by destruct Hb|done].
Qed.

Lemma path_join_nonempty d a : a ≠ EmptyString → is_empty (path_join d a) = false.
Proof. intros Ha. unfold path_join. case_match; destruct d, a; done. Qed.

(** A path in two steps is the path in one. *)
Lemma path_join_join d a b : a ≠ EmptyString → ends_with "/" a = false →
  path_join (path_join d a) b = path_join d (a ++ "/" ++ b).
Proof.
  intros Ha He. unfold path_join at 1. rewrite path_join_nonempty by done.
  assert (ends_with "/" (path_join d a) = false) as ->
    by (unfold path_join; case_match; rewrite !ends_with_app by done; done).
  cbn [orb]. by rewrite path_join_app.
Qed.

Lemma path_join_plain dir name : plain dir = true → plain name = true → plain (path_join dir name) = true.
Proof. intros Hd Hn. unfold path_join. case_match; by rewrite ?plain_app, ?Hd, ?Hn. Qed.

(** For the conninfo pgcluster sends for a node, with addresses, credentials
    and paths free of white space, quotes and backslashes: the agent's
    [primary_conninfo] reads back from postgresql.auto.conf as what it stored,
    the monitor recognises it as following exactly the nodes at that host and
    port, no word of it is a password, and libpq finds the password in .pgpass
    under the node's host, port and user. *)
Theorem standby_follows cfg user password dir app existing :
  plain (postgres_addr cfg) = true → plain user = true → plain password = true →
  plain dir = true → plain app = true → is_empty app = false →
  let '(stored, pgpass) := stored_conninfo dir (conninfo cfg user password) app in
  let '(host, port) := postgres_host_port cfg in
  setting "primary_conninfo" (updated_auto_conf existing "primary_conninfo" stored) = Some stored ∧
  (∀ cfg', is_target_of cfg' stored = true ↔ postgres_host_port cfg' = (host, port)) ∧
  Forall (λ t, is_password t = false) (split_whitespace stored) ∧
  (pgpass_fields EmptyString <$> pgpass) = Some [host; port; "replication"; user; password].
Proof.
  intros Ha Hu Hw Hd Happ Hne. destruct (postgres_host_port cfg) as [host port] eqn:Hhp.
  rewrite (stored_conninfo_eq cfg host port) by done.
  destruct (host_port_plain _ _ _ Ha Hhp) as [Hh Hp].
  pose proof (path_join_plain dir ".pgpass" Hd eq_refl) as Hj.
  pose proof (plain_spec _ Hh) as (Hh1 & _ & _ & Hh2).
  pose proof (plain_spec _ Hp) as (Hp1 & _ & _ & Hp2).
  pose proof (plain_spec _ Hu) as (Hu1 & _ & _ & Hu2).
  pose proof (plain_spec _ Hw) as (Hw1 & _ & _ & Hw2).
  pose proof (plain_spec _ Happ) as (Ha1 & _). pose proof (plain_spec _ Hj) as (Hj1 & _).
  split_and!.
  - apply plain_clean in Hh, Hp, Hu, Happ, Hj. set (stored := _ ++ _).
    assert (Hc : clean stored = true).
    { unfold stored. rewrite !clean_app, Hh, Hp, Hu, Happ, Hj. done. }
    unfold clean in Hc. apply andb_true_iff in Hc as [[Hb Hl]%andb_true_iff Hr].
    rewrite setting_updated by done. by rewrite one_line_id.
  - intros cfg'. unfold is_target_of, has_token. rewrite stored_words by done.
    destruct (postgres_host_port cfg') as [h' p'].
    cbn [existsb]. rewrite !strip_prefix_app. cbn [strip_prefix append Ascii.eqb].
    rewrite andb_true_iff, !orb_true_iff, !bool_decide_eq_true. cbn. naive_solver.
  - rewrite stored_words by done. by repeat constructor.
  - cbn [fmap option_fmap option_map]. by rewrite pgpass_round_trip by (repeat constructor; done).
Qed.

(** ** Examples *)

Definition old_conf : string :=
  "# Do not edit this file manually!" ++ String LF "primary_conninfo = 'host=a'" ++
  String LF "wal_level = 'replica'" ++ String LF EmptyString.

Lemma auto_conf_round_trip_witness :
  setting "wal_level" old_conf = Some "replica" ∧
  (setting "primary_conninfo" (updated_auto_conf old_conf "primary_conninfo" "user='x' host=b") =
   Some (one_line "user='x' host=b") ∧
   ∀ key', key_ok key' → key' ≠ "primary_conninfo" →
     setting key' (updated_auto_conf old_conf "primary_conninfo" "user='x' host=b") =
     setting key' old_conf).
Proof. split; [reflexivity|]. apply (auto_conf_round_trip old_conf); [split_and!; reflexivity|reflexivity]. Defined.

Lemma standby_follows_witness :
  let cfg := mkNodeConfig "n1" "10.0.0.1:7000" "10.0.0.1:5432" 10 ∅ in
  let '(stored, pgpass) := stored_conninfo "/data" (conninfo cfg "repl" "s:3cret") "n2" in
  let '(host, port) := postgres_host_port cfg in
  setting "primary_conninfo" (updated_auto_conf old_conf "primary_conninfo" stored) = Some stored ∧
  (∀ cfg', is_target_of cfg' stored = true ↔ postgres_host_port cfg' = (host, port)) ∧
  Forall (λ t, is_password t = false) (split_whitespace stored) ∧
  (pgpass_fields EmptyString <$> pgpass) = Some [host; port; "replication"; "repl"; "s:3cret"].
Proof.
  intros cfg. apply (standby_follows cfg "repl" "s:3cret" "/data" "n2" old_conf); reflexivity.
Defined.

(** A password with a space is cut at the space, and its rest stays in the
    stored conninfo. *)
Lemma password_with_space :
  extract_conninfo_password "host=a user=u password=my secret" =
  ("host=a user=u secret", Some "my").
Proof. reflexivity. Qed.
