(* ===== verification/Agent.v ===== *)
(** The agent's requests: src/vk-agent/src/server.rs with process.rs, seed.rs,
    standby.rs, files.rs, postgres.rs and walg.rs.

    A handler is a program over the calls it makes: commands it runs, files it
    reads and writes, SQL on the local Postgres, the heartbeat tracker and the
    lock of the lifecycle requests. Errors are [None]; their texts only travel
    back to the caller. JSON and time parsing are parameters.

    [data_cleared_only_when_allowed] says when a data directory may be emptied,
    [starts_configured] what Postgres finds on disk when a lifecycle request
    starts it, and [status_shape] what a status can look like. *)
From S2P Require Import Prelude Topology Effects Standby.

Local Open Scope Z_scope.

(** ** Calls *)

Record AgentConfig := mkAgentConfig {
  data_dir : string;
  ac_postgres_host : string;
  ac_postgres_port : Z;
  ac_postgres_user : string;
  ac_postgres_password : option string;
  manage_postgres : bool;
  walg_path : string;
  backup_config_path : string;
  pg_ctl_path : string;
  postgres_config_file : option string
}.

Record output := mkOutput { code : option Z; stdout : string; stderr : string }.

Definition success (o : output) : bool := bool_decide (code o = Some 0).

Inductive read_result := RText (s : string) | RNotFound | RError.

(** A row of [pg_stat_replication]. *)
Record stat_row := mkStatRow {
  row_name : string;
  row_flush : option string;
  row_replay : option string;
  row_lag : option Z;
  row_state : string
}.

Inductive acall :=
(* processes *)
| RunCommand (program : string) (args : list string) (env : list (string * string))
| ProcessId
(* files *)
| ReadFile (path : string)
| WriteFile (path content : string)
| RenameFile (old new : string)
| RemoveFile (path : string)
| RemoveDirAll (path : string)
| CreateDirAll (path : string)
| ReadDir (path : string)
| TryExists (path : string)
| SetPermissions (path : string) (mode : Z)
(* the local Postgres *)
| Exec (statement : string)
| QueryBool (statement : string)
| QueryText (statement : string)
| QueryInt (statement : string)
| QueryNames (statement : string)
| QueryPairs (statement : string)
| QueryStat
| RoleExists (user : string)
| BeginTx
| CommitTx
(* shared in the agent *)
| IsSafeMode
| Touch
| DetachTracker
| TryLock
| Unlock.

(** A directory listing ends early at an entry that cannot be read; each entry
    says whether it is a directory, if that can be told. *)
Definition acall_answer (e : acall) : Type :=
  match e with
  | RunCommand _ _ _ => option output
  | ReadFile _ => read_result
  | ReadDir _ => option (list (option (string * option bool)))
  | TryExists _ | QueryBool _ | RoleExists _ => option bool
  | QueryText _ => option (option string)
  | QueryInt _ => option Z
  | QueryNames _ => option (list string)
  | QueryPairs _ => option (list (string * string))
  | QueryStat => option (list stat_row)
  | ProcessId => Z
  | Touch | DetachTracker | Unlock => unit
  | WriteFile _ _ | RenameFile _ _ | RemoveFile _ | RemoveDirAll _
  | CreateDirAll _ | SetPermissions _ _ | Exec _ | BeginTx | CommitTx | IsSafeMode | TryLock => bool
  end.

Abbreviation aeff := (prog acall_answer).
Abbreviation atrace := (list (obs acall_answer)).

Definition act (e : acall) : aeff (acall_answer e) := call e.

(** A call that succeeds or fails, with [?] in mind. *)
Definition checked (p : aeff bool) : aeff (option ()) :=
  ok ← p; Ret (if ok : bool then Some () else None).

(** ** pg_ctl: process.rs *)

Section agent.
Context (cfg : AgentConfig).

Definition run_pg_ctl (args : list string) : aeff (option ()) :=
  o ←? act (RunCommand (pg_ctl_path cfg) args []);
  Ret (if success o then Some () else None).

Definition stop_fast : aeff (option ()) :=
  run_pg_ctl ["stop"; "-D"; data_dir cfg; "-m"; "fast"].

Definition stop_immediate : aeff (option ()) :=
  run_pg_ctl ["stop"; "-D"; data_dir cfg; "-m"; "immediate"].

Definition start : aeff (option ()) :=
  let log := (data_dir cfg ++ "/startup.log")%string in
  run_pg_ctl (["start"; "-D"; data_dir cfg; "-l"; log; "-w"; "-t"; "600"] ++
    match postgres_config_file cfg with
    | Some path => ["-o"; ("--config-file='" ++ path ++ "'")%string]
    | None => []
    end).

Definition pg_reload : aeff (option ()) := run_pg_ctl ["reload"; "-D"; data_dir cfg].

Definition is_running : aeff (option bool) :=
  o ←? act (RunCommand (pg_ctl_path cfg) ["status"; "-D"; data_dir cfg] []);
  Ret (match code o with
       | Some 0 => Some true
       | Some 3 => Some false
       | _ => None
       end).

(** [is_running().await.unwrap_or(false)]. *)
Definition seen_running : aeff bool := r ← is_running; Ret (default false r).

(** Another program, for a [pg_ctl_path] that ends in a file name. *)
Definition tool (name : string) : string :=
  match rsplit_once "/" (pg_ctl_path cfg) with
  | Some (dir, _) => (dir ++ "/" ++ name)%string
  | None => name
  end.

(** ** Files: files.rs and standby.rs *)

Definition in_data (name : string) : string := path_join (data_dir cfg) name.

Definition write_signal_file (name : string) : aeff (option ()) :=
  checked (act (WriteFile (in_data name) EmptyString)).

Definition auto_conf : string := in_data "postgresql.auto.conf".

Definition update_auto_conf (key value : string) : aeff (option ()) :=
  pid ← act ProcessId;
  let tmp := in_data ("postgresql.auto.conf" ++ "." ++ format_dec pid ++ ".tmp") in
  r ← act (ReadFile auto_conf);
  match r : read_result with
  | RError => Ret None
  | _ =>
      let existing := match r with RText s => s | _ => EmptyString end in
      _ ←? checked (act (WriteFile tmp (updated_auto_conf existing key value)));
      checked (act (RenameFile tmp auto_conf))
  end.

(** [content] as [pgpass_content] renders it. *)
Definition write_pgpass (content : string) : aeff (option ()) :=
  _ ←? checked (act (WriteFile (in_data ".pgpass") content));
  checked (act (SetPermissions (in_data ".pgpass") 384)).

Definition configure_standby (conninfo slot app : string) : aeff (option ()) :=
  _ ←? write_signal_file "standby.signal";
  _ ←? (if is_empty conninfo then Ret (Some ())
        else
          let '(stored, pgpass) := stored_conninfo (data_dir cfg) conninfo app in
          _ ←? match pgpass with
               | Some content => write_pgpass content
               | None => Ret (Some ())
               end;
          update_auto_conf "primary_conninfo" stored);
  if is_empty slot then Ret (Some ()) else update_auto_conf "primary_slot_name" slot.

(** ** Seeding and rewinding: seed.rs *)

Definition has_data_check : aeff (option bool) := act (TryExists (in_data "PG_VERSION")).

Fixpoint remove_entries (entries : list (option (string * option bool))) : aeff (option ()) :=
  match entries with
  | [] => Ret (Some ())
  | Some (name, Some is_dir) :: entries =>
      _ ←? checked (if is_dir : bool then act (RemoveDirAll (in_data name))
                    else act (RemoveFile (in_data name)));
      remove_entries entries
  | _ => Ret None
  end.

Definition clear_contents : aeff (option ()) :=
  _ ←? checked (act (CreateDirAll (data_dir cfg)));
  entries ←? act (ReadDir (data_dir cfg));
  remove_entries entries.

Definition set_owner_only : aeff (option ()) :=
  checked (act (SetPermissions (data_dir cfg) 448)).

Definition base_backup (req : SeedRequest) : aeff (option ()) :=
  let slot := if is_empty (sr_slot_name req) then [] else ["--slot"; sr_slot_name req] in
  o ←? act (RunCommand (tool "pg_basebackup")
    (["--host"; sr_primary_host req; "--port"; format_dec (sr_primary_port req);
      "--username"; sr_user req; "--pgdata"; data_dir cfg;
      "--wal-method=stream"; "--checkpoint=fast"; "--no-password"] ++ slot)
    [("PGPASSWORD", sr_password req)]);
  Ret (if success o then Some () else None).

Definition primary_conninfo (req : SeedRequest) : string :=
  ("host=" ++ sr_primary_host req ++ " port=" ++ format_dec (sr_primary_port req) ++
   " user=" ++ sr_user req ++ " password=" ++ sr_password req)%string.

(** The guard [seed] and [restore] share: whether Postgres runs, or [None] when
    there is data that may not be replaced. *)
Definition replaceable (force : bool) : aeff (option bool) :=
  running ← seen_running;
  if force then Ret (Some running)
  else if running : bool then Ret None
  else d ←? has_data_check; Ret (if d : bool then None else Some running).

Definition empty_data (force : bool) : aeff (option ()) :=
  running ←? replaceable force;
  _ ←? (if running : bool then stop_fast else Ret (Some ()));
  clear_contents.

Definition seed (req : SeedRequest) : aeff (option ()) :=
  _ ←? empty_data (sr_force req);
  _ ←? base_backup req;
  _ ←? configure_standby (primary_conninfo req) (sr_slot_name req) (sr_application_name req);
  _ ←? set_owner_only;
  start.

Definition rewind_source (req : SeedRequest) : string :=
  ("host=" ++ sr_primary_host req ++ " port=" ++ format_dec (sr_primary_port req) ++
   " user=" ++ sr_user req ++ " dbname=postgres")%string.

Definition NO_REWIND : string := "no rewind required".

Definition run_rewind (req : SeedRequest) : aeff (option ()) :=
  let config := match postgres_config_file cfg with
                | Some path => [("--config-file=" ++ path)%string]
                | None => []
                end in
  o ←? act (RunCommand (tool "pg_rewind")
    (["--target-pgdata"; data_dir cfg; "--source-server"; rewind_source req] ++ config)
    [("PGPASSWORD", sr_password req)]);
  Ret (if success o && negb (str_contains NO_REWIND (stdout o) || str_contains NO_REWIND (stderr o))
       then Some () else None).

Definition rewind (req : SeedRequest) : aeff (option ()) :=
  running ← seen_running;
  _ ←? (if running : bool then stop_fast else Ret (Some ()));
  _ ←? run_rewind req;
  _ ←? configure_standby (rewind_source req ++ " password=" ++ sr_password req)%string
        (sr_slot_name req) (sr_application_name req);
  start.

(** ** The local Postgres: postgres.rs *)

Definition MANAGED_PARAMETERS : list string :=
  ["synchronous_standby_names"; "max_slot_wal_keep_size"].

Definition DQUOTE : ascii := "034".

Definition quote_literal (value : string) : string :=
  ("'" ++ replace_char "'" "''" value ++ "'")%string.

Definition quote_ident (name : string) : string :=
  String DQUOTE (replace_char DQUOTE (String DQUOTE (String DQUOTE EmptyString)) name ++
    String DQUOTE EmptyString).

Definition alter_system_sql (name value : string) : string :=
  ("ALTER SYSTEM SET " ++ name ++ " = " ++ quote_literal value)%string.

(** Statements one after the other, up to the first that fails. *)
Fixpoint exec_all (statements : list string) : aeff (option ()) :=
  match statements with
  | [] => Ret (Some ())
  | s :: statements => _ ←? checked (act (Exec s)); exec_all statements
  end.

Definition RELOAD_CONF : string := "SELECT pg_reload_conf()".
Definition PG_PROMOTE : string := "SELECT pg_promote(true, 30)".

(** [parameters] in the order the map yields them. *)
Fixpoint set_each (parameters : list (string * string)) : aeff (option ()) :=
  match parameters with
  | [] => Ret (Some ())
  | (name, value) :: parameters =>
      if bool_decide (name ∈ MANAGED_PARAMETERS) then
        _ ←? checked (act (Exec (alter_system_sql name value))); set_each parameters
      else Ret None
  end.

Definition set_parameters `{!HashOrder} (parameters : gmap string string) : aeff (option ()) :=
  _ ←? set_each (hash_iter parameters); exec_all [RELOAD_CONF].

Definition set_archive_command (command : string) : aeff (option ()) :=
  exec_all [alter_system_sql "archive_command" command; alter_system_sql "archive_timeout" "60";
            RELOAD_CONF].

Definition pg_detach : aeff (option ()) :=
  exec_all [PG_PROMOTE; "ALTER SYSTEM RESET primary_conninfo"; "ALTER SYSTEM RESET primary_slot_name";
            alter_system_sql "archive_command" "/bin/true";
            alter_system_sql "synchronous_standby_names" EmptyString; RELOAD_CONF].

Definition GET_AUTH : string :=
  "CREATE OR REPLACE FUNCTION pgcluster.get_auth(role_name name) RETURNS text LANGUAGE sql STABLE SECURITY DEFINER SET search_path = pg_catalog AS $$ SELECT rolpassword FROM pg_authid WHERE rolname = role_name AND rolcanlogin AND (rolvaliduntil IS NULL OR rolvaliduntil > now()) $$".

Definition auth_statements (exists_ : bool) (user password version : string) : list string :=
  let role := quote_ident user in
  List.filter (λ s, negb (is_empty s))
    ["SET LOCAL synchronous_commit = local";
     if exists_ then EmptyString else ("CREATE ROLE " ++ role ++ " LOGIN")%string;
     ("ALTER ROLE " ++ role ++ " LOGIN NOSUPERUSER NOCREATEDB NOCREATEROLE PASSWORD " ++
       quote_literal password)%string;
     "CREATE SCHEMA IF NOT EXISTS pgcluster";
     GET_AUTH;
     "REVOKE ALL ON SCHEMA pgcluster FROM PUBLIC";
     "REVOKE ALL ON FUNCTION pgcluster.get_auth(name) FROM PUBLIC";
     ("GRANT USAGE ON SCHEMA pgcluster TO " ++ role)%string;
     ("GRANT EXECUTE ON FUNCTION pgcluster.get_auth(name) TO " ++ role)%string;
     ("COMMENT ON FUNCTION pgcluster.get_auth(name) IS " ++ quote_literal version)%string].

(** The transaction is rolled back when it is left before the commit. *)
Definition set_proxy_auth (user password version : string) : aeff (option ()) :=
  _ ←? checked (act BeginTx);
  exists_ ←? act (RoleExists user);
  _ ←? exec_all (auth_statements exists_ user password version);
  checked (act CommitTx).

Definition agent_parse_lsn (s : string) : option Z :=
  if is_empty s then Some 0
  else
    '(hi, lo) ← split_once "/" s;
    hi ← from_str_radix 16 (2 ^ 64 - 1) (trim hi);
    lo ← from_str_radix 16 (2 ^ 64 - 1) (trim lo);
    Some (Z.lor (wrap 64 (Z.shiftl hi 32)) lo).

(** A query for a position, which may be NULL. *)
Definition query_lsn (statement : string) : aeff (option Z) :=
  r ←? act (QueryText statement); Ret (agent_parse_lsn (default EmptyString r)).

(** A text that is not NULL: NULL fails to decode. *)
Definition query_current_lsn : aeff (option Z) :=
  r ←? act (QueryText "SELECT pg_current_wal_lsn()::text"); Ret (r ≫= agent_parse_lsn).

(** An [i32] as [u32]. *)
Definition query_timeline : aeff (option Z) :=
  r ←? act (QueryInt "SELECT timeline_id FROM pg_control_checkpoint()"); Ret (Some (wrap 32 r)).

(** An [i64], at least zero, as [u32]. *)
Definition query_connections : aeff (option Z) :=
  r ←? act (QueryInt "SELECT count(*) FROM pg_stat_activity
             WHERE state != 'idle' AND pid != pg_backend_pid()");
  Ret (Some (wrap 32 (Z.max r 0))).

(** The first two words of the version. *)
Definition short_version (v : string) : string :=
  match split_once " " v with
  | Some (a, rest) => match split_once " " rest with
                      | Some (b, _) => (a ++ " " ++ b)%string
                      | None => v
                      end
  | None => v
  end.

Definition query_version : aeff (option string) :=
  r ←? act (QueryText "SELECT version()"); Ret (short_version <$> r).

Definition replica_status (r : stat_row) : ReplicaStatus :=
  let lsn o := default 0 (agent_parse_lsn (default EmptyString o)) in
  mkReplicaStatus (row_name r) (lsn (row_flush r)) (lsn (row_replay r)) (default 0 (row_lag r))
    (row_state r).

Definition query_replicas : aeff (option (list ReplicaStatus)) :=
  r ←? act QueryStat; Ret (Some (replica_status <$> r)).

(** ** WAL-G: walg.rs *)

Record ListedBackup := mkListed { lb_name : string; compressed_size : Z; finish_time : option Z }.

(** The JSON of a map, the listing WAL-G prints as JSON, and the two time
    formats, as serde_json and chrono read and write them. *)
Context (to_json : gmap string string → string)
  (from_json : string → option (list ListedBackup)) (parse_target_time : string → option Z).

Definition walg_env : list (string * string) :=
  [("PGHOST", ac_postgres_host cfg); ("PGPORT", format_dec (ac_postgres_port cfg));
   ("PGUSER", ac_postgres_user cfg)] ++
  match ac_postgres_password cfg with Some p => [("PGPASSWORD", p)] | None => [] end.

Definition run_walg (args : list string) : aeff (option string) :=
  o ←? act (RunCommand (walg_path cfg) (["--config"; backup_config_path cfg] ++ args) walg_env);
  Ret (if success o then Some (stdout o) else None).

Definition archive_command : string :=
  (walg_path cfg ++ " --config " ++ backup_config_path cfg ++ " wal-push %p")%string.

Definition restore_command : string :=
  (walg_path cfg ++ " --config " ++ backup_config_path cfg ++ " wal-fetch %f %p")%string.

Definition version_path : string := (backup_config_path cfg ++ ".version")%string.

(** [Path::with_extension] on a path that ends in a file name. *)
Definition with_tmp (path : string) : string :=
  let '(dir, name) := match rsplit_once "/" path with
                      | Some (d, n) => ((d ++ "/")%string, n)
                      | None => (EmptyString, path)
                      end in
  match rsplit_once "." name with
  | Some (stem, _) => (dir ++ (if is_empty stem then name else stem) ++ ".tmp")%string
  | None => (dir ++ name ++ ".tmp")%string
  end.

Definition write_owner_only (path content : string) : aeff (option ()) :=
  _ ←? checked (act (WriteFile (with_tmp path) content));
  _ ←? checked (act (SetPermissions (with_tmp path) 384));
  checked (act (RenameFile (with_tmp path) path)).

Definition write_config (settings : gmap string string) : aeff (option ()) :=
  write_owner_only (backup_config_path cfg) (to_json settings).

Definition configure (settings : gmap string string) (version : string) : aeff (option ()) :=
  _ ←? write_config settings;
  _ ←? set_archive_command archive_command;
  checked (act (WriteFile version_path version)).

Definition config_version : aeff string :=
  r ← act (ReadFile version_path); Ret (match r : read_result with RText s => s | _ => EmptyString end).

(** Nothing that starts with a bracket is an empty repository. *)
Definition parse_list (out : string) : option (list ListedBackup) :=
  let trimmed := trim out in
  if starts_with "[" trimmed then from_json trimmed else Some [].

Definition list_backups : aeff (option (list ListedBackup)) :=
  out ←? run_walg ["backup-list"; "--json"; "--detail"]; Ret (parse_list out).

Definition backup_push : aeff (option (string * Z)) :=
  _ ←? run_walg ["backup-push"; data_dir cfg];
  l ←? list_backups;
  Ret ((λ b, (lb_name b, compressed_size b)) <$> last l).

Definition delete_backups (retain_full : Z) (target : string) : aeff (option (list string)) :=
  _ ←? (if is_empty target then Ret (Some EmptyString)
        else run_walg ["delete"; "target"; target; "--confirm"]);
  _ ←? (if 0 <? retain_full
        then run_walg ["delete"; "retain"; "FULL"; format_dec retain_full; "--confirm"]
        else Ret (Some EmptyString));
  l ←? list_backups;
  Ret (Some (lb_name <$> l)).

Definition verify_wal : aeff (option string) :=
  run_walg ["wal-verify"; "integrity"; "timeline"; "--json"].

Definition finish_le (a b : ListedBackup) : bool :=
  match finish_time a, finish_time b with
  | None, _ => true
  | Some _, None => false
  | Some x, Some y => x <=? y
  end.

Definition finished_by (target : Z) (b : ListedBackup) : bool :=
  match finish_time b with Some t => t <=? target | None => false end.

Definition newest_before (backups : list ListedBackup) (target : Z) : option string :=
  lb_name <$> max_by_key finish_le (List.filter (finished_by target) backups).

Definition choose_backup (req : RestoreRequest) : aeff (option string) :=
  if negb (is_empty (backup_name req)) then Ret (Some (backup_name req))
  else if is_empty (target_time req) then Ret (Some "LATEST")
  else match parse_target_time (target_time req) with
       | Some target => l ←? list_backups; Ret (newest_before l target)
       | None => Ret None
       end.

(** The settings of a node that becomes an independent primary. *)
Fixpoint update_all (settings : list (string * string)) : aeff (option ()) :=
  match settings with
  | [] => Ret (Some ())
  | (key, value) :: settings => _ ←? update_auto_conf key value; update_all settings
  end.

Definition recovery_settings (req : RestoreRequest) : list (string * string) :=
  [("recovery_target_timeline", "latest"); ("recovery_target_action", "promote")] ++
  (if is_empty (target_time req) then [] else [("recovery_target_time", target_time req)]) ++
  [("archive_mode", "off"); ("archive_command", EmptyString);
   ("synchronous_standby_names", EmptyString)].

Definition configure_restored (req : RestoreRequest) : aeff (option ()) :=
  match rr_standby req with
  | Some standby =>
      configure_standby (primary_conninfo standby) (sr_slot_name standby) (sr_application_name standby)
  | None =>
      _ ←? write_signal_file "recovery.signal"; update_all (recovery_settings req)
  end.

Definition restore (req : RestoreRequest) : aeff (option ()) :=
  _ ←? empty_data (rr_force req);
  _ ←? write_config (rr_settings req);
  name ←? choose_backup req;
  _ ←? run_walg ["backup-fetch"; data_dir cfg; name];
  _ ←? update_auto_conf "restore_command" restore_command;
  _ ←? configure_restored req;
  _ ←? set_owner_only;
  start.

(** ** The handlers: server.rs *)

(** The guard is dropped when the request is done. *)
Definition lifecycle (body : aeff (option ())) : aeff (option ()) :=
  if negb (manage_postgres cfg) then Ret None
  else
    locked ← act TryLock;
    if locked : bool then r ← body; _ ← act Unlock; Ret r else Ret None.

Inductive lifecycle_request :=
| SeedNode (req : SeedRequest)
| RewindNode (req : SeedRequest)
| RestoreNode (req : RestoreRequest).

Definition lifecycle_rpc (q : lifecycle_request) : aeff (option ()) :=
  lifecycle (match q with
             | SeedNode req => seed req
             | RewindNode req => rewind req
             | RestoreNode req => restore req
             end).

Definition promote_rpc : aeff bool :=
  safe ← act IsSafeMode;
  if safe : bool then Ret false else act (Exec PG_PROMOTE).

Definition demote_rpc (conninfo slot app : string) : aeff bool :=
  r ← configure_standby conninfo slot app;
  _ ← act (RemoveFile (in_data "promote.signal"));
  match r : option () with
  | Some _ => _ ← pg_reload; Ret true
  | None => Ret false
  end.

Definition stop_and_restart : aeff (option ()) :=
  _ ←? stop_fast; if manage_postgres cfg then start else Ret (Some ()).

Definition DETACHED_MARKER : string := "pgcluster.detached".

Definition detach_rpc : aeff (option ()) :=
  _ ← act DetachTracker;
  _ ←? checked (act (WriteFile (in_data DETACHED_MARKER) EmptyString));
  pg_detach.

Definition heartbeat_rpc : aeff bool := _ ← act Touch; act IsSafeMode.

(** [self.has_data()]. *)
Definition has_data_or_false : aeff bool := r ← has_data_check; Ret (default false r).

(** The status of a node whose Postgres does not answer. *)
Definition down_status : aeff StatusResponse :=
  d ← has_data_or_false; v ← config_version;
  Ret (mkStatusResponse false 0 0 0 0 EmptyString 0 false [] EmptyString ∅ [] d v EmptyString).

(** [unwrap_or] on a query. *)
Definition or_else {A} (dflt : A) (p : aeff (option A)) : aeff A := r ← p; Ret (default dflt r).

Definition MANAGED_QUERY : string := "SELECT name, setting FROM pg_settings WHERE name = ANY($1)".
Definition LOST_QUERY : string :=
  "SELECT slot_name::text FROM pg_replication_slots WHERE wal_status = 'lost'".
Definition AUTH_VERSION_QUERY : string :=
  "SELECT obj_description(to_regprocedure('pgcluster.get_auth(name)'), 'pg_proc')".

Definition nullable (statement : string) : aeff (option string) :=
  r ←? act (QueryText statement); Ret (Some (default EmptyString r)).

Definition positions (is_recovery : bool) : aeff (Z * Z * Z) :=
  if is_recovery then
    recv ← or_else 0 (query_lsn "SELECT pg_last_wal_receive_lsn()::text");
    repl ← or_else 0 (query_lsn "SELECT pg_last_wal_replay_lsn()::text");
    Ret (recv, repl, 0)
  else cur ← or_else 0 query_current_lsn; Ret (0, 0, cur).

Definition up_status (is_recovery : bool) : aeff StatusResponse :=
  '(received, replayed, sent) ← positions is_recovery;
  tl ← or_else 0 query_timeline;
  version ← or_else EmptyString query_version;
  conns ← or_else 0 query_connections;
  reps ← (if is_recovery then Ret [] else or_else [] query_replicas);
  info ← (if is_recovery then or_else EmptyString (nullable "SELECT conninfo FROM pg_stat_wal_receiver LIMIT 1")
          else Ret EmptyString);
  params ← or_else [] (act (QueryPairs MANAGED_QUERY));
  lost ← (if is_recovery then Ret [] else or_else [] (act (QueryNames LOST_QUERY)));
  v ← config_version;
  av ← or_else EmptyString (nullable AUTH_VERSION_QUERY);
  Ret (mkStatusResponse is_recovery received replayed sent tl version conns true reps info
         (foldl (λ m p, <[p.1 := p.2]> m) ∅ params) lost true v av).

Definition get_status : aeff StatusResponse :=
  _ ← act IsSafeMode;
  up ← act (Exec "SELECT 1");
  if negb up then down_status
  else
    r ← act (QueryBool "SELECT pg_is_in_recovery()");
    match r : option bool with
    | Some is_recovery => up_status is_recovery
    | None => down_status
    end.

(** What main does with Postgres when the agent starts; the start runs in the
    background. [None] is an error that ends the agent. *)
Definition main_start : aeff (option ()) :=
  if manage_postgres cfg then
    d ←? has_data_check;
    if d : bool then
      running ← seen_running;
      if running : bool then Ret (Some ()) else _ ← start; Ret (Some ())
    else Ret (Some ())
  else Ret (Some ()).
End agent.

(** ** Specifications *)

Definition is_clear (o : obs acall_answer) : Prop :=
  match obs_ev o with RemoveFile _ | RemoveDirAll _ => True | _ => False end.

(** What [pg_ctl status] answered, with an error taken for no. *)
Definition ran (o : option output) : bool := bool_decide ((o ≫= code) = Some 0).

Definition status_call (cfg : AgentConfig) : acall :=
  RunCommand (pg_ctl_path cfg) ["status"; "-D"; data_dir cfg] [].
Definition stop_call (cfg : AgentConfig) : acall :=
  RunCommand (pg_ctl_path cfg) ["stop"; "-D"; data_dir cfg; "-m"; "fast"] [].

(** The data may be discarded: the request says so, or Postgres did not run and
    there was no data; and a Postgres that ran was stopped. *)
Definition discardable (cfg : AgentConfig) (force : bool) (tr : atrace) : Prop :=
  ∃ st : option output, Obs (status_call cfg) st ∈ tr ∧
    (force = true ∨
     (ran st = false ∧ Obs (TryExists (in_data cfg "PG_VERSION")) (Some false : option bool) ∈ tr)) ∧
    (ran st = true → ∃ o, success o = true ∧ Obs (stop_call cfg) (Some o : option output) ∈ tr).

(** The request, if any, that lets a lifecycle request clear the directory. *)
Definition clears (q : lifecycle_request) : option bool :=
  match q with
  | SeedNode req => Some (sr_force req)
  | RewindNode _ => None
  | RestoreNode req => Some (rr_force req)
  end.

Definition may_clear (cfg : AgentConfig) (q : lifecycle_request) (tr : atrace) : Prop :=
  manage_postgres cfg = true ∧ Obs TryLock true ∈ tr ∧
  ∃ force, clears q = Some force ∧ discardable cfg force tr.

(** *** The disk *)

(** The files the agent reads and writes. Commands and SQL may change any. *)
Abbreviation disk := (gmap string string).

Definition disk_step (d : disk) (o : obs acall_answer) (d' : disk) : Prop :=
  match o with
  | Obs e r =>
      match e return acall_answer e → Prop with
      | RunCommand _ _ _ | Exec _ | CommitTx | RemoveDirAll _ => λ _, True
      | ReadFile p => λ r, d' = d ∧ match r with
                                    | RText s => d !! p = Some s
                                    | RNotFound => d !! p = None
                                    | RError => True
                                    end
      | WriteFile p c => λ ok : bool,
          if ok then d' = <[p := c]> d else ∀ q, q ≠ p → d' !! q = d !! q
      | RenameFile a b => λ ok : bool,
          if ok then ∃ c, d !! a = Some c ∧ d' = <[b := c]> (delete a d) else d' = d
      | RemoveFile p => λ ok : bool, d' = if ok then delete p d else d
      | _ => λ _, d' = d
      end r
  end.

Fixpoint history (d : disk) (tr : atrace) (d' : disk) : Prop :=
  match tr with
  | [] => d' = d
  | o :: tr => ∃ d1, disk_step d o d1 ∧ history d1 tr d'
  end.

Definition is_start (o : obs acall_answer) : Prop :=
  match obs_ev o with RunCommand _ ("start" :: _) _ => True | _ => False end.

(** What postgresql.auto.conf holds. *)
Definition conf_text (cfg : AgentConfig) (d : disk) : string :=
  default EmptyString (d !! auto_conf cfg).

(** postgresql.auto.conf has these settings. *)
Definition has_settings (cfg : AgentConfig) (l : list (string * string)) (d : disk) : Prop :=
  ∀ k v, (k, v) ∈ l → setting k (conf_text cfg d) = Some (one_line v).

(** The settings of a standby of the primary at [conninfo]. *)
Definition standby_settings (cfg : AgentConfig) (conninfo slot app : string)
    : list (string * string) :=
  [("primary_conninfo", (stored_conninfo (data_dir cfg) conninfo app).1)] ++
  (if is_empty slot then [] else [("primary_slot_name", slot)]).

(** The signal file and the settings a lifecycle request leaves to Postgres. *)
Definition outcome (cfg : AgentConfig) (q : lifecycle_request) : string * list (string * string) :=
  let standby info req := ("standby.signal",
    standby_settings cfg info (sr_slot_name req) (sr_application_name req)) in
  match q with
  | SeedNode req => standby (primary_conninfo req) req
  | RewindNode req => standby (rewind_source req ++ " password=" ++ sr_password req)%string req
  | RestoreNode req =>
      match rr_standby req with
      | Some s => standby (primary_conninfo s) s
      | None => ("recovery.signal", recovery_settings req)
      end
  end.

Definition ready (cfg : AgentConfig) (q : lifecycle_request) (d : disk) : Prop :=
  d !! in_data cfg (outcome cfg q).1 = Some EmptyString ∧ has_settings cfg (outcome cfg q).2 d.

(** Whatever the disk held, it is as [P] says after these calls. *)
Definition leaves (P : disk → Prop) (tr : atrace) : Prop := ∀ d d', history d tr d' → P d'.

(** Settings without backslashes, which the files do not escape. *)
Definition clean_request (cfg : AgentConfig) (q : lifecycle_request) : Prop :=
  Forall (λ kv : string * string, no_char BACKSLASH kv.2 = true) (outcome cfg q).2.

(** ** Walking through programs *)

Lemma all_runs_act {B} e (f : acall_answer e → aeff B) Q :
  (∀ r, all_runs (f r) (λ b tr, Q b (Obs e r :: tr))) → all_runs (act e ≫= f) Q.
Proof. intros Hf r. apply Hf. Qed.

Ltac act_steps tac :=
  repeat match goal with
  | |- only _ (Ret _) => exact I
  | |- only _ (mret _) => exact I
  | |- only _ (act _) => intros ?; split; [tac|exact I]
  | |- only _ (mbind _ _) => apply only_bind; [|intros ?]
  | |- only _ (checked _) => unfold checked
  | |- only _ (try_bind _ _) => unfold try_bind
  | |- only _ (or_else _ _) => unfold or_else
  | |- only _ (match ?x with _ => _ end) => destruct x
  end.

(** ** When data is discarded *)

Lemma discardable_app cfg force a b : discardable cfg force a → discardable cfg force (a ++ b).
Proof.
  intros (st & Hst & Hf & Hr). exists st. split; [set_solver|]. split.
  - destruct Hf as [?|[? ?]]; [by left|right; set_solver].
  - intros H. destruct (Hr H) as (o & ? & ?). exists o. set_solver.
Qed.

Lemma discardable_cons cfg force o b : discardable cfg force b → discardable cfg force (o :: b).
Proof.
  intros (st & Hst & Hf & Hr). exists st. split; [set_solver|]. split.
  - destruct Hf as [?|[? ?]]; [by left|right; set_solver].
  - intros H. destruct (Hr H) as (x & ? & ?). exists x. set_solver.
Qed.

Lemma seen_running_runs cfg :
  all_runs (seen_running cfg) (λ b tr, ∃ st : option output,
    tr = [Obs (status_call cfg) st] ∧ b = ran st).
Proof.
  intros st. hnf in st. destruct st as [[c out err]|]; cbn.
  - exists (Some (mkOutput c out err)). split; [done|]. unfold ran. cbn.
    destruct c as [z|]; [|done].
    destruct (decide (z = 0)) as [->|Hz]; [done|]. rewrite bool_decide_false by congruence.
    by destruct z as [|[[p|p|]|p|]|p].
  - by exists None.
Qed.

Lemma stop_fast_runs cfg :
  all_runs (stop_fast cfg) (λ r tr, Forall (λ o, ¬ is_clear o) tr ∧
    (is_Some r → ∃ o, success o = true ∧ Obs (stop_call cfg) (Some o : option output) ∈ tr)).
Proof.
  intros [o|]; cbn; (split; [repeat constructor; intros []|]); [|by intros []].
  destruct (success o) eqn:E; [|by intros []]. intros _. exists o. split; [done|]. constructor.
Qed.

Lemma replaceable_runs cfg force :
  all_runs (replaceable cfg force) (λ r tr, Forall (λ o, ¬ is_clear o) tr ∧
    ∀ running, r = Some running → ∃ st : option output, Obs (status_call cfg) st ∈ tr ∧
      running = ran st ∧ (force = true ∨ (ran st = false ∧
        Obs (TryExists (in_data cfg "PG_VERSION")) (Some false : option bool) ∈ tr))).
Proof.
  unfold replaceable. apply all_runs_bind. eapply all_runs_mono; [apply seen_running_runs|].
  cbn beta. intros running tr (st & -> & ->).
  assert (Hst : ¬ is_clear (Obs (status_call cfg) st)) by (intros []).
  destruct force; [|destruct (ran st) eqn:Hr].
  - split; [by repeat constructor|]. intros r [= <-]. exists st. split; [constructor|]. auto.
  - by split; [repeat constructor|].
  - apply all_runs_act. intros [d|]; cbn; (split; [repeat constructor; (done || intros [])|]); [|done].
    destruct d; [done|]. intros r [= <-]. exists st. split; [constructor|].
    split; [done|]. right. split; [done|]. set_solver.
Qed.

Lemma empty_data_runs cfg force :
  all_runs (empty_data cfg force) (λ _ tr, preceded is_clear (discardable cfg force) tr).
Proof.
  apply (all_runs_try _ _ _ _ (replaceable_runs cfg force)).
  { intros tr [Hq _]. by apply preceded_none. }
  intros running tr [Hq Hr]. destruct (Hr running eq_refl) as (st & Hst & -> & Hf).
  apply (all_runs_try _ _ (λ r tr', Forall (λ o, ¬ is_clear o) tr' ∧
    (is_Some r → ran st = true →
       ∃ o, success o = true ∧ Obs (stop_call cfg) (Some o : option output) ∈ tr'))).
  { destruct (ran st); [|by split; [constructor|]].
    eapply all_runs_mono; [apply stop_fast_runs|]. cbn beta. intros r tr' [? H]. auto. }
  { intros tr' [Hq' _]. apply preceded_none. by apply Forall_app. }
  intros [] tr' [Hq' Hs]. eapply all_runs_mono; [apply all_runs_True|]. cbn beta. intros r tr'' _.
  rewrite app_assoc. apply preceded_app; [apply preceded_none; by apply Forall_app|].
  intros before o after _ _. apply discardable_app. exists st. split; [set_solver|].
  split; [destruct Hf as [?|[? ?]]; [by left|right; set_solver]|].
  intros H. destruct (Hs ltac:(done) H) as (x & ? & ?). exists x. set_solver.
Qed.

(** Calls that neither discard data nor start Postgres. *)
Definition gentle (o : obs acall_answer) : Prop := ¬ is_clear o ∧ ¬ is_start o.

Ltac gentle_steps :=
  act_steps ltac:(split; intros []).

Section gentle.
Context (cfg : AgentConfig) (to_json : gmap string string → string)
  (from_json : string → option (list ListedBackup)) (parse_target_time : string → option Z).

Lemma update_auto_conf_gentle key value : only gentle (update_auto_conf cfg key value).
Proof. unfold update_auto_conf. gentle_steps. Qed.

Lemma update_all_gentle l : only gentle (update_all cfg l).
Proof.
  induction l as [|[k v] l IH]; cbn [update_all]; [exact I|].
  apply only_bind; [apply update_auto_conf_gentle|]. intros [[]|]; [done|exact I].
Qed.

Lemma configure_standby_gentle conninfo slot app :
  only gentle (configure_standby cfg conninfo slot app).
Proof.
  unfold configure_standby, write_signal_file, write_pgpass. gentle_steps;
    try apply update_auto_conf_gentle.
Qed.

Lemma run_rewind_gentle req : only gentle (run_rewind cfg req).
Proof. unfold run_rewind. gentle_steps. Qed.

Lemma base_backup_gentle req : only gentle (base_backup cfg req).
Proof. unfold base_backup. gentle_steps. Qed.

Lemma run_walg_gentle args : only gentle (run_walg cfg args).
Proof. unfold run_walg. gentle_steps. Qed.

Lemma choose_backup_gentle req : only gentle (choose_backup cfg from_json parse_target_time req).
Proof. unfold choose_backup, list_backups. gentle_steps; apply run_walg_gentle. Qed.

Lemma configure_restored_gentle req : only gentle (configure_restored cfg req).
Proof.
  unfold configure_restored, write_signal_file.
  destruct (rr_standby req); [apply configure_standby_gentle|].
  gentle_steps; apply update_all_gentle.
Qed.

Lemma stop_fast_gentle : only gentle (stop_fast cfg).
Proof. unfold stop_fast, run_pg_ctl. gentle_steps. Qed.

Lemma seen_running_gentle : only gentle (seen_running cfg).
Proof. unfold seen_running, is_running. gentle_steps. Qed.

Lemma remove_entries_no_start l : only (λ o, ¬ is_start o) (remove_entries cfg l).
Proof.
  induction l as [|[[name [[]|]]|] l IH]; cbn [remove_entries]; try exact I;
    act_steps ltac:(intros []); done.
Qed.

Lemma empty_data_no_start force : only (λ o, ¬ is_start o) (empty_data cfg force).
Proof.
  unfold empty_data, replaceable, seen_running, is_running, stop_fast, run_pg_ctl, has_data_check,
    clear_contents.
  act_steps ltac:(intros []); apply remove_entries_no_start.
Qed.
End gentle.

Lemma no_clear_after {A B} (p : aeff (option A)) (f : A → aeff (option B)) C :
  all_runs p (λ _ tr, preceded is_clear C tr) → (∀ a, only (λ o, ¬ is_clear o) (f a)) →
  all_runs (try_bind p f) (λ _ tr, preceded is_clear C tr).
Proof.
  intros Hp Hf. apply (all_runs_try _ _ _ _ Hp); [done|]. intros a tr Htr.
  eapply all_runs_mono; [apply only_runs, Hf|]. cbn beta. intros r tr' Hq.
  apply preceded_app; [done|]. by apply preceded_none.
Qed.

Lemma start_no_clear cfg : only (λ o, ¬ is_clear o) (start cfg).
Proof. unfold start, run_pg_ctl. act_steps ltac:(intros []). Qed.

Lemma gentle_no_clear {A} (p : aeff A) : only gentle p → only (λ o, ¬ is_clear o) p.
Proof. intros H. eapply only_mono; [exact H|]. by intros o [? _]. Qed.

Lemma gentle_no_start {A} (p : aeff A) : only gentle p → only (λ o, ¬ is_start o) p.
Proof. intros H. eapply only_mono; [exact H|]. by intros o [_ ?]. Qed.

Create HintDb gentle.
#[local] Hint Resolve update_auto_conf_gentle configure_standby_gentle run_rewind_gentle
  base_backup_gentle run_walg_gentle choose_backup_gentle configure_restored_gentle
  stop_fast_gentle seen_running_gentle : gentle.

(** One step after the other, each gentle, up to the start. *)
Ltac no_clear_steps :=
  repeat first
    [ apply start_no_clear
    | solve [apply gentle_no_clear; auto with gentle]
    | progress act_steps ltac:(intros [])
    | progress unfold set_owner_only, write_config, write_owner_only ].

Section requests.
Context (cfg : AgentConfig) (to_json : gmap string string → string)
  (from_json : string → option (list ListedBackup)) (parse_target_time : string → option Z).

Lemma lifecycle_runs (body : aeff (option ())) (P : atrace → Prop) :
  P [] →
  (manage_postgres cfg = true →
   all_runs body (λ _ tr, ∀ u : unit, P (Obs TryLock true :: tr ++ [Obs Unlock u]))) →
  P [Obs TryLock false] →
  all_runs (lifecycle cfg body) (λ _ tr, P tr).
Proof.
  intros H0 H1 H2. unfold lifecycle. destruct (manage_postgres cfg); [|done]. cbn [negb].
  apply all_runs_act. intros [].
  - apply all_runs_bind. eapply all_runs_mono; [by apply H1|]. cbn. intros _ tr H. exact H.
  - done.
Qed.

End requests.

(** ** What a request leaves on disk *)

Lemma history_app d a b d' : history d (a ++ b) d' ↔ ∃ d1, history d a d1 ∧ history d1 b d'.
Proof.
  revert d. induction a as [|o a IH]; intros d; cbn.
  - split; [by exists d|]. by intros (? & -> & ?).
  - setoid_rewrite IH. naive_solver.
Qed.

(** When [p] succeeds, the disks before and after it are related by [Φ]. *)
Definition ensures {A} (p : aeff (option A)) (Φ : disk → disk → Prop) : Prop :=
  all_runs p (λ r tr, is_Some r → ∀ d d', history d tr d' → Φ d d').

Lemma ensures_ret {A} (a : A) : ensures (Ret (Some a)) (λ d d', d' = d).
Proof. intros _ d d' H. exact H. Qed.

Lemma ensures_try {A B} (p : aeff (option A)) (f : A → aeff (option B)) Φ Ψ X :
  ensures p Φ → (∀ a, ensures (f a) Ψ) → (∀ d d1 d', Φ d d1 → Ψ d1 d' → X d d') →
  ensures (try_bind p f) X.
Proof.
  intros Hp Hf HX. apply (all_runs_try _ _ _ _ Hp); [by intros tr _ [? [=]]|].
  intros a tr Htr. eapply all_runs_mono; [apply Hf|]. cbn beta. intros r tr' Htr' Hr d d'.
  rewrite history_app. intros (d1 & H1 & H2). eapply HX; [by apply Htr|by apply Htr'].
Qed.

Lemma ensures_mono {A} (p : aeff (option A)) (Φ Ψ : disk → disk → Prop) :
  ensures p Φ → (∀ d d', Φ d d' → Ψ d d') → ensures p Ψ.
Proof. intros Hp H. eapply all_runs_mono; [exact Hp|]. cbn. intros r tr Hr Hs d d' Hh. auto. Qed.

Lemma ensures_write path content :
  ensures (checked (act (WriteFile path content))) (λ d d', d' = <[path := content]> d).
Proof. intros []; cbn; intros Hs d d'; [|by destruct Hs]. by intros (? & -> & ->). Qed.

Lemma starts_with_refl a : starts_with a a = true.
Proof. induction a as [|c a IH]; cbn; [done|]. by rewrite Ascii.eqb_refl. Qed.

Lemma starts_with_in_data cfg a b : starts_with (in_data cfg a) (in_data cfg b) = starts_with a b.
Proof.
  unfold in_data, path_join. case_match; [apply starts_with_cancel|].
  by rewrite !starts_with_cancel.
Qed.

(** The settings [l] are in place, and the others and the files beside
    postgresql.auto.conf are as before. *)
Definition updates (cfg : AgentConfig) (l : list (string * string)) (d d' : disk) : Prop :=
  has_settings cfg l d' ∧
  (∀ k, key_ok k → k ∉ l.*1 → setting k (conf_text cfg d') = setting k (conf_text cfg d)) ∧
  ∀ q, starts_with (auto_conf cfg) q = false → d' !! q = d !! q.

Lemma write_rename_ensures tmp path content :
  ensures (_ ←? checked (act (WriteFile tmp content)); checked (act (RenameFile tmp path)))
    (λ d d', d' = <[path := content]> (delete tmp (<[tmp := content]> d))).
Proof.
  apply (ensures_try _ _ _ (λ d d', ∃ c, d !! tmp = Some c ∧ d' = <[path := c]> (delete tmp d))
    _ (ensures_write tmp content)).
  - intros _ []; cbn; intros Hs d d'; [|by destruct Hs].
    intros (d1 & (c & Hc & Hd) & ->). subst. by exists c.
  - intros d d1 d' -> (c & Hc & ->). rewrite lookup_insert_eq in Hc. by injection Hc as ->.
Qed.

(** The temporary file of an update. *)
Lemma update_disk cfg tmp key value existing d d' :
  key_ok key → no_char BACKSLASH value = true → starts_with (auto_conf cfg) tmp = true →
  existing = conf_text cfg d →
  d' = <[auto_conf cfg := updated_auto_conf existing key value]>
         (delete tmp (<[tmp := updated_auto_conf existing key value]> d)) →
  updates cfg [(key, value)] d d'.
Proof.
  intros Hk Hv Htmp -> Hd'.
  assert (conf_text cfg d' = updated_auto_conf (conf_text cfg d) key value) as Hc.
  { unfold conf_text at 1. by rewrite Hd', lookup_insert_eq. }
  unfold updates, has_settings. rewrite Hc. split_and!.
  - intros k v [= -> ->]%list_elem_of_singleton. by apply setting_updated.
  - intros k Hk' Hne. apply setting_updated_ne; [done..|]. set_solver.
  - intros q Hq. rewrite Hd', lookup_insert_ne by (intros <-; by rewrite starts_with_refl in Hq).
    rewrite lookup_delete_ne, lookup_insert_ne by (intros <-; congruence). done.
Qed.

Lemma update_ensures cfg key value :
  key_ok key → no_char BACKSLASH value = true →
  ensures (update_auto_conf cfg key value) (updates cfg [(key, value)]).
Proof.
  intros Hk Hv. apply all_runs_act. intros pid. apply all_runs_act. intros r. hnf in r.
  assert (Htmp : starts_with (auto_conf cfg)
    (in_data cfg ("postgresql.auto.conf" ++ "." ++ format_dec pid ++ ".tmp")) = true).
  { unfold auto_conf. rewrite starts_with_in_data. apply starts_with_app. }
  destruct r as [text| |]; [| |by intros [? [=]]];
    (eapply all_runs_mono; [apply write_rename_ensures|]); cbn beta iota;
    intros res tr Htr Hs d d' (d1 & -> & d2 & (-> & Hd) & Hh);
    (eapply update_disk; [done|done|exact Htmp| |exact (Htr Hs _ _ Hh)]);
    unfold conf_text; by rewrite Hd.
Qed.

Lemma updates_app cfg l1 l2 d d1 d' :
  Forall key_ok l1.*1 → NoDup (l1 ++ l2).*1 →
  updates cfg l1 d d1 → updates cfg l2 d1 d' → updates cfg (l1 ++ l2) d d'.
Proof.
  intros Hk Hnd (H1 & H2 & H3) (G1 & G2 & G3). rewrite fmap_app in Hnd.
  apply NoDup_app in Hnd as (_ & Hnd & _). split_and!.
  - intros k v [Hin|Hin]%elem_of_app; [|by apply G1].
    pose proof (list_elem_of_fmap_2 fst _ _ Hin) as Hin'. rewrite G2; [by apply H1| |by apply Hnd].
    rewrite Forall_forall in Hk. by apply Hk.
  - intros k Hk' Hnin. rewrite fmap_app in Hnin. rewrite G2, H2 by set_solver. done.
  - intros q Hq. by rewrite G3, H3.
Qed.

Lemma update_all_ensures cfg l :
  Forall key_ok l.*1 → NoDup l.*1 → Forall (λ kv : string * string, no_char BACKSLASH kv.2 = true) l →
  ensures (update_all cfg l) (updates cfg l).
Proof.
  induction l as [|[k v] l IH]; intros Hk Hnd Hb; cbn [update_all].
  - eapply ensures_mono; [apply ensures_ret|]. intros d d' ->. split_and!; [|done..].
    intros k v []%elem_of_nil.
  - cbn in Hk. apply Forall_cons in Hk as [Hk1 Hk2], Hb as [Hb1 Hb2].
    eapply ensures_try; [by apply update_ensures| |].
    + intros _. apply IH; [done|by apply NoDup_cons in Hnd as [_ ?]|done].
    + intros d d1 d' H1 H2. apply (updates_app cfg [(k, v)] l d d1 d'); [by apply Forall_singleton|done..].
Qed.

(** ** Starting Postgres *)

Lemma write_pgpass_ensures cfg content :
  ensures (write_pgpass cfg content) (λ d d', ∀ q, q ≠ in_data cfg ".pgpass" → d' !! q = d !! q).
Proof.
  eapply (ensures_try _ _ _ (λ d d', d' = d)); [apply ensures_write| |].
  - intros _ []; cbn; intros Hs d d'; [|by destruct Hs]. by intros (? & -> & ->).
  - intros d d1 d' -> -> q Hq. by rewrite lookup_insert_ne.
Qed.

Lemma in_data_ne cfg a b : starts_with a b = false → in_data cfg b ≠ in_data cfg a.
Proof. intros H E. rewrite <- (starts_with_in_data cfg), E, starts_with_refl in H. done. Qed.

Lemma primary_conninfo_ok : key_ok "primary_conninfo".
Proof. by split_and!. Qed.

Lemma primary_slot_name_ok : key_ok "primary_slot_name".
Proof. by split_and!. Qed.

(** Storing the conninfo, with its password apart. *)
Lemma store_conninfo_ensures cfg stored pgpass :
  no_char BACKSLASH stored = true →
  ensures (_ ←? match pgpass with Some content => write_pgpass cfg content | None => Ret (Some ()) end;
           update_auto_conf cfg "primary_conninfo" stored)
    (λ d d', d' !! in_data cfg "standby.signal" = d !! in_data cfg "standby.signal" ∧
             has_settings cfg [("primary_conninfo", stored)] d').
Proof.
  intros Hb. apply (ensures_try _ _ (λ d d', ∀ q, q ≠ in_data cfg ".pgpass" → d' !! q = d !! q)
    (updates cfg [("primary_conninfo", stored)])).
  - destruct pgpass; [apply write_pgpass_ensures|].
    eapply ensures_mono; [apply ensures_ret|]. by intros d d' ->.
  - intros _. apply update_ensures; [apply primary_conninfo_ok|done].
  - intros d d1 d' H1 (H2 & _ & H3). split; [|done].
    rewrite H3 by (unfold auto_conf; by rewrite starts_with_in_data).
    apply H1. by apply in_data_ne.
Qed.

Lemma configure_standby_ensures cfg conninfo slot app :
  is_empty conninfo = false →
  Forall (λ kv : string * string, no_char BACKSLASH kv.2 = true) (standby_settings cfg conninfo slot app) →
  ensures (configure_standby cfg conninfo slot app)
    (λ _ d', d' !! in_data cfg "standby.signal" = Some EmptyString ∧
             has_settings cfg (standby_settings cfg conninfo slot app) d').
Proof.
  unfold standby_settings, configure_standby. intros Hne [Hb1 Hb2]%Forall_cons. rewrite Hne.
  destruct (stored_conninfo (data_dir cfg) conninfo app) as [stored pgpass].
  apply (ensures_try _ _ _ (λ d d', d' !! in_data cfg "standby.signal" = d !! in_data cfg "standby.signal" ∧
    has_settings cfg (("primary_conninfo", stored) ::
      (if is_empty slot then [] else [("primary_slot_name", slot)])) d') _ (ensures_write _ _)).
  2:{ intros d d1 d' -> [H1 H2]. split; [by rewrite H1, lookup_insert_eq|done]. }
  intros _. eapply (ensures_try _ _ _ _ _ (store_conninfo_ensures cfg stored pgpass Hb1)).
  { intros _. instantiate (1 := λ d d', d' !! in_data cfg "standby.signal" = d !! in_data cfg "standby.signal" ∧
      (has_settings cfg [("primary_conninfo", stored)] d →
       has_settings cfg (("primary_conninfo", stored) ::
         (if is_empty slot then [] else [("primary_slot_name", slot)])) d')).
    destruct (is_empty slot); [eapply ensures_mono; [apply ensures_ret|]; by intros d d' ->|].
    apply Forall_cons in Hb2 as [Hb2 _].
    eapply ensures_mono; [apply update_ensures; [apply primary_slot_name_ok|exact Hb2]|].
    intros d d' (H1 & H2 & H3). split; [apply H3; unfold auto_conf; by rewrite starts_with_in_data|].
    intros H k v [[= -> ->]|Hin]%elem_of_cons; [|by apply H1].
    rewrite H2; [apply H; constructor|apply primary_conninfo_ok|set_solver]. }
  intros d d1 d' [H1 H2] [H3 H4]. split; [by rewrite H3|auto].
Qed.

(** Steps that do not start Postgres, before those that may. *)
Lemma before_start_bind {A B} (p : aeff A) (f : A → aeff B) R :
  only (λ o, ¬ is_start o) p → (∀ a, all_runs (f a) (λ _ tr, preceded is_start (leaves R) tr)) →
  all_runs (p ≫= f) (λ _ tr, preceded is_start (leaves R) tr).
Proof.
  intros Hp Hf. apply all_runs_bind. eapply all_runs_mono; [apply only_runs, Hp|]. cbn beta.
  intros a tr Hq. eapply all_runs_mono; [apply Hf|]. cbn beta. intros r tr' Htr'.
  apply preceded_quiet; [done| |done]. intros b Hb d d' (d1 & _ & H)%history_app. by eapply Hb.
Qed.

Lemma before_start {A B} (p : aeff (option A)) (f : A → aeff (option B)) R :
  only (λ o, ¬ is_start o) p → (∀ a, all_runs (f a) (λ _ tr, preceded is_start (leaves R) tr)) →
  all_runs (try_bind p f) (λ _ tr, preceded is_start (leaves R) tr).
Proof.
  intros Hp Hf. apply before_start_bind; [done|]. intros [a|]; [apply Hf|by apply preceded_none].
Qed.

(** The step that prepares the disk, and what follows it. *)
Lemma start_follows {A B} (p : aeff (option A)) (f : A → aeff (option B)) (R : disk → Prop) :
  only (λ o, ¬ is_start o) p → ensures p (λ _ d', R d') →
  (∀ a, all_runs (f a) (λ _ tr, preceded is_start (λ b, ∀ d d', R d → history d b d' → R d') tr)) →
  all_runs (try_bind p f) (λ _ tr, preceded is_start (leaves R) tr).
Proof.
  intros Hp He Hf. apply (all_runs_try _ _ _ _ (all_runs_conj _ _ _ (only_runs _ _ Hp) He)).
  { intros tr [Hq _]. by apply preceded_none. }
  intros a tr [Hq Hr]. eapply all_runs_mono; [apply Hf|]. cbn beta. intros r tr' Htr'.
  apply preceded_app; [by apply preceded_none|]. eapply preceded_mono; [exact Htr'|].
  cbn beta. intros b Hb d d' (d1 & H1 & H2)%history_app. eapply Hb; [by eapply Hr|done].
Qed.

Lemma start_keeps cfg (R : disk → Prop) :
  all_runs (start cfg) (λ _ tr, preceded is_start (λ b, ∀ d d', R d → history d b d' → R d') tr).
Proof.
  intros o. hnf in o. destruct o; cbn; intros [|x before] y after [= <- Heq] _ d d' HR;
    cbn; try (by intros ->); by destruct before.
Qed.

Lemma owner_start_keeps cfg (R : disk → Prop) :
  all_runs (_ ←? set_owner_only cfg; start cfg)
    (λ _ tr, preceded is_start (λ b, ∀ d d', R d → history d b d' → R d') tr).
Proof.
  intros []; [|apply preceded_none; repeat constructor; intros []].
  eapply all_runs_mono; [apply (start_keeps cfg R)|]. cbn beta. intros r tr Htr.
  apply preceded_cons; [intros []|]. eapply preceded_mono; [exact Htr|]. cbn beta.
  intros b Hb d d' HR (d1 & -> & H). by eapply Hb.
Qed.

Section starting.
Context (cfg : AgentConfig) (to_json : gmap string string → string)
  (from_json : string → option (list ListedBackup)) (parse_target_time : string → option Z).

Lemma recovery_settings_ok req :
  Forall key_ok (recovery_settings req).*1 ∧ NoDup (recovery_settings req).*1.
Proof.
  unfold recovery_settings. destruct (is_empty (target_time req)); cbn;
    (split; [repeat constructor|]); apply (bool_decide_unpack _); vm_compute; exact I.
Qed.

Lemma configure_restored_ensures req :
  clean_request cfg (RestoreNode req) →
  ensures (configure_restored cfg req) (λ _ d', ready cfg (RestoreNode req) d').
Proof.
  unfold clean_request, ready, configure_restored, outcome.
  destruct (rr_standby req) as [s|]; cbn [fst snd]; intros Hc.
  { by apply configure_standby_ensures. }
  destruct (recovery_settings_ok req) as [Hk Hnd].
  apply (ensures_try _ _ _ (updates cfg (recovery_settings req)) _ (ensures_write _ _)).
  - intros _. by apply update_all_ensures.
  - intros d d1 d' -> (H1 & _ & H3). split; [|done].
    rewrite H3 by (unfold auto_conf; by rewrite starts_with_in_data). by rewrite lookup_insert_eq.
Qed.

(** Whenever a seed, rewind or restore starts Postgres, and whatever the disk
    held before, the data directory has the signal file of its outcome and
    postgresql.auto.conf reads as its settings: a standby of the given primary
    with its slot, or, for a restore without one, a recovery that ends in a
    promotion, with archiving off and no synchronous standbys. *)
Theorem starts_configured q :
  clean_request cfg q →
  all_runs (lifecycle_rpc cfg to_json from_json parse_target_time q)
    (λ _ tr, preceded is_start (leaves (ready cfg q)) tr).
Proof.
  intros Hc.
  apply lifecycle_runs; [by apply preceded_none| |apply preceded_none; repeat constructor; intros []].
  intros _. eapply all_runs_mono with (Q := λ _ tr, preceded is_start (leaves (ready cfg q)) tr).
  2:{ intros _ tr Htr u. rewrite app_comm_cons. apply preceded_app; [|apply preceded_none; repeat constructor; intros []].
      apply preceded_cons; [intros []|]. eapply preceded_mono; [exact Htr|]. cbn beta.
      intros b Hb d d' (d1 & _ & H). by eapply Hb. }
  destruct q as [req|req|req].
  - apply before_start; [apply empty_data_no_start|intros _].
    apply before_start; [apply gentle_no_start; auto with gentle|intros _].
    apply start_follows; [apply gentle_no_start; auto with gentle|by apply configure_standby_ensures|].
    intros _. apply owner_start_keeps.
  - apply before_start_bind; [apply gentle_no_start; auto with gentle|intros running].
    apply before_start; [destruct running; [apply gentle_no_start; auto with gentle|exact I]|intros _].
    apply before_start; [apply gentle_no_start; auto with gentle|intros _].
    apply start_follows; [apply gentle_no_start; auto with gentle|by apply configure_standby_ensures|].
    intros _. apply start_keeps.
  - apply before_start; [apply empty_data_no_start|intros _].
    apply before_start; [apply gentle_no_start; unfold write_config, write_owner_only; gentle_steps|intros _].
    do 3 (apply before_start; [apply gentle_no_start; auto with gentle|intros ?]).
    apply start_follows; [apply gentle_no_start; auto with gentle|by apply configure_restored_ensures|].
    intros _. apply owner_start_keeps.
Qed.
End starting.

(** ** The status *)

(** What a status can look like: positions and counters in their width; nothing
    but the data flags and the backup version without Postgres; the positions
    of a standby or of a primary, not both. *)
Record status_ok (s : StatusResponse) : Prop := {
  ok_width : in_u 64 (received_lsn s) ∧ in_u 64 (replayed_lsn s) ∧ in_u 64 (sent_lsn s) ∧
    in_u 32 (timeline s) ∧ in_u 32 (active_connections s) ∧
    Forall (λ r, in_u 64 (rs_flush_lsn r) ∧ in_u 64 (rs_replay_lsn r)) (replicas s);
  ok_down : postgres_running s = false →
    is_in_recovery s = false ∧ sent_lsn s = 0 ∧ replicas s = [] ∧ parameters s = ∅ ∧ lost_slots s = [];
  ok_standby : is_in_recovery s = true →
    postgres_running s = true ∧ sent_lsn s = 0 ∧ replicas s = [] ∧ lost_slots s = [];
  ok_primary : is_in_recovery s = false →
    received_lsn s = 0 ∧ replayed_lsn s = 0 ∧ replication_conninfo s = EmptyString;
  ok_data : postgres_running s = true → has_data s = true
}.

Lemma returns_seq {A B} (P : A → Prop) (Q : B → Prop) (p : aeff A) f :
  returns P p → (∀ a, P a → returns Q (f a)) → returns Q (p ≫= f).
Proof.
  intros Hp Hf. apply all_runs_bind. eapply all_runs_mono; [exact Hp|]. cbn beta. intros a tr Ha.
  by apply Hf.
Qed.

Lemma returns_or_else {A} (P : A → Prop) d (p : aeff (option A)) :
  P d → returns (λ o, ∀ a, o = Some a → P a) p → returns P (or_else d p).
Proof.
  intros Hd Hp. eapply returns_seq; [exact Hp|]. intros [a|] Ha; cbn; [by apply Ha|done].
Qed.

Lemma agent_parse_lsn_u64 s n : agent_parse_lsn s = Some n → in_u 64 n.
Proof.
  unfold agent_parse_lsn. destruct (is_empty s); [by intros [= <-]|].
  destruct (split_once "/" s) as [[hi lo]|]; cbn; [|done].
  destruct (from_str_radix 16 _ (trim hi)) as [h|] eqn:Eh; cbn; [|done].
  destruct (from_str_radix 16 _ (trim lo)) as [l|] eqn:El; cbn; [|done]. intros [= <-].
  apply lor_in_u; [lia|by apply wrap_in_u|]. apply from_str_radix_bounds in El; [|lia..].
  unfold in_u. lia.
Qed.

Lemma query_lsn_u64 statement : returns (λ o, ∀ n, o = Some n → in_u 64 n) (query_lsn statement).
Proof. intros r. hnf in r. destruct r as [r|]; [|done]. intros n. apply agent_parse_lsn_u64. Qed.

Lemma query_current_lsn_u64 : returns (λ o, ∀ n, o = Some n → in_u 64 n) query_current_lsn.
Proof.
  intros r. hnf in r. destruct r as [[r|]|]; [|done..]. intros n. apply agent_parse_lsn_u64.
Qed.

Lemma replica_status_u64 r :
  in_u 64 (rs_flush_lsn (replica_status r)) ∧ in_u 64 (rs_replay_lsn (replica_status r)).
Proof.
  unfold replica_status. cbn.
  split; (destruct (agent_parse_lsn _) as [n|] eqn:E; [by apply agent_parse_lsn_u64 in E|done]).
Qed.

(** The three positions of a status. *)
Lemma positions_ok (b : bool) :
  returns (λ p : Z * Z * Z, in_u 64 p.1.1 ∧ in_u 64 p.1.2 ∧ in_u 64 p.2 ∧
    if b then p.2 = 0 else p.1.1 = 0 ∧ p.1.2 = 0) (positions b).
Proof.
  unfold positions. destruct b.
  - eapply returns_seq; [apply returns_or_else; [|apply query_lsn_u64]; done|]. cbn beta. intros recv H1.
    eapply returns_seq; [apply returns_or_else; [|apply query_lsn_u64]; done|]. cbn beta. intros repl H2.
    by split_and!.
  - eapply returns_seq; [apply returns_or_else; [|apply query_current_lsn_u64]; done|].
    cbn beta. intros cur H. by split_and!.
Qed.

Lemma returns_True {A} (p : aeff A) : returns (λ _, True) p.
Proof. apply all_runs_True. Qed.

Lemma down_status_ok cfg : returns status_ok (down_status cfg).
Proof.
  eapply returns_seq; [apply returns_True|]. intros d _.
  eapply returns_seq; [apply returns_True|]. intros v _. by split; cbn; [split_and!|..].
Qed.

Lemma up_status_ok cfg b : returns status_ok (up_status cfg b).
Proof.
  unfold up_status. eapply returns_seq; [apply positions_ok|]. intros [[recv repl] sent] (H1 & H2 & H3 & H4).
  eapply (returns_seq (in_u 32)).
  { apply returns_or_else; [done|]. intros r. hnf in r. destruct r; [|done].
    intros n [= <-]. by apply wrap_in_u. }
  intros tl Htl. eapply returns_seq; [apply returns_True|]. intros version _.
  eapply (returns_seq (in_u 32)).
  { apply returns_or_else; [done|]. intros r. hnf in r. destruct r; [|done].
    intros n [= <-]. by apply wrap_in_u. }
  intros conns Hc.
  eapply (returns_seq (λ l, (b = true → l = []) ∧
    Forall (λ r, in_u 64 (rs_flush_lsn r) ∧ in_u 64 (rs_replay_lsn r)) l)).
  { destruct b; [by split|]. apply returns_or_else; [by split|]. intros r. hnf in r.
    destruct r as [l|]; [|done]. intros rs [= <-]. split; [done|].
    apply Forall_fmap, Forall_true. intros r. apply replica_status_u64. }
  intros reps [Hr1 Hr2].
  eapply (returns_seq (λ i, b = false → i = EmptyString)).
  { destruct b; [|done]. apply (returns_seq (λ _, True)); [apply returns_True|]. done. }
  intros info Hi. eapply returns_seq; [apply returns_True|]. intros params _.
  eapply (returns_seq (λ l, b = true → l = [])).
  { destruct b; [done|]. apply (returns_seq (λ _, True)); [apply returns_True|]. done. }
  intros lost Hl. do 2 (eapply returns_seq; [apply returns_True|]; intros ? _).
  destruct b; cbn in H4; split; cbn; try done; naive_solver.
Qed.

(** Every status the agent returns: its positions fit in 64 bits and its timeline
    and connection count in 32; a node whose Postgres does not answer reports
    neither role, positions, replicas, settings nor lost slots; a standby
    reports no position of a primary and no replicas, and a primary no position
    of a standby and no upstream. *)
Theorem status_shape cfg : returns status_ok (get_status cfg).
Proof.
  eapply returns_seq; [apply returns_True|]. intros _ _.
  eapply returns_seq; [apply returns_True|]. intros up _. destruct up; [|apply down_status_ok].
  eapply returns_seq; [apply returns_True|]. intros [b|] _; [apply up_status_ok|apply down_status_ok].
Qed.

(** ** Choosing a backup *)

Lemma finish_le_total a b : finish_le a b = false → finish_le b a = true.
Proof. unfold finish_le. repeat case_match; try done. rewrite Z.leb_gt, Z.leb_le. lia. Qed.

Lemma finish_le_trans a b c : finish_le a b = true → finish_le b c = true → finish_le a c = true.
Proof. unfold finish_le. repeat case_match; try done. rewrite !Z.leb_le. lia. Qed.

(** A restore to a point in time starts from the newest backup that had finished
    by then, and fails only when there is none. *)
Lemma newest_before_spec backups target :
  match newest_before backups target with
  | Some name => ∃ b t, b ∈ backups ∧ lb_name b = name ∧ finish_time b = Some t ∧ t ≤ target ∧
      ∀ b' t', b' ∈ backups → finish_time b' = Some t' → t' ≤ target → t' ≤ t
  | None => ∀ b t, b ∈ backups → finish_time b = Some t → target < t
  end.
Proof.
  unfold newest_before. destruct (max_by_key _ _) as [b|] eqn:E; cbn.
  - apply max_by_key_spec in E as [Hin Hmax];
      [|exact finish_le_total|exact finish_le_trans].
    apply elem_of_lfilter in Hin as [Hin Hf]. unfold finished_by in Hf.
    destruct (finish_time b) as [t|] eqn:Et; [|done]. apply Z.leb_le in Hf.
    exists b, t. split_and!; try done. intros b' t' Hin' Et' Ht'.
    assert (b' ∈ List.filter (finished_by target) backups) as Hf'.
    { apply elem_of_lfilter. split; [done|]. unfold finished_by. rewrite Et'. by apply Z.leb_le. }
    apply Hmax in Hf'. unfold finish_le in Hf'. rewrite Et, Et' in Hf'. by apply Z.leb_le.
  - apply max_by_key_None in E. intros b t Hin Et. apply Z.nle_gt. intros Ht.
    apply (elem_of_nil b). rewrite <- E. apply elem_of_lfilter. split; [done|].
    unfold finished_by. rewrite Et. by apply Z.leb_le.
Qed.

(** ** Executions *)

Definition test_agent : AgentConfig :=
  mkAgentConfig "/data" "127.0.0.1" 5432 "postgres" None true "wal-g" "/etc/walg.json" "pg_ctl" None.

Definition test_seed : SeedRequest :=
  mkSeedRequest "10.0.0.1" 5432 "repl" "secret" "pgcluster_b" "b" false.

(** Every call succeeds; Postgres does not run, and [PG_VERSION] exists or not. *)
Definition agent_env (data : bool) (e : acall) (s : unit) : acall_answer e * unit :=
  (match e return acall_answer e with
   | RunCommand _ args _ =>
       Some (mkOutput (Some (if bool_decide (head args = Some "status") then 3 else 0)) EmptyString EmptyString)
   | ReadFile _ => RNotFound
   | ReadDir _ => Some [Some ("base", Some true)]
   | TryExists _ => Some data
   | QueryBool _ | RoleExists _ => Some false
   | QueryText _ => Some None
   | QueryInt _ => Some 0
   | QueryNames _ => Some []
   | QueryPairs _ => Some []
   | QueryStat => Some []
   | ProcessId => 7
   | Touch | DetachTracker | Unlock => tt
   | IsSafeMode => false
   | _ => true
   end, s).

Definition no_json (_ : gmap string string) : string := "{}".
Definition no_list (_ : string) : option (list ListedBackup) := Some [].
Definition no_time (_ : string) : option Z := None.

Definition started (o : obs acall_answer) : bool :=
  match obs_ev o with RunCommand _ args _ => bool_decide (head args = Some "start") | _ => false end.

Definition removed (o : obs acall_answer) : option string :=
  match obs_ev o with RemoveDirAll p | RemoveFile p => Some p | _ => None end.

(** What an agent does with a lifecycle request: the result, the starts and the
    files removed. *)
Definition lifecycle_run (data : bool) (q : lifecycle_request) : option () * nat * list string :=
  let '(r, tr, _) := run (agent_env data) (lifecycle_rpc test_agent no_json no_list no_time q) tt in
  (r, length (List.filter started tr), omap removed tr).

Lemma starts_configured_witness :
  lifecycle_run false (SeedNode test_seed) = (Some (), 1%nat, ["/data/base"]) ∧
  all_runs (lifecycle_rpc test_agent no_json no_list no_time (SeedNode test_seed))
    (λ _ tr, preceded is_start (leaves (ready test_agent (SeedNode test_seed))) tr).
Proof.
  split; [vm_compute; reflexivity|].
  apply (starts_configured test_agent no_json no_list no_time (SeedNode test_seed)).
  repeat constructor.
Defined.

(** A node with data is not seeded without force. *)
Lemma seed_refused : lifecycle_run true (SeedNode test_seed) = (None, 0%nat, []).
Proof. vm_compute. reflexivity. Qed.

(** A forced restore to a time that cannot be read has emptied the directory by
    the time it fails. *)
Lemma restore_clears_first :
  lifecycle_run true (RestoreNode (mkRestoreRequest EmptyString "yesterday" true None ∅)) =
  (None, 0%nat, ["/data/base"]).
Proof. vm_compute. reflexivity. Qed.
