(* ===== verification/Placement.v ===== *)
(** Choosing hosts and ports for nodes: src/pgcluster-admin/src/scheduler.rs,
    [choose_hosts] of model.rs and the port query of [add_node] in
    reconciler.rs.

    [f64] is an interface: the arithmetic of the reserves is whatever IEEE
    arithmetic does, and of [total_cmp] only its being a total order is used.
    The theorems are about the search.

    [place_spec] says when a placement is found and that it is a best one;
    [room_means_port] that a host with room has a free block of ports, apart
    from all others and in range. *)
From S2P Require Import Prelude.

Local Open Scope Z_scope.

(** ** Floating point numbers *)

Class F64 := {
  f64 : Type;
  f_lit : string → f64;
  f_MIN : f64;
  f_add : f64 → f64 → f64;
  f_sub : f64 → f64 → f64;
  f_mul : f64 → f64 → f64;
  f_div : f64 → f64 → f64;
  f_max : f64 → f64 → f64;
  f_floor : f64 → f64;
  f_le : f64 → f64 → bool;
  f_lt : f64 → f64 → bool;
  f_show : f64 → string;
  (** [a.total_cmp(b)] is not [Greater]. *)
  total_le : f64 → f64 → bool;
  total_le_total : ∀ a b, total_le a b = false → total_le b a = true;
  total_le_trans : ∀ a b c, total_le a b = true → total_le b c = true → total_le a c = true
}.

Section placement.
Context `{!F64}.

(** ** Sizes *)

Record Resources := mkResources { vcpu : f64; memory_gb : f64; storage_gb : f64 }.

Record SchedulerConfig := mkScheduler {
  os_reserved_memory_gb : f64;
  page_cache_share : f64;
  storage_reserve_share : f64;
  port_base_start : Z;
  port_base_end : Z
}.

Definition EPSILON : f64 := f_lit "1e-9".
Definition PORT_BLOCK : Z := 10.

Definition in_share (x : f64) : bool := f_le (f_lit "0.0") x && f_lt x (f_lit "1.0").

Definition scheduler_validate (c : SchedulerConfig) : bool :=
  in_share (page_cache_share c) && in_share (storage_reserve_share c) &&
  negb (f_lt (os_reserved_memory_gb c) (f_lit "0.0")) &&
  negb ((port_base_start c <? 1024) || (port_base_end c <? port_base_start c) ||
        (65535 - PORT_BLOCK <? port_base_end c)).

(** [i32] division, which truncates. *)
Definition port_blocks (c : SchedulerConfig) : Z :=
  Z.quot (port_base_end c - port_base_start c) PORT_BLOCK + 1.

Definition allocatable (c : SchedulerConfig) (capacity : Resources) : Resources :=
  let memory := f_max (f_sub (memory_gb capacity) (os_reserved_memory_gb c)) (f_lit "0.0") in
  mkResources (vcpu capacity)
    (f_mul memory (f_sub (f_lit "1.0") (page_cache_share c)))
    (f_mul (storage_gb capacity) (f_sub (f_lit "1.0") (storage_reserve_share c))).

Definition fits (free request : Resources) : bool :=
  f_le (vcpu request) (f_add (vcpu free) EPSILON) &&
  f_le (memory_gb request) (f_add (memory_gb free) EPSILON) &&
  f_le (storage_gb request) (f_add (storage_gb free) EPSILON).

Definition minus (a b : Resources) : Resources :=
  mkResources (f_sub (vcpu a) (vcpu b)) (f_sub (memory_gb a) (memory_gb b))
    (f_sub (storage_gb a) (storage_gb b)).

Definition round (value : f64) : f64 :=
  f_div (f_floor (f_mul (f_max value (f_lit "0.0")) (f_lit "10.0"))) (f_lit "10.0").

Definition describe (r : Resources) : string :=
  (f_show (round (vcpu r)) ++ " vCPU, " ++ f_show (round (memory_gb r)) ++ " GB memory and " ++
   f_show (round (storage_gb r)) ++ " GB storage")%string.

(** ** Hosts *)

Record HostLoad := mkHostLoad {
  hl_id : string;
  hl_name : string;
  hl_address : option string;
  failure_domain : option string;
  capacity : option Resources;
  used : Resources;
  instances : Z;
  online : bool;
  draining : bool
}.

Definition free (c : SchedulerConfig) (h : HostLoad) : option Resources :=
  (λ cap, minus (allocatable c cap) (used h)) <$> capacity h.

Definition domain (h : HostLoad) : string := default (hl_id h) (failure_domain h).

Definition has_room (c : SchedulerConfig) (request : Resources) (h : HostLoad) : bool :=
  (instances h <? port_blocks c) &&
  match free c h with Some f => fits f request | None => false end.

(** [filter(|host| used.insert(domain(host)))]. *)
Fixpoint first_of_each {T} (domain : T → string) (seen : gset string) (l : list T) : list T :=
  match l with
  | [] => []
  | h :: l =>
      if decide (domain h ∈ seen) then first_of_each domain seen l
      else h :: first_of_each domain ({[domain h]} ∪ seen) l
  end.

Definition choose_hosts {T} (candidates : list T) (count : nat) (domain : T → string)
    : option (list T) :=
  let chosen := take count (first_of_each domain ∅ candidates) in
  if bool_decide (length chosen = count) then Some chosen else None.

Inductive Placement :=
| Placed (chosen : list HostLoad)
| TooFewHosts
| NoRoom (message : string).

Definition free_memory (c : SchedulerConfig) (h : HostLoad) : f64 :=
  match free c h with Some f => memory_gb f | None => f_MIN end.

(** Most free memory first. *)
Definition by_free_le (c : SchedulerConfig) (a b : HostLoad) : bool :=
  total_le (free_memory c b) (free_memory c a).

Definition memory_le (a b : Resources) : bool := total_le (memory_gb a) (memory_gb b).

Definition no_room (c : SchedulerConfig) (hosts : list HostLoad) (count : nat) (request : Resources)
    : string :=
  let nodes := if bool_decide (count = 1%nat) then "one host has"
               else (format_dec (Z.of_nat count) ++ " hosts in separate failure domains have")%string in
  let largest := max_by_key memory_le (omap (free c) hosts) in
  let full := length (List.filter (λ h, port_blocks c <=? instances h) hosts) in
  let message := ("no " ++ nodes ++ " room for " ++ describe request)%string in
  let message := match largest with
                 | Some l => (message ++ ". The most any host has free is " ++ describe l)%string
                 | None => message
                 end in
  if (0 <? full)%nat
  then (message ++ ". " ++ format_dec (Z.of_nat full) ++ " host(s) have no free port block")%string
  else message.

Definition place (c : SchedulerConfig) (hosts : list HostLoad) (count : nat) (request : Resources)
    : Placement :=
  let by_free := sort_by (by_free_le c) hosts in
  let roomy := List.filter (has_room c request) by_free in
  match choose_hosts roomy count domain with
  | Some chosen => Placed chosen
  | None =>
      match choose_hosts by_free count domain with
      | None => TooFewHosts
      | Some _ => NoRoom (no_room c by_free count request)
      end
  end.

Definition too_large (c : SchedulerConfig) (hosts : list HostLoad) (request : Resources)
    : option string :=
  let sizes := omap (λ h, allocatable c <$> capacity h) hosts in
  if bool_decide (sizes = []) || existsb (λ size, fits size request) sizes then None
  else (λ largest, ("no host is large enough for " ++ describe request ++
          ". The largest offers " ++ describe largest ++ " after reserves")%string)
       <$> max_by_key memory_le sizes.

(** ** Ports *)

(** [generate_series(start, end, block)]. *)
Definition port_series (c : SchedulerConfig) : list Z :=
  if port_base_end c <? port_base_start c then [] else
  (λ i, port_base_start c + PORT_BLOCK * i) <$> seqZ 0 (port_blocks c).

(** The first block no node of the host has; [taken] are their first ports. *)
Definition free_port (c : SchedulerConfig) (taken : list Z) : option Z :=
  List.find (λ p, negb (bool_decide (p ∈ taken))) (port_series c).
End placement.

(** ** Specifications *)

Section specs.
Context `{!F64}.

(** The failure domains of these hosts. *)
Definition domains (hosts : list HostLoad) : gset string := list_to_set (domain <$> hosts).

(** [a] has at least the free memory of [b]. *)
Definition roomier (c : SchedulerConfig) (a b : HostLoad) : Prop :=
  total_le (free_memory c b) (free_memory c a) = true.

(** ** One host for each domain *)

Lemma first_of_each_sublist {T} (dom : T → string) seen l :
  first_of_each dom seen l `sublist_of` l.
Proof.
  revert seen. induction l as [|h l IH]; intros seen; cbn; [done|].
  case_decide; [by constructor|]. by constructor.
Qed.

Lemma first_of_each_domains {T} (dom : T → string) seen l :
  NoDup (dom <$> first_of_each dom seen l) ∧
  ∀ d, d ∈ dom <$> first_of_each dom seen l ↔ d ∈ dom <$> l ∧ d ∉ seen.
Proof.
  revert seen. induction l as [|h l IH]; intros seen; cbn; [split; [constructor|set_solver]|].
  case_decide as Hd.
  - destruct (IH seen) as [H1 H2]. split; [done|]. intros d. rewrite H2. set_solver.
  - destruct (IH ({[dom h]} ∪ seen)) as [H1 H2]. cbn. split.
    + constructor; [|done]. rewrite H2. set_solver.
    + intros d. rewrite elem_of_cons, H2. destruct (decide (d = dom h)); set_solver.
Qed.

Lemma first_of_each_length {T} (dom : T → string) l :
  length (first_of_each dom ∅ l) = size (list_to_set (dom <$> l) : gset string).
Proof.
  destruct (first_of_each_domains dom ∅ l) as [H1 H2].
  rewrite <- (length_fmap dom), <- (size_list_to_set (C := gset string)) by done.
  f_equal. apply set_eq. intros d. rewrite !elem_of_list_to_set, H2. set_solver.
Qed.

Lemma first_of_each_best {T} (dom : T → string) (R : T → T → Prop) seen l h :
  (∀ x, R x x) → StronglySorted R l → h ∈ l → dom h ∉ seen →
  ∃ c, c ∈ first_of_each dom seen l ∧ dom c = dom h ∧ R c h.
Proof.
  intros Hr. revert seen. induction l as [|x l IH]; intros seen Hs Hh Hd; [by apply elem_of_nil in Hh|].
  apply StronglySorted_cons in Hs as [Hx Hs]. cbn.
  apply elem_of_cons in Hh as [->|Hh].
  - rewrite decide_False by done. exists x. split; [constructor|done].
  - case_decide as Hdx; [by apply IH|]. destruct (decide (dom h = dom x)) as [E|E].
    + exists x. split; [constructor|]. split; [done|]. rewrite Forall_forall in Hx. by apply Hx.
    + destruct (IH ({[dom x]} ∪ seen)) as (c & Hc & ? & ?); [done|done|set_solver|].
      exists c. split; [by constructor|done].
Qed.

Lemma sublist_sorted {T} (R : T → T → Prop) (l k : list T) :
  l `sublist_of` k → StronglySorted R k → StronglySorted R l.
Proof.
  induction 1 as [|x l k Hsub IH|x l k Hsub IH]; intros Hs; [done|..];
    apply StronglySorted_cons in Hs as [Hx Hs].
  - constructor; [by apply IH|]. rewrite Forall_forall in *. intros y Hy. apply Hx.
    by eapply elem_of_submseteq; [|apply sublist_submseteq].
  - by apply IH.
Qed.

(** What a choice looks like, or why there is none. *)
Lemma choose_hosts_spec {T} (l : list T) count (dom : T → string) :
  match choose_hosts l count dom with
  | Some chosen => length chosen = count ∧ chosen = take count (first_of_each dom ∅ l)
  | None => (size (list_to_set (dom <$> l) : gset string) < count)%nat
  end.
Proof.
  unfold choose_hosts. case_bool_decide as Hn; [done|].
  rewrite length_take, first_of_each_length in Hn. lia.
Qed.

Lemma choose_hosts_best {T} (R : T → T → Prop) (l chosen : list T) count (dom : T → string) h :
  (∀ x, R x x) → (∀ x y z, R x y → R y z → R x z) → StronglySorted R l →
  chosen = take count (first_of_each dom ∅ l) → h ∈ l →
  (∃ c, c ∈ chosen ∧ dom c = dom h ∧ R c h) ∨ ∀ c, c ∈ chosen → R c h.
Proof.
  intros Hr Ht Hs -> Hh.
  destruct (first_of_each_best dom R ∅ l h Hr Hs Hh) as (c & Hc & Hd & HR); [set_solver|].
  rewrite <- (take_drop count (first_of_each dom ∅ l)) in Hc. apply elem_of_app in Hc as [Hc|Hc].
  - left. by exists c.
  - right. intros c' Hc'. apply (Ht _ c); [|done].
    pose proof (sublist_sorted R _ _ (first_of_each_sublist dom ∅ l) Hs) as Hs'.
    rewrite <- (take_drop count (first_of_each dom ∅ l)) in Hs'.
    apply StronglySorted_app in Hs' as (Hall & _ & _). by apply Hall.
Qed.

Lemma roomier_refl c h : roomier c h h.
Proof. apply (le_refl total_le). exact total_le_total. Qed.

Lemma roomier_trans c x y z : roomier c x y → roomier c y z → roomier c x z.
Proof. intros H1 H2. by eapply total_le_trans; [exact H2|exact H1]. Qed.

Lemma by_free_sorted c hosts : StronglySorted (roomier c) (sort_by (by_free_le c) hosts).
Proof.
  apply (sort_by_sorted (by_free_le c)).
  - intros x y. apply total_le_total.
  - intros x y z H1 H2. by eapply total_le_trans; [exact H2|exact H1].
Qed.

Lemma lfilter_sorted {T} (R : T → T → Prop) f (l : list T) :
  StronglySorted R l → StronglySorted R (List.filter f l).
Proof.
  induction l as [|x l IH]; intros Hs; [done|]. apply StronglySorted_cons in Hs as [Hx Hs]. cbn.
  destruct (f x); [|by apply IH]. constructor; [by apply IH|].
  rewrite Forall_forall in *. intros y [Hy _]%elem_of_lfilter. by apply Hx.
Qed.

Lemma domains_perm (l k : list HostLoad) : l ≡ₚ k → domains l = domains k.
Proof. intros Hlk. unfold domains. apply leibniz_equiv. by rewrite Hlk. Qed.

(** C38 A placement is [count] hosts from those given, each with room and in a
    failure domain of its own, and the best there is: a host with room that was
    passed over has no more free memory than the one chosen in its domain, or
    than any chosen. No placement is found exactly when too few domains have a
    host with room, and then the answer says whether there are enough domains
    at all. *)
Theorem place_spec c hosts count request :
  let roomy := List.filter (has_room c request) hosts in
  match place c hosts count request with
  | Placed chosen =>
      length chosen = count ∧ NoDup (domain <$> chosen) ∧
      (∀ h, h ∈ chosen → h ∈ hosts ∧ has_room c request h = true) ∧
      ∀ h, h ∈ roomy → (∃ x, x ∈ chosen ∧ domain x = domain h ∧ roomier c x h) ∨
                       ∀ x, x ∈ chosen → roomier c x h
  | TooFewHosts => (size (domains hosts) < count)%nat
  | NoRoom _ => (size (domains roomy) < count ≤ size (domains hosts))%nat
  end.
Proof.
  intros roomy. unfold place. set (by_free := sort_by (by_free_le c) hosts).
  assert (Hp : by_free ≡ₚ hosts) by apply sort_by_perm.
  assert (Hr : List.filter (has_room c request) by_free ≡ₚ roomy) by by apply list_filter_perm.
  pose proof (choose_hosts_spec (List.filter (has_room c request) by_free) count domain) as Hc.
  destruct (choose_hosts (List.filter _ _) count domain) as [chosen|].
  - destruct Hc as [Hl Hc]. split; [done|]. split_and!.
    + rewrite Hc. eapply sublist_NoDup; [apply (first_of_each_domains domain ∅)|].
      apply fmap_sublist. apply sublist_take.
    + intros h Hh. rewrite Hc in Hh. apply elem_of_take in Hh as (i & Hh & _).
      apply list_elem_of_lookup_2 in Hh.
      eapply elem_of_submseteq in Hh; [|apply sublist_submseteq, first_of_each_sublist].
      apply elem_of_lfilter in Hh as [Hh ?]. by rewrite Hp in Hh.
    + intros h Hh. eapply choose_hosts_best; [apply roomier_refl|apply roomier_trans| |exact Hc|].
      * apply lfilter_sorted, by_free_sorted.
      * by rewrite Hr.
  - fold (domains (List.filter (has_room c request) by_free)) in Hc. rewrite (domains_perm _ _ Hr) in Hc.
    pose proof (choose_hosts_spec by_free count domain) as Hb.
    destruct (choose_hosts by_free count domain) as [k|].
    + destruct Hb as [Hl Hb]. split; [done|].
      rewrite Hb, length_take, first_of_each_length in Hl.
      fold (domains by_free) in Hl. rewrite (domains_perm _ _ Hp) in Hl. lia.
    + fold (domains by_free) in Hb. by rewrite (domains_perm _ _ Hp) in Hb.
Qed.
End specs.

(** ** A free port *)

Section ports.
Context `{!F64}.

Lemma port_series_spec c p :
  p ∈ port_series c →
  ∃ i, p = port_base_start c + PORT_BLOCK * i ∧ 0 ≤ i ∧ p ≤ port_base_end c.
Proof.
  unfold port_series. case (Z.ltb_spec (port_base_end c) (port_base_start c)) as [|Hle];
    [by intros ?%elem_of_nil|].
  intros (i & -> & Hi%elem_of_seqZ)%list_elem_of_fmap. exists i. unfold port_blocks, PORT_BLOCK in *.
  rewrite Z.quot_div_nonneg in Hi by lia. split; [done|]. split; [lia|].
  pose proof (Z.mul_div_le (port_base_end c - port_base_start c) 10). lia.
Qed.

Lemma port_series_NoDup c : NoDup (port_series c).
Proof.
  unfold port_series. case_match; [constructor|].
  apply NoDup_fmap_2; [|apply NoDup_seqZ]. intros i j. unfold PORT_BLOCK. lia.
Qed.

Lemma port_series_length c :
  port_base_start c ≤ port_base_end c → Z.of_nat (length (port_series c)) = port_blocks c.
Proof.
  intros Hle. unfold port_series. case (Z.ltb_spec (port_base_end c) (port_base_start c)); [lia|intros _].
  rewrite length_fmap, length_seqZ. unfold port_blocks, PORT_BLOCK.
  rewrite Z.quot_div_nonneg by lia.
  pose proof (Z.div_pos (port_base_end c - port_base_start c) 10). lia.
Qed.

Lemma scheduler_validate_ports c :
  scheduler_validate c = true →
  1024 ≤ port_base_start c ≤ port_base_end c ∧ port_base_end c + PORT_BLOCK ≤ 65535.
Proof.
  unfold scheduler_validate, PORT_BLOCK. rewrite !andb_true_iff, !negb_true_iff, !orb_false_iff.
  intros (_ & (?%Z.ltb_ge & ?%Z.ltb_ge) & ?%Z.ltb_ge). lia.
Qed.

(** A search among more candidates than are taken finds one. *)
Lemma find_free (l taken : list Z) :
  NoDup l → (length taken < length l)%nat →
  ∃ p, List.find (λ p, negb (bool_decide (p ∈ taken))) l = Some p ∧ p ∈ l ∧ p ∉ taken.
Proof.
  intros Hl Hlen. destruct (List.find _ l) as [p|] eqn:Ef.
  - exists p. apply List.find_some in Ef as [Hp Ht]. split; [done|]. split; [by apply list_elem_of_In|].
    by apply negb_true_iff, bool_decide_eq_false in Ht.
  - exfalso. assert (l ⊆+ taken) as Hs%submseteq_length; [|lia].
    apply NoDup_submseteq; [done|]. intros p Hp%list_elem_of_In.
    apply (List.find_none _ _ Ef) in Hp. by apply negb_false_iff, bool_decide_eq_true in Hp.
Qed.

(** A host with room for one more instance has a port block for it, within the
    range of ports, that no block of the series its instances have overlaps. *)
Theorem room_means_port c request h taken :
  scheduler_validate c = true →
  has_room c request h = true →
  instances h = Z.of_nat (length taken) →
  ∃ p, free_port c taken = Some p ∧
    1024 ≤ p ∧ p + PORT_BLOCK ≤ 65535 ∧ p ∉ taken ∧
    ∀ q, q ∈ taken → q ∈ port_series c → p + PORT_BLOCK ≤ q ∨ q + PORT_BLOCK ≤ p.
Proof.
  intros Hv Hroom Hn. apply scheduler_validate_ports in Hv as [Hv He].
  apply andb_true_iff in Hroom as [Hroom%Z.ltb_lt _].
  destruct (find_free (port_series c) taken) as (p & Hf & Hp & Ht).
  { apply port_series_NoDup. }
  { rewrite <- port_series_length in Hroom by lia. lia. }
  exists p. split; [done|]. pose proof (port_series_spec c p Hp) as (i & Hi & ? & ?).
  unfold PORT_BLOCK in *. split; [lia|]. split; [lia|]. split; [done|]. intros q Hq Hqs.
  pose proof (port_series_spec c q Hqs) as (j & Hj & _). unfold PORT_BLOCK in Hj.
  assert (p ≠ q) by (by intros ->). lia.
Qed.
End ports.

(** ** A check *)

Lemma leb_false_flip a b : (a <=? b) = false → (b <=? a) = true.
Proof. rewrite Z.leb_gt, Z.leb_le. lia. Qed.

(** Numbers with three decimals, enough to run the scheduler on. *)
#[local] Instance milli : F64 := {|
  f64 := Z;
  f_lit s := if String.eqb s "1.0" then 1000 else if String.eqb s "10.0" then 10000 else if String.eqb s "100.0" then 100000
    else if String.eqb s "1024.0" then 1024000 else 0;
  f_MIN := -1000000000;
  f_add := Z.add;
  f_sub := Z.sub;
  f_mul a b := a * b / 1000;
  f_div a b := a * 1000 / b;
  f_max := Z.max;
  f_floor a := a / 1000 * 1000;
  f_le := Z.leb;
  f_lt := Z.ltb;
  f_show := format_dec;
  total_le := Z.leb;
  total_le_total := leb_false_flip;
  total_le_trans := Zle_bool_trans
|}.

Definition check_config : SchedulerConfig := mkScheduler (1000 : f64) (200 : f64) (100 : f64) 20000 20025.

Definition check_host (id : string) (domain : option string) (n : Z) : HostLoad :=
  mkHostLoad id id None domain (Some (mkResources (4000 : f64) (16000 : f64) (100000 : f64)))
    (mkResources (n * 1000 : f64) (n * 4000 : f64) (n * 20000 : f64)) n true false.

Definition check_request : Resources := mkResources (1000 : f64) (4000 : f64) (20000 : f64).

Lemma room_means_port_witness :
  scheduler_validate check_config = true ∧
  has_room check_config check_request (check_host "a" None 2) = true ∧
  ∃ p, free_port check_config [20000; 20020] = Some p ∧
    1024 ≤ p ∧ p + PORT_BLOCK ≤ 65535 ∧ p ∉ [20000; 20020] ∧
    ∀ q, q ∈ [20000; 20020] → q ∈ port_series check_config →
      p + PORT_BLOCK ≤ q ∨ q + PORT_BLOCK ≤ p.
Proof.
  split; [by vm_compute|]. split; [by vm_compute|].
  apply (room_means_port check_config check_request (check_host "a" None 2)); by vm_compute.
Defined.

(** The host with more free memory is taken in each domain; a full one is not. *)
Example place_check :
  match place check_config
    [check_host "a" (Some "r1") 2; check_host "b" (Some "r1") 1; check_host "c" (Some "r2") 3;
     check_host "d" (Some "r2") 2] 2 check_request with
  | Placed l => hl_id <$> l = ["b"; "d"]
  | _ => False
  end.
Proof. by vm_compute. Qed.
