(* ===== verification/Metadata.v ===== *)
(** The metadata of src/pgcluster-admin: the tables of migrations/*.sql with
    the types stored in them (model.rs, secrets.rs), transactions on them, and
    what the rest relies on of certificates (ca.rs), sealing (secrets.rs) and
    randomness.

    A table is a map from its primary key to a record; columns nothing reads
    are left out. The steps of an operation, which are inserted together and
    numbered from zero, are a list in its row. A task's key is its operation
    and kind, which [tasks_one_per_step] makes unique.

    A transaction is a function from the store to an error, which rolls back,
    or a value and the new store. A query that leaves the order of its rows
    open gives them in the order of the map. *)
From S2P Require Import Prelude Placement.

Local Open Scope Z_scope.

(** ** Outside *)

(** Certificates, as ca.rs makes them with [rcgen]: [trusts bundle cert] is
    whether a peer that trusts the certificates in [bundle] accepts [cert].
    The first argument of [generate] and [issue] is the randomness they draw.
    [token] and [uuid] are the random strings of secrets.rs and of [uuid]. *)
Class Pki := {
  generate : nat → string → option (string * string);
  parses : string → string → bool;
  issue : nat → string → string → list string → option (string * string * Z);
  trusts : string → string → bool;
  trusts_issuer : ∀ r cert key names c k n, issue r cert key names = Some (c, k, n) → trusts cert c = true;
  trusts_both : ∀ a b c,
    trusts (a ++ String "010"%char b)%string c = trusts a c || trusts b c;
  token : nat → string;
  backup_key : nat → string;
  uuid : nat → string
}.

Section metadata.
Context `{!F64, !Pki}.

(** ** Values *)

Inductive json :=
| JNull
| JBool (b : bool)
| JString (s : string)
| JFloat (x : f64)
| JObject (fields : list (string * json)).

(** [value[key]], which is null where there is no such field. *)
Definition field (v : json) (key : string) : json :=
  match v with
  | JObject l => match List.find (λ kv, String.eqb kv.1 key) l with Some kv => kv.2 | None => JNull end
  | _ => JNull
  end.

Definition as_str (v : json) : option string := match v with JString s => Some s | _ => None end.
Definition as_bool (v : json) : option bool := match v with JBool b => Some b | _ => None end.

Definition opt_json (o : option string) : json := match o with Some s => JString s | None => JNull end.

(** A value sealed with its context. It opens only in the same one. *)
Record sealed (A : Type) := seal { sealed_context : string; sealed_value : A }.
Arguments seal {A} _ _.
Arguments sealed_context {A} _.
Arguments sealed_value {A} _.

Definition open {A} (context : string) (s : sealed A) : option A :=
  if String.eqb context (sealed_context s) then Some (sealed_value s) else None.

Record NextPasswords := mkNext {
  next_superuser : string;
  next_replication : string;
  next_auth : string;
  next_api_key : string
}.

Record DatabaseSecrets := mkSecrets {
  ca_cert_pem : string;
  ca_key_pem : string;
  superuser_password : string;
  replication_password : string;
  auth_password : string;
  api_key : string;
  sec_backup_key : string;
  source_backup_key : option string;
  previous_ca_cert_pem : option string;
  next : option NextPasswords;
  proxy_certificate : option (string * string)
}.

Record NodeSecrets := mkNodeSecrets { cert_pem : string; key_pem : string }.

(** Every CA a node should trust. *)
Definition ca_bundle (s : DatabaseSecrets) : string :=
  match previous_ca_cert_pem s with
  | Some previous => (ca_cert_pem s ++ String "010"%char previous)%string
  | None => ca_cert_pem s
  end.

Record Owner := mkOwner { username : string; scram_verifier : string }.
Record BackupSettings := mkBackup { repository_id : string; retention_days : Z }.
Record RestoreSource := mkRestore { rs_database_id : string; rs_database_name : string; target_time : Z }.
Record ReplicaOf := mkReplicaOf { ro_database_id : string; ro_node_id : string }.

Record DatabaseSpec := mkSpec {
  version : string;
  ha : bool;
  spec_hosts : list string;
  resources : Resources;
  replication_mode : string;
  allowed_cidrs : list string;
  extensions : list string;
  owner : Owner;
  backup : BackupSettings;
  restore : option RestoreSource;
  replica_of : option ReplicaOf;
  data_name : option string
}.

(** [retention_days.div_ceil(7) + 1]. *)
Definition retain_full (b : BackupSettings) : Z := wrap 32 ((retention_days b + 6) / 7 + 1).

Record RepositoryConfig := mkRepositoryConfig {
  rc_path : option string;
  rc_bucket : option string;
  rc_prefix : option string;
  rc_region : option string;
  rc_endpoint : option string;
  rc_path_style : bool
}.

Record RepositoryCredentials := mkCredentials {
  access_key_id : option string;
  secret_access_key : option string
}.

(** ** Rows *)

Record HostRow := mkHost {
  ho_name : string;
  ho_failure_domain : option string;
  ho_address : option string;
  ho_capacity : option Resources;
  ho_generation : Z;
  ho_observed_generation : Z;
  ho_enrolled : bool;
  ho_last_seen_at : option Z;
  ho_ca_fingerprint : option string;
  ho_certificate_ca : option string;
  ho_draining : bool;
  ho_drain_error : option string;
  ho_drained_at : option Z;
  ho_postgres_versions : gmap string string
}.

Record Observed := mkObserved {
  ob_primary : option string;
  ob_sync_degraded : bool;
  ob_needs_reseed : list string;
  ob_backup_error : option string;
  ob_failover_count : Z
}.

Record DatabaseRow := mkDatabase {
  da_name : string;
  da_workspace : option string;
  da_status : string;
  da_status_reason : option string;
  da_generation : Z;
  da_spec : DatabaseSpec;
  da_ca_cert_pem : option string;
  da_secrets : option (sealed DatabaseSecrets);
  da_observed : Observed;
  da_access_open : bool
}.

Record NodeRow := mkNode {
  no_host_id : string;
  no_port_base : Z;
  no_secrets : sealed NodeSecrets;
  no_cert_not_after : option Z;
  no_bootstrap : string;
  no_retracted : bool;
  no_present : bool;
  no_observed_generation : Z;
  no_state : string;
  no_error : option string;
  no_archived_until : option Z;
  no_server_version : option string;
  no_offline_since : option Z;
  no_replacement_flagged : bool
}.

Record StepRow := mkStep {
  st_name : string;
  st_status : string;
  st_attempts : Z;
  st_not_before : Z
}.

Record OperationRow := mkOperation {
  op_seq : Z;
  op_database_id : string;
  op_kind : string;
  op_status : string;
  op_target_generation : Z;
  op_deadline : Z;
  op_error : option string;
  op_params : json;
  op_steps : list StepRow
}.

Record TaskRow := mkTask {
  ta_id : string;
  ta_database_id : string;
  ta_run_on : string;
  ta_params : json;
  ta_status : string;
  ta_error : option string
}.

Record EventRow := mkEvent {
  ev_type : string;
  ev_database_id : option string;
  ev_node : option string;
  ev_detail : json
}.

Record LogRow := mkLog { lo_operation_id : string; lo_source : string; lo_message : string }.

Record RepositoryRow := mkRepository {
  re_name : string;
  re_kind : string;
  re_config : RepositoryConfig;
  re_credentials : option (sealed RepositoryCredentials);
  re_status : string;
  re_error : option string;
  re_check_host_id : option string
}.

Record BackupRow := mkBackupRow { ba_label : string; ba_completed_at : Z; ba_size_bytes : Z }.

Record TokenRow := mkToken { to_host_id : string; to_expires_at : Z; to_used : bool }.

(** The tables, the time, and how far the sequences and the random generator
    have been drawn. *)
Record Store := mkStore {
  now : Z;
  drawn : nat;
  next_seq : Z;
  hosts : gmap string HostRow;
  databases : gmap string DatabaseRow;
  nodes : gmap (string * string) NodeRow;
  operations : gmap string OperationRow;
  tasks : gmap (string * string) TaskRow;
  repositories : gmap string RepositoryRow;
  backups : gmap (string * string) BackupRow;
  tokens : gmap string TokenRow;
  events : list EventRow;
  logs : list LogRow
}.

Definition set_hosts (f : gmap string HostRow → gmap string HostRow) (s : Store) : Store :=
  mkStore (now s) (drawn s) (next_seq s) (f (hosts s)) (databases s) (nodes s) (operations s)
    (tasks s) (repositories s) (backups s) (tokens s) (events s) (logs s).
Definition set_databases (f : gmap string DatabaseRow → gmap string DatabaseRow) (s : Store) : Store :=
  mkStore (now s) (drawn s) (next_seq s) (hosts s) (f (databases s)) (nodes s) (operations s)
    (tasks s) (repositories s) (backups s) (tokens s) (events s) (logs s).
Definition set_nodes (f : gmap (string * string) NodeRow → gmap (string * string) NodeRow) (s : Store) : Store :=
  mkStore (now s) (drawn s) (next_seq s) (hosts s) (databases s) (f (nodes s)) (operations s)
    (tasks s) (repositories s) (backups s) (tokens s) (events s) (logs s).
Definition set_operations (f : gmap string OperationRow → gmap string OperationRow) (s : Store) : Store :=
  mkStore (now s) (drawn s) (next_seq s) (hosts s) (databases s) (nodes s) (f (operations s))
    (tasks s) (repositories s) (backups s) (tokens s) (events s) (logs s).
Definition set_tasks (f : gmap (string * string) TaskRow → gmap (string * string) TaskRow) (s : Store) : Store :=
  mkStore (now s) (drawn s) (next_seq s) (hosts s) (databases s) (nodes s) (operations s)
    (f (tasks s)) (repositories s) (backups s) (tokens s) (events s) (logs s).
Definition set_repositories (f : gmap string RepositoryRow → gmap string RepositoryRow) (s : Store) : Store :=
  mkStore (now s) (drawn s) (next_seq s) (hosts s) (databases s) (nodes s) (operations s) (tasks s)
    (f (repositories s)) (backups s) (tokens s) (events s) (logs s).
Definition set_backups (f : gmap (string * string) BackupRow → gmap (string * string) BackupRow) (s : Store) : Store :=
  mkStore (now s) (drawn s) (next_seq s) (hosts s) (databases s) (nodes s) (operations s) (tasks s)
    (repositories s) (f (backups s)) (tokens s) (events s) (logs s).
Definition set_tokens (f : gmap string TokenRow → gmap string TokenRow) (s : Store) : Store :=
  mkStore (now s) (drawn s) (next_seq s) (hosts s) (databases s) (nodes s) (operations s) (tasks s)
    (repositories s) (backups s) (f (tokens s)) (events s) (logs s).
Definition add_event (e : EventRow) (s : Store) : Store :=
  mkStore (now s) (drawn s) (next_seq s) (hosts s) (databases s) (nodes s) (operations s) (tasks s)
    (repositories s) (backups s) (tokens s) (events s ++ [e]) (logs s).
Definition add_log (l : LogRow) (s : Store) : Store :=
  mkStore (now s) (drawn s) (next_seq s) (hosts s) (databases s) (nodes s) (operations s) (tasks s)
    (repositories s) (backups s) (tokens s) (events s) (logs s ++ [l]).
Definition set_drawn (n : nat) (s : Store) : Store :=
  mkStore (now s) n (next_seq s) (hosts s) (databases s) (nodes s) (operations s) (tasks s)
    (repositories s) (backups s) (tokens s) (events s) (logs s).
Definition set_next_seq (n : Z) (s : Store) : Store :=
  mkStore (now s) (drawn s) n (hosts s) (databases s) (nodes s) (operations s) (tasks s)
    (repositories s) (backups s) (tokens s) (events s) (logs s).

(** ** Changes to rows *)

Definition with_status (status : string) (reason : option string) (r : DatabaseRow) : DatabaseRow :=
  mkDatabase (da_name r) (da_workspace r) status reason (da_generation r) (da_spec r)
    (da_ca_cert_pem r) (da_secrets r) (da_observed r) (da_access_open r).
Definition bump_generation (r : DatabaseRow) : DatabaseRow :=
  mkDatabase (da_name r) (da_workspace r) (da_status r) (da_status_reason r) (da_generation r + 1)
    (da_spec r) (da_ca_cert_pem r) (da_secrets r) (da_observed r) (da_access_open r).
Definition with_secrets (s : option (sealed DatabaseSecrets)) (r : DatabaseRow) : DatabaseRow :=
  mkDatabase (da_name r) (da_workspace r) (da_status r) (da_status_reason r) (da_generation r)
    (da_spec r) (da_ca_cert_pem r) s (da_observed r) (da_access_open r).
Definition with_ca (pem : string) (s : sealed DatabaseSecrets) (r : DatabaseRow) : DatabaseRow :=
  mkDatabase (da_name r) (da_workspace r) (da_status r) (da_status_reason r) (da_generation r)
    (da_spec r) (Some pem) (Some s) (da_observed r) (da_access_open r).
Definition with_spec (sp : DatabaseSpec) (r : DatabaseRow) : DatabaseRow :=
  mkDatabase (da_name r) (da_workspace r) (da_status r) (da_status_reason r) (da_generation r) sp
    (da_ca_cert_pem r) (da_secrets r) (da_observed r) (da_access_open r).
Definition with_observed (o : Observed) (r : DatabaseRow) : DatabaseRow :=
  mkDatabase (da_name r) (da_workspace r) (da_status r) (da_status_reason r) (da_generation r)
    (da_spec r) (da_ca_cert_pem r) (da_secrets r) o (da_access_open r).
Definition with_access (b : bool) (r : DatabaseRow) : DatabaseRow :=
  mkDatabase (da_name r) (da_workspace r) (da_status r) (da_status_reason r) (da_generation r)
    (da_spec r) (da_ca_cert_pem r) (da_secrets r) (da_observed r) b.
Definition bump (r : HostRow) : HostRow :=
  mkHost (ho_name r) (ho_failure_domain r) (ho_address r) (ho_capacity r) (ho_generation r + 1)
    (ho_observed_generation r) (ho_enrolled r) (ho_last_seen_at r) (ho_ca_fingerprint r)
    (ho_certificate_ca r) (ho_draining r) (ho_drain_error r) (ho_drained_at r) (ho_postgres_versions r).
Definition with_drain (d : bool) (e : option string) (at_ : option Z) (r : HostRow) : HostRow :=
  mkHost (ho_name r) (ho_failure_domain r) (ho_address r) (ho_capacity r) (ho_generation r)
    (ho_observed_generation r) (ho_enrolled r) (ho_last_seen_at r) (ho_ca_fingerprint r)
    (ho_certificate_ca r) d e at_ (ho_postgres_versions r).
Definition with_enrolled (ca : string) (r : HostRow) : HostRow :=
  mkHost (ho_name r) (ho_failure_domain r) (ho_address r) (ho_capacity r) (ho_generation r)
    (ho_observed_generation r) true (ho_last_seen_at r) (ho_ca_fingerprint r) (Some ca)
    (ho_draining r) (ho_drain_error r) (ho_drained_at r) (ho_postgres_versions r).
Definition with_certificate (ca : string) (r : HostRow) : HostRow :=
  mkHost (ho_name r) (ho_failure_domain r) (ho_address r) (ho_capacity r) (ho_generation r)
    (ho_observed_generation r) (ho_enrolled r) (ho_last_seen_at r) (ho_ca_fingerprint r) (Some ca)
    (ho_draining r) (ho_drain_error r) (ho_drained_at r) (ho_postgres_versions r).
Definition with_node_secrets (s : sealed NodeSecrets) (not_after : Z) (r : NodeRow) : NodeRow :=
  mkNode (no_host_id r) (no_port_base r) s (Some not_after) (no_bootstrap r) (no_retracted r)
    (no_present r) (no_observed_generation r) (no_state r) (no_error r) (no_archived_until r)
    (no_server_version r) (no_offline_since r) (no_replacement_flagged r).
Definition retracted (r : NodeRow) : NodeRow :=
  mkNode (no_host_id r) (no_port_base r) (no_secrets r) (no_cert_not_after r)
    (no_bootstrap r) true (no_present r) (no_observed_generation r) (no_state r) (no_error r)
    (no_archived_until r) (no_server_version r) (no_offline_since r) (no_replacement_flagged r).
Definition with_bootstrap (b : string) (r : NodeRow) : NodeRow :=
  mkNode (no_host_id r) (no_port_base r) (no_secrets r) (no_cert_not_after r) b (no_retracted r)
    (no_present r) (no_observed_generation r) (no_state r) (no_error r) (no_archived_until r)
    (no_server_version r) (no_offline_since r) (no_replacement_flagged r).
Definition absent (r : NodeRow) : NodeRow :=
  mkNode (no_host_id r) (no_port_base r) (no_secrets r) (no_cert_not_after r) (no_bootstrap r)
    (no_retracted r) false (no_observed_generation r) (no_state r) (no_error r)
    (no_archived_until r) (no_server_version r) (no_offline_since r) (no_replacement_flagged r).
Definition with_offline (since : option Z) (flagged : bool) (r : NodeRow) : NodeRow :=
  mkNode (no_host_id r) (no_port_base r) (no_secrets r) (no_cert_not_after r) (no_bootstrap r)
    (no_retracted r) (no_present r) (no_observed_generation r) (no_state r) (no_error r)
    (no_archived_until r) (no_server_version r) since flagged.
Definition with_op_status (status : string) (error : option string) (r : OperationRow) : OperationRow :=
  mkOperation (op_seq r) (op_database_id r) (op_kind r) status (op_target_generation r)
    (op_deadline r) error (op_params r) (op_steps r).
Definition retargeted (g : Z) (r : OperationRow) : OperationRow :=
  mkOperation (op_seq r) (op_database_id r) (op_kind r) (op_status r) g (op_deadline r)
    (op_error r) (op_params r) (op_steps r).
Definition with_steps (l : list StepRow) (r : OperationRow) : OperationRow :=
  mkOperation (op_seq r) (op_database_id r) (op_kind r) (op_status r) (op_target_generation r)
    (op_deadline r) (op_error r) (op_params r) l.
Definition with_result (status : string) (error : option string) (r : TaskRow) : TaskRow :=
  mkTask (ta_id r) (ta_database_id r) (ta_run_on r) (ta_params r) status error.

(** ** Transactions *)

(** What ends a transaction or refuses a request. The text of an API error is
    left out. *)
Inductive failure :=
| RowNotFound
| Context (message : string)
| ApiError (code : string).

Definition tx (A : Type) : Type := Store → result failure (A * Store).

#[global] Instance tx_ret : MRet tx := λ A a s, Ok (a, s).
#[global] Instance tx_bind : MBind tx := λ A B f p s,
  match p s with Ok (a, s') => f a s' | Err e => Err e end.

Definition gets {A} (f : Store → A) : tx A := λ s, Ok (f s, s).
Definition modify (f : Store → Store) : tx () := λ s, Ok ((), f s).
Definition throw {A} (e : failure) : tx A := λ _, Err e.

(** [?] on an option with [context] or [ok_or]. *)
Definition expect {A} (e : failure) (o : option A) : tx A :=
  match o with Some a => mret a | None => throw e end.

(** Go on with the answer of [p], or roll it back and do something else. *)
Definition or_else {A B} (p : tx A) (on_ok : A → tx B) (on_err : tx B) : tx B := λ s,
  match p s with Ok (a, s') => on_ok a s' | Err _ => on_err s end.

Fixpoint for_rows {A} (l : list A) (body : A → tx ()) : tx () :=
  match l with
  | [] => mret ()
  | x :: l => _ ← body x; for_rows l body
  end.

(** The store after a transaction: an error rolls it back. *)
Definition commit {A} (p : tx A) (s : Store) : Store :=
  match p s with Ok (_, s') => s' | Err _ => s end.

(** One draw of the random generator. *)
Definition draw : tx nat :=
  n ← gets drawn; _ ← modify (set_drawn (S n)); mret n.

Definition random_token : tx string := n ← draw; mret (token n).
Definition random_backup_key : tx string := n ← draw; mret (backup_key n).
Definition new_uuid : tx string := n ← draw; mret (uuid n).

(** [fetch_one] of a database row. *)
Definition database (id : string) : tx DatabaseRow :=
  o ← gets (λ s, databases s !! id); expect RowNotFound o.

Definition update_database (id : string) (f : DatabaseRow → DatabaseRow) : tx () :=
  modify (set_databases (alter f id)).

(** [UPDATE ... WHERE], on the rows a test picks. *)
Definition update_nodes (test : string * string → NodeRow → bool) (f : NodeRow → NodeRow) : tx () :=
  modify (set_nodes (map_imap (λ k n, Some (if test k n then f n else n)))).

Definition update_hosts (test : string → HostRow → bool) (f : HostRow → HostRow) : tx () :=
  modify (set_hosts (map_imap (λ k h, Some (if test k h then f h else h)))).

(** A node with the host it is on. *)
Definition nodes_with_hosts (s : Store) : list (string * string * NodeRow * HostRow) :=
  omap (λ '(k, n), (λ h, (k, n, h)) <$> hosts s !! no_host_id n) (map_to_list (nodes s)).
End metadata.

Arguments seal {A} _ _.
Arguments sealed_context {A} _.
Arguments sealed_value {A} _.

(** ** Reasoning about transactions *)

Section logic.
Context `{!F64, !Pki}.

(** Every commit of [p] is in [R]. *)
Definition keeps (R : Store → Store → Prop) {A} (p : tx A) : Prop :=
  ∀ s a s', p s = Ok (a, s') → R s s'.

(** Where [P] holds before, [Q] holds of the answer and the store after. *)
Definition triple {A} (P : Store → Prop) (p : tx A) (Q : A → Store → Prop) : Prop :=
  ∀ s a s', P s → p s = Ok (a, s') → Q a s'.

Lemma tx_bind_Ok {A B} (p : tx A) (f : A → tx B) s b s' :
  (p ≫= f) s = Ok (b, s') → ∃ a s1, p s = Ok (a, s1) ∧ f a s1 = Ok (b, s').
Proof. unfold mbind, tx_bind. destruct (p s) as [[a s1]|e]; [|done]. by exists a, s1. Qed.

Lemma expect_Ok {A} e (o : option A) s a s' : expect e o s = Ok (a, s') → o = Some a ∧ s' = s.
Proof. destruct o; [|done]. by intros [= -> ->]. Qed.

Lemma database_Ok id s d s' : database id s = Ok (d, s') → databases s !! id = Some d ∧ s' = s.
Proof.
  intros (o & s1 & [= <- <-] & Hd)%tx_bind_Ok. by apply expect_Ok in Hd.
Qed.

Section keeps.
Context (R : Store → Store → Prop) `{!PreOrder R}.

Lemma keeps_ret {A} (a : A) : keeps R (mret a).
Proof. by intros s b s' [= <- <-]. Qed.

Lemma keeps_bind {A B} (p : tx A) (f : A → tx B) :
  keeps R p → (∀ a, keeps R (f a)) → keeps R (p ≫= f).
Proof.
  intros Hp Hf s b s' (a & s1 & H1 & H2)%tx_bind_Ok. transitivity s1; [by eapply Hp|by eapply Hf].
Qed.

Lemma keeps_or_else {A B} (p : tx A) (f : A → tx B) (q : tx B) :
  keeps R p → (∀ a, keeps R (f a)) → keeps R q → keeps R (or_else p f q).
Proof.
  intros Hp Hf Hq s b s'. unfold or_else. destruct (p s) as [[a s1]|e] eqn:E; [|by apply Hq].
  intros Hs. transitivity s1; [by eapply Hp|by eapply Hf].
Qed.

Lemma keeps_gets {A} (f : Store → A) : keeps R (gets f).
Proof. by intros s b s' [= <- <-]. Qed.

Lemma keeps_throw {A} e : keeps R (throw e : tx A).
Proof. by intros s b s'. Qed.

Lemma keeps_expect {A} e (o : option A) : keeps R (expect e o).
Proof. destruct o; [apply keeps_ret|apply keeps_throw]. Qed.

Lemma keeps_modify f : (∀ s, R s (f s)) → keeps R (modify f).
Proof. by intros Hf s b s' [= <- <-]. Qed.

Lemma keeps_for_rows {A} (l : list A) body : (∀ x, keeps R (body x)) → keeps R (for_rows l body).
Proof.
  intros Hb. induction l as [|x l IH]; cbn; [apply keeps_ret|]. by apply keeps_bind.
Qed.

Lemma keeps_commit {A} (p : tx A) s : keeps R p → R s (commit p s).
Proof. intros Hp. unfold commit. destruct (p s) as [[a s']|e] eqn:E; [by eapply Hp|done]. Qed.
End keeps.
End logic.

(** Take a transaction apart, down to the changes it makes, which [leaf]
    solves; helpers [leaf] does not know are unfolded. *)
Ltac head_of p := lazymatch p with ?f _ => head_of f | _ => p end.

Ltac keeps_step :=
  cbv beta;
  lazymatch goal with
  | |- keeps _ (mret _) => apply keeps_ret; exact _
  | |- keeps _ (_ ≫= _) => apply keeps_bind; [exact _| |intros ?]
  | |- keeps _ (or_else _ _ _) => apply keeps_or_else; [exact _| |intros ?|]
  | |- keeps _ (gets _) => apply keeps_gets; exact _
  | |- keeps _ (throw _) => apply keeps_throw
  | |- keeps _ (expect _ _) => apply keeps_expect; exact _
  | |- keeps _ (for_rows _ _) => apply keeps_for_rows; [exact _|intros ?]
  | |- keeps _ (if _ then _ else _) => case_match
  | |- keeps _ (match _ with _ => _ end) => case_match
  | |- keeps _ (let _ := _ in _) => cbv zeta
  | |- keeps _ ?p => let h := head_of p in progress unfold h
  end.

Ltac keeps_auto leaf := repeat first [leaf | keeps_step].

(** ** An instance *)

(** Certificates that name their issuer, on one line. *)
Definition one_line_pem (s : string) : bool := negb (str_exists (Ascii.eqb "010") s).

Lemma split_app c a b : split c (a ++ String c b)%string = split c a ++ split c b.
Proof.
  induction a as [|x a IH]; cbn.
  - by rewrite Ascii.eqb_refl.
  - rewrite IH. destruct (Ascii.eqb x c); [done|]. destruct (split c a) eqn:E; [|done].
    by destruct a; cbn in E; repeat case_match.
Qed.

Lemma split_plain c s : str_exists (Ascii.eqb c) s = false → split c s = [s].
Proof.
  induction s as [|x s IH]; cbn; [done|]. intros [Hx Hs]%orb_false_iff.
  rewrite Ascii.eqb_sym, Hx, IH by done. done.
Qed.

#[export] Instance toy_pki : Pki.
Proof.
  refine {|
    generate n _ := Some ("ca-" ++ format_dec (Z.of_nat n), "key-" ++ format_dec (Z.of_nat n));
    parses _ _ := true;
    issue n cert _ _ :=
      if one_line_pem cert
      then Some (cert ++ "/" ++ format_dec (Z.of_nat n), "key-" ++ format_dec (Z.of_nat n), 7776000)
      else None;
    trusts bundle cert := existsb (λ ca, starts_with (ca ++ "/") cert) (split "010" bundle);
    token n := "token-" ++ format_dec (Z.of_nat n);
    backup_key n := "backup-" ++ format_dec (Z.of_nat n);
    uuid n := "id-" ++ format_dec (Z.of_nat n)
  |}%string.
  - intros r cert key names c k n. unfold one_line_pem. case_match eqn:E; [|done].
    intros [= <- _ _]. apply negb_true_iff in E. rewrite split_plain by done. cbn [existsb].
    by rewrite (str_app_snoc cert "/" (format_dec _)), starts_with_app.
  - intros a b c. by rewrite split_app, List.existsb_app.
Defined.
