(* ===== verification/Requests.v ===== *)
(** Checking requests: the rules of src/pgcluster-admin/src/model.rs for what a
    database, an owner, a host or a repository may be called and hold, and the
    order of versions in api/databases.rs.

    [into_spec_iff] says which requests are accepted, in terms of the names and
    values themselves. Parsing a CIDR block is a parameter ([ipnet]). *)
From S2P Require Import Prelude Placement Metadata.

Local Open Scope Z_scope.

(** ** Characters *)

Definition in_chars (lo hi c : ascii) : bool :=
  (Z.of_N (N_of_ascii lo) <=? Z.of_N (N_of_ascii c)) && (Z.of_N (N_of_ascii c) <=? Z.of_N (N_of_ascii hi)).

Definition is_ascii_lowercase : ascii → bool := in_chars "a" "z".
Definition is_ascii_uppercase : ascii → bool := in_chars "A" "Z".
Definition is_ascii_digit : ascii → bool := in_chars "0" "9".
Definition is_ascii_alphanumeric (c : ascii) : bool :=
  is_ascii_lowercase c || is_ascii_uppercase c || is_ascii_digit c.

Definition str_all (f : ascii → bool) (s : string) : bool := negb (str_exists (λ c, negb (f c)) s).

(** ** Lists of names *)

Definition EXTENSIONS : list string :=
  ["uuid-ossp"; "pgcrypto"; "pg_trgm"; "unaccent"; "vector"; "pg_stat_statements"; "pg_tle"; "postgis";
   "pg_cron"].
Definition NEEDS_PRELOAD : list string := ["pg_tle"; "pg_cron"].
Definition POSTGRES_VERSIONS : list string := ["16"; "17"; "18"].
Definition REPLICATION_MODES : list string := ["async"; "sync"; "sync_strict"].
Definition RESERVED_ROLES : list string := ["postgres"; "replicator"; "pgcluster_auth"; "public"; "none"].
Definition RESERVED_DATABASES : list string := ["postgres"; "template0"; "template1"].
Definition HA_NODES : nat := 3.

(** ** Rules *)

Definition invalid {A} : result failure A := Err (ApiError "invalid_request").
Definition conflict {A} : result failure A := Err (ApiError "conflict").
Definition not_found {A} : result failure A := Err (ApiError "not_found").

Definition ident_start (c : ascii) : bool := is_ascii_lowercase c || Ascii.eqb c "_".
Definition ident_char (c : ascii) : bool := is_ascii_lowercase c || is_ascii_digit c || Ascii.eqb c "_".

Definition check_identifier (value : string) : result failure () :=
  let starts_well := match value with String c _ => ident_start c | EmptyString => false end in
  let rest_ok := match value with String _ rest => str_all ident_char rest | EmptyString => true end in
  if negb starts_well || negb rest_ok || (63 <? String.length value)%nat then invalid else Ok ().

Definition check_database_name (name : string) : result failure () :=
  _ ← check_identifier name;
  if bool_decide (name ∈ RESERVED_DATABASES) then invalid else Ok ().

Definition check_replication_mode (mode : string) (ha : bool) : result failure () :=
  if negb (bool_decide (mode ∈ REPLICATION_MODES)) then invalid
  else if negb (String.eqb mode "async") && negb ha then invalid
  else Ok ().

Definition check_retention (days : Z) : result failure () := if days =? 0 then invalid else Ok ().

Definition check_hosts (hosts : list string) (ha : bool) : result failure () :=
  let wanted := if ha then HA_NODES else 1%nat in
  let n := length hosts in
  if negb (n =? 0)%nat && ((ha && negb (n =? wanted)%nat) || (wanted <? n)%nat) then invalid
  else if negb (size (list_to_set hosts : gset string) =? n)%nat then invalid
  else Ok ().

Definition verifier_char (c : ascii) : bool :=
  is_ascii_alphanumeric c || str_exists (Ascii.eqb c) "-$:+/=".

Definition verifier_shape (verifier : string) : bool :=
  match strip_prefix "SCRAM-SHA-256$" verifier ≫= split_once "$" with
  | Some (params, keys) =>
      match split_once ":" params with
      | Some (n, salt) => bool_decide (is_Some (parse_u32 n)) && negb (is_empty salt)
      | None => false
      end &&
      match split_once ":" keys with
      | Some (a, b) => negb (is_empty a) && negb (is_empty b)
      | None => false
      end
  | None => false
  end.

Definition check_verifier (verifier : string) : result failure () :=
  if verifier_shape verifier && str_all verifier_char verifier then Ok () else invalid.

Definition check_owner (o : Owner) : result failure () :=
  _ ← check_identifier (username o);
  if bool_decide (username o ∈ RESERVED_ROLES) || starts_with "pg_" (username o) then invalid
  else check_verifier (scram_verifier o).

Definition check_extensions (extensions : list string) : result failure () :=
  if forallb (λ e, bool_decide (e ∈ EXTENSIONS)) extensions then Ok () else invalid.

Definition host_char (c : ascii) : bool :=
  is_ascii_alphanumeric c || Ascii.eqb c "-" || Ascii.eqb c "_" || Ascii.eqb c ".".

Definition check_host_name (name : string) : result failure () :=
  if is_empty name || (63 <? String.length name)%nat || negb (str_all host_char name) then invalid
  else Ok ().

(** [i32::from_str]. *)
Definition parse_i32 (s : string) : option Z :=
  match s with
  | String "-" rest =>
      match rest with
      | String ("+" | "-") _ => None
      | _ => Z.opp <$> from_str_radix 10 (2 ^ 31) rest
      end
  | _ => from_str_radix 10 (2 ^ 31 - 1) s
  end.

(** The number of a node's name. *)
Definition node_number (node : string) : Z := default 0 (strip_prefix "n" node ≫= parse_i32).

(** ** Versions *)

(** [split(|c| !c.is_ascii_digit())], without the empty parts. *)
Fixpoint digit_runs (cur s : string) : list string :=
  match s with
  | EmptyString => if is_empty cur then [] else [cur]
  | String c s =>
      if is_ascii_digit c then digit_runs (cur ++ String c EmptyString) s
      else (if is_empty cur then [] else [cur]) ++ digit_runs EmptyString s
  end.

Definition version_parts (v : string) : list Z := default 0 ∘ parse_u64 <$> digit_runs EmptyString v.

(** [Vec<u64>::cmp]. *)
Fixpoint compare_parts (a b : list Z) : comparison :=
  match a, b with
  | [], [] => Eq
  | [], _ => Lt
  | _, [] => Gt
  | x :: a, y :: b => match x ?= y with Eq => compare_parts a b | c => c end
  end.

Definition compare_versions (a b : string) : comparison :=
  compare_parts (version_parts a) (version_parts b).

(** ** New databases *)

Section requests.
Context `{!F64} (parse_net : string → bool).

Definition check_cidrs (cidrs : list string) : result failure () :=
  if forallb parse_net cidrs then Ok () else invalid.

(** [r.vcpu > 0.0 && r.memory_gb > 0.0 && r.storage_gb > 0.0]. *)
Definition above_zero (r : Resources) : bool :=
  f_lt (f_lit "0.0") (vcpu r) && f_lt (f_lit "0.0") (memory_gb r) && f_lt (f_lit "0.0") (storage_gb r).

Record CreateDatabase := mkCreate {
  cr_name : string;
  cr_workspace : option string;
  cr_version : string;
  cr_ha : bool;
  cr_hosts : list string;
  cr_resources : Resources;
  cr_replication_mode : option string;
  cr_owner : Owner;
  cr_allowed_cidrs : list string;
  cr_extensions : list string;
  cr_backup : BackupSettings
}.

Definition into_spec (r : CreateDatabase) : result failure (string * option string * DatabaseSpec) :=
  _ ← check_database_name (cr_name r);
  _ ← (if bool_decide (cr_version r ∈ POSTGRES_VERSIONS) then Ok () else invalid);
  let mode := default "async" (cr_replication_mode r) in
  _ ← check_replication_mode mode (cr_ha r);
  _ ← check_hosts (cr_hosts r) (cr_ha r);
  _ ← check_retention (retention_days (cr_backup r));
  _ ← (if above_zero (cr_resources r) then Ok () else invalid);
  _ ← check_owner (cr_owner r);
  _ ← check_cidrs (cr_allowed_cidrs r);
  _ ← check_extensions (cr_extensions r);
  Ok (cr_name r, cr_workspace r,
      mkSpec (cr_version r) (cr_ha r) (cr_hosts r) (cr_resources r) mode (cr_allowed_cidrs r)
        (cr_extensions r) (cr_owner r) (cr_backup r) None None None).

(** ** What an accepted request holds *)

(** The characters of a text all satisfy a predicate. *)
Definition every (P : ascii → Prop) (s : string) : Prop := Forall P (list_ascii_of_string s).

Definition is_identifier (s : string) : Prop :=
  (∃ c rest, s = String c rest ∧ ident_start c = true) ∧
  every (λ c, ident_char c = true) s ∧ (String.length s ≤ 63)%nat.

(** [SCRAM-SHA-256$<iterations>:<salt>$<stored key>:<server key>]. *)
Definition is_verifier (v : string) : Prop :=
  every (λ c, verifier_char c = true) v ∧
  ∃ n salt a b, v = ("SCRAM-SHA-256$" ++ (n ++ String ":" salt) ++ String "$" (a ++ String ":" b))%string ∧
    every (λ c, c ≠ "$"%char) (n ++ String ":" salt) ∧ every (λ c, c ≠ ":"%char) n ∧
    every (λ c, c ≠ ":"%char) a ∧
    is_Some (parse_u32 n) ∧ salt ≠ EmptyString ∧ a ≠ EmptyString ∧ b ≠ EmptyString.

Definition acceptable (r : CreateDatabase) : Prop :=
  let mode := default "async" (cr_replication_mode r) in
  (is_identifier (cr_name r) ∧ cr_name r ∉ RESERVED_DATABASES) ∧
  cr_version r ∈ POSTGRES_VERSIONS ∧
  (mode ∈ REPLICATION_MODES ∧ (mode = "async" ∨ cr_ha r = true)) ∧
  (NoDup (cr_hosts r) ∧
    (cr_hosts r = [] ∨ length (cr_hosts r) = if cr_ha r then HA_NODES else 1%nat)) ∧
  retention_days (cr_backup r) ≠ 0 ∧
  above_zero (cr_resources r) = true ∧
  (is_identifier (username (cr_owner r)) ∧ username (cr_owner r) ∉ RESERVED_ROLES ∧
    starts_with "pg_" (username (cr_owner r)) = false ∧ is_verifier (scram_verifier (cr_owner r))) ∧
  Forall (λ c, parse_net c = true) (cr_allowed_cidrs r) ∧
  Forall (λ e, e ∈ EXTENSIONS) (cr_extensions r).

Definition spec_for (r : CreateDatabase) : DatabaseSpec :=
  mkSpec (cr_version r) (cr_ha r) (cr_hosts r) (cr_resources r) (default "async" (cr_replication_mode r))
    (cr_allowed_cidrs r) (cr_extensions r) (cr_owner r) (cr_backup r) None None None.

(** ** The checks one by one *)

Lemma check_seq (c : result failure ()) {B} (k : result failure B) b :
  (c ≫= λ _, k) = Ok b ↔ c = Ok () ∧ k = Ok b.
Proof. destruct c as [[]|]; cbn; naive_solver. Qed.

Lemma check_if (b : bool) : (if b then Ok () else invalid) = Ok () ↔ b = true.
Proof. by destruct b. Qed.

Lemma str_exists_false f s : str_exists f s = false ↔ every (λ c, f c = false) s.
Proof.
  unfold every. induction s as [|c s IH]; cbn; [by split; [constructor|]|].
  rewrite orb_false_iff, IH, Forall_cons. done.
Qed.

Lemma str_all_true f s : str_all f s = true ↔ every (λ c, f c = true) s.
Proof.
  unfold str_all. rewrite negb_true_iff, str_exists_false. apply Forall_iff. intros c.
  by rewrite negb_false_iff.
Qed.

Lemma no_char c s : str_exists (Ascii.eqb c) s = false ↔ every (λ x, x ≠ c) s.
Proof. clear parse_net.
  rewrite str_exists_false. apply Forall_iff. intros x. rewrite Ascii.eqb_neq. naive_solver.
Qed.

Lemma split_once_iff c s l r :
  split_once c s = Some (l, r) ↔ s = (l ++ String c r)%string ∧ every (λ x, x ≠ c) l.
Proof. clear parse_net.
  rewrite <- no_char. split; [|intros [-> ?]; by apply split_once_app].
  revert l. induction s as [|a s IH]; intros l; cbn; [done|].
  destruct (Ascii.eqb_spec a c) as [->|Hac]; [by intros [= <- <-]|].
  destruct (split_once c s) as [[l' r']|]; intros [= <- <-]. destruct (IH l' eq_refl) as [-> Hno].
  cbn. rewrite Hno, orb_false_r. split; [done|]. by apply Ascii.eqb_neq, not_eq_sym.
Qed.

Lemma check_unless (b : bool) : (if b then invalid else Ok ()) = Ok () ↔ b = false.
Proof. by destruct b. Qed.

Lemma check_identifier_iff s : check_identifier s = Ok () ↔ is_identifier s.
Proof. clear parse_net.
  unfold check_identifier, is_identifier. rewrite check_unless, !orb_false_iff, !negb_false_iff, Nat.ltb_ge.
  destruct s as [|c s]; [naive_solver|]. rewrite str_all_true. unfold every. cbn [list_ascii_of_string].
  rewrite Forall_cons. split; [|naive_solver]. intros [[Hc Hs] Hlen]. repeat split; eauto.
  unfold ident_start, ident_char in *. destruct (is_ascii_lowercase c), (is_ascii_digit c); done.
Qed.

Lemma check_database_name_iff s :
  check_database_name s = Ok () ↔ is_identifier s ∧ s ∉ RESERVED_DATABASES.
Proof. clear parse_net.
  unfold check_database_name. by rewrite check_seq, check_identifier_iff, check_unless, bool_decide_eq_false.
Qed.

Lemma check_replication_mode_iff mode ha :
  check_replication_mode mode ha = Ok () ↔ mode ∈ REPLICATION_MODES ∧ (mode = "async" ∨ ha = true).
Proof. clear parse_net.
  unfold check_replication_mode. case_bool_decide; cbn [negb]; [|naive_solver].
  rewrite check_unless. destruct (String.eqb_spec mode "async"), ha; naive_solver.
Qed.

Lemma check_hosts_iff hosts ha :
  check_hosts hosts ha = Ok () ↔
  NoDup hosts ∧ (hosts = [] ∨ length hosts = if ha then HA_NODES else 1%nat).
Proof. clear parse_net.
  unfold check_hosts. destruct (_ && _) eqn:Hcount.
  - split; [done|]. intros [_ [-> | Hlen]]; [done|]. rewrite Hlen in Hcount.
    by destruct ha; vm_compute in Hcount.
  - rewrite check_unless, negb_false_iff, Nat.eqb_eq, size_NoDup. split; [|naive_solver].
    intros Hnd. split; [done|]. destruct hosts as [|h [|h' hosts]]; [by left|..].
    + right. by destruct ha.
    + right. destruct ha; [|done]. by destruct (Nat.eqb_spec (length (h :: h' :: hosts)) HA_NODES).
Qed.

Lemma check_verifier_iff v : check_verifier v = Ok () ↔ is_verifier v.
Proof. clear parse_net.
  unfold check_verifier, is_verifier. rewrite check_if, andb_true_iff, str_all_true, (and_comm (verifier_shape v = true)).
  apply and_iff_compat_l. unfold verifier_shape. split.
  - destruct (strip_prefix _ v) as [rest|] eqn:Hpre; [|done]. cbn [mbind option_bind].
    destruct (split_once "$" rest) as [[params keys]|] eqn:Hrest; [|done].
    destruct (split_once ":" params) as [[n salt]|] eqn:Hparams; [|done].
    destruct (split_once ":" keys) as [[a b]|] eqn:Hkeys; [|by rewrite andb_false_r].
    rewrite !andb_true_iff, bool_decide_eq_true, !is_empty_false. intros [[??] [??]].
    apply strip_prefix_Some in Hpre as ->. apply split_once_iff in Hrest as [-> ?].
    apply split_once_iff in Hparams as [-> ?], Hkeys as [-> ?]. by exists n, salt, a, b.
  - intros (n & salt & a & b & -> & Hp & Hn & Ha & Hnum & ? & ? & ?).
    rewrite strip_prefix_app. cbn [mbind option_bind].
    rewrite (proj2 (split_once_iff _ _ _ _) (conj eq_refl Hp)).
    rewrite (proj2 (split_once_iff _ _ _ _) (conj eq_refl Hn)).
    rewrite (proj2 (split_once_iff _ _ _ _) (conj eq_refl Ha)).
    by rewrite !andb_true_iff, bool_decide_eq_true, !is_empty_false.
Qed.

Lemma check_owner_iff o :
  check_owner o = Ok () ↔
  is_identifier (username o) ∧ username o ∉ RESERVED_ROLES ∧ starts_with "pg_" (username o) = false ∧
  is_verifier (scram_verifier o).
Proof. clear parse_net.
  unfold check_owner. rewrite check_seq, check_identifier_iff. apply and_iff_compat_l.
  case_bool_decide; cbn [orb]; [naive_solver|].
  destruct (starts_with _ _); [naive_solver|]. rewrite check_verifier_iff. naive_solver.
Qed.

Lemma check_each {A} (f : A → bool) (P : A → Prop) l :
  (∀ x, f x = true ↔ P x) → (if forallb f l then Ok () else invalid) = Ok () ↔ Forall P l.
Proof.
  intros Hf. rewrite check_if, forallb_forall, Forall_forall.
  split; intros Hl x Hx; apply Hf, Hl; by apply list_elem_of_In.
Qed.

(** C39 A request for a database is accepted if and only if its name and its owner
    are identifiers that are not reserved, its version, mode and extensions are
    known ones, the hosts it asks for are as many as its nodes and all
    different, it asks for resources above zero and to keep backups, its networks
    parse, and the owner's password is a SCRAM verifier in the alphabet of
    base64, so that none of its names can end a quoted SQL text; the database
    is then made from exactly these values. *)
Theorem into_spec_iff (r : CreateDatabase) name workspace spec :
  into_spec r = Ok (name, workspace, spec) ↔
  acceptable r ∧ name = cr_name r ∧ workspace = cr_workspace r ∧ spec = spec_for r.
Proof.
  unfold into_spec, acceptable.
  rewrite !check_seq, !check_if, check_database_name_iff, check_replication_mode_iff, check_hosts_iff,
    check_owner_iff, bool_decide_eq_true.
  unfold check_retention. rewrite check_unless, Z.eqb_neq.
  unfold check_cidrs, check_extensions.
  rewrite (check_each parse_net (λ c, parse_net c = true)) by done.
  rewrite (check_each _ (λ e, e ∈ EXTENSIONS)) by (intros; apply bool_decide_eq_true).
  unfold spec_for. naive_solver.
Qed.
End requests.
