(* ===== verification/Reconciler.v ===== *)
(** Operations and the reconciler that runs them, one stored step at a time:
    src/pgcluster-admin/src/operations.rs, reconciler.rs and drain.rs, with
    [host_loads] of scheduler.rs.

    [claims] are the steps the query of [step_once] may return, [claim] the one
    it does when none is locked, and [run_claimed] the rest of its transaction;
    the claimed row is an argument, since other transactions may commit between
    the two. [run_step] looks its step up in [step_table], the arms of the
    source's [match]. *)
From S2P Require Import Prelude Placement Metadata Requests.

Local Open Scope Z_scope.

(** ** Kinds of operations *)

Inductive Kind :=
| Create
| Update
| RollingUpdate
| ReplicationMode
| Delete
| Restart
| Switchover
| Backup
| Replace
| RotateCa
| RotatePasswords
| Resize
| Upgrade
| CreateReplica
| PromoteReplica.

#[global] Instance Kind_eq_dec : EqDecision Kind.
Proof. solve_decision. Defined.

Definition OPERATION_TIMEOUT_SECONDS : Z := 600.
Definition DATA_OPERATION_TIMEOUT_SECONDS : Z := 6 * 3600.

Definition kind_str (k : Kind) : string :=
  match k with
  | Create => "create"
  | Update => "update"
  | RollingUpdate => "rolling_update"
  | ReplicationMode => "replication_mode"
  | Delete => "delete"
  | Restart => "restart"
  | Switchover => "switchover"
  | Backup => "backup"
  | Replace => "replace"
  | RotateCa => "rotate_ca"
  | RotatePasswords => "rotate_passwords"
  | Resize => "resize"
  | Upgrade => "upgrade"
  | CreateReplica => "create_replica"
  | PromoteReplica => "promote_replica"
  end.

Definition all_kinds : list Kind :=
  [Create; Update; RollingUpdate; ReplicationMode; Delete; Restart; Switchover; Backup; Replace;
   RotateCa; RotatePasswords; Resize; Upgrade; CreateReplica; PromoteReplica].

Definition kind_parse (text : string) : option Kind :=
  List.find (λ k, String.eqb (kind_str k) text) all_kinds.

Definition kind_steps (k : Kind) : list string :=
  match k with
  | Create => ["place"; "wait_applied"; "first_backup"; "open_access"; "wait_applied"; "activate"]
  | Update => ["wait_applied"; "settle"]
  | RollingUpdate => ["wait_applied"; "rolling_restart"; "new_generation"; "wait_applied"; "settle"]
  | ReplicationMode => ["wait_applied"; "set_replication_mode"; "settle"]
  | Delete => ["remove_replica"; "retract"; "wait_removed"; "finalize"]
  | Restart => ["rolling_restart"; "settle"]
  | Switchover => ["switchover"; "settle"]
  | Backup => ["backup"; "settle"]
  | Replace => ["wait_peers"; "replace_member"; "retract_old"; "wait_old_removed"; "drop_old";
                "wait_applied"; "settle"]
  | RotateCa => ["ca_trust_both"; "wait_applied"; "ca_issue"; "wait_applied"; "ca_trust_new";
                 "wait_applied"; "settle"]
  | RotatePasswords => ["passwords_offer"; "wait_applied"; "passwords_alter"; "passwords_commit";
                        "wait_applied"; "settle"]
  | Resize => ["wait_applied"; "resize_restart"; "settle"]
  | CreateReplica => ["place_replica"; "add_replica"; "wait_applied"; "activate"]
  | PromoteReplica => ["detach_replica"; "promote"; "wait_applied"; "first_backup"; "open_access";
                       "wait_applied"; "activate"]
  | Upgrade => ["upgrade_check"; "rolling_restart"; "wait_version"; "settle"]
  end.

Definition timeout_seconds (k : Kind) : Z :=
  match k with
  | Create | Backup | Replace | Restart | Resize | Upgrade | CreateReplica | PromoteReplica =>
      DATA_OPERATION_TIMEOUT_SECONDS
  | _ => OPERATION_TIMEOUT_SECONDS
  end.

Section reconciler.
Context `{!F64, !Pki}.

(** [status IN ('pending', 'running')]. *)
Definition is_active (o : OperationRow) : bool :=
  String.eqb (op_status o) "pending" || String.eqb (op_status o) "running".

Definition is_pending (st : StepRow) : bool := String.eqb (st_status st) "pending".

(** [EXISTS] an operation of the database that has not ended. *)
Definition busy (s : Store) (database_id : string) : bool :=
  existsb (λ '(_, o), String.eqb (op_database_id o) database_id && is_active o)
    (map_to_list (operations s)).

(** ** Recording operations *)

Definition create_with (database_id : string) (kind : Kind) (target_generation : Z) (params : json)
    : tx string :=
  id ← new_uuid;
  seq ← gets next_seq;
  _ ← modify (set_next_seq (seq + 1));
  t ← gets now;
  _ ← database database_id;
  taken ← gets (λ s, operations s !! id);
  match taken with
  | Some _ => throw (Context "duplicate key")
  | None =>
      _ ← modify (set_operations (insert id
        (mkOperation seq database_id (kind_str kind) "pending" target_generation
           (t + timeout_seconds kind) None params
           ((λ name, mkStep name "pending" 0 t) <$> kind_steps kind))));
      mret id
  end.

Definition op_create (database_id : string) (kind : Kind) (target_generation : Z) : tx string :=
  create_with database_id kind target_generation (JObject []).

Definition record_event (kind : string) (database_id node : option string) (detail : json) : tx () :=
  modify (add_event (mkEvent kind database_id node detail)).

Definition op_log (operation_id source message : string) : tx () :=
  modify (add_log (mkLog operation_id source message)).

(** ** Claimed steps *)

Record Claimed := mkClaimed {
  cl_operation_id : string;
  cl_seq : nat;
  cl_name : string;
  cl_attempts : Z;
  cl_database_id : string;
  cl_kind : string;
  cl_target_generation : Z;
  cl_past_deadline : bool;
  cl_params : json
}.

Inductive Outcome :=
| Done
| Wait (message : string)
| Failed (message : string).

Definition ONLINE_WINDOW_SECONDS : Z := 60.
Definition WAIT_RETRY : Z := 1.
Definition CERT_RENEW_DAYS : Z := 30.
Definition REPLACEMENT_AFTER_SECONDS : Z := 300.
Definition FIRST_BACKUP_LABEL : string := "first-backup".

(** The first pending step. *)
Definition first_pending (o : OperationRow) : option (nat * StepRow) := list_find is_pending (op_steps o).

(** No earlier operation of the same database has still to end. *)
Definition is_first (s : Store) (o : OperationRow) : bool :=
  negb (existsb (λ '(_, e), String.eqb (op_database_id e) (op_database_id o) && is_active e &&
                            (op_seq e <? op_seq o)) (map_to_list (operations s))).

Definition claim_of (s : Store) (id : string) (o : OperationRow) : option (Z * Claimed) :=
  '(i, st) ← first_pending o;
  if (st_not_before st <=? now s) && is_active o && is_first s o
  then Some (st_not_before st,
             mkClaimed id i (st_name st) (st_attempts st) (op_database_id o) (op_kind o)
               (op_target_generation o) (op_deadline o <? now s) (op_params o))
  else None.

(** The steps that can run now, with the times they could run from. *)
Definition claims (s : Store) : list (Z * Claimed) :=
  omap (λ '(id, o), claim_of s id o) (map_to_list (operations s)).

(** The one that could run first. *)
Definition claim (s : Store) : option Claimed :=
  snd <$> head (sort_by (λ a b, fst a <=? fst b) (claims s)).

(** ** Shared steps *)

Definition bump_host (host_id : string) : tx () := modify (set_hosts (alter bump host_id)).

(** The hosts with a live node of this database. *)
Definition live_hosts (s : Store) (database_id : string) : gset string :=
  list_to_set (no_host_id ∘ snd <$>
    List.filter (λ '((d, _), n), String.eqb d database_id && negb (no_retracted n))
      (map_to_list (nodes s))).

Definition bump_hosts (database_id : string) : tx () :=
  ids ← gets (λ s, live_hosts s database_id);
  update_hosts (λ id _, bool_decide (id ∈ ids)) bump.

Definition set_status (database_id status : string) (reason : option string) : tx () :=
  update_database database_id (with_status status reason).

Definition update_operation (id : string) (f : OperationRow → OperationRow) : tx () :=
  modify (set_operations (alter f id)).

(** [UPDATE databases SET generation = generation + 1 ... RETURNING generation]. *)
Definition next_generation (database_id : string) : tx Z :=
  _ ← update_database database_id bump_generation;
  d ← database database_id;
  mret (da_generation d).

Definition new_generation (step : Claimed) : tx Z :=
  generation ← next_generation (cl_database_id step);
  _ ← update_operation (cl_operation_id step) (retargeted generation);
  _ ← bump_hosts (cl_database_id step);
  mret generation.

Definition done_step (st : StepRow) : StepRow :=
  mkStep (st_name st) "done" (st_attempts st + 1) (st_not_before st).
Definition failed_step (st : StepRow) : StepRow :=
  mkStep (st_name st) "failed" (st_attempts st + 1) (st_not_before st).
Definition retried_step (at_ : Z) (st : StepRow) : StepRow :=
  mkStep (st_name st) (st_status st) (st_attempts st + 1) at_.

Definition update_step (step : Claimed) (f : StepRow → StepRow) : tx () :=
  update_operation (cl_operation_id step) (λ o, with_steps (alter f (cl_seq step) (op_steps o)) o).

Definition finish_step (step : Claimed) : tx () :=
  _ ← update_step step done_step;
  update_operation (cl_operation_id step)
    (λ o, if existsb is_pending (op_steps o) then o else with_op_status "succeeded" (op_error o) o).

(** The status of a database whose operation failed. *)
Definition failed_status (kind : string) : string :=
  match kind_parse kind with
  | Some (Create | Delete | CreateReplica | PromoteReplica) => "error"
  | _ => "degraded"
  end.

Definition end_tasks (test : string * string → TaskRow → bool) (error : string) : tx () :=
  modify (set_tasks (map_imap (λ k t, Some
    (if test k t && String.eqb (ta_status t) "pending" then with_result "failed" (Some error) t else t)))).

Definition fail (step : Claimed) (message : string) : tx () :=
  _ ← update_step step failed_step;
  _ ← update_operation (cl_operation_id step) (with_op_status "failed" (Some message));
  _ ← op_log (cl_operation_id step) "reconciler" message;
  _ ← set_status (cl_database_id step) (failed_status (cl_kind step)) (Some message);
  _ ← end_tasks (λ k _, String.eqb k.1 (cl_operation_id step)) "the operation ended";
  record_event "operation_failed" (Some (cl_database_id step)) None
    (JObject [("operation_id", JString (cl_operation_id step)); ("kind", JString (cl_kind step));
              ("error", JString message)]).

(** Hand a host work and wait for it. *)
Definition run_task_on (step : Claimed) (database_id kind run_on : string) (params : json) : tx Outcome :=
  task ← gets (λ s, tasks s !! (cl_operation_id step, kind));
  match task with
  | None =>
      id ← new_uuid;
      _ ← database database_id;
      _ ← modify (set_tasks (insert (cl_operation_id step, kind)
                               (mkTask id database_id run_on params "pending" None)));
      _ ← bump_hosts database_id;
      mret (Wait ("waiting for " ++ kind))
  | Some t =>
      if String.eqb (ta_status t) "succeeded" then mret Done
      else if String.eqb (ta_status t) "failed"
      then mret (Failed (kind ++ " failed: " ++ default EmptyString (ta_error t)))
      else mret (Wait ("waiting for " ++ kind))
  end.

Definition run_own_task (step : Claimed) (kind run_on : string) (params : json) : tx Outcome :=
  run_task_on step (cl_database_id step) kind run_on params.

(** [last_seen_at > now() - window]; false for null. *)
Definition seen_within (s : Store) (h : HostRow) : bool :=
  match ho_last_seen_at h with Some t => now s - ONLINE_WINDOW_SECONDS <? t | None => false end.

(** [last_seen_at < now() - window], or null. *)
Definition not_seen (s : Store) (h : HostRow) : bool :=
  match ho_last_seen_at h with Some t => t <? now s - ONLINE_WINDOW_SECONDS | None => true end.

(** A node of a three-node database that is known to be away. *)
Definition is_away (s : Store) (ha : bool) (n : NodeRow) (h : HostRow) : bool :=
  ha && bool_decide (is_Some (no_offline_since n)) && not_seen s h.

Definition waited_for (s : Store) (database_id : string) (ha : bool) (except : option string)
    : list (string * NodeRow) :=
  omap (λ '((d, node), n, h),
    if String.eqb d database_id && negb (no_retracted n) &&
       negb (bool_decide (except = Some node)) && negb (is_away s ha n h)
    then Some (node, n) else None) (nodes_with_hosts s).

Definition has_applied (generation : Z) (n : NodeRow) : bool :=
  negb (no_observed_generation n <? generation) && String.eqb (no_state n) "running".

Definition wait_applied (step : Claimed) (except : option string) : tx Outcome :=
  d ← database (cl_database_id step);
  rows ← gets (λ s, waited_for s (cl_database_id step) (ha (da_spec d)) except);
  mret match List.find (λ '(_, n), negb (has_applied (cl_target_generation step) n)) rows with
       | Some (node, n) =>
           Wait ("waiting for " ++ node ++ " to apply generation " ++
                 format_dec (cl_target_generation step) ++
                 match no_error n with Some e => ": " ++ e | None => EmptyString end)
       | None => Done
       end.

(** ** Certificates and passwords *)

Definition database_secrets (database_id : string) : tx DatabaseSecrets :=
  d ← database database_id;
  sealed ← expect (Context "the database has no secrets") (da_secrets d);
  expect (Context "open secrets") (open database_id sealed).

Definition store_secrets (database_id : string) (secrets : DatabaseSecrets) : tx () :=
  update_database database_id (with_ca (ca_bundle secrets) (seal database_id secrets)).

Definition ca_generate (name : string) : tx (string * string) :=
  n ← draw; expect (Context "generate CA key") (generate n name).

Definition ca_from_pem (cert key : string) : tx () :=
  if parses cert key then mret () else throw (Context "parse CA cert").

(** The names on a node's certificate. *)
Definition node_names (address : string) : list string :=
  let names := ["127.0.0.1"; "localhost"] in
  if bool_decide (address ∈ names) then names else address :: names.

Definition issue_node (cert key : string) (names : list string) : tx (string * string * Z) :=
  n ← draw; expect (Context "sign certificate") (issue n cert key names).

Definition node_context (database_id node : string) : string := database_id ++ "/" ++ node.

Definition reissue (database_id node address ca_cert ca_key : string) : tx () :=
  '(c, k, not_after) ← issue_node ca_cert ca_key (node_names address);
  update_nodes (λ key _, bool_decide (key = (database_id, node)))
    (with_node_secrets (seal (node_context database_id node) (mkNodeSecrets c k)) not_after).

Definition ca_trust_both (step : Claimed) : tx Outcome :=
  secrets ← database_secrets (cl_database_id step);
  d ← database (cl_database_id step);
  suffix ← random_token;
  '(cert, key) ← ca_generate ("pgcluster-" ++ da_name d ++ "-" ++ String.substring 0 8 suffix);
  _ ← store_secrets (cl_database_id step)
    (mkSecrets cert key (superuser_password secrets) (replication_password secrets)
       (auth_password secrets) (api_key secrets) (sec_backup_key secrets) (source_backup_key secrets)
       (Some (ca_cert_pem secrets)) (next secrets) (proxy_certificate secrets));
  _ ← new_generation step;
  mret Done.

(** The live nodes of a database and their addresses; a null address does not
    decode. *)
Definition node_addresses (s : Store) (database_id : string) : list (string * option string) :=
  omap (λ '((d, node), n, h),
    if String.eqb d database_id && negb (no_retracted n) then Some (node, ho_address h) else None)
    (nodes_with_hosts s).

Definition ca_issue (step : Claimed) : tx Outcome :=
  secrets ← database_secrets (cl_database_id step);
  _ ← ca_from_pem (ca_cert_pem secrets) (ca_key_pem secrets);
  rows ← gets (λ s, node_addresses s (cl_database_id step));
  _ ← for_rows rows (λ '(node, address),
        address ← expect (Context "unexpected null") address;
        reissue (cl_database_id step) node address (ca_cert_pem secrets) (ca_key_pem secrets));
  _ ← new_generation step;
  mret Done.

Definition without_previous (secrets : DatabaseSecrets) : DatabaseSecrets :=
  mkSecrets (ca_cert_pem secrets) (ca_key_pem secrets) (superuser_password secrets)
    (replication_password secrets) (auth_password secrets) (api_key secrets) (sec_backup_key secrets)
    (source_backup_key secrets) None (next secrets) (proxy_certificate secrets).

Definition ca_trust_new (step : Claimed) : tx Outcome :=
  secrets ← database_secrets (cl_database_id step);
  _ ← store_secrets (cl_database_id step) (without_previous secrets);
  _ ← new_generation step;
  mret Done.

Definition next_passwords : tx NextPasswords :=
  superuser ← random_token;
  replication ← random_token;
  auth ← random_token;
  api ← random_token;
  mret (mkNext superuser replication auth api).

Definition passwords_offer (step : Claimed) : tx Outcome :=
  secrets ← database_secrets (cl_database_id step);
  offered ← next_passwords;
  _ ← store_secrets (cl_database_id step)
    (mkSecrets (ca_cert_pem secrets) (ca_key_pem secrets) (superuser_password secrets)
       (replication_password secrets) (auth_password secrets) (api_key secrets)
       (sec_backup_key secrets) (source_backup_key secrets) (previous_ca_cert_pem secrets)
       (Some offered) (proxy_certificate secrets));
  _ ← new_generation step;
  mret Done.

Definition passwords_commit (step : Claimed) : tx Outcome :=
  secrets ← database_secrets (cl_database_id step);
  offered ← expect (Context "no passwords to commit") (next secrets);
  _ ← store_secrets (cl_database_id step)
    (mkSecrets (ca_cert_pem secrets) (ca_key_pem secrets) (next_superuser offered)
       (next_replication offered) (next_auth offered) (next_api_key offered)
       (sec_backup_key secrets) (source_backup_key secrets) (previous_ca_cert_pem secrets)
       None (proxy_certificate secrets));
  _ ← new_generation step;
  mret Done.

(** ** Placing nodes *)

Definition resources_of (s : Store) (database_id : string) : option Resources :=
  resources ∘ da_spec <$> databases s !! database_id.

(** The resources of the databases with a node on a host, once for each node. *)
Definition on_host (s : Store) (host_id : string) : list Resources :=
  omap (λ '((d, _), n), if String.eqb (no_host_id n) host_id then resources_of s d else None)
    (map_to_list (nodes s)).

Definition sum_of (l : list f64) : f64 := foldl f_add (f_lit "0.0") l.

Definition host_load (s : Store) (id : string) (h : HostRow) : HostLoad :=
  let l := on_host s id in
  mkHostLoad id (ho_name h) (ho_address h) (ho_failure_domain h) (ho_capacity h)
    (mkResources (sum_of (vcpu <$> l)) (sum_of (memory_gb <$> l)) (sum_of (storage_gb <$> l)))
    (Z.of_nat (length l)) (seen_within s h) (ho_draining h).

(** Every host, with what it runs. *)
Definition host_loads (s : Store) : list HostLoad :=
  (λ '(id, h), host_load s id h) <$>
    sort_by (λ a b : string * HostRow, str_leb a.1 b.1) (map_to_list (hosts s)).

(** The first ports of the nodes on a host. *)
Definition ports_of (s : Store) (host_id : string) : list Z :=
  omap (λ '(_, n), if String.eqb (no_host_id n) host_id then Some (no_port_base n) else None)
    (map_to_list (nodes s)).

Context (scheduler : SchedulerConfig).

Definition insert_node (database_id node host_id address bootstrap ca_cert ca_key : string)
    : tx (option Z) :=
  port ← gets (λ s, free_port scheduler (ports_of s host_id));
  match port with
  | None => mret None
  | Some port =>
      '(c, k, not_after) ← issue_node ca_cert ca_key (node_names address);
      taken ← gets (λ s, nodes s !! (database_id, node));
      match taken with
      | Some _ => throw (Context "duplicate key")
      | None =>
          _ ← modify (set_nodes (insert (database_id, node)
                (mkNode host_id port (seal (node_context database_id node) (mkNodeSecrets c k))
                   (Some not_after) bootstrap false false 0 "pending" None None None None false)));
          _ ← bump_host host_id;
          mret (Some port)
      end
  end.

Definition is_candidate (h : HostLoad) : bool :=
  online h && negb (draining h) && bool_decide (is_Some (hl_address h)).

Definition is_wanted (spec : DatabaseSpec) (h : HostLoad) : bool :=
  bool_decide (spec_hosts spec = []) || bool_decide (hl_id h ∈ spec_hosts spec) ||
  bool_decide (hl_name h ∈ spec_hosts spec).

(** The nodes of a new database, from [index] on. *)
Fixpoint add_nodes (step : Claimed) (first ca_cert ca_key : string) (index : nat) (chosen : list HostLoad)
    : tx Outcome :=
  match chosen with
  | [] => mret Done
  | host :: chosen =>
      let node := ("n" ++ format_dec (Z.of_nat (index + 1)))%string in
      added ← insert_node (cl_database_id step) node (hl_id host) (default EmptyString (hl_address host))
                (if bool_decide (index = 0%nat) then first else "seed") ca_cert ca_key;
      match added with
      | None => mret (Failed ("host " ++ hl_id host ++ " has no free ports"))
      | Some port =>
          _ ← op_log (cl_operation_id step) "reconciler"
                ("placed " ++ node ++ " on host " ++ hl_id host ++ " at port " ++ format_dec port);
          add_nodes step first ca_cert ca_key (S index) chosen
      end
  end.

Definition place_step (step : Claimed) : tx Outcome :=
  d ← database (cl_database_id step);
  let spec := da_spec d in
  loads ← gets host_loads;
  let candidates := List.filter (is_wanted spec) (List.filter is_candidate loads) in
  match place scheduler candidates (if ha spec then HA_NODES else 1%nat) (resources spec) with
  | TooFewHosts =>
      mret (Wait (if ha spec then "waiting for three online hosts in separate failure domains"
                  else "waiting for an online host"))
  | NoRoom message => mret (Failed message)
  | Placed chosen =>
      '(cert, key) ← ca_generate ("pgcluster-" ++ da_name d);
      source_key ← match restore spec with
                   | Some source =>
                       source_secrets ← database_secrets (rs_database_id source);
                       mret (Some (sec_backup_key source_secrets))
                   | None => mret None
                   end;
      superuser ← random_token;
      replication ← random_token;
      auth ← random_token;
      api ← random_token;
      backup ← random_backup_key;
      _ ← update_database (cl_database_id step) (with_ca cert (seal (cl_database_id step)
            (mkSecrets cert key superuser replication auth api backup source_key None None None)));
      add_nodes step (if restore spec then "restore" else "initdb") cert key 0 chosen
  end.

(** The failure domains of a database's live nodes. *)
Definition taken_domains (s : Store) (database_id : string) (except : option string) : list string :=
  omap (λ '((d, node), n, h),
    if String.eqb d database_id && negb (no_retracted n) && negb (bool_decide (except = Some node))
    then Some (default (no_host_id n) (ho_failure_domain h)) else None) (nodes_with_hosts s).

Definition place_replica (step : Claimed) : tx Outcome :=
  d ← database (cl_database_id step);
  let spec := da_spec d in
  source ← expect (Context "the database is not a replica") (replica_of spec);
  domains ← gets (λ s, taken_domains s (ro_database_id source) None);
  loads ← gets host_loads;
  let candidates :=
    List.filter (is_wanted spec)
      (List.filter (λ h, negb (bool_decide (domain h ∈ domains))) (List.filter is_candidate loads)) in
  match place scheduler candidates 1 (resources spec) with
  | TooFewHosts => mret (Wait "waiting for an online host outside the source's failure domains")
  | NoRoom message => mret (Failed message)
  | Placed [] => throw (Context "removal index is 0")
  | Placed (host :: _) =>
      secrets ← database_secrets (ro_database_id source);
      backup ← random_backup_key;
      let secrets :=
        mkSecrets (ca_cert_pem secrets) (ca_key_pem secrets) (superuser_password secrets)
          (replication_password secrets) (auth_password secrets) (api_key secrets) backup
          None None None None in
      _ ← ca_from_pem (ca_cert_pem secrets) (ca_key_pem secrets);
      _ ← store_secrets (cl_database_id step) secrets;
      added ← insert_node (cl_database_id step) "n1" (hl_id host) (default EmptyString (hl_address host))
                "replica" (ca_cert_pem secrets) (ca_key_pem secrets);
      match added with
      | None => mret (Failed ("host " ++ hl_name host ++ " has no free ports"))
      | Some port =>
          _ ← bump_hosts (ro_database_id source);
          _ ← op_log (cl_operation_id step) "reconciler"
                ("placed the replica on host " ++ hl_name host ++ " at port " ++ format_dec port);
          mret Done
      end
  end.

(** ** Removing nodes *)

Definition old_node (step : Claimed) : tx string :=
  expect (Context "the operation names no old node") (as_str (field (cl_params step) "old_node")).

Definition node_row (database_id node : string) : tx NodeRow :=
  o ← gets (λ s, nodes s !! (database_id, node)); expect RowNotFound o.

Definition retract_old (step : Claimed) : tx Outcome :=
  old ← old_node step;
  n ← node_row (cl_database_id step) old;
  _ ← modify (set_nodes (alter retracted (cl_database_id step, old)));
  _ ← bump_host (no_host_id n);
  _ ← new_generation step;
  mret Done.

Definition wait_old_removed (step : Claimed) : tx Outcome :=
  old ← old_node step;
  remaining ← gets (λ s,
    match nodes s !! (cl_database_id step, old) with
    | Some n => match hosts s !! no_host_id n with
                | Some h => no_present n && seen_within s h
                | None => false
                end
    | None => false
    end);
  mret (if (remaining : bool) then Wait "waiting for the old node to go" else Done).

Definition drop_old (step : Claimed) : tx Outcome :=
  old ← old_node step;
  _ ← modify (set_nodes (delete (cl_database_id step, old)));
  mret Done.

Definition replica_source (database_id : string) : tx (option ReplicaOf) :=
  d ← database database_id; mret (replica_of (da_spec d)).

(** A database's nodes. *)
Definition nodes_of (s : Store) (database_id : string) : list (string * NodeRow) :=
  omap (λ '((d, node), n), if String.eqb d database_id then Some (node, n) else None)
    (map_to_list (nodes s)).

Definition retract (step : Claimed) : tx Outcome :=
  source ← replica_source (cl_database_id step);
  _ ← match source with Some source => bump_hosts (ro_database_id source) | None => mret () end;
  rows ← gets (λ s, nodes_of s (cl_database_id step));
  _ ← update_nodes (λ k _, String.eqb k.1 (cl_database_id step)) retracted;
  _ ← for_rows rows (λ '(_, n), bump_host (no_host_id n));
  mret Done.

Definition wait_removed (step : Claimed) : tx Outcome :=
  rows ← gets (λ s, nodes_of s (cl_database_id step));
  mret (if existsb (λ '(_, n), no_present n) rows
        then Wait "waiting for hosts to remove instances" else Done).

Definition finalize (step : Claimed) : tx Outcome :=
  _ ← modify (set_nodes (filter (λ kn, kn.1.1 ≠ cl_database_id step)));
  _ ← update_database (cl_database_id step) (with_secrets None);
  _ ← set_status (cl_database_id step) "deleted" None;
  mret Done.

(** ** Upgrades *)

Definition target_version (step : Claimed) : tx string :=
  expect (Context "the operation names no version") (as_str (field (cl_params step) "target_version")).

Definition upgrade_check (step : Claimed) : tx Outcome :=
  target ← target_version step;
  let major := default EmptyString (head (split "." target)) in
  missing ← gets (λ s, sort_by str_leb (omap (λ '((d, _), n, h),
    if String.eqb d (cl_database_id step) && negb (no_retracted n) &&
       negb (bool_decide (ho_postgres_versions h !! major = Some target))
    then Some (ho_name h) else None) (nodes_with_hosts s)));
  mret (if bool_decide (missing = []) then Done
        else Failed ("Postgres " ++ target ++ " is not installed on " ++ join ", " missing)).

Definition by_name (a b : string * NodeRow) : bool := str_leb a.1 b.1.

Definition wait_version (step : Claimed) : tx Outcome :=
  target ← target_version step;
  behind ← gets (λ s, sort_by by_name (List.filter (λ '(_, n),
    negb (no_retracted n) && negb (bool_decide (no_server_version n = Some target)))
    (nodes_of s (cl_database_id step))));
  mret match behind with
       | [] => Done
       | (node, n) :: _ =>
           Wait ("waiting for " ++ node ++ " to run " ++ target ++ ", not " ++
                 default "an unknown version" (no_server_version n))
       end.

(** ** Replicas *)

Definition replica_task (step : Claimed) (kind : string) : tx Outcome :=
  source ← replica_source (cl_database_id step);
  source ← expect (Context "the database is not a replica") source;
  row ← gets (λ s, head (sort_by by_name (nodes_of s (cl_database_id step))));
  row ← expect RowNotFound row;
  let '(node, n) := row in
  host ← gets (λ s, hosts s !! no_host_id n);
  host ← expect RowNotFound host;
  let addr offset :=
    (default EmptyString (ho_address host) ++ ":" ++ format_dec (no_port_base n + offset))%string in
  run_task_on step (ro_database_id source) kind "leader"
    (JObject [("node_id", JString (ro_node_id source)); ("agent_addr", JString (addr 4));
              ("postgres_addr", JString (addr 2))]).

Definition remove_replica (step : Claimed) : tx Outcome :=
  source ← replica_source (cl_database_id step);
  match source with
  | Some _ => replica_task step "remove_replica"
  | None => mret Done
  end.

Definition without_source (spec : DatabaseSpec) : DatabaseSpec :=
  mkSpec (version spec) (ha spec) (spec_hosts spec) (resources spec) (replication_mode spec)
    (allowed_cidrs spec) (extensions spec) (owner spec) (Metadata.backup spec) (restore spec) None
    (data_name spec).

Definition promote_step (step : Claimed) : tx Outcome :=
  d ← database (cl_database_id step);
  let spec := da_spec d in
  _ ← match replica_of spec with Some source => bump_hosts (ro_database_id source) | None => mret () end;
  _ ← update_database (cl_database_id step) (with_spec (without_source spec));
  _ ← update_nodes (λ k _, String.eqb k.1 (cl_database_id step)) (with_bootstrap "promoted");
  _ ← new_generation step;
  mret Done.

(** ** The steps by name *)

Definition open_access (step : Claimed) : tx Outcome :=
  _ ← update_database (cl_database_id step) (with_access true);
  _ ← new_generation step;
  mret Done.

Definition activate (step : Claimed) : tx Outcome :=
  _ ← set_status (cl_database_id step) "active" None;
  mret Done.

Definition resize_restart (step : Claimed) : tx Outcome :=
  if bool_decide (as_bool (field (cl_params step) "restart") = Some true)
  then run_own_task step "rolling_restart" "leader" (JObject [])
  else mret Done.

Definition step_table : list (string * (Claimed → tx Outcome)) := [
  ("place", place_step);
  ("wait_applied", λ step, wait_applied step None);
  ("wait_peers", λ step, wait_applied step (as_str (field (cl_params step) "new_node")));
  ("activate", activate);
  ("settle", λ _, mret Done);
  ("retract", retract);
  ("wait_removed", wait_removed);
  ("finalize", finalize);
  ("first_backup", λ step,
     run_own_task step "backup" "leader" (JObject [("label", JString FIRST_BACKUP_LABEL)]));
  ("backup", λ step,
     run_own_task step "backup" "leader" (JObject [("label", field (cl_params step) "label")]));
  ("open_access", open_access);
  ("new_generation", λ step, _ ← new_generation step; mret Done);
  ("rolling_restart", λ step, run_own_task step "rolling_restart" "leader" (JObject []));
  ("resize_restart", resize_restart);
  ("upgrade_check", upgrade_check);
  ("place_replica", place_replica);
  ("add_replica", λ step, replica_task step "add_replica");
  ("detach_replica", λ step, replica_task step "detach_replica");
  ("remove_replica", remove_replica);
  ("promote", promote_step);
  ("wait_version", wait_version);
  ("switchover", λ step,
     run_own_task step "switchover" "leader" (JObject [("target", field (cl_params step) "target")]));
  ("set_replication_mode", λ step,
     run_own_task step "replication_mode" "leader" (JObject [("mode", field (cl_params step) "mode")]));
  ("replace_member", λ step, run_own_task step "replace_member" "leader" (cl_params step));
  ("retract_old", retract_old);
  ("wait_old_removed", wait_old_removed);
  ("drop_old", drop_old);
  ("ca_trust_both", ca_trust_both);
  ("ca_issue", ca_issue);
  ("ca_trust_new", ca_trust_new);
  ("passwords_offer", passwords_offer);
  ("passwords_alter", λ step, run_own_task step "alter_passwords" "primary" (JObject []));
  ("passwords_commit", passwords_commit)
].

Definition run_step (step : Claimed) : tx Outcome :=
  match List.find (λ row, String.eqb row.1 (cl_name step)) step_table with
  | Some (_, body) => body step
  | None => mret (Failed ("unknown step " ++ cl_name step))
  end.

(** ** Running a step *)

Definition settle_outcome (step : Claimed) (outcome : Outcome) : tx () :=
  match outcome with
  | Done => finish_step step
  | Wait message =>
      if cl_past_deadline step then fail step ("timed out in step " ++ cl_name step)
      else
        _ ← (if cl_attempts step =? 0 then op_log (cl_operation_id step) "reconciler" message
             else mret ());
        t ← gets now;
        update_step step (retried_step (t + WAIT_RETRY))
  | Failed message => fail step message
  end.

Definition run_claimed (step : Claimed) : tx bool :=
  row ← gets (λ s, operations s !! cl_operation_id step);
  match row with
  | Some o =>
      if is_active o then
        _ ← update_operation (cl_operation_id step) (λ o, with_op_status "running" (op_error o) o);
        outcome ← run_step step;
        _ ← settle_outcome step outcome;
        mret true
      else mret true
  | None => mret true
  end.

(** [step_once] with nothing else running. *)
Definition step_once : tx bool :=
  c ← gets claim;
  match c with
  | None => mret false
  | Some step => run_claimed step
  end.

(** ** Renewing certificates *)

Definition is_serving (status : string) : bool :=
  String.eqb status "active" || String.eqb status "degraded".

(** A certificate with no end, or one near it. *)
Definition is_due (s : Store) (n : NodeRow) : bool :=
  match no_cert_not_after n with
  | None => true
  | Some t => t <? now s + CERT_RENEW_DAYS * 86400
  end.

Definition due_certificates (s : Store) : list (string * string) :=
  omap (λ '((d, node), n, h),
    if negb (no_retracted n) &&
       match databases s !! d with Some row => is_serving (da_status row) | None => false end &&
       is_due s n && seen_within s h && negb (busy s d)
    then Some (d, node) else None) (nodes_with_hosts s).

Definition renew_certificate (database_id node : string) : tx () :=
  secrets ← gets (λ s,
    d ← databases s !! database_id;
    if is_serving (da_status d) then da_secrets d else None);
  is_busy ← gets (λ s, busy s database_id);
  match secrets with
  | Some sealed =>
      if (is_busy : bool) then mret ()
      else
        n ← node_row database_id node;
        host ← gets (λ s, hosts s !! no_host_id n);
        host ← expect RowNotFound host;
        address ← expect (Context "unexpected null") (ho_address host);
        secrets ← expect (Context "open secrets") (open database_id sealed);
        _ ← ca_from_pem (ca_cert_pem secrets) (ca_key_pem secrets);
        _ ← reissue database_id node address (ca_cert_pem secrets) (ca_key_pem secrets);
        generation ← next_generation database_id;
        _ ← bump_host (no_host_id n);
        id ← op_create database_id Update generation;
        op_log id "reconciler" ("renewed the certificate of " ++ node)
  | None => mret ()
  end.

(** ** Health *)

(** A node that is known to be away, or is not, against what its host says. *)
Definition gone (s : Store) (n : NodeRow) : bool :=
  negb (bool_decide (is_Some (no_offline_since n))) && negb (no_retracted n) &&
  match hosts s !! no_host_id n with Some h => not_seen s h | None => false end.

Definition returned (s : Store) (n : NodeRow) : bool :=
  bool_decide (is_Some (no_offline_since n)) && negb (no_retracted n) &&
  match hosts s !! no_host_id n with Some h => negb (not_seen s h) | None => false end.

Definition lost (s : Store) (database_id : string) (n : NodeRow) : bool :=
  match databases s !! database_id with Some d => ha (da_spec d) | None => false end &&
  match no_offline_since n with Some t => t <? now s - REPLACEMENT_AFTER_SECONDS | None => false end &&
  negb (no_replacement_flagged n) && negb (no_retracted n).

(** Change the nodes a test picks, with an event for each. *)
Definition track (test : Store → string → NodeRow → bool) (change : Z → NodeRow → NodeRow) (kind : string)
    : tx () :=
  s ← gets id;
  let picked := List.filter (λ '((d, _), n), test s d n) (map_to_list (nodes s)) in
  _ ← update_nodes (λ k n, test s k.1 n) (change (now s));
  for_rows picked (λ '((d, node), _), record_event kind (Some d) (Some node) (JObject [])).

Definition track_nodes : tx () :=
  _ ← track (λ s _, gone s) (λ t n, with_offline (Some t) (no_replacement_flagged n) n) "node_offline";
  _ ← track (λ s _, returned s) (λ _, with_offline None false) "node_online";
  track lost (λ _ n, with_offline (no_offline_since n) true n) "replacement_needed".

(** The first node with a problem, a cluster that fell back, or failing backups. *)
Definition problem (s : Store) (database_id : string) (d : DatabaseRow) : option string :=
  let bad := omap (λ '((db, node), n, h),
    if String.eqb db database_id && negb (no_retracted n)
    then if String.eqb (no_state n) "failed"
         then Some (node, ("node " ++ node ++ " failed: " ++ default EmptyString (no_error n))%string)
         else if not_seen s h then Some (node, ("node " ++ node ++ " is on an offline host")%string)
         else None
    else None) (nodes_with_hosts s) in
  match head (sort_by (λ a b : string * string, str_leb a.1 b.1) bad) with
  | Some (_, message) => Some message
  | None =>
      if ob_sync_degraded (da_observed d) then Some "sync has fallen back to async"
      else (λ e, ("backups are failing: " ++ e)%string) <$> ob_backup_error (da_observed d)
  end.

Definition mark_degraded (s : Store) (id : string) (d : DatabaseRow) : DatabaseRow :=
  match problem s id d with
  | Some reason => if String.eqb (da_status d) "active" then with_status "degraded" (Some reason) d else d
  | None => d
  end.

Definition mark_recovered (s : Store) (id : string) (d : DatabaseRow) : DatabaseRow :=
  match problem s id d with
  | Some _ => d
  | None => if String.eqb (da_status d) "degraded" then with_status "active" None d else d
  end.

(** [track_nodes] is a transaction of its own, as are the two updates. *)
Definition mark_all (change : Store → string → DatabaseRow → DatabaseRow) : tx () :=
  s ← gets id;
  modify (set_databases (map_imap (λ id d, Some (change s id d)))).
End reconciler.

(** ** Recorded operations *)

Definition new_operation `{!F64, !Pki} (s : Store) (d : string) (k : Kind) (g : Z) (p : json) : OperationRow :=
  mkOperation (next_seq s) d (kind_str k) "pending" g (now s + timeout_seconds k) None p
    ((λ name, mkStep name "pending" 0 (now s)) <$> kind_steps k).

Lemma create_with_Ok `{!F64, !Pki} d k g p s id s' :
  create_with d k g p s = Ok (id, s') →
  operations s !! id = None ∧
  s' = set_operations (insert id (new_operation s d k g p))
         (set_next_seq (next_seq s + 1) (set_drawn (S (drawn s)) s)).
Proof.
  unfold create_with, new_uuid, draw.
  intros (n & s1 & [= <- <-] & H1)%tx_bind_Ok. apply tx_bind_Ok in H1 as (seq & s2 & [= <- <-] & H2).
  apply tx_bind_Ok in H2 as (u & s3 & [= <- <-] & H3). apply tx_bind_Ok in H3 as (t & s4 & [= <- <-] & H4).
  apply tx_bind_Ok in H4 as (row & s5 & [_ ->]%database_Ok & H5).
  apply tx_bind_Ok in H5 as (taken & s6 & [= <- <-] & H6). cbn in H6.
  destruct (operations s !! _) eqn:E; [done|]. by injection H6 as <- <-.
Qed.
