(* ===== verification/AdminApi.v ===== *)
(** The admin API: src/pgcluster-admin/src/api/databases.rs, replicas.rs,
    hosts.rs and backups.rs, with the moves of drain.rs.

    A handler is one transaction. What it reads before it opens its own is read
    in the same store; the checks it makes under the lock are under the lock.
    Handlers that only read are left out. *)
From S2P Require Import Prelude Placement Metadata Requests Reconciler.

Local Open Scope Z_scope.

Section api.
Context `{!F64, !Pki} (scheduler : SchedulerConfig) (parse_net : string → bool).

Definition lift {A} (r : result failure A) : tx A :=
  match r with Ok a => mret a | Err e => throw e end.

Definition guard (b : bool) (e : failure) : tx () := if b then mret () else throw e.

Definition CONFLICT : failure := ApiError "conflict".
Definition INVALID : failure := ApiError "invalid_request".
Definition NOT_FOUND : failure := ApiError "not_found".

(** ** Shared checks *)

(** Lock a database for a change, and read its status and spec. *)
Definition lock (id : string) : tx (string * DatabaseSpec) :=
  row ← gets (λ s, databases s !! id);
  match row with
  | Some d => if String.eqb (da_status d) "deleted" then throw NOT_FOUND else mret (da_status d, da_spec d)
  | None => throw NOT_FOUND
  end.

Definition not_a_replica (spec : DatabaseSpec) : tx () :=
  guard (negb (bool_decide (is_Some (replica_of spec)))) CONFLICT.

Definition require_serving (status : string) : tx () := guard (is_serving status) CONFLICT.

Definition is_replica_of (id : string) (d : DatabaseRow) : bool :=
  match replica_of (da_spec d) with Some r => String.eqb (ro_database_id r) id | None => false end.

Definition has_replicas (s : Store) (id : string) : bool :=
  existsb (λ '(_, d), is_replica_of id d && negb (String.eqb (da_status d) "deleted"))
    (map_to_list (databases s)).

Definition not_busy (id : string) : tx () :=
  b ← gets (λ s, busy s id); guard (negb b) CONFLICT.

(** [INSERT INTO databases ... ON CONFLICT (name) WHERE status <> 'deleted']. *)
Definition insert_database (name : string) (workspace : option string) (spec : DatabaseSpec) : tx string :=
  id ← new_uuid;
  same ← gets (λ s, existsb (λ '(_, d), String.eqb (da_name d) name && negb (String.eqb (da_status d) "deleted"))
                      (map_to_list (databases s)));
  _ ← guard (negb same) CONFLICT;
  taken ← gets (λ s, databases s !! id);
  match taken with
  | Some _ => throw (Context "duplicate key")
  | None =>
      _ ← modify (set_databases (insert id
            (mkDatabase name workspace "provisioning" None 1 spec None None
               (mkObserved None false [] None 0) false)));
      mret id
  end.

Definition find_host (s : Store) (wanted : string) : option (string * HostRow) :=
  List.find (λ '(id, h), String.eqb id wanted || String.eqb (ho_name h) wanted) (map_to_list (hosts s)).

(** Named hosts must exist, and each be a failure domain of its own. *)
Fixpoint check_placement (domains wanted : list string) : tx () :=
  match wanted with
  | [] => mret ()
  | w :: wanted =>
      found ← gets (λ s, find_host s w);
      '(id, h) ← expect INVALID found;
      let domain := default id (ho_failure_domain h) in
      _ ← guard (negb (bool_decide (domain ∈ domains))) INVALID;
      check_placement (domain :: domains) wanted
  end.

Definition check_capacity (spec : DatabaseSpec) : tx () :=
  loads ← gets host_loads;
  let candidates := List.filter (is_wanted spec)
    (List.filter (λ h, negb (draining h) && bool_decide (is_Some (capacity h))) loads) in
  match too_large scheduler candidates (resources spec) with
  | Some _ => throw INVALID
  | None =>
      match place scheduler candidates (if ha spec then HA_NODES else 1%nat) (resources spec) with
      | NoRoom _ => throw INVALID
      | Placed _ | TooFewHosts => mret ()
      end
  end.

Definition check_repository (id : string) : tx () :=
  r ← gets (λ s, repositories s !! id);
  guard (match r with Some r => String.eqb (re_status r) "verified" | None => false end) INVALID.

(** ** Databases *)

Definition api_create (request : CreateDatabase) : tx string :=
  '(name, workspace, spec) ← lift (into_spec parse_net request);
  _ ← check_repository (repository_id (Metadata.backup spec));
  _ ← check_placement [] (spec_hosts spec);
  _ ← check_capacity spec;
  id ← insert_database name workspace spec;
  op_create id Create 1.

Definition change_spec_as (id : string) (kind : Kind) (params : json) (change : DatabaseSpec → DatabaseSpec)
    : tx string :=
  '(status, spec) ← lock id;
  _ ← not_a_replica spec;
  _ ← guard (negb (String.eqb status "deleting" || String.eqb status "error")) CONFLICT;
  _ ← update_database id (with_spec (change spec));
  generation ← next_generation id;
  _ ← bump_hosts id;
  create_with id kind generation params.

(** Start an operation that changes no spec. *)
Definition api_start (id : string) (kind : Kind) (params : json) : tx string :=
  '(status, spec) ← lock id;
  _ ← require_serving status;
  _ ← not_a_replica spec;
  replicas ← gets (λ s, has_replicas s id);
  _ ← guard (negb (match kind with RotateCa | RotatePasswords => true | _ => false end && replicas)) CONFLICT;
  d ← database id;
  create_with id kind (da_generation d) params.

(** A database's spec, without locking it. *)
Definition spec_of (id : string) : tx (string * DatabaseSpec) :=
  row ← gets (λ s, databases s !! id);
  match row with
  | Some d => if String.eqb (da_status d) "deleted" then throw NOT_FOUND else mret (da_name d, da_spec d)
  | None => throw NOT_FOUND
  end.

Definition with_resources (r : Resources) (sp : DatabaseSpec) : DatabaseSpec :=
  mkSpec (version sp) (ha sp) (spec_hosts sp) r (replication_mode sp) (allowed_cidrs sp) (extensions sp)
    (owner sp) (Metadata.backup sp) (restore sp) (replica_of sp) (data_name sp).
Definition with_mode (mode : string) (sp : DatabaseSpec) : DatabaseSpec :=
  mkSpec (version sp) (ha sp) (spec_hosts sp) (resources sp) mode (allowed_cidrs sp) (extensions sp)
    (owner sp) (Metadata.backup sp) (restore sp) (replica_of sp) (data_name sp).
Definition with_retention (days : option Z) (sp : DatabaseSpec) : DatabaseSpec :=
  mkSpec (version sp) (ha sp) (spec_hosts sp) (resources sp) (replication_mode sp) (allowed_cidrs sp)
    (extensions sp) (owner sp)
    (match days with
     | Some days => mkBackup (repository_id (Metadata.backup sp)) days
     | None => Metadata.backup sp
     end) (restore sp) (replica_of sp) (data_name sp).
Definition with_cidrs (cidrs : list string) (sp : DatabaseSpec) : DatabaseSpec :=
  mkSpec (version sp) (ha sp) (spec_hosts sp) (resources sp) (replication_mode sp) cidrs (extensions sp)
    (owner sp) (Metadata.backup sp) (restore sp) (replica_of sp) (data_name sp).
Definition with_extensions (l : list string) (sp : DatabaseSpec) : DatabaseSpec :=
  mkSpec (version sp) (ha sp) (spec_hosts sp) (resources sp) (replication_mode sp) (allowed_cidrs sp) l
    (owner sp) (Metadata.backup sp) (restore sp) (replica_of sp) (data_name sp).
Definition with_verifier (v : string) (sp : DatabaseSpec) : DatabaseSpec :=
  mkSpec (version sp) (ha sp) (spec_hosts sp) (resources sp) (replication_mode sp) (allowed_cidrs sp)
    (extensions sp) (mkOwner (username (owner sp)) v) (Metadata.backup sp) (restore sp) (replica_of sp)
    (data_name sp).

(** [a != b] on floats, from their order. *)
Definition f_ne (a b : f64) : bool := negb (f_le a b && f_le b a).

Definition resources_json (r : Resources) : json :=
  JObject [("vcpu", JFloat (vcpu r)); ("memory_gb", JFloat (memory_gb r));
           ("storage_gb", JFloat (storage_gb r))].

(** What a node grows by. *)
Definition growth (old new : Resources) : Resources :=
  mkResources (f_max (f_sub (vcpu new) (vcpu old)) (f_lit "0.0"))
    (f_max (f_sub (memory_gb new) (memory_gb old)) (f_lit "0.0"))
    (f_sub (storage_gb new) (storage_gb old)).

Definition can_grow (by_ : Resources) (live : gset string) (h : HostLoad) : bool :=
  negb (bool_decide (hl_id h ∈ live)) ||
  match free scheduler h with Some f => fits f by_ | None => false end.

Definition resize (id : string) (new : Resources) (retention_days : option Z) : tx string :=
  _ ← guard (above_zero new) INVALID;
  '(status, spec) ← lock id;
  _ ← require_serving status;
  _ ← not_a_replica spec;
  _ ← not_busy id;
  let old := resources spec in
  _ ← guard (negb (f_lt (storage_gb new) (storage_gb old))) INVALID;
  live ← gets (λ s, live_hosts s id);
  loads ← gets host_loads;
  _ ← guard (forallb (can_grow (growth old new) live) loads) INVALID;
  let restart := ha spec && f_ne (memory_gb new) (memory_gb old) in
  _ ← update_database id (with_spec (with_retention retention_days (with_resources new spec)));
  generation ← next_generation id;
  _ ← bump_hosts id;
  create_with id Resize generation
    (JObject [("from", resources_json old); ("to", resources_json new); ("restart", JBool restart)]).

Definition api_update (id : string) (new : option Resources) (mode : option string) (days : option Z)
    : tx string :=
  '(_, spec) ← spec_of id;
  _ ← match days with Some d => lift (check_retention d) | None => mret () end;
  match new with
  | Some new => _ ← guard (negb (bool_decide (is_Some mode))) INVALID; resize id new days
  | None =>
      match mode with
      | Some mode =>
          _ ← lift (check_replication_mode mode (ha spec));
          change_spec_as id ReplicationMode (JObject [("mode", JString mode)])
            (λ sp, with_retention days (with_mode mode sp))
      | None =>
          match days with
          | None => throw INVALID
          | Some _ => change_spec_as id Update (JObject []) (with_retention days)
          end
      end
  end.

(** ** Upgrades *)

Definition versions_le (a b : string) : bool :=
  match compare_versions a b with Gt => false | _ => true end.

(** [min_by], which keeps the first of equals. *)
Definition min_version (l : list string) : option string :=
  match l with
  | [] => None
  | v :: l => Some (foldl (λ best v, if versions_le best v then best else v) v l)
  end.

(** Each live node's host's name, the version it runs and the one installed. *)
Definition upgrade_rows (s : Store) (id major : string) : list (option string * option string) :=
  omap (λ '((d, _), n, h),
    if String.eqb d id && negb (no_retracted n)
    then Some (no_server_version n, ho_postgres_versions h !! major) else None) (nodes_with_hosts s).

Definition upgrade_target (major : string) (wanted : option string) (rows : list (option string * option string))
    : result failure string :=
  match mapM snd rows with
  | None => conflict
  | Some installed =>
      match min_version installed with
      | None => conflict
      | Some newest_everywhere =>
          match wanted with
          | None => Ok newest_everywhere
          | Some v =>
              if negb (bool_decide (head (split "." v) = Some major)) then invalid
              else if existsb (λ have, negb (String.eqb have v)) installed then conflict
              else Ok v
          end
      end
  end.

Definition api_upgrade (id : string) (wanted : option string) : tx string :=
  '(_, spec) ← spec_of id;
  rows ← gets (λ s, upgrade_rows s id (version spec));
  target ← lift (upgrade_target (version spec) wanted rows);
  _ ← guard (negb (forallb (λ r, bool_decide (fst r = Some target)) rows)) CONFLICT;
  _ ← guard (negb (existsb (λ r, match fst r with
                                 | Some running => negb (versions_le running target)
                                 | None => false
                                 end) rows)) CONFLICT;
  api_start id Upgrade (JObject [("target_version", JString target)]).

(** ** Requests for an operation *)

Definition api_restart (id : string) : tx string := api_start id Restart (JObject []).

Definition api_switchover (id : string) (target : option string) : tx string :=
  '(_, spec) ← spec_of id;
  _ ← guard (ha spec) CONFLICT;
  api_start id Switchover (JObject [("target", opt_json target)]).

Definition api_rotate_ca (id : string) : tx string := api_start id RotateCa (JObject []).
Definition api_rotate_passwords (id : string) : tx string := api_start id RotatePasswords (JObject []).

Definition backup_now (id : string) : tx string :=
  n ← new_uuid;
  '(status, spec) ← lock id;
  _ ← require_serving status;
  _ ← not_a_replica spec;
  d ← database id;
  create_with id Backup (da_generation d)
    (JObject [("label", JString ("api-" ++ String.substring 0 12 n))]).

Definition set_owner_password (id verifier : string) : tx string :=
  _ ← lift (check_verifier verifier);
  change_spec_as id Update (JObject []) (with_verifier verifier).

Definition put_allowlist (id : string) (cidrs : list string) : tx string :=
  _ ← lift (check_cidrs parse_net cidrs);
  change_spec_as id Update (JObject []) (with_cidrs cidrs).

Definition preloaded (l : list string) : list string :=
  List.filter (λ lib, bool_decide (lib ∈ l)) NEEDS_PRELOAD.

Definition put_extensions (id : string) (l : list string) : tx string :=
  _ ← lift (check_extensions l);
  '(_, spec) ← spec_of id;
  let kind := if ha spec && negb (bool_decide (preloaded (extensions spec) = preloaded l))
              then RollingUpdate else Update in
  change_spec_as id kind (JObject []) (with_extensions l).

Definition put_certificate (valid : bool) (id cert key : string) : tx string :=
  _ ← guard valid INVALID;
  '(status, spec) ← lock id;
  _ ← require_serving status;
  _ ← not_a_replica spec;
  secrets ← database_secrets id;
  _ ← update_database id (with_secrets (Some (seal id
        (mkSecrets (ca_cert_pem secrets) (ca_key_pem secrets) (superuser_password secrets)
           (replication_password secrets) (auth_password secrets) (api_key secrets)
           (sec_backup_key secrets) (source_backup_key secrets) (previous_ca_cert_pem secrets)
           (next secrets) (Some (cert, key))))));
  generation ← next_generation id;
  _ ← bump_hosts id;
  op_create id Update generation.

(** ** Replacing and deleting *)

(** The live nodes of a database, their hosts and failure domains. *)
Definition live_nodes (s : Store) (id : string) : list (string * string * option string) :=
  omap (λ '((d, node), n, h),
    if String.eqb d id && negb (no_retracted n) then Some (node, no_host_id n, ho_failure_domain h)
    else None) (nodes_with_hosts s).

Definition POSTGRES_PORT : Z := 2.
Definition RAFT_PORT : Z := 3.
Definition AGENT_PORT : Z := 4.

(** Another node's host or failure domain is the new one's. *)
Definition shares_domain (node host_id new_domain : string) (peer : string * string * option string) : bool :=
  let '(name, peer_host, peer_domain) := peer in
  negb (String.eqb name node) &&
  (String.eqb peer_host host_id || String.eqb (default peer_host peer_domain) new_domain).

Definition next_node (rows : list (string * string * option string)) : string :=
  let numbers := node_number ∘ fst ∘ fst <$> rows in
  ("n" ++ format_dec (match numbers with [] => 0 | n :: l => foldr Z.max n l end + 1))%string.

Definition start_replacement (id node wanted_host : string) : tx string :=
  '(status, spec) ← lock id;
  _ ← require_serving status;
  _ ← not_a_replica spec;
  _ ← guard (ha spec) CONFLICT;
  _ ← not_busy id;
  rows ← gets (λ s, live_nodes s id);
  _ ← guard (existsb (λ r, String.eqb r.1.1 node) rows) NOT_FOUND;
  loads ← gets host_loads;
  host ← expect INVALID (List.find (λ h,
    (String.eqb (hl_id h) wanted_host || String.eqb (hl_name h) wanted_host) && online h) loads);
  address ← expect INVALID (hl_address host);
  _ ← guard (negb (draining host)) INVALID;
  _ ← guard (negb (existsb (shares_domain node (hl_id host) (domain host)) rows)) INVALID;
  _ ← guard (negb (existsb (λ r, String.eqb r.1.2 (hl_id host)) rows)) INVALID;
  _ ← guard (has_room scheduler (resources spec) host) INVALID;
  secrets ← database_secrets id;
  _ ← ca_from_pem (ca_cert_pem secrets) (ca_key_pem secrets);
  let new_node := next_node rows in
  added ← insert_node scheduler id new_node (hl_id host) address "seed" (ca_cert_pem secrets) (ca_key_pem secrets);
  port ← expect CONFLICT added;
  generation ← next_generation id;
  _ ← bump_hosts id;
  let addr offset := JString (address ++ ":" ++ format_dec (port + offset)) in
  create_with id Replace generation
    (JObject [("old_node", JString node); ("new_node", JString new_node); ("raft_addr", addr RAFT_PORT);
              ("agent_addr", addr AGENT_PORT); ("postgres_addr", addr POSTGRES_PORT)]).

(** [UPDATE operations SET status = 'failed' ...] on what has not ended. *)
Definition supersede (id : string) (o : OperationRow) : OperationRow :=
  if String.eqb (op_database_id o) id && is_active o
  then with_op_status "failed" (Some "superseded by delete") o else o.

Definition api_delete (id : string) : tx string :=
  '(status, _) ← lock id;
  _ ← guard (negb (String.eqb status "deleting")) CONFLICT;
  replicas ← gets (λ s, has_replicas s id);
  _ ← guard (negb replicas) CONFLICT;
  _ ← modify (set_operations (fmap (supersede id)));
  _ ← end_tasks (λ _ t, String.eqb (ta_database_id t) id) "superseded by delete";
  _ ← update_database id (with_status "deleting" None);
  d ← database id;
  op_create id Delete (da_generation d).

(** ** Replicas *)

Definition replica_spec (source : DatabaseSpec) (source_id source_name : string) (host : option string)
    (count : Z) : DatabaseSpec :=
  mkSpec (version source) false (option_list host) (resources source) "async" (allowed_cidrs source)
    (extensions source) (owner source) (Metadata.backup source) None
    (Some (mkReplicaOf source_id ("r" ++ format_dec (count + 1))))
    (Some (default source_name (data_name source))).

Definition create_replica (id name : string) (host : option string) : tx string :=
  _ ← lift (check_database_name name);
  '(status, source) ← lock id;
  _ ← require_serving status;
  _ ← not_a_replica source;
  _ ← guard (ha source) CONFLICT;
  count ← gets (λ s, length (List.filter (λ '(_, d), is_replica_of id d) (map_to_list (databases s))));
  d ← database id;
  let spec := replica_spec source id (da_name d) host (Z.of_nat count) in
  _ ← check_placement [] (spec_hosts spec);
  _ ← check_capacity spec;
  replica_id ← insert_database name (da_workspace d) spec;
  op_create replica_id CreateReplica 1.

(** The replica, checked to belong to [id]. *)
Definition check_replica (id replica_id : string) : tx () :=
  row ← gets (λ s, databases s !! replica_id);
  guard (match row with
         | Some d => is_replica_of id d && negb (String.eqb (da_status d) "deleted")
         | None => false
         end) NOT_FOUND.

Definition delete_replica (id replica_id : string) : tx string :=
  _ ← check_replica id replica_id; api_delete replica_id.

Definition promote_replica (id replica_id : string) : tx string :=
  _ ← check_replica id replica_id;
  '(status, _) ← lock replica_id;
  _ ← require_serving status;
  _ ← not_busy replica_id;
  d ← database replica_id;
  _ ← update_database replica_id (with_status "provisioning" (da_status_reason d));
  op_create replica_id PromoteReplica (da_generation d).

(** ** Restores *)

(** From the end of the oldest backup to the last moment in the archive. *)
Definition restore_window (s : Store) (id : string) : option (Z * Z) :=
  let ends := omap (λ '((d, _), b), if String.eqb d id then Some (ba_completed_at b) else None)
                (map_to_list (backups s)) in
  let archived := omap (λ '(_, n), no_archived_until n) (nodes_of s id) in
  match ends, archived with
  | e :: ends, a :: archived =>
      let earliest := foldr Z.min e ends in
      let latest := foldr Z.max a archived in
      if earliest <=? latest then Some (earliest, latest) else None
  | _, _ => None
  end.

Definition restore_spec (source : DatabaseSpec) (source_id source_name : string) (hosts : list string)
    (at_ : Z) : DatabaseSpec :=
  mkSpec (version source) (ha source) hosts (resources source) (replication_mode source)
    (allowed_cidrs source) (extensions source) (owner source) (Metadata.backup source)
    (Some (mkRestore source_id source_name at_)) None None.

Definition api_restore (id name : string) (at_ : Z) (hosts : list string) : tx string :=
  _ ← lift (check_database_name name);
  '(source_name, source) ← spec_of id;
  _ ← lift (check_hosts hosts (ha source));
  window ← gets (λ s, restore_window s id);
  '(earliest, latest) ← expect CONFLICT window;
  _ ← guard (negb ((at_ <? earliest) || (latest <? at_))) INVALID;
  new_id ← insert_database name None (restore_spec source id source_name hosts at_);
  op_create new_id Create 1.

(** ** Hosts *)

Definition ENROLLMENT_TOKEN_MINUTES : Z := 15.

Definition api_create_host (token_hash : string → string) (name : string) (failure_domain : option string)
    : tx (string * string) :=
  _ ← lift (check_host_name name);
  id ← new_uuid;
  secret ← random_token;
  same ← gets (λ s, existsb (λ '(_, h), String.eqb (ho_name h) name) (map_to_list (hosts s)));
  _ ← guard (negb same) CONFLICT;
  taken ← gets (λ s, (hosts s !! id, tokens s !! token_hash secret));
  match taken with
  | (None, None) =>
      _ ← modify (set_hosts (insert id
            (mkHost name failure_domain None None 1 0 false None None None false None None ∅)));
      t ← gets now;
      _ ← modify (set_tokens (insert (token_hash secret)
            (mkToken id (t + ENROLLMENT_TOKEN_MINUTES * 60) false)));
      mret (id, secret)
  | _ => throw (Context "duplicate key")
  end.

Definition api_delete_host (id : string) : tx () :=
  h ← gets (λ s, hosts s !! id);
  _ ← expect NOT_FOUND h;
  used ← gets (λ s, existsb (λ '(_, n), String.eqb (no_host_id n) id) (map_to_list (nodes s)));
  _ ← guard (negb used) CONFLICT;
  _ ← modify (set_hosts (delete id));
  _ ← modify (set_tokens (filter (λ kt, to_host_id kt.2 ≠ id)));
  modify (set_repositories (fmap (λ r,
    if bool_decide (re_check_host_id r = Some id)
    then mkRepository (re_name r) (re_kind r) (re_config r) (re_credentials r) (re_status r) (re_error r) None
    else r))).

(** The one-node databases with a live node on a host. *)
Definition single_on (s : Store) (id : string) : bool :=
  existsb (λ '((d, _), n),
    String.eqb (no_host_id n) id && negb (no_retracted n) &&
    match databases s !! d with Some row => negb (ha (da_spec row)) | None => false end)
    (map_to_list (nodes s)).

Definition api_drain (id : string) : tx () :=
  h ← gets (λ s, hosts s !! id);
  h ← expect NOT_FOUND h;
  single ← gets (λ s, single_on s id);
  _ ← guard (negb single) CONFLICT;
  if ho_draining h then mret ()
  else
    _ ← modify (set_hosts (alter (with_drain true None None) id));
    record_event "host_draining" None None (JObject [("host_id", JString id)]).

Definition api_undrain (id : string) : tx () :=
  h ← gets (λ s, hosts s !! id);
  _ ← expect NOT_FOUND h;
  modify (set_hosts (alter (with_drain false None None) id)).

(** ** Emptying a host *)

(** One node to move for each database that can move now. *)
Definition due_moves (s : Store) : list (string * string * string) :=
  let rows := omap (λ '((d, node), n, h),
    if ho_draining h && negb (no_retracted n) && negb (busy s d) &&
       match databases s !! d with
       | Some row => is_serving (da_status row) && ha (da_spec row)
       | None => false
       end
    then Some (d, node, no_host_id n) else None) (nodes_with_hosts s) in
  let sorted := sort_by (λ a b : string * string * string, str_leb a.1.2 b.1.2) rows in
  omap (λ d, List.find (λ r, String.eqb r.1.1 d) sorted) (elements (list_to_set (fst ∘ fst <$> rows) : gset string)).

(** Say why the drain is stuck. *)
Definition blocked (host_id reason : string) : tx () :=
  modify (set_hosts (alter (λ h, with_drain (ho_draining h) (Some reason) (ho_drained_at h) h) host_id)).

Definition move_node (database_id node from : string) : tx () :=
  d ← database database_id;
  let where_ := ("cannot move " ++ da_name d ++ "/" ++ node ++ ": ")%string in
  taken ← gets (λ s, taken_domains s database_id (Some node));
  rows ← gets (λ s, live_nodes s database_id);
  loads ← gets host_loads;
  let candidates := List.filter (λ h,
    is_candidate h && negb (String.eqb (hl_id h) from) &&
    negb (existsb (λ r, negb (String.eqb r.1.1 node) && String.eqb r.1.2 (hl_id h)) rows) &&
    negb (bool_decide (domain h ∈ taken))) loads in
  match place scheduler candidates 1 (resources (da_spec d)) with
  | Placed [] => throw (Context "removal index is 0")
  | Placed (target :: _) =>
      or_else (start_replacement database_id node (hl_id target))
        (λ op,
           _ ← op_log op "drain" ("moving " ++ node ++ " off a draining host to " ++ hl_name target);
           modify (set_hosts (alter (λ h, with_drain (ho_draining h) None (ho_drained_at h) h) from)))
        (blocked from where_)
  | TooFewHosts =>
      blocked from (where_ ++ "no online host is outside the failure domains of its other nodes")
  | NoRoom message => blocked from (where_ ++ message)
  end.

(** A draining host with no nodes left is drained. *)
Definition note_drained : tx () :=
  s ← gets id;
  let is_drained (id : string) (h : HostRow) :=
    ho_draining h && negb (bool_decide (is_Some (ho_drained_at h))) &&
    negb (existsb (λ '(_, n), String.eqb (no_host_id n) id) (map_to_list (nodes s))) in
  let drained := List.filter (λ '(id, h), is_drained id h) (map_to_list (hosts s)) in
  _ ← update_hosts is_drained (λ h, with_drain (ho_draining h) None (Some (now s)) h);
  for_rows drained (λ '(id, _), record_event "host_drained" None None (JObject [("host_id", JString id)])).
End api.

(** A check changes nothing. *)
Lemma check_placement_keeps `{!F64, !Pki} (R : Store → Store → Prop) `{!PreOrder R} domains wanted :
  keeps R (check_placement domains wanted).
Proof.
  revert domains. induction wanted as [|w wanted IH]; intros domains; cbn; [keeps_step|].
  repeat first [apply IH | keeps_step].
Qed.
