(* ===== verification/HostApi.v ===== *)
(** The agent API, which hosts call: src/pgcluster-admin/src/agent.rs, with the
    documents of model.rs it sends and reads.

    [build_desired_state] is what a host is sent, and [report], [task_result]
    and [cluster_report] are what it says. The host is the one its certificate
    names; a handler first looks it up among the enrolled ([known_host]). The
    admin CA's own rotation and the checks of repositories are left out of the
    document, and pending tasks are in no order. *)
From S2P Require Import Prelude Placement Metadata Requests Reconciler AdminApi.

Local Open Scope Z_scope.

Section host_api.
Context `{!F64, !Pki}.

(** ** Documents *)

Record InstanceSecrets := mkInstanceSecrets {
  is_ca_cert_pem : string;
  is_cert_pem : string;
  is_key_pem : string;
  is_superuser_password : string;
  is_replication_password : string;
  is_auth_password : string;
  is_api_key : string;
  is_next : option NextPasswords;
  is_proxy_certificate : option (string * string)
}.

(** [InstanceSecrets::merge]. *)
Definition merge_secrets (database : DatabaseSecrets) (node : NodeSecrets) : InstanceSecrets :=
  mkInstanceSecrets (ca_bundle database) (cert_pem node) (key_pem node) (superuser_password database)
    (replication_password database) (auth_password database) (api_key database) (next database)
    (proxy_certificate database).

Record BackupTarget := mkTarget {
  bt_kind : string;
  bt_config : RepositoryConfig;
  bt_credentials : RepositoryCredentials;
  bt_encryption_key : option string
}.

Fixpoint trim_start_matches (c : ascii) (s : string) : string :=
  match s with
  | String a rest => if Ascii.eqb a c then trim_start_matches c rest else s
  | EmptyString => EmptyString
  end.

Fixpoint trim_end_matches (c : ascii) (s : string) : string :=
  match s with
  | String a rest =>
      let rest := trim_end_matches c rest in
      if Ascii.eqb a c && is_empty rest then EmptyString else String a rest
  | EmptyString => EmptyString
  end.

(** Each database keeps its backups under its own ID. *)
Definition for_database (kind : string) (config : RepositoryConfig) (credentials : RepositoryCredentials)
    (database_id encryption_key : string) : BackupTarget :=
  let under base :=
    (trim_end_matches "/" (default EmptyString base) ++ "/" ++ database_id)%string in
  let config :=
    if String.eqb kind "posix"
    then mkRepositoryConfig (Some (under (rc_path config))) (rc_bucket config) (rc_prefix config)
           (rc_region config) (rc_endpoint config) (rc_path_style config)
    else mkRepositoryConfig (rc_path config) (rc_bucket config)
           (Some (trim_start_matches "/" (under (rc_prefix config))))
           (rc_region config) (rc_endpoint config) (rc_path_style config) in
  mkTarget kind config credentials (Some encryption_key).

Record Peer := mkPeer { pe_node : string; pe_address : string; pe_port_base : Z }.

Record Instance := mkInstance {
  in_database_id : string;
  in_database_name : string;
  in_node : string;
  in_generation : Z;
  in_operation_id : option string;
  in_postgres_version : string;
  in_resources : Resources;
  in_port_base : Z;
  in_address : string;
  in_peers : list Peer;
  in_bootstrap : string;
  in_restore : option (BackupTarget * Z * string);
  in_backup : BackupTarget * Z;
  in_tasks : list (string * string * TaskRow);
  in_replication_mode : string;
  in_allowed_cidrs : list string;
  in_extensions : list string;
  in_owner : Owner;
  in_secrets : InstanceSecrets;
  in_role : string;
  in_rename_from : option string;
  in_replicas : list Peer
}.

Record DesiredState := mkDesired { ds_generation : Z; ds_instances : list Instance }.

(** ** What a host is sent *)

Definition repository (s : Store) (id : string)
    : result failure (string * RepositoryConfig * RepositoryCredentials) :=
  match repositories s !! id with
  | None => Err (Context "no repository")
  | Some r =>
      match re_credentials r with
      | Some sealed =>
          match open ("repository/" ++ id)%string sealed with
          | Some c => Ok (re_kind r, re_config r, c)
          | None => Err (Context "open secrets")
          end
      | None => Ok (re_kind r, re_config r, mkCredentials None None)
      end
  end.

(** Nodes whose hosts have an address, by name. *)
Definition to_peers (rows : list (string * option string * Z)) : list Peer :=
  omap (λ '(node, address, port), (λ a, mkPeer node a port) <$> address) rows.

Definition by_first (a b : string * option string * Z) : bool := str_leb a.1.1 b.1.1.

Definition peer_rows (s : Store) (database_id except : string) : list (string * option string * Z) :=
  sort_by by_first (omap (λ '((d, node), n, h),
    if String.eqb d database_id && negb (String.eqb node except) && negb (no_retracted n)
    then Some (node, ho_address h, no_port_base n) else None) (nodes_with_hosts s)).

Definition replica_rows (s : Store) (database_id : string) : list (string * option string * Z) :=
  snd <$> sort_by (λ a b : string * (string * option string * Z), str_leb a.1 b.1)
    (omap (λ '((d, _), n, h),
      match databases s !! d with
      | Some row =>
          if is_replica_of database_id row && negb (String.eqb (da_status row) "deleted") &&
             negb (no_retracted n)
          then (λ r, (d, (ro_node_id r, ho_address h, no_port_base n))) <$> replica_of (da_spec row)
          else None
      | None => None
      end) (nodes_with_hosts s)).

(** The earliest operation of a database that has not ended. *)
Definition current_operation (s : Store) (database_id : string) : option string :=
  fst <$> head (sort_by (λ a b : string * OperationRow, op_seq a.2 <=? op_seq b.2)
    (List.filter (λ '(_, o), String.eqb (op_database_id o) database_id && is_active o)
       (map_to_list (operations s)))).

Definition pending_tasks (s : Store) (database_id : string) : list (string * string * TaskRow) :=
  omap (λ '(k, t),
    if String.eqb (ta_database_id t) database_id && String.eqb (ta_status t) "pending"
    then Some (k, t) else None) (map_to_list (tasks s)).

Definition build_instance (s : Store) (h : HostRow) (d : DatabaseRow) (database_id node : string) (n : NodeRow)
    : result failure Instance :=
  let spec := da_spec d in
  sealed ← ok_or (Context "database has no secrets") (da_secrets d);
  database ← ok_or (Context "open secrets") (open database_id sealed);
  '(kind, config, credentials) ← repository s (repository_id (Metadata.backup spec));
  let target := for_database kind config credentials in
  let peer_of := match replica_of spec with
                 | Some source => (ro_database_id source, EmptyString)
                 | None => (database_id, node)
                 end in
  node_secrets ← ok_or (Context "open secrets") (open (node_context database_id node) (no_secrets n));
  mret (mkInstance database_id (da_name d) node (da_generation d) (current_operation s database_id)
    (version spec) (resources spec) (no_port_base n) (default EmptyString (ho_address h))
    (to_peers (peer_rows s peer_of.1 peer_of.2)) (no_bootstrap n)
    ((λ source, (target (rs_database_id source) (default EmptyString (source_backup_key database)),
                 target_time source, rs_database_name source)) <$> restore spec)
    (target database_id (sec_backup_key database), retain_full (Metadata.backup spec))
    (pending_tasks s database_id) (replication_mode spec)
    (if da_access_open d then allowed_cidrs spec else []) (extensions spec) (owner spec)
    (merge_secrets database node_secrets)
    (if replica_of spec then "replica" else "member")
    (match data_name spec with
     | Some name => if String.eqb name (da_name d) then None else Some name
     | None => None
     end)
    (to_peers (if replica_of spec then [] else replica_rows s database_id))).

(** The live nodes of a host, in order. *)
Definition host_nodes (s : Store) (host_id : string) : list (string * string * NodeRow) :=
  sort_by (λ a b : string * string * NodeRow,
      if String.eqb a.1.1 b.1.1 then str_leb a.1.2 b.1.2 else str_leb a.1.1 b.1.1)
    (omap (λ '(k, n), if String.eqb (no_host_id n) host_id && negb (no_retracted n)
                      then Some (k, n) else None) (map_to_list (nodes s))).

Definition build_desired_state (s : Store) (host_id : string) : result failure DesiredState :=
  h ← ok_or RowNotFound (hosts s !! host_id);
  instances ← mapM (λ '((d, node), n),
    row ← ok_or RowNotFound (databases s !! d);
    build_instance s h row d node n) (host_nodes s host_id);
  mret (mkDesired (ho_generation h) instances).

(** ** What a host says *)

Record InstanceReport := mkInstanceReport {
  ir_database_id : string;
  ir_node : string;
  ir_observed_generation : Z;
  ir_state : string;
  ir_error : option string;
  ir_archived_until : option Z;
  ir_server_version : option string
}.

Record Report := mkReport {
  rp_observed_generation : Z;
  rp_address : string;
  rp_capacity : Resources;
  rp_instances : list InstanceReport;
  rp_ca_fingerprint : option string;
  rp_postgres_versions : gmap string string
}.

(** The enrolled host making a call. *)
Definition known_host (host_id : string) : tx () :=
  h ← gets (λ s, hosts s !! host_id);
  guard (match h with Some h => ho_enrolled h | None => false end) (ApiError "unauthorized").

Definition reported_host (r : Report) (t : Z) (h : HostRow) : HostRow :=
  mkHost (ho_name h) (ho_failure_domain h) (Some (rp_address r)) (Some (rp_capacity r))
    (ho_generation h) (rp_observed_generation r) (ho_enrolled h) (Some t) (rp_ca_fingerprint r)
    (ho_certificate_ca h) (ho_draining h) (ho_drain_error h) (ho_drained_at h) (rp_postgres_versions r).

(** The last report of an instance, as in a map built from the list. *)
Definition report_of (r : Report) (database_id node : string) : option InstanceReport :=
  List.find (λ i, String.eqb (ir_database_id i) database_id && String.eqb (ir_node i) node)
    (reverse (rp_instances r)).

Definition reported_node (i : InstanceReport) (n : NodeRow) : NodeRow :=
  mkNode (no_host_id n) (no_port_base n) (no_secrets n) (no_cert_not_after n) (no_bootstrap n)
    (no_retracted n) true (ir_observed_generation i) (ir_state i) (ir_error i) (ir_archived_until i)
    (match ir_server_version i with Some v => Some v | None => no_server_version n end)
    (no_offline_since n) (no_replacement_flagged n).

Definition observe_node (r : Report) (k : string * string) (n : NodeRow) : NodeRow :=
  match report_of r k.1 k.2 with
  | Some i => reported_node i n
  | None => absent n
  end.

Definition report (host_id : string) (r : Report) : tx () :=
  _ ← known_host host_id;
  _ ← lift (check_host_name (rp_address r));
  t ← gets now;
  _ ← modify (set_hosts (alter (reported_host r t) host_id));
  modify (set_nodes (map_imap (λ k n, Some
    (if String.eqb (no_host_id n) host_id then observe_node r k n else n)))).

Definition runs_a_node (s : Store) (host_id database_id : string) : bool :=
  existsb (λ '((d, _), n), String.eqb d database_id && String.eqb (no_host_id n) host_id)
    (map_to_list (nodes s)).

Definition find_task (s : Store) (task_id : string) : option TaskRow :=
  snd <$> List.find (λ '(_, t), String.eqb (ta_id t) task_id) (map_to_list (tasks s)).

(** The first answer stands. *)
Definition answer_task (task_id : string) (success : bool) (error : option string) (t : TaskRow) : TaskRow :=
  if String.eqb (ta_id t) task_id && String.eqb (ta_status t) "pending"
  then with_result (if success then "succeeded" else "failed") error t else t.

Definition task_result (host_id task_id : string) (success : bool) (error : option string) : tx () :=
  _ ← known_host host_id;
  task ← gets (λ s, find_task s task_id);
  task ← expect NOT_FOUND task;
  runs ← gets (λ s, runs_a_node s host_id (ta_database_id task));
  _ ← guard runs NOT_FOUND;
  _ ← modify (set_tasks (fmap (answer_task task_id success error)));
  bump_hosts (ta_database_id task).

Definition repository_check (host_id id : string) (error : option string) : tx () :=
  _ ← known_host host_id;
  modify (set_repositories (alter (λ r,
    if bool_decide (re_check_host_id r = Some host_id) && String.eqb (re_status r) "verifying"
    then mkRepository (re_name r) (re_kind r) (re_config r) (re_credentials r)
           (if error then "failed" else "verified") error (re_check_host_id r)
    else r) id)).

Record BackupReport := mkBackupReport {
  br_id : string;
  br_label : string;
  br_completed_at : Z;
  br_size_bytes : Z
}.

Record ClusterReport := mkClusterReport {
  cp_database_id : string;
  cp_primary : option string;
  cp_sync_degraded : bool;
  cp_needs_reseed : list string;
  cp_failovers : list json;
  cp_backups : list BackupReport;
  cp_backup_error : option string
}.

Definition cluster_report (host_id : string) (r : ClusterReport) : tx () :=
  let id := cp_database_id r in
  _ ← known_host host_id;
  runs ← gets (λ s, runs_a_node s host_id id);
  _ ← guard runs NOT_FOUND;
  row ← gets (λ s, databases s !! id);
  d ← expect NOT_FOUND row;
  let before := da_observed d in
  let seen := ob_failover_count before in
  _ ← for_rows (drop (Z.to_nat seen) (cp_failovers r))
        (record_event "failover_completed" (Some id) None);
  _ ← (if Bool.eqb (cp_sync_degraded r) (ob_sync_degraded before) then mret ()
       else record_event (if cp_sync_degraded r then "sync_degraded" else "sync_restored") (Some id) None
              (JObject []));
  _ ← match cp_backup_error r with
      | Some e => if bool_decide (ob_backup_error before = Some e) then mret ()
                  else record_event "backup_failed" (Some id) None (JObject [("error", JString e)])
      | None => mret ()
      end;
  known ← gets backups;
  _ ← for_rows (cp_backups r) (λ b,
        match known !! (id, br_id b) with
        | Some _ => mret ()
        | None =>
            taken ← gets (λ s, backups s !! (id, br_id b));
            match taken with
            | Some _ => throw (Context "duplicate key")
            | None =>
                _ ← modify (set_backups (insert (id, br_id b)
                      (mkBackupRow (br_label b) (br_completed_at b) (br_size_bytes b))));
                record_event "backup_completed" (Some id) None
                  (JObject [("backup_id", JString (br_id b)); ("label", JString (br_label b))])
            end
        end);
  _ ← modify (set_backups (filter (λ kb,
        kb.1.1 ≠ id ∨ kb.1.2 ∈ br_id <$> cp_backups r)));
  update_database id (with_observed (mkObserved (cp_primary r) (cp_sync_degraded r) (cp_needs_reseed r)
    (cp_backup_error r) (Z.max (Z.of_nat (length (cp_failovers r))) seen))).

Definition MAX_LOG_BYTES : nat := 8192.

(** The bytes of the character a byte begins. *)
Definition utf8_len (c : ascii) : nat :=
  let n := N_of_ascii c in
  if (n <? 128)%N then 1 else if (n <? 224)%N then 2 else if (n <? 240)%N then 3 else 4.

(** The first characters whose bytes are within a budget. *)
Fixpoint clip (fuel budget : nat) (s : string) : string :=
  match fuel, s with
  | S fuel, String c _ =>
      let n := utf8_len c in
      if (n <=? budget)%nat
      then (String.substring 0 n s ++ clip fuel (budget - n) (String.substring n (String.length s - n) s))%string
      else EmptyString
  | _, _ => EmptyString
  end.

Definition append_log (host_id operation_id message : string) : tx () :=
  _ ← known_host host_id;
  row ← gets (λ s, operations s !! operation_id);
  o ← expect NOT_FOUND row;
  runs ← gets (λ s, runs_a_node s host_id (op_database_id o));
  _ ← guard runs NOT_FOUND;
  op_log operation_id ("host " ++ host_id) (clip (String.length message) MAX_LOG_BYTES message).

(** ** Enrolment *)

Context (token_hash : string → string) (sign_host_csr : string → string → option string).
Context (fingerprint : string).

Definition enroll (token csr : string) : tx (string * string) :=
  t ← gets now;
  row ← gets (λ s, tokens s !! token_hash token);
  row ← expect (ApiError "unauthorized")
          (match row with Some r => if negb (to_used r) && (t <? to_expires_at r) then Some r else None
                        | None => None end);
  _ ← modify (set_tokens (insert (token_hash token) (mkToken (to_host_id row) (to_expires_at row) true)));
  cert ← expect (ApiError "invalid_csr") (sign_host_csr csr (to_host_id row));
  _ ← modify (set_hosts (alter (with_enrolled fingerprint) (to_host_id row)));
  mret (to_host_id row, cert).

Definition rotate_certificate (host_id csr : string) : tx string :=
  _ ← known_host host_id;
  cert ← expect (ApiError "invalid_csr") (sign_host_csr csr host_id);
  _ ← modify (set_hosts (alter (with_certificate fingerprint) host_id));
  mret cert.
End host_api.

(** ** Documents *)

Section documents.
Context `{!F64, !Pki}.

Lemma result_mapM_elem {E A B} (f : A → result E B) l k y :
  mapM f l = Ok k → y ∈ k → ∃ x, x ∈ l ∧ f x = Ok y.
Proof.
  revert k. induction l as [|x l IH]; intros k; cbn.
  - intros [= <-] Hy. by apply elem_of_nil in Hy.
  - destruct (f x) as [b|e] eqn:Ef; [|done]. cbn. destruct (mapM f l) as [bs|e] eqn:El; [|done]. cbn.
    intros [= <-] [->|Hy]%elem_of_cons; [exists x; split; [constructor|done]|].
    destruct (IH bs eq_refl Hy) as (z & Hz & Hfz). exists z. split; [by constructor|done].
Qed.

Lemma ok_or_Ok {E A} (e : E) (o : option A) a : ok_or e o = Ok a → o = Some a.
Proof. by destruct o; intros [= ->]. Qed.

(** Where an instance of a document comes from. *)
Lemma desired_instance s host doc i :
  build_desired_state s host = Ok doc → i ∈ ds_instances doc →
  ∃ h d db node n, hosts s !! host = Some h ∧
    (nodes s !! (db, node) = Some n ∧ no_host_id n = host ∧ no_retracted n = false) ∧
    databases s !! db = Some d ∧ build_instance s h d db node n = Ok i.
Proof.
  unfold build_desired_state. destruct (hosts s !! host) as [h|]; [|done]. cbn.
  destruct (mapM _ _) as [l|] eqn:E; [|done]. intros [= <-] Hi. cbn in Hi.
  destruct (result_mapM_elem _ _ _ _ E Hi) as ([[db node] n] & Hin & Hf).
  destruct (databases s !! db) as [d|] eqn:Ed; [|done]. cbn in Hf.
  apply elem_of_sort_by, list_elem_of_omap in Hin as ([k n'] & Hk%elem_of_map_to_list & Hsel).
  case_match eqn:Et; [|done]. injection Hsel as -> ->.
  apply andb_true_iff in Et as [Eh%String.eqb_eq Er%negb_true_iff].
  exists h, d, db, node, n. by split_and!.
Qed.

Lemma build_instance_Ok s h d db node n i :
  build_instance s h d db node n = Ok i →
  ∃ secrets ns, da_secrets d ≫= open db = Some secrets ∧
    open (node_context db node) (no_secrets n) = Some ns ∧
    in_database_id i = db ∧ in_node i = node ∧
    in_allowed_cidrs i = (if da_access_open d then allowed_cidrs (da_spec d) else []) ∧
    in_secrets i = merge_secrets secrets ns ∧ in_generation i = da_generation d.
Proof.
  unfold build_instance. destruct (da_secrets d) as [sealed|]; [|done]. cbn.
  destruct (open db sealed) as [secrets|]; [|done]. cbn.
  destruct (repository _ _) as [[[kind config] credentials]|]; [|done]. cbn.
  destruct (open (node_context db node) (no_secrets n)) as [ns|]; [|done]. cbn.
  intros [= <-]. by exists secrets, ns.
Qed.
End documents.
