(* ===== verification/Orchestration.v ===== *)
(** The admin service as a system: reconcilers that claim and run steps, and
    every other transaction, in any order.

    [admin_step] is one event. Several reconcilers run side by side, so claims
    are held while other transactions commit; a claim locks its step, and ends
    with a commit, an error or a crash, which roll it back.

    [steps_run_in_order] says what is true of a step when it runs: it is the
    next one of its operation, the earlier ones are done, and no earlier
    operation of the database has still to end. [operation_ends] bounds what an operation does past its
    deadline. [unplaced_replica_stops_all] shows how one failing step can keep
    every other from running. *)
From S2P Require Import Prelude Placement Metadata Requests Reconciler AdminApi HostApi.

Local Open Scope Z_scope.

Section system.
Context `{!F64, !Pki} (scheduler : SchedulerConfig) (parse_net : string → bool).
Context (token_hash : string → string) (sign_host_csr : string → string → option string).
Context (fingerprint : string).

(** ** Transactions other than a step *)

Inductive admin_request :=
| RCreate (r : CreateDatabase)
| RUpdate (id : string) (new : option Resources) (mode : option string) (days : option Z)
| RUpgrade (id : string) (wanted : option string)
| RRestart (id : string)
| RSwitchover (id : string) (target : option string)
| RRotateCa (id : string)
| RRotatePasswords (id : string)
| RBackup (id : string)
| ROwner (id verifier : string)
| RAllowlist (id : string) (cidrs : list string)
| RExtensions (id : string) (l : list string)
| RCertificate (valid : bool) (id cert key : string)
| RReplace (id node host : string)
| RDelete (id : string)
| RCreateReplica (id name : string) (host : option string)
| RDeleteReplica (id replica : string)
| RPromoteReplica (id replica : string)
| RRestore (id name : string) (at_ : Z) (hosts : list string)
| RCreateHost (name : string) (failure_domain : option string)
| RDeleteHost (id : string)
| RDrain (id : string)
| RUndrain (id : string)
| RMove (id node from : string)
| RNoteDrained
| RRenew (id node : string)
| RTrack
| RMarkDegraded
| RMarkRecovered
| RReport (host : string) (r : Report)
| RTaskResult (host task : string) (success : bool) (error : option string)
| RRepositoryCheck (host id : string) (error : option string)
| RClusterReport (host : string) (r : ClusterReport)
| RAppendLog (host operation message : string)
| REnroll (token csr : string)
| RRotateCertificate (host csr : string).

Definition forget {A} (p : tx A) : tx () := _ ← p; mret ().

Definition serve_request (r : admin_request) : tx () :=
  match r with
  | RCreate r => forget (api_create scheduler parse_net r)
  | RUpdate id new mode days => forget (api_update scheduler id new mode days)
  | RUpgrade id wanted => forget (api_upgrade id wanted)
  | RRestart id => forget (api_restart id)
  | RSwitchover id target => forget (api_switchover id target)
  | RRotateCa id => forget (api_rotate_ca id)
  | RRotatePasswords id => forget (api_rotate_passwords id)
  | RBackup id => forget (backup_now id)
  | ROwner id verifier => forget (set_owner_password id verifier)
  | RAllowlist id cidrs => forget (put_allowlist parse_net id cidrs)
  | RExtensions id l => forget (put_extensions id l)
  | RCertificate valid id cert key => forget (put_certificate valid id cert key)
  | RReplace id node host => forget (start_replacement scheduler id node host)
  | RDelete id => forget (api_delete id)
  | RCreateReplica id name host => forget (create_replica scheduler id name host)
  | RDeleteReplica id replica => forget (delete_replica id replica)
  | RPromoteReplica id replica => forget (promote_replica id replica)
  | RRestore id name at_ hosts => forget (api_restore id name at_ hosts)
  | RCreateHost name failure_domain => forget (api_create_host token_hash name failure_domain)
  | RDeleteHost id => api_delete_host id
  | RDrain id => api_drain id
  | RUndrain id => api_undrain id
  | RMove id node from => move_node scheduler id node from
  | RNoteDrained => note_drained
  | RRenew id node => renew_certificate id node
  | RTrack => track_nodes
  | RMarkDegraded => mark_all mark_degraded
  | RMarkRecovered => mark_all mark_recovered
  | RReport host r => report host r
  | RTaskResult host task success error => task_result host task success error
  | RRepositoryCheck host id error => repository_check host id error
  | RClusterReport host r => cluster_report host r
  | RAppendLog host operation message => append_log host operation message
  | REnroll token csr => forget (enroll token_hash sign_host_csr fingerprint token csr)
  | RRotateCertificate host csr => forget (rotate_certificate sign_host_csr fingerprint host csr)
  end.

(** ** Events *)

Record System := mkSystem { store : Store; held : list Claimed }.

Definition claim_key (c : Claimed) : string * nat := (cl_operation_id c, cl_seq c).

Definition at_time (t : Z) (s : Store) : Store :=
  mkStore t (drawn s) (next_seq s) (hosts s) (databases s) (nodes s) (operations s) (tasks s)
    (repositories s) (backups s) (tokens s) (events s) (logs s).

Inductive admin_step : System → System → Prop :=
| SClaim s l c t :
    (t, c) ∈ claims s → claim_key c ∉ claim_key <$> l →
    admin_step (mkSystem s l) (mkSystem s (c :: l))
| SRun s l1 l2 c b s' :
    run_claimed scheduler c s = Ok (b, s') →
    admin_step (mkSystem s (l1 ++ c :: l2)) (mkSystem s' (l1 ++ l2))
| SRollback s l1 l2 c :
    admin_step (mkSystem s (l1 ++ c :: l2)) (mkSystem s (l1 ++ l2))
| SServe s l r :
    admin_step (mkSystem s l) (mkSystem (commit (serve_request r) s) l)
| STick s l t :
    now s ≤ t → admin_step (mkSystem s l) (mkSystem (at_time t s) l).

(** No databases and no operations yet. *)
Definition fresh (s : Store) : Prop :=
  databases s = ∅ ∧ nodes s = ∅ ∧ operations s = ∅ ∧ tasks s = ∅.

Inductive sys_reachable : System → Prop :=
| reach_init s : fresh s → sys_reachable (mkSystem s [])
| reach_step y y' : sys_reachable y → admin_step y y' → sys_reachable y'.
End system.

(** ** The operations table *)

Section operations.
Context `{!F64, !Pki}.

Definition statuses (o : OperationRow) : list string := st_status <$> op_steps o.

(** What a row of [operations] and its steps look like: the steps of its kind,
    done from the front, and a status that says how far it got. *)
Definition op_ok (o : OperationRow) : Prop :=
  (∃ k, op_kind o = kind_str k ∧ st_name <$> op_steps o = kind_steps k) ∧
  ∃ k m,
    (is_active o = true ∧ statuses o = replicate k "done" ++ replicate (S m) "pending") ∨
    (op_status o = "succeeded" ∧ statuses o = replicate k "done") ∨
    (op_status o = "failed" ∧
       (statuses o = replicate k "done" ++ "failed" :: replicate m "pending" ∨
        statuses o = replicate k "done" ++ replicate (S m) "pending")).

Definition ops_ok (s : Store) : Prop :=
  (∀ id o, operations s !! id = Some o → op_ok o ∧ op_seq o < next_seq s) ∧
  (∀ id1 o1 id2 o2, operations s !! id1 = Some o1 → operations s !! id2 = Some o2 →
     op_seq o1 = op_seq o2 → id1 = id2) ∧
  (∀ id o, operations s !! id = Some o → op_status o = "running" → is_first s o = true).

(** What holds of a claimed step until it ends. *)
Definition claim_ok (s : Store) (c : Claimed) : Prop :=
  ∃ o, operations s !! cl_operation_id c = Some o ∧
    op_database_id o = cl_database_id c ∧ op_kind o = cl_kind c ∧
    (is_active o = true →
       is_first s o = true ∧ op_target_generation o = cl_target_generation c ∧
       op_params o = cl_params c ∧
       ∃ st, first_pending o = Some (cl_seq c, st) ∧ st_name st = cl_name c ∧
         st_attempts st = cl_attempts c).

Lemma elem_of_map_existsb {K V} `{Countable K} (f : K * V → bool) (m : gmap K V) :
  existsb f (map_to_list m) = true ↔ ∃ k v, m !! k = Some v ∧ f (k, v) = true.
Proof.
  rewrite List.existsb_exists. split.
  - intros ([k v] & Hin & Hf). apply list_elem_of_In, elem_of_map_to_list in Hin. eauto.
  - intros (k & v & Hk & Hf). exists (k, v). split; [|done]. by apply list_elem_of_In, elem_of_map_to_list.
Qed.

Lemma is_first_spec s o :
  is_first s o = true ↔
  ∀ id e, operations s !! id = Some e → op_database_id e = op_database_id o → is_active e = true →
    op_seq o ≤ op_seq e.
Proof.
  unfold is_first. rewrite negb_true_iff, <- not_true_iff_false, elem_of_map_existsb. split.
  - intros Hn id e He Hd Ha. destruct (Z.le_gt_cases (op_seq o) (op_seq e)) as [|Hlt]; [done|].
    destruct Hn. exists id, e. split; [done|]. cbn.
    rewrite Hd, String.eqb_refl, Ha. by apply Z.ltb_lt.
  - intros Hall (id & e & He & Hb). cbn in Hb.
    apply andb_true_iff in Hb as [[Hd%String.eqb_eq Ha]%andb_true_iff Hlt%Z.ltb_lt].
    specialize (Hall id e He Hd Ha). lia.
Qed.

(** Being first needs only that no new earlier operation is active. *)
Lemma is_first_mono s s' o o' :
  is_first s o = true → op_seq o' = op_seq o → op_database_id o' = op_database_id o →
  (∀ id e', operations s' !! id = Some e' → is_active e' = true →
     (∃ e, operations s !! id = Some e ∧ is_active e = true ∧ op_seq e = op_seq e' ∧
           op_database_id e = op_database_id e') ∨ op_seq o ≤ op_seq e') →
  is_first s' o' = true.
Proof.
  rewrite !is_first_spec. intros Hf Hs Hd Hall id e' He' Hdb Ha. rewrite Hs.
  destruct (Hall id e' He' Ha) as [(e & He & Hae & Hse & Hde)|]; [|done].
  rewrite <- Hse. apply (Hf id); [done| |done]. by rewrite Hde, Hdb, Hd.
Qed.

(** Every operation and every claim stays well formed. *)
Definition ops_kept (s s' : Store) : Prop :=
  ops_ok s → ops_ok s' ∧ ∀ c, claim_ok s c → claim_ok s' c.

#[global] Instance ops_kept_preorder : PreOrder ops_kept.
Proof.
  split; [by intros s|]. intros s1 s2 s3 H12 H23 H1. destruct (H12 H1) as [H2 Hc2].
  destruct (H23 H2) as [H3 Hc3]. auto.
Qed.

Lemma is_first_same s s' o : operations s' = operations s → is_first s' o = is_first s o.
Proof. unfold is_first. by intros ->. Qed.

(** What does not touch the table. *)
Lemma ops_kept_frame s s' :
  operations s' = operations s → next_seq s' = next_seq s → ops_kept s s'.
Proof.
  intros Ho Hn (H1 & H2 & H3). split.
  - split; [|split]; rewrite Ho, ?Hn; [done|done|]. intros id o Hl Hr. rewrite (is_first_same s) by done.
    eauto.
  - intros c (o & Hl & Hd & Hk & Ha). exists o. rewrite Ho. split; [done|]. split; [done|].
    split; [done|]. by rewrite (is_first_same s s' o Ho).
Qed.

(** A row that is left as it is, or that ends. *)
Definition ended (o o' : OperationRow) : Prop :=
  o' = o ∨ is_active o = true ∧ ∃ e, o' = with_op_status "failed" e o.

Lemma ended_ok o o' : op_ok o → ended o o' → op_ok o'.
Proof.
  intros [Hk (k & m & Hs)] [->|(Ha & e & ->)]; [by split; [|exists k, m]|]. split; [done|].
  exists k, m. right. right. split; [done|]. right. destruct Hs as [[_ Hs]|[[E _]|[E _]]]; [done| |];
    exfalso; unfold is_active in Ha; by rewrite E in Ha.
Qed.

Lemma ended_facts o o' : ended o o' →
  op_seq o' = op_seq o ∧ op_database_id o' = op_database_id o ∧ op_kind o' = op_kind o ∧
  (is_active o' = true → o' = o) ∧ (op_status o' = "running" → o' = o).
Proof. intros [->|(Ha & e & ->)]; done. Qed.

(** Operations that end. *)
Lemma ops_kept_ended s s' f :
  operations s' = f <$> operations s → next_seq s' = next_seq s → (∀ o, ended o (f o)) → ops_kept s s'.
Proof.
  intros Ho Hn Hf (H1 & H2 & H3).
  assert (Hl : ∀ id o', operations s' !! id = Some o' ↔ ∃ o, operations s !! id = Some o ∧ o' = f o).
  { intros id o'. rewrite Ho, lookup_fmap, fmap_Some. done. }
  assert (Hfirst : ∀ o, is_first s o = true → is_first s' o = true).
  { intros o Hi. eapply is_first_mono; [done|done|done|]. intros id e' (e & He & ->)%Hl Ha. left.
    destruct (ended_facts _ _ (Hf e)) as (? & ? & _ & Hsame & _). exists e. pose proof (Hsame Ha) as Ee.
    rewrite Ee in Ha |- *. by repeat split. }
  split; [split; [|split]|].
  - intros id o' (o & Ho' & ->)%Hl. destruct (ended_facts _ _ (Hf o)) as (-> & _).
    destruct (H1 id o Ho') as [Hok Hlt]. rewrite Hn. split; [by eapply ended_ok|done].
  - intros id1 o1 id2 o2 (o1' & Hl1 & ->)%Hl (o2' & Hl2 & ->)%Hl.
    destruct (ended_facts _ _ (Hf o1')) as (-> & _). destruct (ended_facts _ _ (Hf o2')) as (-> & _).
    by apply H2.
  - intros id o' (o & Ho' & ->)%Hl Hr. destruct (ended_facts _ _ (Hf o)) as (_ & _ & _ & _ & Hsame).
    pose proof (Hsame Hr) as Ee. rewrite Ee in Hr |- *. apply Hfirst. eauto.
  - intros c (o & Hlo & Hd & Hk & Ha). destruct (ended_facts _ _ (Hf o)) as (_ & Ed & Ek & Hsame & _).
    exists (f o). split; [apply Hl; eauto|]. rewrite Ed, Ek. split; [done|]. split; [done|].
    intros Hact. pose proof (Hsame Hact) as Ee. rewrite Ee in Hact |- *.
    destruct (Ha Hact) as (? & ?). auto.
Qed.

(** A new operation. *)
Lemma new_op_ok seq d k g dl p t :
  op_ok (mkOperation seq d (kind_str k) "pending" g dl None p
           ((λ name, mkStep name "pending" 0 t) <$> kind_steps k)).
Proof.
  split.
  - exists k. split; [done|]. cbn. rewrite <- list_fmap_compose. apply list_fmap_id.
  - exists 0%nat, (pred (length (kind_steps k))). left. split; [done|]. unfold statuses. cbn.
    by destruct k.
Qed.

Lemma ops_kept_insert s s' id o :
  operations s !! id = None → operations s' = <[id := o]> (operations s) →
  next_seq s' = next_seq s + 1 → op_ok o → op_seq o = next_seq s → op_status o = "pending" →
  ops_kept s s'.
Proof.
  intros Hnone Ho Hn Hok Hseq Hst (H1 & H2 & H3).
  assert (Hfirst : ∀ i e, operations s !! i = Some e → is_first s e = true → is_first s' e = true).
  { intros i e Hi Hf. eapply is_first_mono; [done|done|done|]. intros id' e' He' Ha. rewrite Ho in He'.
    apply lookup_insert_Some in He' as [[<- <-]|[Hne He']]; [right|left; eauto].
    destruct (H1 i e Hi). lia. }
  split; [split; [|split]|].
  - intros i e He. rewrite Ho in He. rewrite Hn. apply lookup_insert_Some in He as [[<- <-]|[Hne He]].
    + split; [done|lia].
    + destruct (H1 i e He). split; [done|lia].
  - intros i1 e1 i2 e2 He1 He2 Heq. rewrite Ho in He1, He2.
    apply lookup_insert_Some in He1 as [[<- <-]|[Hne1 He1]];
      apply lookup_insert_Some in He2 as [[<- <-]|[Hne2 He2]]; [done| | |by eapply H2].
    + destruct (H1 _ _ He2). lia.
    + destruct (H1 _ _ He1). lia.
  - intros i e He Hr. rewrite Ho in He. apply lookup_insert_Some in He as [[<- <-]|[Hne He]].
    + by rewrite Hst in Hr.
    + eauto.
  - intros c (e & He & Hd & Hk & Ha). exists e. rewrite Ho, lookup_insert_ne by congruence.
    split; [done|]. split; [done|]. split; [done|]. intros Hact. destruct (Ha Hact) as (? & ?).
    split; [by eapply Hfirst|done].
Qed.

Lemma create_with_kept d k g p : keeps ops_kept (create_with d k g p).
Proof.
  intros s a s' [E ->]%create_with_Ok.
  eapply ops_kept_insert; [exact E|done|done|apply new_op_ok|done|done].
Qed.

Lemma supersede_kept id : keeps ops_kept (modify (set_operations (fmap (supersede id)))).
Proof.
  apply keeps_modify. intros s. eapply ops_kept_ended; [done|done|]. intros o. unfold supersede.
  case_match eqn:E; [|by left]. right. apply andb_true_iff in E as [_ E]. eauto.
Qed.

Ltac ops_leaf :=
  idtac; lazymatch goal with
  | |- keeps _ (modify (set_operations _)) => apply supersede_kept
  | |- keeps _ (create_with _ _ _ _) => apply create_with_kept
  | |- keeps _ (check_placement _ _) => apply check_placement_keeps; exact _
  | |- keeps _ (modify _) => apply keeps_modify; intros ?; apply ops_kept_frame; reflexivity
  end.

Lemma handle_kept scheduler parse_net token_hash sign fingerprint r :
  keeps ops_kept (serve_request scheduler parse_net token_hash sign fingerprint r).
Proof.
  destruct r; keeps_auto ops_leaf.
Qed.

(** ** What the body of a step may do to the table *)

(** Nothing, but name a new generation to wait for. *)
Definition retarget (op : string) (s s' : Store) : Prop :=
  (next_seq s' = next_seq s ∧ now s' = now s) ∧
  ∀ id, operations s' !! id = operations s !! id ∨
    id = op ∧ ∃ o g, operations s !! id = Some o ∧ operations s' !! id = Some (retargeted g o).

#[global] Instance retarget_preorder op : PreOrder (retarget op).
Proof.
  split; [by split; [|left]|]. intros s1 s2 s3 [Hn12 H12] [Hn23 H23].
  split; [split; destruct Hn12, Hn23; congruence|]. intros id.
  destruct (H12 id) as [E12|(E & o & g & Ho & Ho')];
    destruct (H23 id) as [E23|(E' & o2 & g2 & Ho2 & Ho2')].
  - left. congruence.
  - right. split; [done|]. exists o2, g2. by rewrite <- E12.
  - right. split; [done|]. exists o, g. by rewrite E23.
  - right. split; [done|]. exists o, g2. rewrite Ho' in Ho2. injection Ho2 as <-. by rewrite Ho2'.
Qed.

Lemma retarget_frame op s s' :
  operations s' = operations s → next_seq s' = next_seq s → now s' = now s → retarget op s s'.
Proof. intros Ho Hn Ht. split; [done|]. left. by rewrite Ho. Qed.

Lemma retarget_target op g s : retarget op s (set_operations (alter (retargeted g) op) s).
Proof.
  split; [done|]. intros id. cbn. destruct (decide (op = id)) as [<-|Hne].
  - rewrite lookup_alter_eq. destruct (operations s !! op) as [o|] eqn:E; [|by left]. right.
    split; [done|]. by exists o, g.
  - left. by rewrite lookup_alter_ne.
Qed.

Ltac retarget_leaf :=
  idtac; lazymatch goal with
  | |- keeps _ (modify (set_operations _)) => apply keeps_modify; intros ?; apply retarget_target
  | |- keeps _ (modify _) => apply keeps_modify; intros ?; apply retarget_frame; reflexivity
  end.

Lemma add_nodes_retargets scheduler c first cert key i l :
  keeps (retarget (cl_operation_id c)) (add_nodes scheduler c first cert key i l).
Proof.
  revert i. induction l as [|h l IH]; intros i; cbn [add_nodes]; [keeps_step|].
  repeat first [apply IH | retarget_leaf | keeps_step].
Qed.

Lemma step_table_retargets scheduler c :
  Forall (λ row, keeps (retarget (cl_operation_id c)) (row.2 c)) (step_table scheduler).
Proof.
  unfold step_table. repeat (apply Forall_cons; split; cbn [snd]); [..|by apply Forall_nil];
    repeat first [apply add_nodes_retargets | retarget_leaf | keeps_step].
Qed.

(** A property of every row of the table is one of every step. *)
Lemma run_step_cases (P : tx Outcome → Prop) scheduler c :
  Forall (λ row, row.1 = cl_name c → P (row.2 c)) (step_table scheduler) →
  P (mret (Failed ("unknown step " ++ cl_name c))) → P (run_step scheduler c).
Proof.
  intros Hall Hnone. unfold run_step. destruct (List.find _ _) as [[name body]|] eqn:E; [|done].
  apply List.find_some in E as [Hin Hname%String.eqb_eq]. rewrite Forall_forall in Hall.
  by apply (Hall (name, body)); [apply list_elem_of_In|].
Qed.

Lemma run_step_retargets scheduler c : keeps (retarget (cl_operation_id c)) (run_step scheduler c).
Proof.
  apply (run_step_cases (keeps _)); [|apply keeps_ret; exact _].
  eapply Forall_impl; [apply step_table_retargets|]. intros row Hr Hn. exact Hr.
Qed.

(** ** What a run of a step does to the table *)

Definition same_header (o o' : OperationRow) : Prop :=
  op_seq o' = op_seq o ∧ op_database_id o' = op_database_id o ∧ op_kind o' = op_kind o ∧
  op_params o' = op_params o.

(** The step is done, has failed, or is tried again. *)
Inductive stepped (c : Claimed) (t : Z) (o o' : OperationRow) : Outcome → Prop :=
| stepped_done :
    op_steps o' = alter done_step (cl_seq c) (op_steps o) →
    op_status o' = (if existsb is_pending (op_steps o') then "running" else "succeeded") →
    stepped c t o o' Done
| stepped_failed out :
    out ≠ Done →
    op_steps o' = alter failed_step (cl_seq c) (op_steps o) → op_status o' = "failed" →
    stepped c t o o' out
| stepped_retried message :
    cl_past_deadline c = false →
    op_steps o' = alter (retried_step (t + WAIT_RETRY)) (cl_seq c) (op_steps o) →
    op_status o' = "running" →
    stepped c t o o' (Wait message).

Definition marked_running (c : Claimed) : Store → Store :=
  set_operations (alter (λ o, with_op_status "running" (op_error o) o) (cl_operation_id c)).

(** A run, where the operation has not ended meanwhile. *)
Lemma run_claimed_Ok scheduler c s b s' o :
  run_claimed scheduler c s = Ok (b, s') → operations s !! cl_operation_id c = Some o →
  if is_active o
  then ∃ out s2, run_step scheduler c (marked_running c s) = Ok (out, s2) ∧
         settle_outcome c out s2 = Ok ((), s')
  else s' = s.
Proof.
  unfold run_claimed. intros (row & s1 & [= <- <-] & H1)%tx_bind_Ok Ho. rewrite Ho in H1.
  destruct (is_active o); [|by injection H1].
  apply tx_bind_Ok in H1 as (u & s2 & [= <- <-] & H1). apply tx_bind_Ok in H1 as (out & s3 & Hr & H1).
  apply tx_bind_Ok in H1 as ([] & s4 & Hs & [= <- <-]). by exists out, s3.
Qed.

(** Only the row of [op] may differ, and there as [f] says. *)
Definition only_op (op : string) (f : OperationRow → OperationRow → Prop) (s s' : Store) : Prop :=
  (next_seq s' = next_seq s ∧ now s' = now s) ∧
  (∀ id, id ≠ op → operations s' !! id = operations s !! id) ∧
  ∀ o, operations s !! op = Some o → ∃ o', operations s' !! op = Some o' ∧ f o o'.

Lemma only_op_alter op f s :
  only_op op (λ o o', o' = f o) s (set_operations (alter f op) s).
Proof.
  split; [done|]. split.
  - intros id Hne. cbn. by rewrite lookup_alter_ne.
  - intros o Ho. exists (f o). cbn. by rewrite lookup_alter_eq, Ho.
Qed.

Lemma only_op_trans op f g s1 s2 s3 :
  only_op op f s1 s2 → only_op op g s2 s3 → only_op op (λ o o'', ∃ o', f o o' ∧ g o' o'') s1 s3.
Proof.
  intros ([Hn Ht] & Hi & Ho) ([Hn' Ht'] & Hi' & Ho'). split; [split; congruence|]. split.
  - intros id Hne. rewrite Hi', Hi; done.
  - intros o H1. destruct (Ho o H1) as (o' & H2 & Hf). destruct (Ho' o' H2) as (o'' & H3 & Hg).
    exists o''. eauto.
Qed.

Lemma only_op_retarget op s s' :
  retarget op s s' → only_op op (λ o o', ∃ g, o' = retargeted g o) s s'.
Proof.
  intros [Hn Hr]. split; [done|]. split.
  - intros id Hne. by destruct (Hr id) as [|(? & _)].
  - intros o Ho. destruct (Hr op) as [E|(_ & o1 & g & H1 & H2)].
    + exists o. rewrite E. split; [done|]. exists (op_target_generation o). by destruct o.
    + rewrite Ho in H1. injection H1 as <-. eauto.
Qed.

Lemma only_op_mono op (f g : OperationRow → OperationRow → Prop) s s' :
  only_op op f s s' → (∀ o o', f o o' → g o o') → only_op op g s s'.
Proof.
  intros (Hn & Hi & Ho) Hfg. split; [done|]. split; [done|]. intros o H1.
  destruct (Ho o H1) as (o' & H2 & Hf). eauto.
Qed.

Lemma only_op_alters op f g s s' :
  operations s' = alter g op (alter f op (operations s)) → next_seq s' = next_seq s →
  now s' = now s → only_op op (λ o o', o' = g (f o)) s s'.
Proof.
  intros Ho Hn Ht. split; [done|]. rewrite Ho. split.
  - intros id Hne. by rewrite !lookup_alter_ne.
  - intros o H1. exists (g (f o)). by rewrite !lookup_alter_eq, H1.
Qed.

Lemma fail_only c m s u s' :
  fail c m s = Ok (u, s') →
  only_op (cl_operation_id c) (λ o o', o' = with_op_status "failed" (Some m)
    (with_steps (alter failed_step (cl_seq c) (op_steps o)) o)) s s'.
Proof. intros [= _ <-]. eapply only_op_alters; reflexivity. Qed.

Lemma settle_outcome_only c out s s' :
  settle_outcome c out s = Ok ((), s') →
  only_op (cl_operation_id c) (λ o o',
    same_header o o' ∧ (op_status o = "running" → stepped c (now s) o o' out)) s s'.
Proof.
  destruct out as [|m|m]; cbn [settle_outcome].
  - intros [= <-]. eapply only_op_mono; [eapply only_op_alters; reflexivity|].
    intros o o' ->. cbn. case_match eqn:E; split; try done; intros Hr; constructor; cbn; try done;
      by rewrite E.
  - destruct (cl_past_deadline c) eqn:Ed.
    + intros Hf%fail_only. eapply only_op_mono; [exact Hf|]. intros o o' ->.
      split; [done|]. by constructor.
    + intros (u & s1 & H1 & H2)%tx_bind_Ok.
      assert (Hs1 : operations s1 = operations s ∧ next_seq s1 = next_seq s ∧ now s1 = now s).
      { case_match; by injection H1 as _ <-. }
      destruct Hs1 as (Ho & Hn & Ht). injection H2 as <-.
      eapply only_op_mono; [eapply (only_op_alters _ id); [|exact Hn|exact Ht]; cbn; rewrite Ho; f_equal|].
      { apply map_eq. intros i. destruct (decide (i = cl_operation_id c)) as [->|];
          [rewrite lookup_alter_eq, option_fmap_id|rewrite lookup_alter_ne by done]; done. }
      intros o o' ->. split; [done|]. intros Hr. rewrite Ht. by eapply stepped_retried.
  - intros Hf%fail_only. eapply only_op_mono; [exact Hf|]. intros o o' ->. split; [done|]. by constructor.
Qed.

(** One run of a claimed step whose operation is active. *)
Lemma run_claimed_only scheduler c s b s' o :
  run_claimed scheduler c s = Ok (b, s') → operations s !! cl_operation_id c = Some o →
  is_active o = true →
  ∃ out, only_op (cl_operation_id c) (λ o o', same_header o o' ∧ stepped c (now s) o o' out) s s'.
Proof.
  intros Hr Ho Ha. pose proof (run_claimed_Ok _ _ _ _ _ _ Hr Ho) as Hok. rewrite Ha in Hok.
  destruct Hok as (out & s2 & H1 & H2). exists out.
  apply run_step_retargets, only_op_retarget in H1. apply settle_outcome_only in H2.
  pose proof H1 as [[_ Ht] _]. cbn in Ht. rewrite Ht in H2.
  eapply only_op_mono.
  { eapply only_op_trans; [apply only_op_alter|]. eapply only_op_trans; [exact H1|exact H2]. }
  intros e e' (e1 & -> & e2 & (g & ->) & Hh & Hs). split; [exact Hh|].
  destruct (Hs eq_refl); by econstructor.
Qed.

(** ** A run keeps the table in order *)

Lemma fmap_alter_same {A B} (h : A → B) g i (l : list A) :
  (∀ x, h (g x) = h x) → h <$> alter g i l = h <$> l.
Proof.
  intros Hg. revert i. induction l as [|x l IH]; intros [|i]; cbn; [done..| |]; f_equal; [apply Hg|apply IH].
Qed.

Lemma fmap_alter_const {A B} (h : A → B) g i y (l : list A) :
  (∀ x, h (g x) = y) → h <$> alter g i l = <[i := y]> (h <$> l).
Proof.
  intros Hg. revert i. induction l as [|x l IH]; intros [|i]; cbn; [done..| |]; f_equal; [apply Hg|apply IH].
Qed.

Lemma insert_at_front {A} (a b c : A) k m :
  <[k := c]> (replicate k a ++ replicate (S m) b) = replicate k a ++ c :: replicate m b.
Proof. by rewrite insert_app_r_alt, length_replicate, Nat.sub_diag by (rewrite length_replicate; lia). Qed.

Lemma replicate_snoc {A} (a : A) k l : replicate k a ++ a :: l = replicate (S k) a ++ l.
Proof. rewrite (cons_middle a), app_assoc. f_equal. by rewrite <- replicate_S_end. Qed.

Lemma first_pending_lookup o i st :
  first_pending o = Some (i, st) →
  statuses o !! i = Some "pending" ∧ ∀ j, (j < i)%nat → statuses o !! j ≠ Some "pending".
Proof.
  intros (Hi & Hp & Hmin)%list_find_Some. apply Is_true_true, String.eqb_eq in Hp.
  unfold statuses. split; [by rewrite list_lookup_fmap, Hi; cbn; rewrite Hp|].
  intros j Hj. rewrite list_lookup_fmap. destruct (op_steps o !! j) as [x|] eqn:Ej; [|done]. cbn.
  intros [= Hx]. apply (Hmin j x Ej Hj), Is_true_true. unfold is_pending. by rewrite Hx.
Qed.

Lemma first_pending_index o i st k m :
  first_pending o = Some (i, st) → statuses o = replicate k "done" ++ replicate (S m) "pending" → i = k.
Proof.
  intros [Hi Hmin]%first_pending_lookup Hs. rewrite Hs in *.
  destruct (Nat.lt_trichotomy i k) as [Hlt|[->|Hgt]]; [|done|].
  - rewrite lookup_app_l, lookup_replicate_2 in Hi by (rewrite ?length_replicate; lia). done.
  - exfalso. apply (Hmin k Hgt). rewrite lookup_app_r by (rewrite length_replicate; lia).
    rewrite length_replicate, Nat.sub_diag. done.
Qed.

Lemma existsb_pending_statuses (l : list StepRow) :
  existsb is_pending l = existsb (String.eqb "pending") (st_status <$> l).
Proof.
  induction l as [|x l IH]; [done|]. cbn [existsb fmap list_fmap]. rewrite IH. f_equal.
  apply String.eqb_sym.
Qed.

Lemma replicate_not_pending k : existsb (String.eqb "pending") (replicate k "done") = false.
Proof. by induction k. Qed.

Lemma active_statuses o :
  op_ok o → is_active o = true → ∃ k m, statuses o = replicate k "done" ++ replicate (S m) "pending".
Proof.
  intros [_ (k & m & [[_ Hs]|[[E _]|[E _]]])] Ha; [eauto| |]; unfold is_active in Ha; by rewrite E in Ha.
Qed.

Lemma running_active o : op_status o = "running" → is_active o = true.
Proof. unfold is_active. by intros ->. Qed.

Lemma stepped_ok c t o o' st out :
  op_ok o → is_active o = true → first_pending o = Some (cl_seq c, st) →
  same_header o o' → stepped c t o o' out → op_ok o'.
Proof.
  intros Hok Ha Hp (_ & _ & Hk & _) Hs. destruct (active_statuses o Hok Ha) as (k & m & Hst).
  pose proof (first_pending_index _ _ _ _ _ Hp Hst) as Hi. destruct Hok as [(kind & Hkind & Hnames) _].
  unfold op_ok, statuses in *. rewrite Hk.
  destruct Hs as [Hsteps Hstatus|out' _ Hsteps Hstatus|msg _ Hsteps Hstatus]; rewrite Hsteps in *.
  - rewrite (fmap_alter_same st_name) by done. split; [eauto|].
    rewrite existsb_pending_statuses, (fmap_alter_const st_status _ _ "done"), Hst, Hi,
      insert_at_front, replicate_snoc in * by done.
    destruct m as [|m].
    + rewrite app_nil_r, replicate_not_pending in *. exists (S k), 0%nat. right. left. by split.
    + exists (S k), m. left. split; [|done]. apply running_active. rewrite Hstatus.
      rewrite List.existsb_app, (orb_comm _ (existsb _ (replicate _ "pending"))). done.
  - rewrite (fmap_alter_same st_name) by done. split; [eauto|].
    rewrite (fmap_alter_const st_status _ _ "failed"), Hst, Hi, insert_at_front by done.
    exists k, m. right. right. auto.
  - rewrite (fmap_alter_same st_name) by done. split; [eauto|].
    rewrite (fmap_alter_same st_status) by done. exists k, m. left. split; [by apply running_active|done].
Qed.

(** Where only the row of an active operation changes, and stays its own,
    whatever was first is so still. *)
Lemma only_op_first op s s' o o' e e' :
  only_op op (λ a b, same_header a b) s s' → operations s !! op = Some o → is_active o = true →
  operations s' !! op = Some o' → op_seq e' = op_seq e → op_database_id e' = op_database_id e →
  is_first s e = true → is_first s' e' = true.
Proof.
  intros (_ & Hi & Hh) Ho Ha Ho' Hs Hd Hf. eapply is_first_mono; [done..|]. intros id x Hx Hax. left.
  destruct (decide (id = op)) as [->|Hne].
  - destruct (Hh o Ho) as (o1 & Ho1 & (Es & Ed & _)). rewrite Ho' in Hx, Ho1.
    injection Hx as <-. injection Ho1 as <-. exists o. by rewrite Es, Ed.
  - exists x. by rewrite <- Hi.
Qed.

Lemma run_kept scheduler c s b s' :
  ops_ok s → claim_ok s c → run_claimed scheduler c s = Ok (b, s') →
  ops_ok s' ∧ ∀ c', claim_key c' ≠ claim_key c → claim_ok s c' → claim_ok s' c'.
Proof.
  intros (H1 & H2 & H3) (o & Ho & Hd & Hk & Hact) Hr.
  destruct (is_active o) eqn:Ha.
  2: { pose proof (run_claimed_Ok _ _ _ _ _ _ Hr Ho) as Hok. rewrite Ha in Hok. by subst s'. }
  destruct (Hact eq_refl) as (Hfirst & _ & _ & st & Hp & _ & _).
  destruct (run_claimed_only _ _ _ _ _ _ Hr Ho Ha) as (out & Honly).
  pose proof Honly as ([Hn _] & Hi & Hrow). destruct (Hrow o Ho) as (o' & Ho' & Hh & Hst).
  assert (Hhead : only_op (cl_operation_id c) same_header s s').
  { eapply only_op_mono; [exact Honly|]. by intros ?? [? _]. }
  pose proof Hh as (Es & Ed & Ek & Ep).
  split; [split; [|split]|].
  - intros id e He. rewrite Hn. destruct (decide (id = cl_operation_id c)) as [->|Hne].
    + rewrite Ho' in He. injection He as <-. destruct (H1 _ _ Ho) as [Hok Hlt]. rewrite Es.
      split; [by eapply stepped_ok|done].
    + rewrite Hi in He by done. eauto.
  - assert (Hback : ∀ id e, operations s' !! id = Some e →
        ∃ e0, operations s !! id = Some e0 ∧ op_seq e0 = op_seq e).
    { intros id e He. destruct (decide (id = cl_operation_id c)) as [->|Hne].
      - rewrite Ho' in He. injection He as <-. eauto.
      - rewrite Hi in He by done. eauto. }
    intros id1 e1 id2 e2 (f1 & Hf1 & <-)%Hback (f2 & Hf2 & <-)%Hback. by apply H2.
  - intros id e He Hrun. destruct (decide (id = cl_operation_id c)) as [->|Hne].
    + rewrite Ho' in He. injection He as <-. by eapply only_op_first.
    + rewrite Hi in He by done. eapply only_op_first; eauto.
  - intros c' Hkey (e & He & Hd' & Hk' & Hact'). destruct (decide (cl_operation_id c' = cl_operation_id c)) as [E|Hne].
    + rewrite E, Ho in He. injection He as <-. destruct (Hact' Ha) as (_ & _ & _ & st' & Hp' & _).
      rewrite Hp in Hp'. injection Hp' as Hseq _. destruct Hkey. unfold claim_key. congruence.
    + exists e. rewrite Hi by done. split; [done|]. split; [done|]. split; [done|].
      intros Hae. destruct (Hact' Hae) as (Hf & Hrest). split; [|done]. eapply only_op_first; eauto.
Qed.

(** ** The system *)

Definition sys_ok (y : System) : Prop :=
  ops_ok (store y) ∧ NoDup (claim_key <$> held y) ∧ ∀ c, c ∈ held y → claim_ok (store y) c.

Lemma claims_ok s t c : (t, c) ∈ claims s → claim_ok s c.
Proof.
  unfold claims. intros ([id o] & Hin%elem_of_map_to_list & Hc)%list_elem_of_omap.
  unfold claim_of in Hc. destruct (first_pending o) as [[i st]|] eqn:Hp; cbn in Hc; [|done].
  case_match eqn:E; [|done]. injection Hc as _ <-.
  apply andb_true_iff in E as [[_ _]%andb_true_iff Hf]. exists o. cbn. repeat split; try done. by exists st.
Qed.

Lemma held_drop (P : Claimed → Prop) l1 c l2 :
  (∀ x, x ∈ l1 ++ c :: l2 → P x) → ∀ x, x ∈ l1 ++ l2 → P x.
Proof. intros Hall x Hx. apply Hall. set_solver. Qed.

Lemma nodup_drop (l1 : list Claimed) c l2 :
  NoDup (claim_key <$> l1 ++ c :: l2) →
  NoDup (claim_key <$> l1 ++ l2) ∧ ∀ x, x ∈ l1 ++ l2 → claim_key x ≠ claim_key c.
Proof.
  rewrite !fmap_app, fmap_cons. intros Hn. rewrite <- Permutation_middle in Hn.
  apply NoDup_cons in Hn as [Hc Hn]. split; [done|]. intros x Hx E. apply Hc. rewrite <- fmap_app, <- E.
  by apply list_elem_of_fmap_2.
Qed.

Lemma sys_step_ok scheduler parse_net token_hash sign fingerprint y y' :
  sys_ok y → admin_step scheduler parse_net token_hash sign fingerprint y y' → sys_ok y'.
Proof.
  unfold sys_ok. intros (Hops & Hnd & Hc) Hy.
  destruct Hy as [s l c t Hin Hkey|s l1 l2 c b s' Hr|s l1 l2 c|s l r|s l t Ht]; cbn [store held] in *.
  - split; [done|]. split; [by constructor|]. intros c' [->|Hc']%elem_of_cons; [by eapply claims_ok|auto].
  - destruct (nodup_drop _ _ _ Hnd) as [Hnd' Hne].
    destruct (run_kept _ _ _ _ _ Hops (Hc c ltac:(set_solver)) Hr) as [Hops' Hc'].
    split; [done|]. split; [done|]. intros c' Hin. apply Hc'; [by apply Hne|]. apply Hc. set_solver.
  - split; [done|]. split; [by apply nodup_drop in Hnd as [? _]|]. by eapply held_drop.
  - destruct (keeps_commit ops_kept (serve_request scheduler parse_net token_hash sign fingerprint r) s
      (handle_kept _ _ _ _ _ r) Hops) as [Hops' Hc']. split; [done|]. split; [done|]. auto.
  - destruct (ops_kept_frame s (at_time t s) eq_refl eq_refl Hops) as [Hops' Hc'].
    split; [done|]. split; [done|]. auto.
Qed.

Lemma sys_reachable_ok scheduler parse_net token_hash sign fingerprint y :
  sys_reachable scheduler parse_net token_hash sign fingerprint y → sys_ok y.
Proof.
  induction 1 as [s (_ & _ & Ho & _)|y y' _ IH Hs]; [|by eapply sys_step_ok].
  split; [|by split; [constructor|intros c ?%elem_of_nil]].
  cbn. unfold ops_ok. rewrite Ho. split_and!; intros; by simplify_map_eq.
Qed.
End operations.

(** ** The order of steps *)

Section order.
Context `{!F64, !Pki} (scheduler : SchedulerConfig) (parse_net : string → bool).
Context (token_hash : string → string) (sign_host_csr : string → string → option string).
Context (fingerprint : string).

Abbreviation is_reachable := (sys_reachable scheduler parse_net token_hash sign_host_csr fingerprint).

(** C12 A claimed step whose operation has not been ended meanwhile is the next
    step of its kind: those before it are done and those after it have not
    begun. Its operation is the earliest of the database that has not ended,
    and the only one that has begun. *)
Theorem steps_run_in_order y c o :
  is_reachable y → c ∈ held y →
  operations (store y) !! cl_operation_id c = Some o → is_active o = true →
  (∃ k, op_kind o = kind_str k ∧ kind_steps k !! cl_seq c = Some (cl_name c)) ∧
  (∀ j x, statuses o !! j = Some x → x = if bool_decide (j < cl_seq c)%nat then "done" else "pending") ∧
  op_database_id o = cl_database_id c ∧ op_target_generation o = cl_target_generation c ∧
  ∀ id e, operations (store y) !! id = Some e → op_database_id e = cl_database_id c →
    is_active e = true → id = cl_operation_id c ∨ op_seq o < op_seq e ∧ op_status e = "pending".
Proof.
  intros Hy Hc Ho Ha. apply sys_reachable_ok in Hy as ((H1 & H2 & H3) & _ & Hall).
  destruct (Hall c Hc) as (o1 & Ho1 & Hd & _ & Hact). rewrite Ho in Ho1. injection Ho1 as <-.
  destruct (Hact Ha) as (Hf & Ht & _ & st & Hp & Hname & _). destruct (H1 _ _ Ho) as [Hok _].
  destruct (active_statuses o Hok Ha) as (k & m & Hst).
  pose proof (first_pending_index _ _ _ _ _ Hp Hst) as Hi. split_and!; [| |done|done|].
  - destruct Hok as [(kind & Hk & Hn) _]. exists kind. split; [done|]. rewrite <- Hn, list_lookup_fmap.
    apply list_find_Some in Hp as (-> & _). by rewrite <- Hname.
  - intros j x. rewrite Hst, Hi. case_bool_decide as Hj.
    + rewrite lookup_app_l by (by rewrite length_replicate). intros Hx.
      by apply lookup_replicate_1 in Hx as [? _].
    + rewrite lookup_app_r, length_replicate by (rewrite length_replicate; lia). intros Hx.
      by apply lookup_replicate_1 in Hx as [? _].
  - intros id e He Hde Hae. destruct (decide (id = cl_operation_id c)) as [|Hne]; [by left|right].
    assert (op_seq o ≠ op_seq e) by (intros E; apply Hne; by eapply H2).
    pose proof (proj1 (is_first_spec _ _) Hf id e He) as Hle. rewrite Hde, Hd in Hle.
    specialize (Hle eq_refl Hae). split; [lia|].
    unfold is_active in Hae. apply orb_true_iff in Hae as [Hae%String.eqb_eq|Hae%String.eqb_eq]; [done|].
    pose proof (H3 id e He Hae) as Hfe. rewrite is_first_spec in Hfe.
    specialize (Hfe _ _ Ho). rewrite Hde, Hd in Hfe. specialize (Hfe eq_refl Ha). lia.
Qed.
End order.

(** ** The end of an operation *)

Section ending.
Context `{!F64, !Pki}.

(** The steps an operation has still to do; none once it has ended. *)
Definition row_left (o : OperationRow) : nat :=
  if is_active o then length (List.filter is_pending (op_steps o)) else 0.

Definition remaining (s : Store) (op : string) : nat := from_option row_left 0%nat (operations s !! op).

(** No step is put off for longer than the retry. *)
Definition soon_ok (s : Store) : Prop :=
  ∀ id o st, operations s !! id = Some o → st ∈ op_steps o → st_not_before st ≤ now s + WAIT_RETRY.

(** Recorded operations do not grow, and new steps can run at once. *)
Definition wanes (s s' : Store) : Prop :=
  now s' = now s ∧ (soon_ok s → soon_ok s') ∧
  ∀ op o, operations s !! op = Some o →
    is_Some (operations s' !! op) ∧ (remaining s' op ≤ remaining s op)%nat.

#[global] Instance wanes_preorder : PreOrder wanes.
Proof.
  split; [by intros s; repeat split; eauto|]. intros s1 s2 s3 (Hn & Hs & Hw) (Hn' & Hs' & Hw').
  split; [congruence|]. split; [auto|]. intros op o Ho. destruct (Hw op o Ho) as ([o' Ho'] & ?).
  destruct (Hw' op o' Ho'). split; [done|lia].
Qed.

Lemma wanes_frame s s' : operations s' = operations s → now s' = now s → wanes s s'.
Proof.
  intros Ho Hn. split; [done|]. unfold soon_ok, remaining. rewrite Ho, Hn. eauto.
Qed.

Lemma create_with_wanes d k g p : keeps wanes (create_with d k g p).
Proof.
  intros s a s' [E ->]%create_with_Ok. split; [done|]. split.
  - intros Hs id o st Hl. cbn in Hl. apply lookup_insert_Some in Hl as [[<- <-]|[_ Hl]]; [|by eapply Hs].
    cbn. intros (x & -> & _)%list_elem_of_fmap. cbn. unfold WAIT_RETRY. lia.
  - intros op o Ho. unfold remaining. cbn. rewrite lookup_insert_ne by congruence. eauto.
Qed.

Lemma failed_inactive e o : is_active (with_op_status "failed" e o) = false.
Proof. done. Qed.

Lemma supersede_wanes id : keeps wanes (modify (set_operations (fmap (supersede id)))).
Proof.
  apply keeps_modify. intros s. split; [done|]. split.
  - intros Hs i o st Hl. cbn in Hl. rewrite lookup_fmap in Hl. apply fmap_Some in Hl as (e & He & ->).
    intros Hst. apply (Hs i e); [done|]. revert Hst. unfold supersede. by case_match.
  - intros op o Ho. unfold remaining. cbn. rewrite lookup_fmap, Ho. cbn. split; [eauto|].
    unfold supersede. destruct (_ && is_active o); [|lia]. unfold row_left at 1.
    rewrite failed_inactive. lia.
Qed.

Ltac wanes_leaf :=
  idtac; lazymatch goal with
  | |- keeps _ (modify (set_operations _)) => apply supersede_wanes
  | |- keeps _ (create_with _ _ _ _) => apply create_with_wanes
  | |- keeps _ (check_placement _ _) => apply check_placement_keeps; exact _
  | |- keeps _ (modify _) => apply keeps_modify; intros ?; apply wanes_frame; reflexivity
  end.

Lemma handle_wanes scheduler parse_net token_hash sign fingerprint r :
  keeps wanes (serve_request scheduler parse_net token_hash sign fingerprint r).
Proof. destruct r; keeps_auto wanes_leaf. Qed.

Lemma pending_count (l : list StepRow) k m :
  st_status <$> l = replicate k "done" ++ replicate m "pending" → length (List.filter is_pending l) = m.
Proof.
  intros Hs. assert (Hlen : ∀ l : list StepRow,
      length (List.filter is_pending l) = length (List.filter (String.eqb "pending") (st_status <$> l))).
  { intros l'. induction l' as [|x l' IH]; [done|]. cbn [List.filter fmap list_fmap].
    unfold is_pending at 1. rewrite String.eqb_sym.
    destruct (String.eqb "pending" (st_status x)); cbn [length]; by rewrite IH. }
  rewrite Hlen, Hs, List.filter_app, length_app. clear.
  assert (List.filter (String.eqb "pending") (replicate k "done") = []) as ->.
  { induction k as [|k IH]; [done|exact IH]. }
  induction m as [|m IH]; [done|]. cbn in *. by rewrite IH.
Qed.

Lemma stepped_left c t o o' out k m :
  statuses o = replicate k "done" ++ replicate (S m) "pending" → cl_seq c = k → stepped c t o o' out →
  (row_left o' ≤ if cl_past_deadline c then m else S m)%nat.
Proof.
  intros Hst Hi Hs. unfold row_left, statuses in *.
  destruct Hs as [Hsteps Hstatus|out' _ Hsteps Hstatus|msg Hlate Hsteps Hstatus].
  - rewrite (pending_count (op_steps o') (S k) m); [repeat case_match; lia|].
    by rewrite Hsteps, (fmap_alter_const st_status _ _ "done"), Hst, Hi, insert_at_front, replicate_snoc.
  - unfold is_active. rewrite Hstatus. cbn. lia.
  - rewrite (pending_count (op_steps o') k (S m)); [rewrite Hlate; case_match; lia|].
    by rewrite Hsteps, (fmap_alter_same st_status).
Qed.

Lemma elem_of_alter {A} (f : A → A) i (l : list A) y :
  y ∈ alter f i l → y ∈ l ∨ ∃ x, x ∈ l ∧ y = f x.
Proof.
  revert i. induction l as [|x l IH]; intros [|i] Hy; cbn in Hy; [by left..| |].
  - apply elem_of_cons in Hy as [->|Hy]; [right; exists x|left]; set_solver.
  - apply elem_of_cons in Hy as [->|Hy]; [left; set_solver|].
    destruct (IH i Hy) as [|(z & ? & ->)]; [left; set_solver|right; exists z; set_solver].
Qed.

Lemma stepped_soon c t o o' out st :
  stepped c t o o' out → (∀ x, x ∈ op_steps o → st_not_before x ≤ t + WAIT_RETRY) →
  st ∈ op_steps o' → st_not_before st ≤ t + WAIT_RETRY.
Proof.
  intros Hs Hall Hst.
  destruct Hs as [Hsteps _|out' _ Hsteps _|msg _ Hsteps _]; rewrite Hsteps in Hst;
    apply elem_of_alter in Hst as [Hst|(x & Hx & ->)]; cbn; [auto|by apply Hall|auto|by apply Hall|auto|lia].
Qed.

(** A run that commits leaves no more to do, and past the deadline less. *)
Lemma run_wanes scheduler c s b s' o :
  ops_ok s → claim_ok s c → run_claimed scheduler c s = Ok (b, s') →
  operations s !! cl_operation_id c = Some o → is_active o = true →
  wanes s s' ∧
  (cl_past_deadline c = true → remaining s' (cl_operation_id c) < remaining s (cl_operation_id c))%nat.
Proof.
  intros (H1 & _) (o1 & Ho1 & _ & _ & Hact) Hr Ho Ha. rewrite Ho in Ho1. injection Ho1 as <-.
  destruct (Hact Ha) as (_ & _ & _ & st & Hp & _). destruct (H1 _ _ Ho) as [Hok _].
  destruct (active_statuses o Hok Ha) as (k & m & Hst).
  pose proof (first_pending_index _ _ _ _ _ Hp Hst) as Hi.
  destruct (run_claimed_only _ _ _ _ _ _ Hr Ho Ha) as (out & [_ Ht] & Hother & Hrow).
  destruct (Hrow o Ho) as (o' & Ho' & _ & Hs).
  pose proof (stepped_left _ _ _ _ _ _ _ Hst Hi Hs) as Hleft.
  assert (Hbefore : row_left o = S m) by (unfold row_left; rewrite Ha; by apply (pending_count _ k)).
  unfold remaining. rewrite Ho, Ho'. cbn. split; [|intros Hl; rewrite Hl in Hleft; lia].
  split; [done|]. split.
  - intros Hsoon id e x He Hx. rewrite Ht. destruct (decide (id = cl_operation_id c)) as [->|Hne].
    + rewrite Ho' in He. injection He as <-. eapply stepped_soon; [exact Hs| |exact Hx].
      intros y Hy. by eapply Hsoon.
    + rewrite Hother in He by done. by eapply Hsoon.
  - intros op e He. unfold remaining. destruct (decide (op = cl_operation_id c)) as [->|Hne].
    + rewrite Ho, Ho'. cbn. split; [eauto|]. case_match; lia.
    + rewrite Hother by done. rewrite He. split; [eauto|]. lia.
Qed.
End ending.

Section ends.
Context `{!F64, !Pki} (scheduler : SchedulerConfig) (parse_net : string → bool).
Context (token_hash : string → string) (sign_host_csr : string → string → option string).
Context (fingerprint : string).

Abbreviation is_reachable := (sys_reachable scheduler parse_net token_hash sign_host_csr fingerprint).
Abbreviation event_step := (admin_step scheduler parse_net token_hash sign_host_csr fingerprint).

(** Events, with the number of runs of [op] that began past its deadline and
    committed while it was active. *)
Inductive late_runs (op : string) : System → System → nat → Prop :=
| late_none y : late_runs op y y 0
| late_other y y' y'' n : event_step y y' → late_runs op y' y'' n → late_runs op y y'' n
| late_run s l1 l2 c o b s' y'' n :
    cl_operation_id c = op → cl_past_deadline c = true →
    operations s !! op = Some o → is_active o = true →
    run_claimed scheduler c s = Ok (b, s') →
    late_runs op (mkSystem s' (l1 ++ l2)) y'' n →
    late_runs op (mkSystem s (l1 ++ c :: l2)) y'' (S n).

Lemma event_wanes y y' :
  sys_ok y → event_step y y' →
  (soon_ok (store y) → soon_ok (store y')) ∧
  ∀ op o, operations (store y) !! op = Some o →
    is_Some (operations (store y') !! op) ∧ (remaining (store y') op ≤ remaining (store y) op)%nat.
Proof.
  intros (Hops & _ & Hc) Hy.
  destruct Hy as [s l c t Hin Hkey|s l1 l2 c b s' Hr|s l1 l2 c|s l r|s l t Ht]; cbn [store held] in *.
  - split; [done|]. eauto.
  - pose proof (Hc c ltac:(set_solver)) as Hcl. pose proof Hcl as (o & Ho & _).
    destruct (is_active o) eqn:Ha.
    + destruct (run_wanes _ _ _ _ _ _ Hops Hcl Hr Ho Ha) as [(_ & ? & ?) _]. done.
    + pose proof (run_claimed_Ok _ _ _ _ _ _ Hr Ho) as Hok. rewrite Ha in Hok. subst s'. eauto.
  - split; [done|]. eauto.
  - by destruct (keeps_commit wanes _ s (handle_wanes scheduler parse_net token_hash sign_host_csr fingerprint r))
      as (_ & ? & ?).
  - split; [|eauto]. intros Hs id e x He Hx. specialize (Hs id e x He Hx). cbn. lia.
Qed.

Lemma reachable_soon y : is_reachable y → soon_ok (store y).
Proof.
  induction 1 as [s (_ & _ & Ho & _)|y y' Hr IH Hs].
  - intros id o st Hl. cbn in Hl. by rewrite Ho, lookup_empty in Hl.
  - apply sys_reachable_ok in Hr. by apply (event_wanes y y').
Qed.

(** An operation that is the first of its database can be claimed a second
    later, whatever time that is. *)
Lemma claimable s op o t :
  ops_ok s → soon_ok s → operations s !! op = Some o → is_active o = true → is_first s o = true →
  now s + WAIT_RETRY ≤ t →
  ∃ t' c, (t', c) ∈ claims (at_time t s) ∧ cl_operation_id c = op ∧
    cl_past_deadline c = (op_deadline o <? t).
Proof.
  intros (H1 & _) Hsoon Ho Ha Hf Ht. destruct (H1 _ _ Ho) as [Hok _].
  destruct (active_statuses o Hok Ha) as (k & m & Hst).
  assert (Hk : statuses o !! k = Some "pending").
  { rewrite Hst, lookup_app_r, length_replicate, Nat.sub_diag by (rewrite length_replicate; lia). done. }
  unfold statuses in Hk. rewrite list_lookup_fmap in Hk. apply fmap_Some in Hk as (x & Hx & Hpx).
  destruct (list_find_elem_of is_pending (op_steps o) x) as [[i st] Hp].
  { by eapply list_elem_of_lookup_2. }
  { unfold is_pending. by rewrite <- Hpx. }
  pose proof Hp as (Hi & _)%list_find_Some.
  specialize (Hsoon op o st Ho (list_elem_of_lookup_2 _ _ _ Hi)).
  eexists _, _. split; [|split].
  - apply list_elem_of_omap. exists (op, o). split; [by apply elem_of_map_to_list|].
    unfold claim_of, first_pending. rewrite Hp. cbn.
    rewrite (proj2 (Z.leb_le _ _)), Ha, (is_first_same s), Hf by (done || lia). reflexivity.
  - done.
  - done.
Qed.

Lemma late_runs_bound op y y' n o :
  is_reachable y → operations (store y) !! op = Some o → late_runs op y y' n →
  is_reachable y' ∧ (n + remaining (store y') op ≤ remaining (store y) op)%nat.
Proof.
  intros Hy Ho Hl. revert o Hy Ho.
  induction Hl as [y|y y1 y2 n Hs Hl IH|s l1 l2 c e b s' y2 n Hop Hlate He Ha Hr Hl IH]; intros o Hy Ho.
  - split; [done|lia].
  - pose proof (sys_reachable_ok _ _ _ _ _ _ Hy) as Hok. destruct (event_wanes y y1 Hok Hs) as [_ Hw].
    destruct (Hw op o Ho) as [[o1 Ho1] Hle]. destruct (IH o1) as [? ?]; [by eapply reach_step|done|].
    split; [done|lia].
  - pose proof (sys_reachable_ok _ _ _ _ _ _ Hy) as (Hops & _ & Hc). cbn [store held] in *.
    pose proof (Hc c ltac:(set_solver)) as Hcl. subst op.
    destruct (run_wanes _ _ _ _ _ _ Hops Hcl Hr He Ha) as [(_ & _ & Hw) Hlt].
    destruct (Hw _ _ He) as [[o1 Ho1] _]. specialize (Hlt Hlate).
    destruct (IH o1) as [? ?]; [|done|split; [done|cbn in *; lia]].
    eapply reach_step; [exact Hy|]. by eapply SRun.
Qed.

(** C31 Past its deadline an operation commits at most one run for each of its
    steps, and ends no later than the last. Until then, once it is the first
    of its database, it is never more than a second from being claimed. *)
Theorem operation_ends y op o y' n :
  is_reachable y → operations (store y) !! op = Some o → late_runs op y y' n →
  (n + remaining (store y') op ≤ length (op_steps o))%nat ∧
  ∀ o' t, operations (store y') !! op = Some o' → is_active o' = true →
    is_first (store y') o' = true → now (store y') + WAIT_RETRY ≤ t →
    ∃ t' c, (t', c) ∈ claims (at_time t (store y')) ∧ cl_operation_id c = op ∧
      cl_past_deadline c = (op_deadline o' <? t).
Proof.
  intros Hy Ho Hl. destruct (late_runs_bound _ _ _ _ _ Hy Ho Hl) as [Hy' Hb]. split.
  - etrans; [exact Hb|]. unfold remaining. rewrite Ho. cbn. unfold row_left. case_match; [|lia].
    apply List.filter_length_le.
  - intros o' t Ho' Ha Hf Ht. pose proof (sys_reachable_ok _ _ _ _ _ _ Hy') as (Hops & _).
    eapply claimable; try done. by apply reachable_soon.
Qed.
End ends.

(** ** A step that can never run *)

Section stuck.
Context `{!F64, !Pki} (scheduler : SchedulerConfig).

(** The claim is the one that has waited longest. *)
Lemma claim_least s t0 c :
  (t0, c) ∈ claims s → (∀ t c', (t, c') ∈ claims s → c' = c ∨ t0 < t) → claim s = Some c.
Proof.
  intros Hin Hmin. unfold claim. set (le := λ a b : Z * Claimed, a.1 <=? b.1).
  destruct (sort_by le (claims s)) as [|[t c'] l] eqn:E.
  - apply (elem_of_sort_by le) in Hin. rewrite E in Hin. by apply elem_of_nil in Hin.
  - cbn. f_equal.
    assert (Hin' : (t, c') ∈ claims s) by (apply (elem_of_sort_by le); rewrite E; constructor).
    assert (Hle : le (t, c') (t0, c) = true).
    { eapply sort_by_head; [|..|exact E|exact Hin]; unfold le; intros; rewrite ?Z.leb_le, ?Z.leb_gt in *; lia. }
    unfold le in Hle. cbn in Hle. destruct (Hmin t c' Hin') as [->|]; [done|]. lia.
Qed.

(** Deleting a replica that was never placed asks its source's leader to forget
    it, with the address of a node that is not there, and rolls back. The step
    stays due since [t0]; while every other pending step came later, each pass
    claims it, fails and runs nothing. *)
Theorem unplaced_replica_stops_all s op o d source t :
  operations s !! op = Some o → is_active o = true → is_first s o = true →
  first_pending o = Some (0%nat, mkStep "remove_replica" "pending" 0 (now s)) →
  databases s !! op_database_id o = Some d → replica_of (da_spec d) = Some source →
  nodes_of s (op_database_id o) = [] →
  (∀ id e st, operations s !! id = Some e → id ≠ op → st ∈ op_steps e → is_pending st = true →
     now s < st_not_before st) →
  now s ≤ t →
  step_once scheduler (at_time t s) = Err RowNotFound ∧
  commit (step_once scheduler) (at_time t s) = at_time t s.
Proof.
  intros Ho Ha Hf Hp Hd Hsrc Hn Hlater Ht.
  set (c := mkClaimed op 0 "remove_replica" 0 (op_database_id o) (op_kind o) (op_target_generation o)
              (op_deadline o <? t) (op_params o)).
  assert (Hc : claim (at_time t s) = Some c).
  { apply (claim_least _ (now s)).
    - apply list_elem_of_omap. exists (op, o). split; [by apply elem_of_map_to_list|].
      unfold claim_of. rewrite Hp. cbn.
      by rewrite (proj2 (Z.leb_le _ _)), Ha, (is_first_same s), Hf by done.
    - intros t' c' ([id e] & He%elem_of_map_to_list & Hc')%list_elem_of_omap. cbn in He.
      unfold claim_of in Hc'. destruct (first_pending e) as [[i st]|] eqn:Hpe; cbn in Hc'; [|done].
      case_match; [|done]. injection Hc' as <- <-. destruct (decide (id = op)) as [->|Hne].
      + left. rewrite Ho in He. injection He as <-. rewrite Hp in Hpe. by injection Hpe as <- <-.
      + right. apply list_find_Some in Hpe as (Hi & Hpst & _). eapply Hlater; [exact He|done| |].
        * by eapply list_elem_of_lookup_2.
        * by apply Is_true_true. }
  assert (Herr : step_once scheduler (at_time t s) = Err RowNotFound).
  { unfold step_once, mbind, tx_bind, gets. rewrite Hc. unfold run_claimed, mbind, tx_bind, gets.
    cbn [operations at_time cl_operation_id c]. rewrite Ho, Ha.
    unfold update_operation, modify, run_step. cbn [List.find step_table fst String.eqb cl_name c].
    cbn. unfold remove_replica, replica_source, database, mbind, tx_bind, gets. cbn. rewrite Hd. cbn.
    rewrite Hsrc. unfold replica_task, replica_source, database, mbind, tx_bind, gets. cbn. rewrite Hd. cbn.
    rewrite Hsrc. cbn. unfold nodes_of in *. cbn. by rewrite Hn. }
  split; [exact Herr|]. unfold commit. by rewrite Herr.
Qed.
End stuck.

(** ** Playing events *)

Section play.
Context `{!F64, !Pki} (scheduler : SchedulerConfig) (parse_net : string → bool).
Context (token_hash : string → string) (sign_host_csr : string → string → option string).
Context (fingerprint : string).

(** One reconciler that runs each step it claims at once. *)
Inductive move :=
| PRun
| PServe (r : admin_request)
| PTick (seconds : nat).

Definition play (m : move) (s : Store) : Store :=
  match m with
  | PRun => match claims s with (_, c) :: _ => commit (run_claimed scheduler c) s | [] => s end
  | PServe r => commit (serve_request scheduler parse_net token_hash sign_host_csr fingerprint r) s
  | PTick n => at_time (now s + Z.of_nat n) s
  end.

Definition play_all (l : list move) (s : Store) : Store := foldl (λ s m, play m s) s l.

Lemma play_reachable m s :
  sys_reachable scheduler parse_net token_hash sign_host_csr fingerprint (mkSystem s []) →
  sys_reachable scheduler parse_net token_hash sign_host_csr fingerprint (mkSystem (play m s) []).
Proof.
  intros Hs. destruct m as [|r|n]; cbn.
  - destruct (claims s) as [|[t c] l] eqn:E; [done|].
    assert (Hc : sys_reachable scheduler parse_net token_hash sign_host_csr fingerprint (mkSystem s [c])).
    { eapply reach_step; [exact Hs|]. eapply (SClaim _ _ _ _ _ s [] c t); [rewrite E; constructor|].
      apply not_elem_of_nil. }
    unfold commit. destruct (run_claimed scheduler c s) as [[b s']|e] eqn:Er.
    + eapply reach_step; [exact Hc|]. by apply (SRun _ _ _ _ _ s [] [] c b s').
    + exact Hs.
  - eapply reach_step; [exact Hs|]. apply SServe.
  - eapply reach_step; [exact Hs|]. apply STick. lia.
Qed.

Lemma play_all_reachable l s :
  sys_reachable scheduler parse_net token_hash sign_host_csr fingerprint (mkSystem s []) →
  sys_reachable scheduler parse_net token_hash sign_host_csr fingerprint (mkSystem (play_all l s) []).
Proof. revert s. induction l as [|m l IH]; intros s Hs; [done|]. by apply IH, play_reachable. Qed.
End play.

(** ** Checks *)

#[local] Existing Instance milli.

Definition check_repository_row : RepositoryRow :=
  mkRepository "repo" "posix" (mkRepositoryConfig (Some "/backups") None None None None false) None
    "verified" None None.

Definition check_host_row (seen : Z) : HostRow :=
  mkHost "alpha" None (Some "10.0.0.1") (Some (mkResources (8000 : f64) (32000 : f64) (500000 : f64)))
    1 0 true (Some seen) None None false None None ∅.

(** A service with a repository and a host, which has not reported lately. *)
Definition check_admin : Store :=
  mkStore 1000 0 1 {[ "h1" := check_host_row 0 ]} ∅ ∅ ∅ ∅ {[ "r1" := check_repository_row ]} ∅ ∅ [] [].

Definition check_create : CreateDatabase :=
  mkCreate "orders" None "18" false [] (mkResources (1000 : f64) (2000 : f64) (10000 : f64)) None
    (mkOwner "app" "SCRAM-SHA-256$4096:c2FsdA==$c3RvcmVk:c2VydmVy") [] [] (mkBackup "r1" 7).

Definition check_scheduler : SchedulerConfig :=
  mkScheduler (1000 : f64) (200 : f64) (100 : f64) 20000 20100.

Abbreviation check_reachable := (sys_reachable check_scheduler (λ _, true) id (λ _ _, None) "ca").

(** The database is asked for, and a reconciler has claimed its first step. *)
Definition check_created : Store :=
  commit (serve_request check_scheduler (λ _, true) id (λ _ _, None) "ca" (RCreate check_create)) check_admin.

Definition check_claim : Claimed :=
  match claims check_created with
  | (_, c) :: _ => c
  | [] => mkClaimed "none" 0 "none" 0 "none" "none" 0 false JNull
  end.

Lemma check_created_reachable : check_reachable (mkSystem check_created []).
Proof. eapply reach_step; [apply (reach_init _ _ _ _ _ check_admin); done|]. apply SServe. Qed.

Lemma first_claim {A} (l : list (Z * A)) d :
  match l with [] => false | _ => true end = true →
  ∃ t, (t, match l with (_, c) :: _ => c | [] => d end) ∈ l.
Proof. destruct l as [|[t c] l]; [done|]. exists t. constructor. Qed.

Lemma check_claimed_reachable : check_reachable (mkSystem check_created [check_claim]).
Proof.
  destruct (first_claim (claims check_created) (mkClaimed "none" 0 "none" 0 "none" "none" 0 false JNull))
    as [t Ht]; [by vm_compute|].
  eapply reach_step; [apply check_created_reachable|]. eapply SClaim; [exact Ht|].
  apply not_elem_of_nil.
Qed.

Definition check_op : OperationRow :=
  default (mkOperation 0 "none" "none" "none" 0 0 None JNull [])
    (operations check_created !! cl_operation_id check_claim).

Lemma some_default {A} (o : option A) d : bool_decide (is_Some o) = true → o = Some (default d o).
Proof. by destruct o. Qed.

Lemma steps_run_in_order_witness :
  (∃ k, op_kind check_op = kind_str k ∧ kind_steps k !! cl_seq check_claim = Some (cl_name check_claim)) ∧
  (∀ j x, statuses check_op !! j = Some x →
     x = if bool_decide (j < cl_seq check_claim)%nat then "done" else "pending") ∧
  op_database_id check_op = cl_database_id check_claim ∧
  op_target_generation check_op = cl_target_generation check_claim ∧
  ∀ id e, operations check_created !! id = Some e → op_database_id e = cl_database_id check_claim →
    is_active e = true → id = cl_operation_id check_claim ∨ op_seq check_op < op_seq e ∧ op_status e = "pending".
Proof.
  apply (steps_run_in_order check_scheduler (λ _, true) id (λ _ _, None) "ca"
    (mkSystem check_created [check_claim]) check_claim check_op).
  - apply check_claimed_reachable.
  - constructor.
  - apply some_default. by vm_compute.
  - by vm_compute.
Defined.

(** Past the deadline, the step is claimed, still finds no host, and fails. *)
Definition check_late : Store := at_time 50000 check_created.

Definition check_late_claim : Claimed :=
  match claims check_late with
  | (_, c) :: _ => c
  | [] => mkClaimed "none" 0 "none" 0 "none" "none" 0 false JNull
  end.

Definition check_failed : Store := commit (run_claimed check_scheduler check_late_claim) check_late.

Lemma commit_Ok {A} (p : tx A) s : is_ok (p s) = true → ∃ a, p s = Ok (a, commit p s).
Proof. unfold commit. destruct (p s) as [[a s']|e]; [|done]. by exists a. Qed.

Lemma operation_ends_witness :
  (1 + remaining check_failed (cl_operation_id check_late_claim) ≤ length (op_steps check_op))%nat ∧
  ∀ o' t, operations check_failed !! cl_operation_id check_late_claim = Some o' → is_active o' = true →
    is_first check_failed o' = true → now check_failed + WAIT_RETRY ≤ t →
    ∃ t' c, (t', c) ∈ claims (at_time t check_failed) ∧
      cl_operation_id c = cl_operation_id check_late_claim ∧ cl_past_deadline c = (op_deadline o' <? t).
Proof.
  destruct (first_claim (claims check_late) (mkClaimed "none" 0 "none" 0 "none" "none" 0 false JNull))
    as [t Ht]; [by vm_compute|].
  destruct (commit_Ok (run_claimed check_scheduler check_late_claim) check_late) as [b Hb]; [by vm_compute|].
  assert (Hop : cl_operation_id check_late_claim = cl_operation_id check_claim) by by vm_compute.
  apply (operation_ends check_scheduler (λ _, true) id (λ _ _, None) "ca" (mkSystem check_created [])
    (cl_operation_id check_late_claim) check_op (mkSystem check_failed [])).
  - apply check_created_reachable.
  - rewrite Hop. apply some_default. by vm_compute.
  - apply (late_other _ _ _ _ _ _ _ (mkSystem check_late []));
      [by apply (STick _ _ _ _ _ check_created [] 50000); vm_compute|].
    apply (late_other _ _ _ _ _ _ _ (mkSystem check_late [check_late_claim]));
      [apply (SClaim _ _ _ _ _ check_late [] check_late_claim t Ht); apply not_elem_of_nil|].
    apply (late_run _ _ _ _ _ _ check_late [] [] check_late_claim check_op b check_failed);
      [done|by vm_compute| |by vm_compute|exact Hb|apply late_none].
    rewrite Hop. change (operations check_late) with (operations check_created).
    apply some_default. by vm_compute.
Defined.

(** A replica that never found a host, and is being deleted. *)
Definition check_replica_row : DatabaseRow :=
  mkDatabase "copy" None "deleting" None 1
    (mkSpec "18" false [] (mkResources (1000 : f64) (2000 : f64) (10000 : f64)) "async" [] []
       (mkOwner "app" "verifier") (mkBackup "r1" 7) None (Some (mkReplicaOf "source" "r1")) (Some "orders"))
    None None (mkObserved None false [] None 0) false.

Definition check_delete : OperationRow :=
  mkOperation 7 "replica" "delete" "pending" 1 1600 None (JObject [])
    ((λ name, mkStep name "pending" 0 1000) <$> kind_steps Delete).

Definition check_stuck : Store :=
  mkStore 1000 9 8 {[ "h1" := check_host_row 990 ]} {[ "replica" := check_replica_row ]} ∅
    {[ "delete" := check_delete ]} ∅ {[ "r1" := check_repository_row ]} ∅ ∅ [] [].

Lemma unplaced_replica_stops_all_witness :
  step_once check_scheduler (at_time 9000 check_stuck) = Err RowNotFound ∧
  commit (step_once check_scheduler) (at_time 9000 check_stuck) = at_time 9000 check_stuck.
Proof.
  apply (unplaced_replica_stops_all check_scheduler check_stuck "delete" check_delete check_replica_row
    (mkReplicaOf "source" "r1") 9000); try reflexivity.
  - intros id e st He Hne. cbn [operations check_stuck] in He. exfalso. apply Hne.
    by apply lookup_singleton_Some in He as [<- _].
  - by vm_compute.
Defined.
