(* ===== verification/OpenAccess.v ===== *)
(** Clients and backups: no database is opened to clients before a backup of it
    has succeeded, whatever else happens (operations.rs: clients stay out until
    a restorable backup exists).

    [grows] is what one transaction may do to the facts this rests on: the
    operations and what they have done, the tasks and their answers, and which
    databases are open. Everything but a step of the reconciler adds no task
    and opens nothing. *)
From S2P Require Import Prelude Placement Metadata Requests Reconciler AdminApi HostApi Orchestration.

Local Open Scope Z_scope.

Section access.
Context `{!F64, !Pki}.

(** A backup of the database by this operation has succeeded. *)
Definition backed (s : Store) (op db : string) : Prop :=
  ∃ t, tasks s !! (op, "backup") = Some t ∧ ta_status t = "succeeded" ∧ ta_database_id t = db.

Definition first_backup_done (o : OperationRow) (i : nat) : Prop :=
  ∃ st, op_steps o !! i = Some st ∧ st_name st = "first_backup" ∧ st_status st = "done".

Definition access_ok (s : Store) : Prop :=
  (∀ op t, tasks s !! (op, "backup") = Some t →
     ∃ o, operations s !! op = Some o ∧ op_database_id o = ta_database_id t) ∧
  (∀ op o i, operations s !! op = Some o → first_backup_done o i → backed s op (op_database_id o)) ∧
  (∀ db d, databases s !! db = Some d → da_access_open d = true → ∃ op, backed s op db).

(** [task] is which tasks may be new, by key and database, [done] which backup
    steps may be newly done, and [open] which databases may be newly open. *)
Record grows (task : string * string → string → Prop) (done : string → nat → Prop) (open : string → Prop)
    (s s' : Store) : Prop := {
  grows_ops : ∀ op o, operations s !! op = Some o →
    ∃ o', operations s' !! op = Some o' ∧ op_database_id o' = op_database_id o;
  grows_done : ∀ op o' i, operations s' !! op = Some o' → first_backup_done o' i →
    (∃ o, operations s !! op = Some o ∧ first_backup_done o i) ∨ done op i;
  grows_tasks : ∀ k t, tasks s !! k = Some t →
    ∃ t', tasks s' !! k = Some t' ∧ ta_database_id t' = ta_database_id t ∧
      (ta_status t = "succeeded" → ta_status t' = "succeeded");
  grows_new : ∀ k t', tasks s' !! k = Some t' →
    (∃ t, tasks s !! k = Some t ∧ ta_database_id t' = ta_database_id t) ∨ task k (ta_database_id t');
  grows_open : ∀ db d', databases s' !! db = Some d' → da_access_open d' = true →
    (∃ d, databases s !! db = Some d ∧ da_access_open d = true) ∨ open db
}.

#[global] Instance grows_preorder task done open : PreOrder (grows task done open).
Proof.
  split; [intros s; constructor; eauto 6|].
  intros s1 s2 s3 [a1 a2 a3 a4 a5] [b1 b2 b3 b4 b5]. constructor.
  - intros op o Ho. destruct (a1 _ _ Ho) as (o' & Ho' & E). destruct (b1 _ _ Ho') as (o'' & ? & E').
    exists o''. split; [done|congruence].
  - intros op o i Ho Hi. destruct (b2 _ _ _ Ho Hi) as [(o' & Ho' & Hi')|]; eauto.
  - intros k t Ht. destruct (a3 _ _ Ht) as (t' & Ht' & E & Hs).
    destruct (b3 _ _ Ht') as (t'' & ? & E' & Hs'). exists t''. split; [done|]. split; [congruence|auto].
  - intros k t Ht. destruct (b4 _ _ Ht) as [(t' & Ht' & E)|]; [|by right].
    destruct (a4 _ _ Ht') as [(t'' & ? & E')|Hn]; [left; exists t''; split; [done|congruence]|].
    right. by rewrite E.
  - intros db d Hd Ho. destruct (b5 _ _ Hd Ho) as [(d' & Hd' & Ho')|]; eauto.
Qed.

Context (task : string * string → string → Prop) (done : string → nat → Prop) (open : string → Prop).

Lemma grows_frame s s' :
  operations s' = operations s → tasks s' = tasks s → databases s' = databases s →
  grows task done open s s'.
Proof. intros Ho Ht Hd. constructor; rewrite ?Ho, ?Ht, ?Hd; eauto 6. Qed.

(** Changes to databases that open none. *)
Lemma grows_databases f s :
  (∀ db d', f (databases s) !! db = Some d' → da_access_open d' = true →
     (∃ d, databases s !! db = Some d ∧ da_access_open d = true) ∨ open db) →
  grows task done open s (set_databases f s).
Proof. intros Hf. constructor; cbn; eauto 6. Qed.

Lemma grows_alter f db s :
  (∀ d, da_access_open (f d) = da_access_open d) →
  grows task done open s (set_databases (alter f db) s).
Proof.
  intros Hf. apply grows_databases. intros x d'. destruct (decide (db = x)) as [->|Hne].
  - rewrite lookup_alter_eq. intros (d & Hd & ->)%fmap_Some. rewrite Hf. eauto.
  - rewrite lookup_alter_ne by done. eauto.
Qed.

Lemma grows_imap f s :
  (∀ db d, da_access_open (f db d) = da_access_open d) →
  grows task done open s (set_databases (map_imap (λ db d, Some (f db d))) s).
Proof.
  intros Hf. apply grows_databases. intros x d'. rewrite map_lookup_imap.
  intros (d & Hd & [= <-])%bind_Some. rewrite Hf. eauto.
Qed.

(** Changes to tasks that add none. *)
Lemma grows_map_tasks f s :
  (∀ k t, ta_database_id (f k t) = ta_database_id t ∧
     (ta_status t = "succeeded" → ta_status (f k t) = "succeeded")) →
  grows task done open s (set_tasks (map_imap (λ k t, Some (f k t))) s).
Proof.
  intros Hf. constructor; cbn; eauto 6.
  - intros k t Ht. exists (f k t). rewrite map_lookup_imap, Ht. split; [done|apply Hf].
  - intros k t'. rewrite map_lookup_imap. intros (t & Ht & [= <-])%bind_Some. left. exists t.
    split; [done|apply Hf].
Qed.

Lemma grows_retarget f op s :
  (∀ o, op_database_id (f o) = op_database_id o ∧ op_steps (f o) = op_steps o) →
  grows task done open s (set_operations (alter f op) s).
Proof.
  intros Hf. constructor; cbn; eauto 6.
  - intros id o Ho. destruct (decide (op = id)) as [->|Hne].
    + exists (f o). rewrite lookup_alter_eq, Ho. split; [done|apply Hf].
    + exists o. by rewrite lookup_alter_ne.
  - intros id o' i. destruct (decide (op = id)) as [->|Hne].
    + rewrite lookup_alter_eq. intros (o & Ho & ->)%fmap_Some. unfold first_backup_done.
      destruct (Hf o) as [_ ->]. eauto.
    + rewrite lookup_alter_ne by done. eauto.
Qed.

Lemma grows_supersede id s : grows task done open s (set_operations (fmap (supersede id)) s).
Proof.
  constructor; cbn; eauto 6.
  - intros op o Ho. exists (supersede id o). rewrite lookup_fmap, Ho. split; [done|].
    unfold supersede. by case_match.
  - intros op o' i. rewrite lookup_fmap. intros (o & Ho & ->)%fmap_Some Hi. left. exists o.
    split; [done|]. revert Hi. unfold supersede, first_backup_done. by case_match.
Qed.

Lemma create_with_grows d k g p : keeps (grows task done open) (create_with d k g p).
Proof.
  intros s a s' [E ->]%create_with_Ok. constructor; cbn; eauto 6.
  - intros op o Ho. exists o. rewrite lookup_insert_ne by congruence. done.
  - intros op o' i Ho Hi. apply lookup_insert_Some in Ho as [[<- <-]|[_ Ho]]; [|eauto].
    exfalso. destruct Hi as (st & Hst & _ & Hdone). cbn in Hst. rewrite list_lookup_fmap in Hst.
    apply fmap_Some in Hst as (x & _ & ->). done.
Qed.

Lemma insert_database_grows name workspace spec :
  keeps (grows task done open) (insert_database name workspace spec).
Proof.
  unfold insert_database. apply keeps_bind; [exact _| |intros id].
  { repeat keeps_step; apply keeps_modify; intros s; by apply grows_frame. }
  repeat keeps_step. apply keeps_modify. intros s. apply grows_databases. intros db d'.
  intros [[<- <-]|[_ Hd]]%lookup_insert_Some; [done|eauto].
Qed.

Lemma grows_fmap_tasks f s :
  (∀ t, ta_database_id (f t) = ta_database_id t ∧
     (ta_status t = "succeeded" → ta_status (f t) = "succeeded")) →
  grows task done open s (set_tasks (fmap f) s).
Proof.
  intros Hf. constructor; cbn; eauto 6.
  - intros k t Ht. exists (f t). rewrite lookup_fmap, Ht. split; [done|apply Hf].
  - intros k t'. rewrite lookup_fmap. intros (t & Ht & ->)%fmap_Some. left. exists t.
    split; [done|apply Hf].
Qed.

Lemma end_tasks_grows test error : keeps (grows task done open) (end_tasks test error).
Proof.
  apply keeps_modify. intros s. apply grows_map_tasks. intros k t. case_match eqn:E; [|done].
  split; [done|]. intros Hs. apply andb_true_iff in E as [_ E]. by rewrite Hs in E.
Qed.

Lemma answered_grows id success error s :
  grows task done open s (set_tasks (fmap (answer_task id success error)) s).
Proof.
  apply grows_fmap_tasks. intros t. unfold answer_task. case_match eqn:E; [|done].
  split; [done|]. intros Hs. apply andb_true_iff in E as [_ E]. by rewrite Hs in E.
Qed.

Lemma mark_keeps_access s db d :
  da_access_open (mark_degraded s db d) = da_access_open d ∧
  da_access_open (mark_recovered s db d) = da_access_open d.
Proof. unfold mark_degraded, mark_recovered. by repeat case_match. Qed.

Lemma mark_all_grows change :
  (∀ s db d, da_access_open (change s db d) = da_access_open d) →
  keeps (grows task done open) (mark_all change).
Proof.
  intros Hc. unfold mark_all. intros s u s' (x & s1 & [= <- <-] & [= _ <-])%tx_bind_Ok.
  apply grows_imap. intros db d. apply Hc.
Qed.
End access.

Ltac grows_leaf :=
  idtac; lazymatch goal with
  | |- keeps _ (create_with _ _ _ _) => apply create_with_grows
  | |- keeps _ (insert_database _ _ _) => apply insert_database_grows
  | |- keeps _ (check_placement _ _) => apply check_placement_keeps; exact _
  | |- keeps _ (end_tasks _ _) => apply end_tasks_grows
  | |- keeps _ (mark_all _) => apply mark_all_grows; intros; apply mark_keeps_access
  | |- keeps _ (modify (set_operations (fmap _))) => apply keeps_modify; intros ?; apply grows_supersede
  | |- keeps _ (modify (set_operations (alter _ _))) =>
      apply keeps_modify; intros ?; by apply grows_retarget
  | |- keeps _ (modify (set_tasks (fmap _))) => apply keeps_modify; intros ?; apply answered_grows
  | |- keeps _ (modify (set_databases (alter _ _))) =>
      apply keeps_modify; intros ?; by apply grows_alter
  | |- keeps _ (modify _) => apply keeps_modify; intros ?; apply grows_frame; reflexivity
  end.

Section steps.
Context `{!F64, !Pki} (scheduler : SchedulerConfig).

(** Nothing but a step adds a task or opens a database. *)
Lemma handle_grows parse_net token_hash sign fingerprint r :
  keeps (grows (λ _ _, False) (λ _ _, False) (λ _, False))
    (serve_request scheduler parse_net token_hash sign fingerprint r).
Proof. destruct r; keeps_auto grows_leaf. Qed.

(** What the body of a step may add. *)
Definition step_task (c : Claimed) (k : string * string) (db : string) : Prop :=
  k.1 = cl_operation_id c ∧ (k.2 = "backup" → db = cl_database_id c).
Definition step_open (c : Claimed) (db : string) : Prop :=
  cl_name c = "open_access" ∧ db = cl_database_id c.

Abbreviation body_grows c := (grows (step_task c) (λ _ _, False) (step_open c)).

Lemma run_task_on_grows c db kind run_on params :
  (kind = "backup" → db = cl_database_id c) →
  keeps (body_grows c) (run_task_on c db kind run_on params).
Proof.
  intros Hkind s out s'. unfold run_task_on. intros (t & s1 & [= <- <-] & H1)%tx_bind_Ok.
  destruct (tasks s !! (cl_operation_id c, kind)) as [t|] eqn:Et.
  - repeat case_match; by injection H1 as _ <-.
  - apply tx_bind_Ok in H1 as (id & s2 & (n & s3 & [= <- <-] & [= <- <-])%tx_bind_Ok & H2).
    apply tx_bind_Ok in H2 as (row & s4 & [_ ->]%database_Ok & H3).
    apply tx_bind_Ok in H3 as (u & s5 & [= <- <-] & H4). apply tx_bind_Ok in H4 as (v & s6 & Hb & [= _ <-]).
    transitivity (set_tasks (insert (cl_operation_id c, kind)
      (mkTask (uuid (drawn s)) db run_on params "pending" None)) (set_drawn (S (drawn s)) s)).
    + constructor; cbn; eauto 6.
      * intros k t Ht. exists t. rewrite lookup_insert_ne by congruence. done.
      * intros k t' [[<- <-]|[_ Ht]]%lookup_insert_Some; [right; by split|left; eauto].
    + assert (Hk : keeps (body_grows c) (bump_hosts db)) by keeps_auto grows_leaf. exact (Hk _ _ _ Hb).
Qed.

Ltac task_leaf :=
  idtac; lazymatch goal with
  | |- keeps _ (run_task_on _ _ _ _ _) => apply run_task_on_grows; done
  | _ => grows_leaf
  end.

Lemma add_nodes_grows c first cert key i l : keeps (body_grows c) (add_nodes scheduler c first cert key i l).
Proof.
  revert i. induction l as [|h l IH]; intros i; cbn [add_nodes]; [keeps_step|].
  repeat first [task_leaf | apply IH | keeps_step].
Qed.

Lemma open_access_grows c : cl_name c = "open_access" → keeps (body_grows c) (open_access c).
Proof.
  intros Hname. unfold open_access. apply keeps_bind; [exact _| |intros []; keeps_auto task_leaf].
  apply keeps_modify. intros s. apply grows_databases. intros db d'.
  destruct (decide (cl_database_id c = db)) as [<-|Hne]; [by right|].
  rewrite lookup_alter_ne by done. eauto.
Qed.

Ltac body_leaf :=
  idtac; lazymatch goal with
  | |- keeps _ (add_nodes _ _ _ _ _ _ _) => apply add_nodes_grows
  | |- keeps _ (open_access _) => by apply open_access_grows
  | _ => task_leaf
  end.

Lemma run_step_grows c : keeps (body_grows c) (run_step scheduler c).
Proof.
  apply (run_step_cases (keeps _)); [|apply keeps_ret; exact _].
  unfold step_table. repeat (apply Forall_cons; split; cbn [fst snd]); [..|by apply Forall_nil]; intros Hname;
    keeps_auto body_leaf.
Qed.

(** ** A run of a step *)

Lemma grows_mono (t1 t2 : string * string → string → Prop) (d1 d2 : string → nat → Prop) (o1 o2 : string → Prop) s s' :
  grows t1 d1 o1 s s' → (∀ k db, t1 k db → t2 k db) → (∀ op i, d1 op i → d2 op i) → (∀ db, o1 db → o2 db) →
  grows t2 d2 o2 s s'.
Proof.
  intros [a1 a2 a3 a4 a5] Ht Hd Ho. constructor; [done| |done| |].
  - intros op o i H1 H2. destruct (a2 op o i H1 H2); auto.
  - intros k t H1. destruct (a4 k t H1); auto.
  - intros db d H1 H2. destruct (a5 db d H1 H2); auto.
Qed.

Definition run_done (c : Claimed) (out : Outcome) (op : string) (i : nat) : Prop :=
  op = cl_operation_id c ∧ i = cl_seq c ∧ out = Done.

Lemma update_step_grows task (done : string → nat → Prop) open c f s :
  (∀ st, st_name (f st) = st_name st ∧
     (st_status (f st) = "done" → st_status st = "done" ∨ done (cl_operation_id c) (cl_seq c))) →
  grows task done open s
    (set_operations (alter (λ o, with_steps (alter f (cl_seq c) (op_steps o)) o) (cl_operation_id c)) s).
Proof.
  intros Hf. constructor; cbn; eauto 6.
  - intros op o Ho. destruct (decide (cl_operation_id c = op)) as [<-|Hne].
    + eexists. rewrite lookup_alter_eq, Ho. done.
    + exists o. by rewrite lookup_alter_ne.
  - intros op o' i. destruct (decide (cl_operation_id c = op)) as [<-|Hne].
    2: { rewrite lookup_alter_ne by done. eauto. }
    rewrite lookup_alter_eq. intros (o & Ho & ->)%fmap_Some (st & Hst & Hname & Hd). cbn in Hst.
    destruct (decide (cl_seq c = i)) as [<-|Hne].
    + rewrite list_lookup_alter_eq in Hst. apply fmap_Some in Hst as (x & Hx & ->).
      destruct (Hf x) as [En Hs]. destruct (Hs Hd) as [Hd'|]; [|by right]. left. exists o.
      split; [done|]. exists x. by rewrite <- En.
    + rewrite list_lookup_alter_ne in Hst by done. left. exists o. split; [done|]. by exists st.
Qed.

Lemma settle_outcome_grows c out :
  keeps (grows (λ _ _, False) (run_done c out) (λ _, False)) (settle_outcome c out).
Proof.
  assert (Hfail : ∀ m, keeps (grows (λ _ _, False) (run_done c out) (λ _, False)) (fail c m)).
  { intros m. unfold fail, update_step, update_operation. apply keeps_bind; [exact _| |intros [];
      keeps_auto grows_leaf]. apply keeps_modify. intros s. by apply update_step_grows. }
  destruct out as [|m|m]; cbn [settle_outcome]; [|case_match; [apply Hfail|]|apply Hfail].
  - unfold finish_step, update_step, update_operation. apply keeps_bind; [exact _| |intros []].
    + apply keeps_modify. intros s. apply update_step_grows. intros st. split; [done|]. by right.
    + apply keeps_modify. intros s. apply grows_retarget. intros o. by case_match.
  - apply keeps_bind; [exact _|keeps_auto grows_leaf|intros []].
    apply keeps_bind; [exact _|keeps_step|intros t]. unfold update_step, update_operation.
    apply keeps_modify. intros s. apply update_step_grows. intros st. split; [done|]. by left.
Qed.

(** A backup step is done once its task has succeeded. *)
Lemma first_backup_Done c s s' :
  cl_name c = "first_backup" → run_step scheduler c s = Ok (Done, s') →
  s' = s ∧ ∃ t, tasks s !! (cl_operation_id c, "backup") = Some t ∧ ta_status t = "succeeded".
Proof.
  intros Hname. unfold run_step. rewrite Hname. cbn [List.find step_table fst String.eqb].
  change (List.find _ _) with (Some ("first_backup", λ step,
    run_own_task step "backup" "leader" (JObject [("label", JString FIRST_BACKUP_LABEL)]))).
  unfold run_own_task, run_task_on. intros (t & s1 & [= <- <-] & H1)%tx_bind_Ok.
  destruct (tasks s !! _) as [t|].
  - case_match eqn:E; [|by case_match]. injection H1 as <-. split; [done|]. exists t.
    by apply String.eqb_eq in E.
  - repeat (apply tx_bind_Ok in H1 as (? & ? & _ & H1)). done.
Qed.

Lemma run_claimed_grows c s b s' o :
  run_claimed scheduler c s = Ok (b, s') → operations s !! cl_operation_id c = Some o →
  is_active o = true →
  ∃ out, grows (step_task c) (run_done c out) (step_open c) s s' ∧
    (out = Done → cl_name c = "first_backup" →
     ∃ t, tasks s' !! (cl_operation_id c, "backup") = Some t ∧ ta_status t = "succeeded").
Proof.
  intros Hr Ho Ha. pose proof (run_claimed_Ok _ _ _ _ _ _ Hr Ho) as Hok. rewrite Ha in Hok.
  destruct Hok as (out & s2 & H1 & H2). exists out.
  pose proof (settle_outcome_grows _ _ _ _ _ H2) as Hsettle. split.
  - transitivity (marked_running c s); [by apply grows_retarget|]. transitivity s2.
    + eapply grows_mono; [exact (run_step_grows c _ _ _ H1)|done|done|done].
    + eapply grows_mono; [exact Hsettle|done|done|done].
  - intros -> Hname. destruct (first_backup_Done _ _ _ Hname H1) as [-> (t & Ht & Hs)].
    destruct (grows_tasks _ _ _ _ _ Hsettle _ _ Ht) as (t' & Ht' & _ & Hs'). eauto.
Qed.
End steps.

(** ** The invariant *)

Section opened.
Context `{!F64, !Pki} (scheduler : SchedulerConfig) (parse_net : string → bool).
Context (token_hash : string → string) (sign_host_csr : string → string → option string).
Context (fingerprint : string).

Abbreviation is_reachable := (sys_reachable scheduler parse_net token_hash sign_host_csr fingerprint).

Lemma backed_grows task done open s s' op db :
  grows task done open s s' → backed s op db → backed s' op db.
Proof.
  intros Hg (t & Ht & Hs & Hd). destruct (grows_tasks _ _ _ _ _ Hg _ _ Ht) as (t' & Ht' & E & Hs').
  exists t'. rewrite E. auto.
Qed.

Lemma access_ok_grows task (done : string → nat → Prop) (open : string → Prop) s s' :
  access_ok s → grows task done open s s' →
  (∀ op db, task (op, "backup") db → ∃ o, operations s' !! op = Some o ∧ op_database_id o = db) →
  (∀ op i o', done op i → operations s' !! op = Some o' → first_backup_done o' i →
     backed s' op (op_database_id o')) →
  (∀ db, open db → ∃ op, backed s op db) →
  access_ok s'.
Proof.
  intros (Ha & Hb & Hc) Hg Htask Hdone Hopen. split_and!.
  - intros op t Ht. destruct (grows_new _ _ _ _ _ Hg _ _ Ht) as [(t0 & Ht0 & E)|Hn]; [|auto].
    destruct (Ha op t0 Ht0) as (o & Ho & Eo). destruct (grows_ops _ _ _ _ _ Hg _ _ Ho) as (o' & Ho' & Eo').
    exists o'. split; [done|congruence].
  - intros op o' i Ho' Hi. destruct (grows_done _ _ _ _ _ Hg _ _ _ Ho' Hi) as [(o & Ho & Hi0)|]; [|eauto].
    destruct (grows_ops _ _ _ _ _ Hg _ _ Ho) as (o1 & Ho1 & E). rewrite Ho' in Ho1. injection Ho1 as <-.
    rewrite E. eapply backed_grows; [exact Hg|]. by eapply Hb.
  - intros db d Hd Ho. destruct (grows_open _ _ _ _ _ Hg _ _ Hd Ho) as [(d0 & Hd0 & Ho0)|Hn].
    + destruct (Hc _ _ Hd0 Ho0) as [op Hop]. exists op. by eapply backed_grows.
    + destruct (Hopen db Hn) as [op Hop]. exists op. by eapply backed_grows.
Qed.

(** Every kind that opens access takes a first backup before. *)
Lemma backup_before_open k i :
  kind_steps k !! i = Some "open_access" → ∃ j, (j < i)%nat ∧ kind_steps k !! j = Some "first_backup".
Proof.
  intros Hi. destruct (decide (k = Create)) as [->|]; [|destruct (decide (k = PromoteReplica)) as [->|]].
  - exists 2%nat. split; [|done]. do 3 (destruct i as [|i]; [done|]). lia.
  - exists 3%nat. split; [|done]. do 4 (destruct i as [|i]; [done|]). lia.
  - exfalso. destruct k; try done; do 7 (destruct i as [|i]; [done|]); done.
Qed.

Lemma open_step_backed s c o st :
  access_ok s → op_ok o → operations s !! cl_operation_id c = Some o → is_active o = true →
  first_pending o = Some (cl_seq c, st) → st_name st = cl_name c → cl_name c = "open_access" →
  backed s (cl_operation_id c) (op_database_id o).
Proof.
  intros (_ & Hb & _) Hok Ho Ha Hp Hn Hname. destruct (active_statuses o Hok Ha) as (k & m & Hst).
  pose proof (first_pending_index _ _ _ _ _ Hp Hst) as Hi. destruct Hok as [(kind & _ & Hsteps) _].
  apply list_find_Some in Hp as (Hx & _).
  destruct (backup_before_open kind (cl_seq c)) as (j & Hj & Hjn).
  { by rewrite <- Hsteps, list_lookup_fmap, Hx; cbn; rewrite Hn, Hname. }
  rewrite <- Hsteps, list_lookup_fmap in Hjn. apply fmap_Some in Hjn as (x & Hxj & Hnx).
  apply (Hb _ o j Ho). exists x. split; [done|]. split; [done|].
  assert (Hs : statuses o !! j = Some (st_status x)) by (unfold statuses; by rewrite list_lookup_fmap, Hxj).
  rewrite Hst, lookup_app_l in Hs by (rewrite length_replicate; lia).
  by apply lookup_replicate_1 in Hs as [? _].
Qed.

Lemma run_access c s b s' :
  ops_ok s → claim_ok s c → access_ok s → run_claimed scheduler c s = Ok (b, s') → access_ok s'.
Proof.
  intros (H1 & _) (o & Ho & Hd & Hk & Hact) Hacc Hr. destruct (is_active o) eqn:Ha.
  2: { pose proof (run_claimed_Ok _ _ _ _ _ _ Hr Ho) as Hok. rewrite Ha in Hok. by subst s'. }
  destruct (Hact eq_refl) as (_ & _ & _ & st & Hp & Hn & _). destruct (H1 _ _ Ho) as [Hok _].
  destruct (run_claimed_grows _ _ _ _ _ _ Hr Ho Ha) as (out & Hg & Hbackup).
  destruct (run_claimed_only _ _ _ _ _ _ Hr Ho Ha) as (out' & _ & _ & Hrow).
  destruct (Hrow o Ho) as (o' & Ho' & (_ & Ed & _) & Hst).
  assert (Hself : ∃ o, operations s' !! cl_operation_id c = Some o ∧ op_database_id o = cl_database_id c).
  { exists o'. split; [done|congruence]. }
  eapply access_ok_grows; [exact Hacc|exact Hg| | |].
  - intros op db [E Hdb]. cbn in E, Hdb. subst op. by rewrite (Hdb eq_refl).
  - intros op i e (-> & -> & ->) He (x & Hx & Hxn & _). rewrite Ho' in He. injection He as <-.
    apply list_find_Some in Hp as (Hi & _).
    assert (Hname : st_name <$> op_steps o' !! cl_seq c = Some (cl_name c)).
    { rewrite <- Hn, <- list_lookup_fmap. destruct Hst as [E _|? _ E _|? _ E _]; rewrite E;
        rewrite (fmap_alter_same st_name) by done; by rewrite list_lookup_fmap, Hi. }
    rewrite Hx in Hname. injection Hname as Hname.
    destruct (Hbackup eq_refl) as (t & Ht & Hs); [congruence|]. exists t. split; [done|]. split; [done|].
    destruct (grows_new _ _ _ _ _ Hg _ _ Ht) as [(t0 & Ht0 & E)|[_ E]]; [|rewrite (E eq_refl); congruence].
    destruct Hacc as (Hacc & _). destruct (Hacc _ _ Ht0) as (o0 & Ho0 & E0). rewrite Ho in Ho0.
    injection Ho0 as <-. congruence.
  - intros db [Hname ->]. exists (cl_operation_id c). rewrite <- Hd. by eapply open_step_backed.
Qed.

Lemma reachable_access y : is_reachable y → access_ok (store y).
Proof.
  induction 1 as [s (Hdb & _ & Ho & Ht)|y y' Hy IH Hs].
  - cbn. unfold access_ok. rewrite Hdb, Ho, Ht. split_and!; intros; by simplify_map_eq.
  - pose proof (sys_reachable_ok _ _ _ _ _ _ Hy) as (Hops & _ & Hc).
    destruct Hs as [s l c t Hin Hkey|s l1 l2 c b s' Hr|s l1 l2 c|s l r|s l t Ht]; cbn [store held] in *; [done| |done| |].
    + eapply run_access; [exact Hops| |exact IH|exact Hr]. apply Hc. set_solver.
    + apply (access_ok_grows (λ _ _, False) (λ _ _, False) (λ _, False) s); [exact IH| |done..].
      exact (keeps_commit (grows _ _ _) _ s (handle_grows scheduler parse_net token_hash sign_host_csr fingerprint r)).
    + exact IH.
Qed.

Lemma desired_cidrs s host doc i :
  build_desired_state s host = Ok doc → i ∈ ds_instances doc → in_allowed_cidrs i ≠ [] →
  ∃ d, databases s !! in_database_id i = Some d ∧ da_access_open d = true.
Proof.
  intros Hdoc Hi Hc. destruct (desired_instance _ _ _ _ Hdoc Hi) as (h & d & db & node & n & _ & _ & Hd & Hb).
  destruct (build_instance_Ok _ _ _ _ _ _ _ Hb) as (secrets & ns & _ & _ & -> & _ & Hcidrs & _).
  rewrite Hcidrs in Hc. exists d. split; [done|]. by destruct (da_access_open d).
Qed.

(** C13 A host is sent an instance that lets a client in only for a database of
    which a backup has succeeded: a task of one of its operations, for that
    database. *)
Theorem open_means_backed_up y host doc i :
  is_reachable y → build_desired_state (store y) host = Ok doc →
  i ∈ ds_instances doc → in_allowed_cidrs i ≠ [] →
  ∃ op o t, operations (store y) !! op = Some o ∧ op_database_id o = in_database_id i ∧
    tasks (store y) !! (op, "backup") = Some t ∧ ta_status t = "succeeded" ∧
    ta_database_id t = in_database_id i.
Proof.
  intros Hy Hdoc Hi Hc. destruct (desired_cidrs _ _ _ _ Hdoc Hi Hc) as (d & Hd & Ho).
  destruct (reachable_access y Hy) as (Ha & _ & Hb). destruct (Hb _ _ Hd Ho) as (op & t & Ht & Hs & Et).
  destruct (Ha op t Ht) as (o & Hop & Eo). exists op, o, t. by rewrite Eo, Et.
Qed.
End opened.

(** ** A check *)

#[local] Existing Instance milli.

(** A host that has reported, and a database that lets a network in. *)
Definition check_online : Store := set_hosts (λ _, {[ "h1" := check_host_row 1000 ]}) check_admin.

Definition check_open_create : CreateDatabase :=
  mkCreate "orders" None "18" false [] (mkResources (1000 : f64) (2000 : f64) (10000 : f64)) None
    (mkOwner "app" "SCRAM-SHA-256$4096:c2FsdA==$c3RvcmVk:c2VydmVy") ["10.0.0.0/8"] [] (mkBackup "r1" 7).

Definition check_report (g : Z) : Report :=
  mkReport g "10.0.0.1" (mkResources (8000 : f64) (32000 : f64) (500000 : f64))
    [mkInstanceReport "id-0" "n1" g "running" None None None] None ∅.

(** Create, place, apply, back up, open. *)
Definition check_opened : Store :=
  play_all check_scheduler (λ _, true) id (λ _ _, None) "ca"
    [PServe (RCreate check_open_create); PRun; PServe (RReport "h1" (check_report 1)); PRun; PRun; PTick 1;
     PServe (RTaskResult "h1" "id-9" true None); PRun; PRun] check_online.

Definition check_document : DesiredState :=
  match build_desired_state check_opened "h1" with Ok doc => doc | Err _ => mkDesired 0 [] end.

Definition check_lets_in : bool :=
  match ds_instances check_document with
  | i :: _ => negb (bool_decide (in_allowed_cidrs i = []))
  | [] => false
  end.

Lemma open_means_backed_up_witness :
  ∃ i op o t, i ∈ ds_instances check_document ∧ operations check_opened !! op = Some o ∧
    op_database_id o = in_database_id i ∧ tasks check_opened !! (op, "backup") = Some t ∧
    ta_status t = "succeeded" ∧ ta_database_id t = in_database_id i.
Proof.
  assert (Hin : check_lets_in = true) by by vm_compute.
  assert (Hok : is_ok (build_desired_state check_opened "h1") = true) by by vm_compute.
  unfold check_lets_in in Hin. destruct (ds_instances check_document) as [|i l] eqn:E; [discriminate Hin|].
  exists i. destruct (open_means_backed_up check_scheduler (λ _, true) id (λ _ _, None) "ca"
    (mkSystem check_opened []) "h1" check_document i) as (op & o & t & Hop).
  - unfold check_opened. apply play_all_reachable, reach_init. split_and!; reflexivity.
  - cbn [store]. revert Hok. unfold check_document.
    destruct (build_desired_state check_opened "h1"); [reflexivity|discriminate].
  - rewrite E. constructor.
  - apply negb_true_iff, bool_decide_eq_false in Hin. exact Hin.
  - exists op, o, t. split; [constructor|exact Hop].
Defined.
