(* ===== verification/CaRotation.v ===== *)
(** Replacing the admin's own CA: src/pgcluster-admin/src/rotation.rs, with the
    start of the service in lib.rs and what hosts do meanwhile.

    The service's operations are programs over its calls: SQL statements, the CA
    and the TLS settings it holds in memory, and the files of its CA. A call takes
    effect after any number of moves of hosts, which talk to the agent API only
    while each side trusts the other. The service may stop at any call and start
    again. Signing in memory does not fail for names that were accepted once; a
    statement that fails may have been carried out, except the insert that begins
    a rotation. Rotations begin and advance one at a time, and hosts enrol while
    none is running, as the comment on [start] asks.

    - [rotation_keeps_touch]: no host and this service ever disagree about whom to
      trust, wherever the service is stopped.
    - [lost_renewal_locks_out]: unless the answer to a renewal is lost. The host is
      then recorded with a certificate it never got, and the last phase, which
      waits for it, shuts it out. *)
From S2P Require Import Prelude Placement Metadata Requests Reconciler AdminApi HostApi Effects.

Local Open Scope Z_scope.

(** ** Rotations *)

(** The column holds their names in lower case. *)
Inductive Phase := Trust | Issue | Trim.

Record Rotation := mkRotation {
  ro_phase : Phase;
  ro_old_cert_pem : string;
  ro_new_cert_pem : string;
  ro_new_key : sealed string
}.

Record Ca := mkCa { ca_cert_pem : string; ca_key_pem : string }.

Definition NEW_KEY_CONTEXT : string := "admin-ca-rotation".
Definition ADMIN_CA_NAME : string := "pgcluster-admin-ca".

Definition both (new old : string) : string := (new ++ String "010" old)%string.

Definition bundle (r : Rotation) : string :=
  match ro_phase r with Trim => ro_new_cert_pem r | _ => both (ro_new_cert_pem r) (ro_old_cert_pem r) end.

Definition with_phase (p : Phase) (r : Rotation) : Rotation :=
  mkRotation p (ro_old_cert_pem r) (ro_new_cert_pem r) (ro_new_key r).

(** What desired state says about CAs. *)
Definition for_hosts (r : option Rotation) : option (string * bool) :=
  (λ r, (bundle r, match ro_phase r with Issue => true | _ => false end)) <$> r.

Inductive HostColumn := CertificateCa | CaFingerprint.

Record RotationStatus := mkRotationStatus {
  rs_phase : option Phase;
  rs_bundle_pem : string;
  rs_waiting_for : list string
}.

(** ** Calls *)

Inductive rcall :=
| SelectRotation
| SelectWaiting (column : HostColumn) (wanted : string)
| InsertRotation (r : Rotation)
| UpdatePhase (p : Phase)
| DeleteRotation
| BumpAllHosts
| GenerateCa
| CurrentCa
| SetCa (ca : Ca)
| IssueServer (ca : Ca)
| StoreAgentTls (trusted : list string) (cert : string)
| StoreApiTls (cert : string)
| WriteCaKey (key : string)
| WriteCaCert (pem : string)
| LoadCa
| Bind (ca : Ca) (cert : string)
| Serve.

Definition ranswer (e : rcall) : Type :=
  match e with
  | SelectRotation => option (option Rotation)
  | SelectWaiting _ _ => option (list string)
  | InsertRotation _ => option bool
  | UpdatePhase _ | DeleteRotation | BumpAllHosts | WriteCaKey _ | WriteCaCert _ | StoreAgentTls _ _ | StoreApiTls _ => option ()
  | GenerateCa | LoadCa => option Ca
  | CurrentCa => Ca
  | IssueServer _ => option string
  | SetCa _ | Bind _ _ | Serve => ()
  end.

Abbreviation rprog := (prog ranswer).
Definition rdo (e : rcall) : rprog (ranswer e) := call e.

Section rotation.
Context `{!F64, !Pki}.
Context (sha256_hex : string → string).

Definition new_ca (r : Rotation) : option Ca :=
  key ← open NEW_KEY_CONTEXT (ro_new_key r);
  if parses (ro_new_cert_pem r) key then Some (mkCa (ro_new_cert_pem r) key) else None.

Definition store_ca (ca : Ca) : rprog (option ()) :=
  _ ←? rdo (WriteCaKey (ca_key_pem ca)); rdo (WriteCaCert (ca_cert_pem ca)).

(** Make the listeners match a phase. There are none only in tests. *)
Definition apply_phase (r : Rotation) : rprog (option ()) :=
  new ←? Ret (new_ca r);
  signer ← match ro_phase r with Trust => rdo CurrentCa | _ => Ret new end;
  _ ← rdo (SetCa signer);
  issued ←? rdo (IssueServer signer);
  _ ←? rdo (StoreAgentTls (match ro_phase r with
                            | Trim => [ro_new_cert_pem r]
                            | _ => [ro_old_cert_pem r; ro_new_cert_pem r]
                            end) issued);
  _ ←? rdo (StoreApiTls issued);
  match ro_phase r with Trim => store_ca new | _ => Ret (Some ()) end.

Definition resume : rprog (option ()) :=
  current ←? rdo SelectRotation;
  match current : option Rotation with Some r => apply_phase r | None => Ret (Some ()) end.

Definition waiting_for (r : Rotation) : rprog (option (list string)) :=
  match ro_phase r with
  | Issue => rdo (SelectWaiting CertificateCa (sha256_hex (ro_new_cert_pem r)))
  | _ => rdo (SelectWaiting CaFingerprint (sha256_hex (bundle r)))
  end.

Definition rotation_status : rprog (option RotationStatus) :=
  current ←? rdo SelectRotation;
  match current : option Rotation with
  | Some r => waiting ←? waiting_for r; Ret (Some (mkRotationStatus (Some (ro_phase r)) (bundle r) waiting))
  | None => ca ← rdo CurrentCa; Ret (Some (mkRotationStatus None (ca_cert_pem ca) []))
  end.

(** An error is [None], whatever it says. *)
Definition start_rotation : rprog (option RotationStatus) :=
  current ←? rdo SelectRotation;
  match current : option Rotation with
  | Some _ => Ret None
  | None =>
      new ←? rdo GenerateCa;
      old ← rdo CurrentCa;
      let r := mkRotation Trust (ca_cert_pem old) (ca_cert_pem new) (seal NEW_KEY_CONTEXT (ca_key_pem new)) in
      inserted ←? rdo (InsertRotation r);
      if negb inserted then Ret None
      else
        _ ←? apply_phase r;
        _ ←? rdo BumpAllHosts;
        rotation_status
  end.

Definition next_phase (p : Phase) : option Phase :=
  match p with Trust => Some Issue | Issue => Some Trim | Trim => None end.

Definition advance_rotation : rprog (option ()) :=
  current ←? rdo SelectRotation;
  match current : option Rotation with
  | None => Ret (Some ())
  | Some r =>
      waiting ←? waiting_for r;
      match waiting : list string with
      | _ :: _ => Ret (Some ())
      | [] =>
          match next_phase (ro_phase r) with
          | None => _ ←? rdo DeleteRotation; rdo BumpAllHosts
          | Some next =>
              _ ←? apply_phase (with_phase next r);
              _ ←? rdo (UpdatePhase next);
              rdo BumpAllHosts
          end
      end
  end.

(** The start of the service, as far as it concerns the CA. *)
Definition boot : rprog (option ()) :=
  ca ←? rdo LoadCa;
  issued ←? rdo (IssueServer ca);
  _ ← rdo (Bind ca issued);
  _ ←? resume;
  _ ← rdo Serve;
  Ret (Some ()).

(** ** The fleet *)

(** What a host holds: the CAs it trusts, in one text, and its certificate. *)
Record Side := mkSide { sd_bundle : string; sd_cert : string }.

Record fleet := mkFleet {
  fl_store : Store;
  fl_rotation : option Rotation;
  fl_signer : Ca;
  fl_trusted : list string;
  fl_cert : string;
  fl_api_cert : string;
  fl_dir : Ca;
  fl_up : bool;
  fl_sides : gmap string Side
}.

Definition set_store (f : Store → Store) (w : fleet) : fleet :=
  mkFleet (f (fl_store w)) (fl_rotation w) (fl_signer w) (fl_trusted w) (fl_cert w) (fl_api_cert w) (fl_dir w) (fl_up w)
    (fl_sides w).
Definition set_rotation (r : option Rotation) (w : fleet) : fleet :=
  mkFleet (fl_store w) r (fl_signer w) (fl_trusted w) (fl_cert w) (fl_api_cert w) (fl_dir w) (fl_up w) (fl_sides w).
Definition set_ca (ca : Ca) (w : fleet) : fleet :=
  mkFleet (fl_store w) (fl_rotation w) ca (fl_trusted w) (fl_cert w) (fl_api_cert w) (fl_dir w) (fl_up w) (fl_sides w).
Definition set_agent_tls (trusted : list string) (cert : string) (w : fleet) : fleet :=
  mkFleet (fl_store w) (fl_rotation w) (fl_signer w) trusted cert (fl_api_cert w) (fl_dir w) (fl_up w) (fl_sides w).
Definition set_api_tls (cert : string) (w : fleet) : fleet :=
  mkFleet (fl_store w) (fl_rotation w) (fl_signer w) (fl_trusted w) (fl_cert w) cert (fl_dir w) (fl_up w) (fl_sides w).
Definition set_dir (f : Ca → Ca) (w : fleet) : fleet :=
  mkFleet (fl_store w) (fl_rotation w) (fl_signer w) (fl_trusted w) (fl_cert w) (fl_api_cert w) (f (fl_dir w)) (fl_up w)
    (fl_sides w).
Definition set_up (up : bool) (w : fleet) : fleet :=
  mkFleet (fl_store w) (fl_rotation w) (fl_signer w) (fl_trusted w) (fl_cert w) (fl_api_cert w) (fl_dir w) up (fl_sides w).
Definition set_side (h : string) (s : Side) (w : fleet) : fleet :=
  mkFleet (fl_store w) (fl_rotation w) (fl_signer w) (fl_trusted w) (fl_cert w) (fl_api_cert w) (fl_dir w) (fl_up w)
    (<[h := s]> (fl_sides w)).

(** Each side of a connection trusts the other. *)
Definition in_touch (w : fleet) (s : Side) : bool :=
  trusts (sd_bundle s) (fl_cert w) && existsb (λ ca, trusts ca (sd_cert s)) (fl_trusted w).

Definition column_of (c : HostColumn) (row : HostRow) : option string :=
  match c with CertificateCa => ho_certificate_ca row | CaFingerprint => ho_ca_fingerprint row end.

(** Enrolled hosts with another value in a column. *)
Definition behind (c : HostColumn) (wanted : string) (s : Store) : list string :=
  sort_by str_leb (ho_name ∘ snd <$>
    List.filter (λ '(_, row), ho_enrolled row && negb (bool_decide (column_of c row = Some wanted))) (map_to_list (hosts s))).

Definition bump_all_hosts (s : Store) : Store :=
  set_hosts (fmap (λ row, if ho_enrolled row then bump row else row)) s.

(** Changes of the store by anything else: hosts come without a certificate, and
    what is known of theirs stays. *)
Definition elsewhere (s s' : Store) : Prop :=
  ∀ h row', hosts s' !! h = Some row' →
    (∃ row, hosts s !! h = Some row ∧ ho_enrolled row' = ho_enrolled row ∧
       ho_ca_fingerprint row' = ho_ca_fingerprint row ∧ ho_certificate_ca row' = ho_certificate_ca row) ∨
    ho_enrolled row' = false ∧ ho_ca_fingerprint row' = None ∧ ho_certificate_ca row' = None.

(** Signed by a CA, whatever the request. *)
Definition signs (ca : Ca) (sign : string → string → option string) : Prop :=
  ∀ csr h c, sign csr h = Some c → trusts (ca_cert_pem ca) c = true.

Inductive move (lossy : bool) : fleet → fleet → Prop :=
| move_poll w h s b renew :
    fl_up w = true → fl_sides w !! h = Some s → in_touch w s = true → for_hosts (fl_rotation w) = Some (b, renew) →
    move lossy w (set_side h (mkSide b (sd_cert s)) w)
| move_report w h s r store :
    fl_up w = true → fl_sides w !! h = Some s → in_touch w s = true →
    rp_ca_fingerprint r = Some (sha256_hex (sd_bundle s)) → report h r (fl_store w) = Ok ((), store) →
    move lossy w (set_store (λ _, store) w)
| move_renew w h s sign csr cert store :
    fl_up w = true → fl_sides w !! h = Some s → in_touch w s = true → signs (fl_signer w) sign →
    rotate_certificate sign (sha256_hex (ca_cert_pem (fl_signer w))) h csr (fl_store w) = Ok (cert, store) →
    move lossy w (set_side h (mkSide (sd_bundle s) cert) (set_store (λ _, store) w))
| move_renew_lost w h s sign csr cert store :
    lossy = true → fl_up w = true → fl_sides w !! h = Some s → in_touch w s = true → signs (fl_signer w) sign →
    rotate_certificate sign (sha256_hex (ca_cert_pem (fl_signer w))) h csr (fl_store w) = Ok (cert, store) →
    move lossy w (set_store (λ _, store) w)
| move_enrol w token_hash sign token csr h cert store :
    fl_up w = true → fl_rotation w = None → signs (fl_signer w) sign →
    enroll token_hash sign (sha256_hex (ca_cert_pem (fl_signer w))) token csr (fl_store w) = Ok ((h, cert), store) →
    move lossy w (set_side h (mkSide (ca_cert_pem (fl_signer w)) cert) (set_store (λ _, store) w))
| move_elsewhere w store : elsewhere (fl_store w) store → move lossy w (set_store (λ _, store) w).

(** A CA unlike anything a host has reported or was recorded with. *)
Definition unseen (new : string) (w : fleet) : Prop :=
  new ≠ ca_cert_pem (fl_signer w) ∧
  map_Forall (λ _ row,
    ho_ca_fingerprint row ≠ Some (sha256_hex new) ∧
    ho_ca_fingerprint row ≠ Some (sha256_hex (both new (ca_cert_pem (fl_signer w)))) ∧
    ho_certificate_ca row ≠ Some (sha256_hex new)) (hosts (fl_store w)).

#[global] Instance unseen_dec new w : Decision (unseen new w).
Proof. unfold unseen. apply _. Defined.

(** A change that may fail before or after it was made. *)
Definition changes (r : option ()) (w w' changed : fleet) : Prop := w' = changed ∨ r = None ∧ w' = w.

Definition effect (w : fleet) (e : rcall) : ranswer e → fleet → Prop :=
  match e with
  | SelectRotation => λ r w', w' = w ∧ (r = None ∨ r = Some (fl_rotation w))
  | SelectWaiting c wanted => λ r w', w' = w ∧ (r = None ∨ r = Some (behind c wanted (fl_store w)))
  | InsertRotation x => λ r w',
      match fl_rotation w with
      | Some _ => w' = w ∧ (r = None ∨ r = Some false)
      | None => r = None ∧ w' = w ∨ r = Some true ∧ w' = set_rotation (Some x) w
      end
  | UpdatePhase p => λ r w', changes r w w' (set_rotation (with_phase p <$> fl_rotation w) w)
  | DeleteRotation => λ r w', changes r w w' (set_rotation None w)
  | BumpAllHosts => λ r w', changes r w w' (set_store bump_all_hosts w)
  | GenerateCa => λ r w', w' = w ∧
      match r with Some ca => parses (ca_cert_pem ca) (ca_key_pem ca) = true ∧ unseen (ca_cert_pem ca) w | None => True end
  | CurrentCa => λ r w', w' = w ∧ r = fl_signer w
  | SetCa ca => λ _ w', w' = set_ca ca w
  | IssueServer ca => λ r w', w' = w ∧
      ∃ n names, r = (λ x, x.1.1) <$> issue n (ca_cert_pem ca) (ca_key_pem ca) names
  | StoreAgentTls trusted cert => λ r w', r = Some () ∧ w' = set_agent_tls trusted cert w
  | StoreApiTls cert => λ r w', r = Some () ∧ w' = set_api_tls cert w
  | WriteCaKey key => λ r w', changes r w w' (set_dir (λ ca, mkCa (ca_cert_pem ca) key) w)
  | WriteCaCert pem => λ r w', changes r w w' (set_dir (λ ca, mkCa pem (ca_key_pem ca)) w)
  | LoadCa => λ r w', w' = w ∧
      (r = None ∨ r = Some (fl_dir w) ∧ parses (ca_cert_pem (fl_dir w)) (ca_key_pem (fl_dir w)) = true)
  | Bind ca cert => λ _ w', w' = set_api_tls cert (set_agent_tls [ca_cert_pem ca] cert (set_ca ca w))
  | Serve => λ _ w', w' = set_up true w
  end.

Definition rstep (lossy : bool) (w : fleet) (e : rcall) (r : ranswer e) (w' : fleet) : Prop :=
  ∃ w1, rtc (move lossy) w w1 ∧ effect w1 e r w'.

(** ** Histories *)

(** A fleet whose service runs with one CA, known to all its hosts. *)
Definition at_rest (w : fleet) : Prop :=
  fl_rotation w = None ∧ fl_up w = true ∧ fl_trusted w = [ca_cert_pem (fl_signer w)] ∧
  trusts (ca_cert_pem (fl_signer w)) (fl_cert w) = true ∧ ca_cert_pem (fl_dir w) = ca_cert_pem (fl_signer w) ∧
  ∀ h row, hosts (fl_store w) !! h = Some row → ho_enrolled row = true →
    ∃ s, fl_sides w !! h = Some s ∧ sd_bundle s = ca_cert_pem (fl_signer w) ∧
      trusts (ca_cert_pem (fl_signer w)) (sd_cert s) = true.

Inductive operation_of : ∀ {A}, rprog A → Prop :=
| op_start : operation_of start_rotation
| op_advance : operation_of advance_rotation.

(** What may have happened, and whether the service is between operations. *)
Inductive history (lossy : bool) : bool → fleet → Prop :=
| history_init w : at_rest w → history lossy true w
| history_move idle w w' : history lossy idle w → move lossy w w' → history lossy idle w'
| history_done A (p : rprog A) w a w' :
    history lossy true w → operation_of p → ends_on (rstep lossy) p w a w' → history lossy true w'
| history_within A (p : rprog A) w w' :
    history lossy true w → operation_of p → reached_on (rstep lossy) p w w' → history lossy false w'
| history_booting idle w w' :
    history lossy idle w → reached_on (rstep lossy) boot (set_up false w) w' → history lossy false w'
| history_booted idle w w' :
    history lossy idle w → ends_on (rstep lossy) boot (set_up false w) (Some ()) w' → history lossy true w'.

(** ** The invariant *)

Context (sha_inj : ∀ a b, sha256_hex a = sha256_hex b → a = b).
Context (issue_total : ∀ n cert key names, is_Some (issue n cert key names)).

(** Every enrolled host holds something, of which [P], as of the columns with the
    CAs it was heard to trust and the one that signed for it. *)
Definition all_hosts (P : option string → option string → Side → Prop) (w : fleet) : Prop :=
  ∀ h row, hosts (fl_store w) !! h = Some row → ho_enrolled row = true →
    ∃ s, fl_sides w !! h = Some s ∧ P (ho_ca_fingerprint row) (ho_certificate_ca row) s.

Definition vouches (ca : string) (s : Side) : Prop := trusts ca (sd_cert s) = true.

(** Columns that say a host has something new are right. *)
Definition truthful (old new : string) (fp signed : option string) (s : Side) : Prop :=
  (fp = Some (sha256_hex (both new old)) → sd_bundle s = both new old ∨ sd_bundle s = new) ∧
  (fp = Some (sha256_hex new) → sd_bundle s = new) ∧
  (signed = Some (sha256_hex new) → vouches new s).

Definition host_in (p : Phase) (old new : string) (s : Side) : Prop :=
  match p with
  | Trust => (sd_bundle s = old ∨ sd_bundle s = both new old) ∧ (vouches old s ∨ vouches new s)
  | Issue => sd_bundle s = both new old ∧ (vouches old s ∨ vouches new s)
  | Trim => (sd_bundle s = both new old ∨ sd_bundle s = new) ∧ vouches new s
  end.

Definition knows_both (old new : string) : fleet → Prop := all_hosts (λ _ _ s, sd_bundle s = both new old).
Definition vouched_by (ca : string) : fleet → Prop := all_hosts (λ _ _ s, vouches ca s).

(** What does not depend on the process. *)
Definition kept_ok (w : fleet) : Prop :=
  match fl_rotation w with
  | None => all_hosts (λ _ _ s, sd_bundle s = ca_cert_pem (fl_dir w) ∧ vouches (ca_cert_pem (fl_dir w)) s) w
  | Some r =>
      let old := ro_old_cert_pem r in
      let new := ro_new_cert_pem r in
      is_Some (new_ca r) ∧ new ≠ old ∧
      all_hosts (λ fp signed s, truthful old new fp signed s ∧ host_in (ro_phase r) old new s) w ∧
      match ro_phase r with
      | Trust => ca_cert_pem (fl_dir w) = old
      | Issue => True
      | Trim => ca_cert_pem (fl_dir w) = new
      end
  end.

(** What the running process holds. *)
Definition live_ok (w : fleet) : Prop :=
  match fl_rotation w with
  | None =>
      let ca := ca_cert_pem (fl_dir w) in
      ca_cert_pem (fl_signer w) = ca ∧ ca ∈ fl_trusted w ∧ trusts ca (fl_cert w) = true
  | Some r =>
      let old := ro_old_cert_pem r in
      let new := ro_new_cert_pem r in
      match ro_phase r with
      | Trust =>
          (ca_cert_pem (fl_signer w) = old ∨ ca_cert_pem (fl_signer w) = new) ∧ old ∈ fl_trusted w ∧
          (trusts old (fl_cert w) = true ∨ trusts new (fl_cert w) = true ∧ knows_both old new w) ∧
          (new ∈ fl_trusted w ∨ ca_cert_pem (fl_signer w) = old ∧ vouched_by old w)
      | Issue =>
          ca_cert_pem (fl_signer w) = new ∧ new ∈ fl_trusted w ∧ trusts new (fl_cert w) = true ∧
          (old ∈ fl_trusted w ∨ vouched_by new w)
      | Trim => ca_cert_pem (fl_signer w) = new ∧ new ∈ fl_trusted w ∧ trusts new (fl_cert w) = true
      end
  end.

Definition inv (w : fleet) : Prop := kept_ok w ∧ (fl_up w = true → live_ok w).

(** Between operations the process also trusts the new CA. *)
Definition idle_ok (w : fleet) : Prop :=
  inv w ∧ fl_up w = true ∧
  (∀ r, fl_rotation w = Some r → ro_phase r = Trust → ro_new_cert_pem r ∈ fl_trusted w).

Definition touching (w : fleet) : Prop := fl_up w = true → all_hosts (λ _ _ s, in_touch w s = true) w.

Lemma trusts_new new old c : trusts new c = true → trusts (both new old) c = true.
Proof. intros Hc. unfold both. by rewrite trusts_both, Hc. Qed.

Lemma trusts_old new old c : trusts old c = true → trusts (both new old) c = true.
Proof. intros Hc. unfold both. by rewrite trusts_both, Hc, orb_true_r. Qed.

Lemma all_hosts_impl (P Q : option string → option string → Side → Prop) w :
  all_hosts P w → (∀ fp signed s, P fp signed s → Q fp signed s) → all_hosts Q w.
Proof. intros HP HPQ h row Hr He. destruct (HP h row Hr He) as (s & Hs & Hp). eauto. Qed.

Lemma all_hosts_and (P Q : option string → option string → Side → Prop) w :
  all_hosts P w → all_hosts Q w → all_hosts (λ fp signed s, P fp signed s ∧ Q fp signed s) w.
Proof.
  intros HP HQ h row Hr He. destruct (HP h row Hr He) as (s & Hs & Hp), (HQ h row Hr He) as (s' & Hs' & Hq).
  exists s. rewrite Hs in Hs'. by simplify_eq.
Qed.

Lemma accepted w s ca : ca ∈ fl_trusted w → vouches ca s → existsb (λ ca, trusts ca (sd_cert s)) (fl_trusted w) = true.
Proof. intros Hin Hv. apply existsb_exists. exists ca. split; [by apply list_elem_of_In|done]. Qed.

Lemma inv_touching w : inv w → touching w.
Proof.
  intros [Hk Hl] Hup. specialize (Hl Hup). unfold kept_ok, live_ok in *. destruct (fl_rotation w) as [r|].
  - destruct Hk as (_ & _ & Hh & _). destruct (ro_phase r).
    + destruct Hl as (_ & Ho & Hc & Hn).
      assert (all_hosts (λ _ _ s, trusts (sd_bundle s) (fl_cert w) = true) w) as HA.
      { destruct Hc as [Hc|[Hc Hb]].
        - eapply all_hosts_impl; [exact Hh|]. cbn. intros fp signed s [_ [[-> | ->] _]]; [done|by apply trusts_old].
        - eapply all_hosts_impl; [exact Hb|]. cbn. intros fp signed s ->. by apply trusts_new. }
      assert (all_hosts (λ _ _ s, existsb (λ ca, trusts ca (sd_cert s)) (fl_trusted w) = true) w) as HB.
      { destruct Hn as [Hn|[_ Hv]].
        - eapply all_hosts_impl; [exact Hh|]. cbn. intros fp signed s [_ [_ [Hv|Hv]]]; (eapply accepted; [|eassumption]; done).
        - eapply all_hosts_impl; [exact Hv|]. cbn. intros fp signed s Hs. (eapply accepted; [|eassumption]; done). }
      eapply all_hosts_impl; [exact (all_hosts_and _ _ _ HA HB)|]. cbn. intros fp signed s [H1' H2']. unfold in_touch.
      by rewrite H1', H2'.
    + destruct Hl as (_ & Hn & Hc & Ho).
      assert (all_hosts (λ _ _ s, existsb (λ ca, trusts ca (sd_cert s)) (fl_trusted w) = true) w) as HB.
      { destruct Ho as [Ho|Hv].
        - eapply all_hosts_impl; [exact Hh|]. cbn. intros fp signed s [_ [_ [Hv|Hv]]]; (eapply accepted; [|eassumption]; done).
        - eapply all_hosts_impl; [exact Hv|]. cbn. intros fp signed s Hs. (eapply accepted; [|eassumption]; done). }
      eapply all_hosts_impl; [exact (all_hosts_and _ _ _ Hh HB)|]. cbn. intros fp signed s [[_ [Hs _]] HBs]. unfold in_touch.
      by rewrite HBs, Hs, trusts_new.
    + destruct Hl as (_ & Hn & Hc). eapply all_hosts_impl; [exact Hh|]. cbn. intros fp signed s [_ [Hb Hv]]. unfold in_touch.
      rewrite (accepted w s _ Hn Hv), andb_true_r. destruct Hb as [-> | ->]; [by apply trusts_new|done].
  - destruct Hl as (_ & Hn & Hc). eapply all_hosts_impl; [exact Hk|]. cbn. intros fp ca s [Hb Hv]. unfold in_touch.
    by rewrite Hb, Hc, (accepted w s _ Hn Hv).
Qed.

(** ** Moves *)

(** What hosts do not change. *)
Definition same_service (w w' : fleet) : Prop :=
  fl_rotation w' = fl_rotation w ∧ fl_signer w' = fl_signer w ∧ fl_trusted w' = fl_trusted w ∧
  fl_cert w' = fl_cert w ∧ fl_dir w' = fl_dir w ∧ fl_up w' = fl_up w.

Lemma move_same lossy w w' : move lossy w w' → same_service w w'.
Proof. by destruct 1. Qed.

Lemma report_hosts h r s s' : 
  report h r s = Ok ((), s') →
  (∃ row, hosts s !! h = Some row ∧ ho_enrolled row = true) ∧ ∃ t, hosts s' = alter (reported_host r t) h (hosts s).
Proof.
  unfold report, known_host, guard, lift, gets, modify, throw, mbind, tx_bind, mret, tx_ret. intros Hr. repeat (case_match; simplify_eq).
  split; by eexists.
Qed.

Lemma rotate_hosts sign fp h csr s cert s' :
  rotate_certificate sign fp h csr s = Ok (cert, s') →
  sign csr h = Some cert ∧ hosts s' = alter (with_certificate fp) h (hosts s).
Proof.
  unfold rotate_certificate, known_host, guard, expect, gets, modify, throw, mbind, tx_bind, mret, tx_ret. intros Hr.
  repeat (case_match; simplify_eq); done.
Qed.

Lemma enroll_hosts th sign fp token csr s h cert s' :
  enroll th sign fp token csr s = Ok ((h, cert), s') →
  sign csr h = Some cert ∧ hosts s' = alter (with_enrolled fp) h (hosts s).
Proof.
  unfold enroll, expect, gets, modify, throw, mbind, tx_bind, mret, tx_ret. intros Hr. repeat (case_match; simplify_eq); done.
Qed.

(** A property of hosts that each kind of move keeps. *)
Record lasting (w : fleet) (P : option string → option string → Side → Prop) : Prop := {
  lasting_poll : ∀ fp signed s b renew, fl_up w = true → for_hosts (fl_rotation w) = Some (b, renew) →
    P fp signed s → P fp signed (mkSide b (sd_cert s));
  lasting_report : ∀ fp signed s, P fp signed s → P (Some (sha256_hex (sd_bundle s))) signed s;
  lasting_renew : ∀ fp signed s cert, fl_up w = true → trusts (ca_cert_pem (fl_signer w)) cert = true → P fp signed s →
    P fp (Some (sha256_hex (ca_cert_pem (fl_signer w)))) (mkSide (sd_bundle s) cert);
  lasting_enrol : ∀ fp cert, fl_up w = true → fl_rotation w = None → trusts (ca_cert_pem (fl_signer w)) cert = true →
    P fp (Some (sha256_hex (ca_cert_pem (fl_signer w)))) (mkSide (ca_cert_pem (fl_signer w)) cert)
}.

Lemma all_hosts_move P w w' : lasting w P → move false w w' → all_hosts P w → all_hosts P w'.
Proof.
  intros [Hpoll Hreport Hrenew Henrol] Hm HP. destruct Hm as [w h s b renew Hup Hs _ Hb|w h s r store Hup Hs _ Hfp Hr|
    w h s sign csr cert store Hup Hs _ Hsign Hr|?|w th sign token csr h cert store Hup Hnone Hsign Hr|w store Hst]; [..|done| |].
  - intros k row Hrow He. cbn in *. destruct (HP k row Hrow He) as (x & Hx & Hp). destruct (decide (k = h)) as [->|Hne].
    + rewrite lookup_insert_eq. eexists. split; [done|]. simplify_eq. by eapply Hpoll.
    + rewrite lookup_insert_ne by done. eauto.
  - apply report_hosts in Hr as [_ [t Ht]]. intros k row. cbn. rewrite Ht. destruct (decide (k = h)) as [->|Hne].
    + rewrite lookup_alter_eq. intros (row0 & Hrow & ->)%fmap_Some He. cbn in *. destruct (HP h row0 Hrow He) as (x & Hx & Hp).
      exists x. split; [done|]. simplify_eq. rewrite Hfp. by eapply Hreport.
    + rewrite lookup_alter_ne by done. apply HP.
  - apply rotate_hosts in Hr as [Hc Ht]. apply Hsign in Hc. intros k row. cbn. rewrite Ht. destruct (decide (k = h)) as [->|Hne].
    + rewrite lookup_alter_eq, lookup_insert_eq. intros (row0 & Hrow & ->)%fmap_Some He. cbn in *.
      destruct (HP h row0 Hrow He) as (x & Hx & Hp). eexists. split; [done|]. simplify_eq. by eapply Hrenew.
    + rewrite lookup_alter_ne, lookup_insert_ne by done. apply HP.
  - apply enroll_hosts in Hr as [Hc Ht]. apply Hsign in Hc. intros k row. cbn. rewrite Ht. destruct (decide (k = h)) as [->|Hne].
    + rewrite lookup_alter_eq, lookup_insert_eq. intros (row0 & Hrow & ->)%fmap_Some He. cbn in *.
      eexists. split; [done|]. by apply Henrol.
    + rewrite lookup_alter_ne, lookup_insert_ne by done. apply HP.
  - intros k row Hrow He. cbn in *. destruct (Hst k row Hrow) as [(row0 & Hrow0 & Ee & -> & ->)|(E & _)]; [|congruence].
    apply (HP k row0 Hrow0). congruence.
Qed.

Lemma both_ne new old : both new old ≠ new.
Proof.
  intros E. apply (f_equal String.length) in E. unfold both in E. rewrite str_app_length in E. cbn in E. lia.
Qed.

Lemma lasting_rest w : kept_ok w → (fl_up w = true → live_ok w) → fl_rotation w = None →
  lasting w (λ _ _ s, sd_bundle s = ca_cert_pem (fl_dir w) ∧ vouches (ca_cert_pem (fl_dir w)) s).
Proof.
  intros _ Hl Hr. unfold live_ok in Hl. rewrite Hr in Hl. split; rewrite ?Hr; [done|done| |].
  - intros fp signed s cert Hup Hc [Hb _]. destruct (Hl Hup) as [E _]. rewrite E in Hc. by split.
  - intros fp cert Hup _ Hc. destruct (Hl Hup) as [E _]. rewrite E in *. by split.
Qed.

Lemma lasting_both w r : fl_rotation w = Some r → ro_phase r ≠ Trim →
  lasting w (λ _ _ s, sd_bundle s = both (ro_new_cert_pem r) (ro_old_cert_pem r)).
Proof.
  intros Hr Hp. split; rewrite ?Hr; cbn; [|done|done|done]. intros fp signed s b renew _ [= <- _] _. unfold bundle.
  by destruct (ro_phase r).
Qed.

Lemma lasting_vouched w r : fl_rotation w = Some r → lasting w (λ _ _ s, vouches (ca_cert_pem (fl_signer w)) s).
Proof. intros Hr. split; rewrite ?Hr; done. Qed.

Lemma lasting_phase w r : kept_ok w → (fl_up w = true → live_ok w) → fl_rotation w = Some r →
  lasting w (λ fp signed s, truthful (ro_old_cert_pem r) (ro_new_cert_pem r) fp signed s ∧
                            host_in (ro_phase r) (ro_old_cert_pem r) (ro_new_cert_pem r) s).
Proof.
  intros Hk Hl Hr. unfold kept_ok, live_ok in *. rewrite Hr in *. destruct Hk as (_ & Hne & _).
  pose proof (both_ne (ro_new_cert_pem r) (ro_old_cert_pem r)) as Hb. split; rewrite ?Hr; cbn; [| | |done].
  - intros fp signed s b renew _ [= <- _] ((T1 & T2 & T3) & Hh). unfold truthful, bundle in *.
    destruct (ro_phase r); cbn in *; (split; [split; [tauto|split; [|exact T3]]|unfold vouches in *; cbn; tauto]);
      intros Hfp; specialize (T2 Hfp); destruct Hh as [Hh _]; destruct_or?; congruence.
  - intros fp signed s ((T1 & T2 & T3) & Hh). split; [|done]. repeat split; [|intros [= E%sha_inj]; done|done].
    intros [= E%sha_inj]. by left.
  - intros fp signed s cert Hup Hc ((T1 & T2 & T3) & Hh). specialize (Hl Hup). split.
    + repeat split; [done|done|]. intros [= E%sha_inj]. unfold vouches. cbn. by rewrite <- E.
    + unfold vouches. destruct (ro_phase r); cbn in *; (split; [tauto|]).
      * destruct Hl as ([E|E] & _); rewrite E in Hc; tauto.
      * destruct Hl as (E & _). rewrite E in Hc. tauto.
      * destruct Hl as (E & _). by rewrite E in Hc.
Qed.

Lemma inv_move w w' : move false w w' → inv w → inv w'.
Proof.
  intros Hm [Hk Hl]. destruct (move_same _ _ _ Hm) as (Er & Es & Et & Ec & Ed & Eu). split.
  - unfold kept_ok. rewrite Er, Ed. destruct (fl_rotation w) as [r|] eqn:Hr.
    + pose proof (lasting_phase w r Hk Hl Hr) as HP. unfold kept_ok in Hk. rewrite Hr in Hk.
      destruct Hk as (? & ? & Hh & ?). split; [done|]. split; [done|]. split; [|done]. by eapply all_hosts_move.
    + pose proof (lasting_rest w Hk Hl Hr) as HP. unfold kept_ok in Hk. rewrite Hr in Hk. by eapply all_hosts_move.
  - rewrite Eu. intros Hup. specialize (Hl Hup). unfold live_ok in *. rewrite Er, Es, Et, Ec, Ed.
    destruct (fl_rotation w) as [r|] eqn:Hr; [|done]. destruct (ro_phase r) eqn:Hp; [| |done].
    + destruct Hl as (? & ? & Hc & Hn). split; [done|]. split; [done|]. split.
      * destruct Hc as [?|[? Hb]]; [by left|right]. split; [done|].
        eapply all_hosts_move; [apply (lasting_both w r); [done|by rewrite Hp]|done|done].
      * destruct Hn as [?|[E Hv]]; [by left|right]. split; [done|]. unfold vouched_by in *. rewrite <- E in *.
        eapply all_hosts_move; [by eapply lasting_vouched|done|done].
    + destruct Hl as (E & ? & ? & Hn). split; [done|]. split; [done|]. split; [done|].
      destruct Hn as [?|Hv]; [by left|right]. unfold vouched_by in *. rewrite <- E in *.
      eapply all_hosts_move; [by eapply lasting_vouched|done|done].
Qed.

Lemma idle_move w w' : move false w w' → idle_ok w → idle_ok w'.
Proof.
  intros Hm (Hi & Hup & Ht). destruct (move_same _ _ _ Hm) as (Er & _ & Et & _ & _ & Eu). unfold idle_ok.
  rewrite Er, Et, Eu. split; [by eapply inv_move|done].
Qed.

(** Properties that last along any number of moves. *)
Definition stable (P : fleet → Prop) : Prop := ∀ w w', move false w w' → P w → P w'.

Lemma stable_moves P w w' : stable P → rtc (move false) w w' → P w → P w'.
Proof. intros HP. induction 1; eauto. Qed.

(** ** Calls *)

Abbreviation rsafe := (safe_on (rstep false) inv (λ _, True)).

Lemma rsafe_do {B} e (f : ranswer e → rprog B) (S : fleet → Prop) Q w :
  stable S → (∀ w, S w → inv w) → S w →
  (∀ w1 r w', S w1 → effect w1 e r w' → rsafe (f r) Q w') → rsafe (rdo e ≫= f) Q w.
Proof.
  intros Hst Hi Hw Hf. apply safe_call; [by apply Hi|done|]. intros r w' (w1 & Hm & He).
  apply (Hf w1 r w'); [by eapply stable_moves|done].
Qed.

(** A last call. *)
Lemma rsafe_end e (S : fleet → Prop) (Q : ranswer e → fleet → Prop) w :
  stable S → (∀ w, S w → inv w) → S w → (∀ w1 r w', S w1 → effect w1 e r w' → inv w' ∧ Q r w') → rsafe (rdo e) Q w.
Proof.
  intros Hst Hi Hw Hq. split; [by apply Hi|]. split; [done|]. intros r w' (w1 & Hm & He).
  apply (Hq w1 r w'); [by eapply stable_moves|done].
Qed.

(** A point of an operation on a rotation: what the process holds, and more. *)
Definition during (r : Rotation) (F : Ca → list string → string → Ca → bool → Prop) (G : fleet → Prop) (w : fleet) : Prop :=
  inv w ∧ fl_rotation w = Some r ∧ F (fl_signer w) (fl_trusted w) (fl_cert w) (fl_dir w) (fl_up w) ∧ G w.

Lemma stable_during r F G :
  (∀ w w', move false w w' → during r F G w → G w') → stable (during r F G).
Proof.
  intros HG w w' Hm Hd. pose proof (HG w w' Hm Hd) as Hg. destruct Hd as (Hi & Hr & Hf & _).
  pose proof (inv_move _ _ Hm Hi) as Hi'. destruct (move_same _ _ _ Hm) as (Er & Es & Et & Ec & Ed & Eu).
  unfold during. by rewrite Er, Es, Et, Ec, Ed, Eu.
Qed.

Lemma stable_plain r F : stable (during r F (λ _, True)).
Proof. by apply stable_during. Qed.

Lemma stable_both r F : ro_phase r ≠ Trim → stable (during r F (knows_both (ro_old_cert_pem r) (ro_new_cert_pem r))).
Proof.
  intros Hp. apply stable_during. intros w w' Hm (_ & Hr & _ & Hg). eapply all_hosts_move; [by apply lasting_both|done|done].
Qed.

Lemma stable_vouched r F ca :
  (∀ s t c d u, F s t c d u → ca_cert_pem s = ca) → stable (during r F (vouched_by ca)).
Proof.
  intros Hf. apply stable_during. intros w w' Hm (_ & Hr & HF & Hg). apply Hf in HF. unfold vouched_by in *. subst ca.
  eapply all_hosts_move; [by eapply lasting_vouched|done|done].
Qed.

Lemma during_inv r F G w : during r F G w → inv w.
Proof. by intros []. Qed.

(** The CA that signs in a phase, and those then trusted. *)
Definition signer_in (r : Rotation) : string :=
  match ro_phase r with Trust => ro_old_cert_pem r | _ => ro_new_cert_pem r end.
Definition trusted_in (r : Rotation) : list string :=
  match ro_phase r with Trim => [ro_new_cert_pem r] | _ => [ro_old_cert_pem r; ro_new_cert_pem r] end.

(** Applying a phase goes from [S1], through [S2] once it signs and [S3] once the
    listeners have changed, to [S4]. *)
Lemma apply_phase_safe (S1 S2 S3 S4 : fleet → Prop) r w :
  stable S1 → stable S2 → stable S3 → (∀ w, S1 w → inv w) → (∀ w, S2 w → inv w) → (∀ w, S3 w → inv w) → (∀ w, S4 w → inv w) →
  is_Some (new_ca r) → (ro_phase r = Trust → ∀ w, S1 w → ca_cert_pem (fl_signer w) = ro_old_cert_pem r) →
  (∀ w ca, S1 w → ca_cert_pem ca = signer_in r → S2 (set_ca ca w)) →
  (∀ w cert, S2 w → trusts (signer_in r) cert = true → S3 (set_agent_tls (trusted_in r) cert w)) →
  (∀ w cert, S3 w → S3 (set_api_tls cert w)) →
  (∀ w key, ro_phase r = Trim → S3 w → S3 (set_dir (λ ca, mkCa (ca_cert_pem ca) key) w)) →
  (∀ w, ro_phase r = Trim → S3 w → S4 (set_dir (λ ca, mkCa (ro_new_cert_pem r) (ca_key_pem ca)) w)) →
  (∀ w, ro_phase r ≠ Trim → S3 w → S4 w) →
  S1 w → rsafe (apply_phase r) (λ o w, match o with Some _ => S4 w | None => S3 w ∨ S4 w end) w.
Proof.
  intros St1 St2 St3 I1 I2 I3 I4 [new Hnew] Hold Hset Hagent Hapi Hkey Hcert Hdone Hw. unfold apply_phase.
  rewrite Hnew. cbn [try_bind mbind prog_bind bind_prog].
  assert (ca_cert_pem new = ro_new_cert_pem r) as En.
  { revert Hnew. unfold new_ca. destruct (open _ _); cbn; [|done]. case_match; [|done]. by intros [= <-]. }
  eapply safe_bind_mono with (Q' := λ signer w, S1 w ∧ ca_cert_pem signer = signer_in r).
  { unfold signer_in. destruct (ro_phase r); [|apply safe_ret; auto..].
    eapply rsafe_end; [exact St1|done|done|]. cbn. intros w1 ca w' H1' [-> ->]. auto. }
  clear w Hw. intros signer w _ [Hw Hs].
  eapply rsafe_do; [exact St1|done|exact Hw|]. clear w Hw. intros w1 [] w Hw Hef. cbn [effect] in Hef. subst w.
  apply (Hset _ signer) in Hw; [|done]. revert Hw. generalize (set_ca signer w1). clear w1. intros w Hw.
  eapply safe_try with (Q' := λ cert w, S2 w ∧ trusts (signer_in r) cert = true).
  { eapply rsafe_end; [exact St2|done|exact Hw|]. cbn. intros w1 c w' H2' [-> (n & names & ->)]. split; [auto|].
    destruct (issue_total n (ca_cert_pem signer) (ca_key_pem signer) names) as [[[c k] na] E]. rewrite E. cbn.
    split; [done|]. rewrite <- Hs. by eapply trusts_issuer. }
  clear w Hw. intros cert w _ [Hw Hc].
  eapply safe_try with (Q' := λ _, S3).
  { eapply rsafe_end; [exact St2|done|exact Hw|]. cbn. intros w1 o w' H2' [-> ->]. apply (Hagent _ cert) in H2'; auto. }
  clear w Hw. intros _ w _ Hw. eapply safe_try with (Q' := λ _, S3).
  { eapply rsafe_end; [exact St3|done|exact Hw|]. cbn. intros w1 o w' H2' [-> ->]. apply (Hapi _ cert) in H2'. auto. }
  clear w Hw. intros _ w _ H3'.
  destruct (ro_phase r) eqn:Hp; [apply safe_ret; [auto|by apply Hdone]..|]. clear Hdone.
  unfold store_ca. eapply safe_try with (Q' := λ _, S3).
  { eapply rsafe_end; [exact St3|done|exact H3'|]. cbn. intros w2 o w' H4' Hch.
    assert (S3 w') as Hs3 by (destruct Hch as [->|[_ ->]]; auto). split; [auto|]. destruct o; [done|by left]. }
  clear w H3'. intros _ w _ Hw. eapply rsafe_end; [exact St3|done|exact Hw|]. cbn. intros w2 o w' H4' Hch. rewrite En in Hch.
  destruct Hch as [->|[-> ->]]; [|by split; [auto|left]]. apply Hcert in H4'; [|done]. split; [auto|]. destruct o; [done|by right].
Qed.

(** ** Operations *)

Lemma behind_nil c wanted s h row :
  behind c wanted s = [] → hosts s !! h = Some row → ho_enrolled row = true → column_of c row = Some wanted.
Proof.
  intros Hb Hrow He. destruct (decide (column_of c row = Some wanted)) as [|Hne]; [done|exfalso].
  assert (ho_name row ∈ behind c wanted s) as Hin; [|rewrite Hb in Hin; by apply elem_of_nil in Hin].
  unfold behind. apply elem_of_sort_by, list_elem_of_fmap. exists (h, row). split; [done|].
  apply list_elem_of_In, List.filter_In. split; [by apply list_elem_of_In, elem_of_map_to_list|].
  by rewrite He, bool_decide_false.
Qed.

Lemma stable_idle : stable idle_ok.
Proof. intros w w'. apply idle_move. Qed.

Lemma stable_row r : stable (λ w, idle_ok w ∧ fl_rotation w = Some r).
Proof. intros w w' Hm [Hi Hr]. destruct (move_same _ _ _ Hm) as [Er _]. rewrite Er. split; [by eapply idle_move|done]. Qed.

Lemma idle_inv w : idle_ok w → inv w.
Proof. by intros []. Qed.

Lemma bump_move lossy w : move lossy w (set_store bump_all_hosts w).
Proof.
  apply move_elsewhere. intros h row'. unfold bump_all_hosts. cbn. rewrite lookup_fmap.
  intros (row & Hrow & ->)%fmap_Some. left. exists row. by destruct (ho_enrolled row) eqn:E.
Qed.

Lemma bump_safe w : idle_ok w → rsafe (rdo BumpAllHosts) (λ _, idle_ok) w.
Proof.
  intros Hw. eapply rsafe_end; [exact stable_idle|apply idle_inv|exact Hw|]. cbn. intros w1 o w' H1' Hch.
  assert (idle_ok w') as Hi; [|by split; [apply idle_inv|]].
  destruct Hch as [->|[_ ->]]; [|done]. eapply idle_move; [apply bump_move|done].
Qed.

(** Where every host has heard of both CAs. *)
Definition heard (r : Rotation) (F : Ca → string → Prop) : fleet → Prop :=
  during r (λ s t c d u, u = true ∧ ro_old_cert_pem r ∈ t ∧ ro_new_cert_pem r ∈ t ∧
    (ca_cert_pem s = ro_old_cert_pem r ∨ ca_cert_pem s = ro_new_cert_pem r) ∧
    (trusts (ro_old_cert_pem r) c = true ∨ trusts (ro_new_cert_pem r) c = true) ∧ F s c)
    (knows_both (ro_old_cert_pem r) (ro_new_cert_pem r)).

Lemma stable_heard r F : ro_phase r = Trust → stable (heard r F).
Proof. intros Hp. apply stable_both. by rewrite Hp. Qed.

Lemma heard_idle r F w : heard r F w → idle_ok w.
Proof.
  intros (Hi & Hr & (Hup & _ & Hn & _) & _). split; [done|]. split; [done|]. intros x. rewrite Hr. by intros [= <-].
Qed.

(** The process may change as long as it keeps to those two. *)
Lemma heard_process r F F' w s t c a :
  ro_phase r = Trust → heard r F w → ro_old_cert_pem r ∈ t → ro_new_cert_pem r ∈ t →
  ca_cert_pem s = ro_old_cert_pem r ∨ ca_cert_pem s = ro_new_cert_pem r →
  trusts (ro_old_cert_pem r) c = true ∨ trusts (ro_new_cert_pem r) c = true → F' s c →
  heard r F' (set_api_tls a (set_agent_tls t c (set_ca s w))).
Proof.
  intros Hp ((Hk & _) & Hr & (Hup & _) & Hb) Ho Hn Hs Hc HF.
  split; [|done]. split; [done|]. intros _. unfold live_ok. cbn. rewrite Hr, Hp. split; [done|]. split; [done|].
  split; [|by left]. destruct Hc; [by left|by right].
Qed.

(** From [trust] to [issue]. *)
Lemma advance_issue r w :
  ro_phase r = Trust → heard r (λ _ _, True) w →
  rsafe (_ ←? apply_phase (with_phase Issue r); _ ←? rdo (UpdatePhase Issue); rdo BumpAllHosts) (λ _, idle_ok) w.
Proof.
  intros Hp Hw. set (S3 := heard r (λ s c, ca_cert_pem s = ro_new_cert_pem r ∧ trusts (ro_new_cert_pem r) c = true)).
  eapply safe_try with (Q' := λ _, S3).
  { eapply safe_mono.
    - apply (apply_phase_safe (heard r (λ _ _, True)) (heard r (λ s _, ca_cert_pem s = ro_new_cert_pem r)) S3 S3);
        try (by apply stable_heard); try (by apply during_inv); try done; cbn.
      + destruct Hw as ((Hk & _) & Hr & _). unfold kept_ok in Hk. rewrite Hr in Hk. by destruct Hk.
      + intros w1 ca H1' Hs. pose proof H1' as (_ & _ & (_ & Ho & Hn & _ & Hc & _) & _).
        refine (heard_process r _ _ w1 ca (fl_trusted w1) (fl_cert w1) (fl_api_cert w1) Hp H1' Ho Hn _ Hc Hs). by right.
      + intros w1 cert H1' Hc. pose proof H1' as (_ & _ & (_ & _ & _ & Hs & _ & Hs') & _).
        refine (heard_process r _ _ w1 (fl_signer w1) _ cert (fl_api_cert w1) Hp H1' _ _ Hs _ _); [set_solver..|by right|done].
    - intros [] w' _ Hs; [done|]. destruct Hs as [Hs|Hs]; by eapply heard_idle. }
  clear w Hw. intros _ w _ Hw. eapply safe_try with (Q' := λ _, idle_ok); [|intros _ w' _; apply bump_safe].
  eapply rsafe_end; [by apply (stable_heard r)|apply during_inv|exact Hw|]. cbn. intros w1 o w' H1' Hch.
  assert (idle_ok w') as Hi; [|split; [by apply idle_inv|by destruct o]].
  destruct Hch as [->|[_ ->]]; [|exact (heard_idle _ _ _ H1')].
  destruct H1' as ((Hk & _) & Hr & (Hup & Ho & Hn & _ & _ & Hs & Hc) & Hb). unfold kept_ok in Hk. rewrite Hr, Hp in Hk.
  rewrite Hr. cbn. destruct Hk as (Hca & Hne & Hh & _). split; [split|].
  - unfold kept_ok. cbn. split; [done|]. split; [done|]. split; [|done].
    eapply all_hosts_impl; [exact (all_hosts_and _ _ _ Hh Hb)|]. cbn. intros fp signed s [[Ht [_ Hv]] Hbs]. done.
  - intros _. unfold live_ok. cbn. auto.
  - split; [done|]. by intros x [= <-].
Qed.

(** Where every host has a certificate of the new CA. *)
Definition renewed (r : Rotation) (F : list string → Ca → Prop) : fleet → Prop :=
  during r (λ s t c d u, u = true ∧ ca_cert_pem s = ro_new_cert_pem r ∧ ro_new_cert_pem r ∈ t ∧
    trusts (ro_new_cert_pem r) c = true ∧ F t d) (vouched_by (ro_new_cert_pem r)).

Lemma stable_renewed r F : stable (renewed r F).
Proof. apply stable_vouched. tauto. Qed.

Lemma renewed_idle r F w : ro_phase r = Issue → renewed r F w → idle_ok w.
Proof.
  intros Hp (Hi & Hr & (Hup & _) & _). split; [done|]. split; [done|]. intros x. rewrite Hr. intros [= <-]. by rewrite Hp.
Qed.

Lemma renewed_process r F F' w s t c d :
  ro_phase r = Issue → renewed r F w → ca_cert_pem s = ro_new_cert_pem r → ro_new_cert_pem r ∈ t →
  trusts (ro_new_cert_pem r) c = true → F' t d →
  renewed r F' (set_dir (λ _, d) (set_agent_tls t c (set_ca s w))).
Proof.
  intros Hp ((Hk & _) & Hr & (Hup & _) & Hv) Hs Ht Hc HF. split; [|done]. unfold kept_ok in Hk. split.
  - unfold kept_ok. cbn. rewrite Hr, Hp in *. tauto.
  - intros _. unfold live_ok. cbn. rewrite Hr, Hp. auto.
Qed.

(** From [issue] to [trim]. *)
Lemma advance_trim r w :
  ro_phase r = Issue → renewed r (λ _ _, True) w →
  rsafe (_ ←? apply_phase (with_phase Trim r); _ ←? rdo (UpdatePhase Trim); rdo BumpAllHosts) (λ _, idle_ok) w.
Proof.
  intros Hp Hw. set (S4 := renewed r (λ _ d, ca_cert_pem d = ro_new_cert_pem r)).
  eapply safe_try with (Q' := λ _, S4).
  { eapply safe_mono.
    - apply (apply_phase_safe (renewed r (λ _ _, True)) (renewed r (λ _ _, True)) (renewed r (λ _ _, True)) S4);
        try (apply stable_renewed); try (by apply during_inv); try done; cbn.
      + destruct Hw as ((Hk & _) & Hr & _). unfold kept_ok in Hk. rewrite Hr in Hk. by destruct Hk.
      + intros w1 ca H1' Hs. pose proof H1' as (_ & _ & (_ & _ & Ht & Hc & _) & _).
        exact (renewed_process r _ _ w1 ca (fl_trusted w1) (fl_cert w1) (fl_dir w1) Hp H1' Hs Ht Hc I).
      + intros w1 cert H1' Hc. pose proof H1' as (_ & _ & (_ & Hs & _) & _).
        refine (renewed_process r _ _ w1 (fl_signer w1) _ cert (fl_dir w1) Hp H1' Hs _ Hc I). by left.
      + intros w1 _ H1'. pose proof H1' as (_ & _ & (_ & Hs & Ht & Hc & _) & _).
        exact (renewed_process r _ _ w1 (fl_signer w1) (fl_trusted w1) (fl_cert w1) (mkCa _ _) Hp H1' Hs Ht Hc eq_refl).
    - intros [] w' _ Hs; [done|]. destruct Hs as [Hs|Hs]; by eapply renewed_idle. }
  clear w Hw. intros _ w _ Hw. eapply safe_try with (Q' := λ _, idle_ok); [|intros _ w' _; apply bump_safe].
  eapply rsafe_end; [apply stable_renewed|apply during_inv|exact Hw|]. cbn. intros w1 o w' H1' Hch.
  assert (idle_ok w') as Hi; [|split; [by apply idle_inv|by destruct o]].
  destruct Hch as [->|[_ ->]]; [|by eapply renewed_idle].
  destruct H1' as ((Hk & _) & Hr & (Hup & Hs & Ht & Hc & Hd) & Hv). unfold kept_ok in Hk. rewrite Hr, Hp in Hk.
  rewrite Hr. cbn. destruct Hk as (Hca & Hne & Hh & _). split; [split|].
  - unfold kept_ok. cbn. split; [done|]. split; [done|]. split; [|done].
    eapply all_hosts_impl; [exact (all_hosts_and _ _ _ Hh Hv)|]. cbn. intros fp signed s [[Hf [Hb _]] Hvs]. auto.
  - intros _. unfold live_ok. by cbn.
  - split; [done|]. by intros x [= <-].
Qed.

(** The end of a rotation. *)
Definition trimmed (r : Rotation) : fleet → Prop :=
  during r (λ s t c d u, u = true) (all_hosts (λ _ _ s, sd_bundle s = ro_new_cert_pem r)).

Lemma stable_trimmed r : ro_phase r = Trim → stable (trimmed r).
Proof.
  intros Hp. apply stable_during. intros w w' Hm (_ & Hr & _ & Hg). eapply all_hosts_move; [|done|done].
  split; rewrite ?Hr; cbn; try done. intros fp signed s b renew _ [= <- _] _. cbn. unfold bundle. by rewrite Hp.
Qed.

Lemma advance_ends r w :
  ro_phase r = Trim → trimmed r w → rsafe (_ ←? rdo DeleteRotation; rdo BumpAllHosts) (λ _, idle_ok) w.
Proof.
  intros Hp Hw. eapply safe_try with (Q' := λ _, idle_ok); [|intros _ w' _; apply bump_safe].
  eapply rsafe_end; [by apply stable_trimmed|apply during_inv|exact Hw|]. cbn. intros w1 o w' H1' Hch.
  assert (idle_ok w') as Hi; [|split; [by apply idle_inv|by destruct o]].
  destruct H1' as (Hi & Hr & Hup & Hb). destruct Hch as [->|[_ ->]].
  - destruct Hi as [Hk Hl]. specialize (Hl Hup). unfold kept_ok, live_ok in *. rewrite Hr, Hp in *.
    destruct Hk as (_ & _ & Hh & Hd), Hl as (Hs & Ht & Hc). split; [split|done].
    + unfold kept_ok. cbn. rewrite Hd. eapply all_hosts_impl; [exact (all_hosts_and _ _ _ Hh Hb)|]. cbn.
      intros fp signed s [[_ [_ Hv]] Hbs]. done.
    + intros _. unfold live_ok. cbn. by rewrite Hd.
  - split; [done|]. split; [done|]. intros x. rewrite Hr. intros [= <-]. by rewrite Hp.
Qed.

(** Columns that are all as wanted say where the hosts are. *)
Lemma caught_up w r c wanted :
  inv w → fl_rotation w = Some r → behind c wanted (fl_store w) = [] →
  all_hosts (λ fp signed s, truthful (ro_old_cert_pem r) (ro_new_cert_pem r) fp signed s ∧
    host_in (ro_phase r) (ro_old_cert_pem r) (ro_new_cert_pem r) s ∧
    match c with CertificateCa => signed | CaFingerprint => fp end = Some wanted) w.
Proof.
  intros [Hk _] Hr Hb h row Hrow He. unfold kept_ok in Hk. rewrite Hr in Hk. destruct Hk as (_ & _ & Hh & _).
  destruct (Hh h row Hrow He) as (s & Hs & Ht & Hin). exists s. split; [done|]. split; [done|]. split; [done|].
  pose proof (behind_nil c wanted _ h row Hb Hrow He) as Hc. by destruct c.
Qed.

Lemma advance_safe w : idle_ok w → rsafe advance_rotation (λ _, idle_ok) w.
Proof.
  intros Hw. unfold advance_rotation.
  eapply safe_try with (Q' := λ current w, idle_ok w ∧ current = fl_rotation w).
  { eapply rsafe_end; [exact stable_idle|apply idle_inv|exact Hw|]. cbn. intros w1 o w' H1' [-> Ho].
    split; [by apply idle_inv|]. destruct Ho as [-> | ->]; done. }
  clear w Hw. intros current w _ [Hw ->]. destruct (fl_rotation w) as [r|] eqn:Hr; [|apply safe_ret; [by apply idle_inv|done]].
  eapply safe_try with (Q' := λ l w, idle_ok w ∧ fl_rotation w = Some r ∧
    (l = [] → match ro_phase r with Issue => behind CertificateCa (sha256_hex (ro_new_cert_pem r)) (fl_store w)
              | _ => behind CaFingerprint (sha256_hex (bundle r)) (fl_store w) end = [])).
  { unfold waiting_for. destruct (ro_phase r) eqn:Hp;
      (eapply rsafe_end; [exact (stable_row r)|by intros ? [[]]|done|]; cbn; intros w1 o w' [H1' Hr1] [-> Ho];
       split; [by apply idle_inv|]; destruct Ho as [-> | ->]; [done|]; exact (conj H1' (conj Hr1 (λ E, E)))). }
  clear w Hw Hr. intros l w _ (Hw & Hr & Hl). destruct l as [|x l]; [|apply safe_ret; [by apply idle_inv|done]].
  specialize (Hl eq_refl). pose proof Hw as (Hi & Hup & Ht). pose proof Hi as [_ Hlive]. specialize (Hlive Hup).
  unfold live_ok in Hlive. rewrite Hr in Hlive. unfold bundle in Hl.
  destruct (ro_phase r) eqn:Hp; cbn [next_phase]; rewrite ?Hp in Hl; pose proof (caught_up w r _ _ Hi Hr Hl) as Hc.
  - apply advance_issue; [done|]. destruct Hlive as (Hs & Ho & Hcert & _). split; [done|]. split; [done|]. split.
    + repeat split; [done|done|by apply Ht|done|]. destruct Hcert as [?|[? _]]; auto.
    + eapply all_hosts_impl; [exact Hc|]. cbn. rewrite Hp. intros fp signed s ((T1 & _) & [[Hb|Hb] _] & ->); [|done].
      pose proof (both_ne (ro_new_cert_pem r) (ro_old_cert_pem r)). destruct (T1 eq_refl) as [?|E]; [done|].
      destruct Hi as [Hk _]. unfold kept_ok in Hk. rewrite Hr in Hk. destruct Hk as (_ & Hne & _). congruence.
  - apply advance_trim; [done|]. destruct Hlive as (Hs & Hn & Hcert & _). split; [done|]. split; [done|]. split; [done|].
    eapply all_hosts_impl; [exact Hc|]. cbn. intros fp signed s ((_ & _ & T3) & _ & ->). by apply T3.
  - apply (advance_ends r); [done|]. split; [done|]. split; [done|]. split; [done|].
    eapply all_hosts_impl; [exact Hc|]. cbn. intros fp signed s ((_ & T2 & _) & _ & ->). by apply T2.
Qed.

Lemma status_safe w : idle_ok w → rsafe rotation_status (λ _, idle_ok) w.
Proof.
  intros Hw. unfold rotation_status. eapply safe_try with (Q' := λ _, idle_ok).
  { eapply rsafe_end; [exact stable_idle|apply idle_inv|exact Hw|]. cbn. intros w1 o w' H1' [-> _].
    split; [by apply idle_inv|by destruct o]. }
  clear w Hw. intros [r|] w _ Hw.
  - eapply safe_try with (Q' := λ _, idle_ok); [|intros l w' Hi Hw'; by apply safe_ret].
    unfold waiting_for. destruct (ro_phase r); (eapply rsafe_end; [exact stable_idle|apply idle_inv|exact Hw|]; cbn;
      intros w1 o w' H1' [-> _]; split; [by apply idle_inv|by destruct o]).
  - eapply safe_bind_mono with (Q' := λ _, idle_ok); [|intros ca w' Hi Hw'; by apply safe_ret].
    eapply rsafe_end; [exact stable_idle|apply idle_inv|exact Hw|]. cbn. intros w1 o w' H1' [-> _].
    split; [by apply idle_inv|done].
Qed.

Definition at_peace (w : fleet) : Prop := idle_ok w ∧ fl_rotation w = None.

Lemma stable_peace : stable at_peace.
Proof.
  intros w w' Hm [Hi Hr]. destruct (move_same _ _ _ Hm) as (Er & _). split; [by eapply idle_move|by rewrite Er].
Qed.

Lemma both_ne_old new old : both new old ≠ old.
Proof.
  intros E. apply (f_equal String.length) in E. unfold both in E. rewrite str_app_length in E. cbn in E. lia.
Qed.

(** A CA stays unlike all that is known while nothing changes it. *)
Lemma stable_unseen new : stable (λ w, at_peace w ∧ unseen new w).
Proof.
  intros w w' Hm [Hp Hu]. split; [by eapply stable_peace|]. destruct Hp as [((Hk & Hl) & Hup & _) Hr].
  specialize (Hl Hup). unfold kept_ok, live_ok in *. rewrite Hr in *. destruct Hl as [Hs _].
  destruct Hu as [Hne Hrows]. pose proof (both_ne_old new (ca_cert_pem (fl_signer w))) as Hb.
  assert (Some (sha256_hex (ca_cert_pem (fl_signer w))) ≠ Some (sha256_hex new)) as Hc
    by (intros [= E%sha_inj]; congruence).
  assert (Some (sha256_hex (ca_cert_pem (fl_signer w))) ≠ Some (sha256_hex (both new (ca_cert_pem (fl_signer w))))) as Hc'
    by (intros [= E%sha_inj]; congruence).
  destruct Hm as [w h s b renew _ _ _ Hf|w h s r store _ Hside _ Hfp Hrep|
    w h s sign csr cert store _ _ _ Hsign Hrot|?|w th sign token csr h cert store _ _ Hsign Hen|w store Hst];
    [by rewrite Hr in Hf|..|done| |]; (split; [done|]); cbn in *; intros k row.
  - apply report_hosts in Hrep as [(row0 & Hrow0 & He) [t Ht]]. rewrite Ht. destruct (decide (k = h)) as [->|Hne'].
    + rewrite lookup_alter_eq, Hrow0. intros [= <-]. cbn. rewrite Hfp. destruct (Hk h row0 Hrow0 He) as (x & Hx & Hbx & _).
      simplify_eq. rewrite Hbx, <- Hs. split; [done|]. split; [done|]. by apply (Hrows h row0).
    + rewrite lookup_alter_ne by done. apply Hrows.
  - apply rotate_hosts in Hrot as [_ Ht]. rewrite Ht. destruct (decide (k = h)) as [->|Hne'].
    + rewrite lookup_alter_eq. intros (row0 & Hrow & ->)%fmap_Some. cbn. destruct (Hrows h row0 Hrow) as (? & ? & _). done.
    + rewrite lookup_alter_ne by done. apply Hrows.
  - apply enroll_hosts in Hen as [_ Ht]. rewrite Ht. destruct (decide (k = h)) as [->|Hne'].
    + rewrite lookup_alter_eq. intros (row0 & Hrow & ->)%fmap_Some. cbn. destruct (Hrows h row0 Hrow) as (? & ? & _). done.
    + rewrite lookup_alter_ne by done. apply Hrows.
  - intros Hrow. destruct (Hst k row Hrow) as [(row0 & Hrow0 & _ & -> & ->)|(_ & -> & ->)]; [by apply (Hrows k row0)|done].
Qed.

(** A rotation that was just begun. *)
Definition begun (r : Rotation) (F : list string → Prop) : fleet → Prop :=
  during r (λ s t c d u, u = true ∧ ca_cert_pem s = ro_old_cert_pem r ∧ ro_old_cert_pem r ∈ t ∧
    trusts (ro_old_cert_pem r) c = true ∧ F t) (vouched_by (ro_old_cert_pem r)).

Lemma stable_begun r F : stable (begun r F).
Proof. apply stable_vouched. tauto. Qed.

Lemma begun_process r F F' w s t c :
  ro_phase r = Trust → begun r F w → ca_cert_pem s = ro_old_cert_pem r → ro_old_cert_pem r ∈ t →
  trusts (ro_old_cert_pem r) c = true → F' t → begun r F' (set_agent_tls t c (set_ca s w)).
Proof.
  intros Hp ((Hk & _) & Hr & (Hup & _) & Hv) Hs Ht Hc HF. split; [|done]. split; [done|].
  intros _. unfold live_ok. cbn. rewrite Hr, Hp. split; [by left|]. split; [done|]. split; [by left|]. by right.
Qed.

Lemma begin_safe r w :
  ro_phase r = Trust → begun r (λ _, True) w → rsafe (apply_phase r) (λ _, λ w, begun r (λ t, ro_new_cert_pem r ∈ t) w) w.
Proof.
  intros Hp Hw. set (S3 := begun r (λ t, ro_new_cert_pem r ∈ t)). eapply safe_mono.
  - apply (apply_phase_safe (begun r (λ _, True)) (begun r (λ _, True)) S3 S3);
      try (apply stable_begun); try (by apply during_inv); try done; try (by rewrite Hp); unfold signer_in, trusted_in;
      rewrite ?Hp.
    + destruct Hw as ((Hk & _) & Hr & _). unfold kept_ok in Hk. rewrite Hr in Hk. by destruct Hk.
    + by intros _ w1 (_ & _ & (_ & Hs & _) & _).
    + intros w1 ca H1' Hs. pose proof H1' as (_ & _ & (_ & _ & Ht & Hc & _) & _).
      exact (begun_process r _ _ w1 ca (fl_trusted w1) (fl_cert w1) Hp H1' Hs Ht Hc I).
    + intros w1 cert H1' Hc. pose proof H1' as (_ & _ & (_ & Hs & _) & _).
      refine (begun_process r _ _ w1 (fl_signer w1) _ cert Hp H1' Hs _ Hc _); set_solver.
  - intros [] w' _ Hs; [done|]. by destruct Hs.
Qed.

Lemma begun_idle r w : begun r (λ t, ro_new_cert_pem r ∈ t) w → idle_ok w.
Proof.
  intros (Hi & Hr & (Hup & _ & _ & _ & Ht) & _). split; [done|]. split; [done|]. intros x. rewrite Hr. by intros [= <-].
Qed.

(** The row of a new CA, as it is inserted. *)
Lemma begun_inserted w new old :
  at_peace w → unseen (ca_cert_pem new) w → fl_signer w = old → parses (ca_cert_pem new) (ca_key_pem new) = true →
  let r := mkRotation Trust (ca_cert_pem old) (ca_cert_pem new) (seal NEW_KEY_CONTEXT (ca_key_pem new)) in
  begun r (λ _, True) (set_rotation (Some r) w).
Proof.
  intros [((Hk & Hl) & Hup & _) Hr] [Hne Hrows] <- Hparse r. specialize (Hl Hup). unfold kept_ok, live_ok in *.
  rewrite Hr in *. destruct Hl as (Hs & Ht & Hc). rewrite <- Hs in *.
  assert (vouched_by (ca_cert_pem (fl_signer w)) w) as Hv by (eapply all_hosts_impl; [exact Hk|]; by intros ??? []).
  assert (kept_ok (set_rotation (Some r) w)) as Hk'.
  { unfold kept_ok. cbn. split; [|split; [done|split; [|done]]].
    - unfold new_ca. cbn. rewrite Hparse. by eexists.
    - intros h row Hrow He. destruct (Hk h row Hrow He) as (s & Hside & Hb & Hvs). exists s. split; [done|].
      destruct (Hrows h row Hrow) as (R1 & R2 & R3). split; [by split|]. cbn. auto. }
  split; [split; [done|]|by repeat split]. intros _. unfold live_ok. cbn. split; [by left|]. split; [done|].
  split; [by left|]. by right.
Qed.

Lemma start_safe w : idle_ok w → rsafe start_rotation (λ _, idle_ok) w.
Proof.
  intros Hw. unfold start_rotation.
  eapply safe_try with (Q' := λ current w, idle_ok w ∧ current = fl_rotation w).
  { eapply rsafe_end; [exact stable_idle|apply idle_inv|exact Hw|]. cbn. intros w1 o w' H1' [-> Ho].
    split; [by apply idle_inv|]. destruct Ho as [-> | ->]; done. }
  clear w Hw. intros current w _ [Hw ->]. destruct (fl_rotation w) as [r|] eqn:Hr; [apply safe_ret; [by apply idle_inv|done]|].
  eapply safe_try with (Q' := λ new w, (at_peace w ∧ unseen (ca_cert_pem new) w) ∧ parses (ca_cert_pem new) (ca_key_pem new) = true).
  { eapply rsafe_end; [exact stable_peace|by intros ? [[]]|by split|]. cbn. intros w1 o w' H1' [-> Ho].
    split; [by apply idle_inv, H1'|]. destruct o as [ca|]; [by destruct Ho|by destruct H1']. }
  clear w Hw Hr. intros new w _ [Hw Hparse].
  eapply safe_bind_mono with (Q' := λ old w, (at_peace w ∧ unseen (ca_cert_pem new) w) ∧ old = fl_signer w).
  { eapply rsafe_end; [exact (stable_unseen (ca_cert_pem new))|by intros ? [[[]]]|done|]. cbn. intros w1 o w' H1' [-> ->].
    split; [by apply idle_inv, H1'|done]. }
  clear w Hw. intros old w _ [Hw Eold].
  set (r := mkRotation Trust (ca_cert_pem old) (ca_cert_pem new) (seal NEW_KEY_CONTEXT (ca_key_pem new))).
  eapply safe_try with (Q' := λ (inserted : bool) w, inserted = true ∧ begun r (λ _, True) w).
  { eapply rsafe_end with (S := λ w, (at_peace w ∧ unseen (ca_cert_pem new) w) ∧ fl_signer w = old).
    - intros w1 w2 Hm [H1' E]. split; [by eapply stable_unseen|]. destruct (move_same _ _ _ Hm) as (_ & -> & _). done.
    - by intros ? [[[[]]]].
    - by split.
    - cbn. intros w1 o w' [[[Hi Hr] Hu] E]. rewrite Hr. intros [[-> ->]|[-> ->]]; [by split; [apply idle_inv|]|].
      assert (begun r (λ _, True) (set_rotation (Some r) w1)) as Hb; [|by split; [eapply during_inv|]].
      by apply (begun_inserted w1 new old). }
  clear w Hw Eold. intros inserted w _ [-> Hw]. cbn [negb]. eapply safe_try with (Q' := λ _, idle_ok).
  { eapply safe_mono; [by apply begin_safe|]. cbn beta. intros o w' _ Hb. apply begun_idle in Hb. by destruct o. }
  clear w Hw. intros _ w _ Hw. eapply safe_try with (Q' := λ _, idle_ok); [|intros _ w' _; apply status_safe].
  eapply safe_mono; [by apply bump_safe|]. by intros [].
Qed.

(** ** The start of the service *)

Definition down (F : Ca → list string → string → Ca → Prop) (w : fleet) : Prop :=
  inv w ∧ fl_up w = false ∧ F (fl_signer w) (fl_trusted w) (fl_cert w) (fl_dir w).

Lemma stable_down F : stable (down F).
Proof.
  intros w w' Hm (Hi & Hup & HF). destruct (move_same _ _ _ Hm) as (_ & Es & Et & Ec & Ed & Eu).
  unfold down. rewrite Es, Et, Ec, Ed, Eu. split; [by eapply inv_move|done].
Qed.

Lemma down_inv F w : down F w → inv w.
Proof. by intros []. Qed.

Lemma inv_down w : kept_ok w → fl_up w = false → inv w.
Proof. intros Hk Hup. split; [done|]. by rewrite Hup. Qed.

(** A phase in force in a process that does not serve yet. *)
Definition resumed (r : Rotation) (F : Ca → list string → string → Prop) : fleet → Prop :=
  during r (λ s t c d u, u = false ∧ F s t c) (λ _, True).

Definition in_force (r : Rotation) (s : Ca) (t : list string) (c : string) : Prop :=
  ca_cert_pem s = signer_in r ∧ t = trusted_in r ∧ trusts (signer_in r) c = true.

Lemma resume_phase r w :
  resumed r (λ s _ _, ro_phase r = Trust → ca_cert_pem s = ro_old_cert_pem r) w →
  rsafe (apply_phase r) (λ o w, o = Some () → resumed r (in_force r) w) w.
Proof.
  intros Hw. eapply safe_mono.
  - apply (apply_phase_safe (resumed r (λ s _ _, ro_phase r = Trust → ca_cert_pem s = ro_old_cert_pem r))
      (resumed r (λ s _ _, ca_cert_pem s = signer_in r)) (resumed r (in_force r)) (resumed r (in_force r)));
      try (apply stable_plain); try (by apply during_inv); try done.
    + destruct Hw as ((Hk & _) & Hr & _). unfold kept_ok in Hk. rewrite Hr in Hk. by destruct Hk.
    + intros Hp w1 (_ & _ & (_ & Hs) & _). auto.
    + intros w1 ca ((Hk & _) & Hr & (Hup & _) & _) Hs. split; [by apply inv_down|done].
    + intros w1 cert ((Hk & _) & Hr & (Hup & Hs) & _) Hc. split; [by apply inv_down|done].
    + intros w1 Hp ((Hk & _) & Hr & (Hup & Hs) & _). split; [|done]. apply inv_down; [|done].
      unfold kept_ok in *. cbn. rewrite Hr, Hp in *. tauto.
  - by intros o w' _ Ho ->.
Qed.

Lemma serve_resumed r w : resumed r (in_force r) w → idle_ok (set_up true w).
Proof.
  intros ((Hk & _) & Hr & (Hup & Hs & Ht & Hc) & _). unfold signer_in, trusted_in in *.
  split; [split; [done|]|split; [done|]].
  - intros _. unfold live_ok. cbn. rewrite Hr, Ht. destruct (ro_phase r).
    + split; [by left|]. split; [by left|]. split; [by left|]. left. set_solver.
    + split; [done|]. split; [set_solver|]. split; [done|]. left. by left.
    + split; [done|]. split; [by left|done].
  - cbn. intros x. rewrite Hr, Ht. intros [= <-] ->. set_solver.
Qed.

(** A process that may begin to serve. *)
Definition ready (w : fleet) : Prop := inv w ∧ fl_up w = false ∧ idle_ok (set_up true w).

Lemma stable_ready : stable ready.
Proof.
  intros w w' Hm (Hi & Hup & Hr). pose proof (inv_move _ _ Hm Hi) as Hi'.
  destruct Hm as [| | | | |w store Hst]; try congruence. split; [done|]. split; [done|].
  eapply (idle_move (set_up true w)); [|done]. by apply (move_elsewhere false (set_up true w)).
Qed.

Lemma resume_safe w :
  down (λ s t c d, s = d ∧ t = [ca_cert_pem d] ∧ trusts (ca_cert_pem d) c = true) w →
  rsafe resume (λ o w, o = Some () → ready w) w.
Proof.
  intros Hw. unfold resume. set (F := λ s t c d, s = d ∧ t = [ca_cert_pem d] ∧ trusts (ca_cert_pem d) c = true) in *.
  eapply safe_try with (Q' := λ current w, down F w ∧ current = fl_rotation w).
  { eapply rsafe_end; [exact (stable_down F)|apply down_inv|exact Hw|]. cbn. intros w1 o w' H1' [-> Ho].
    split; [by eapply down_inv|]. by destruct Ho as [-> | ->]. }
  clear w Hw. intros current w _ [Hw ->]. pose proof Hw as ([Hk Hl] & Hup & Hs & Ht & Hc).
  destruct (fl_rotation w) as [r|] eqn:Hr.
  - eapply safe_mono; [apply resume_phase|].
    + split; [by split|]. split; [done|]. split; [|done]. split; [done|]. intros Hp. unfold kept_ok in Hk.
      rewrite Hr, Hp in Hk. rewrite Hs. tauto.
    + intros o w' Hi Ho E. specialize (Ho E). split; [done|]. split; [apply Ho|by eapply serve_resumed].
  - apply safe_ret; [by split|]. intros _. split; [by split|]. split; [done|]. split; [split; [done|]|].
    + intros _. unfold live_ok. cbn. rewrite Hr, Hs, Ht. split; [done|]. split; [by left|done].
    + split; [done|]. cbn. by rewrite Hr.
Qed.

Lemma boot_safe w : inv w → rsafe boot (λ o w, o = Some () → idle_ok w) (set_up false w).
Proof.
  intros [Hk _]. unfold boot.
  eapply safe_try with (Q' := λ ca, down (λ _ _ _ d, d = ca)).
  { eapply rsafe_end; [exact (stable_down (λ _ _ _ _, True))|apply down_inv|split; [by apply inv_down|done]|].
    cbn. intros w1 o w' H1' [-> Ho]. split; [by eapply down_inv|]. destruct Ho as [->|[-> _]]; [done|].
    destruct H1' as (? & ? & _). by split. }
  clear w Hk. intros ca w _ Hw.
  eapply safe_try with (Q' := λ cert w, down (λ _ _ _ d, d = ca) w ∧ trusts (ca_cert_pem ca) cert = true).
  { eapply rsafe_end; [exact (stable_down (λ _ _ _ d, d = ca))|apply down_inv|exact Hw|].
    cbn. intros w1 o w' H1' [-> (n & names & ->)]. split; [by eapply down_inv|].
    destruct (issue_total n (ca_cert_pem ca) (ca_key_pem ca) names) as [[[c k] na] E]. rewrite E. cbn. split; [done|].
    by eapply trusts_issuer. }
  clear w Hw. intros cert w _ [Hw Hc].
  eapply safe_bind_mono with (Q' := λ _, down (λ s t c d, s = d ∧ t = [ca_cert_pem d] ∧ trusts (ca_cert_pem d) c = true)).
  { eapply rsafe_end; [exact (stable_down (λ _ _ _ d, d = ca))|apply down_inv|exact Hw|].
    cbn. intros w1 [] w' ((Hk & _) & Hup & <-) ->. cbn.
    assert (inv (set_api_tls cert (set_agent_tls [ca_cert_pem (fl_dir w1)] cert (set_ca (fl_dir w1) w1)))) as Hi
      by by apply inv_down.
    split; [done|]. by split. }
  clear w Hw. intros [] w _ Hw. eapply safe_try with (Q' := λ _, ready).
  { eapply safe_mono; [by apply resume_safe|]. cbn beta. intros [[]|] w' _ Ho; [by apply Ho|done]. }
  clear w Hw. intros _ w _ Hw. eapply safe_bind_mono with (Q' := λ _, idle_ok).
  - eapply rsafe_end; [exact stable_ready|by intros ? []|exact Hw|]. cbn. intros w1 [] w' (_ & _ & Hi) ->.
    split; [by apply idle_inv|done].
  - intros [] w' Hi Hw'. by apply safe_ret.
Qed.

(** ** Theorems *)

Lemma at_rest_idle w : at_rest w → idle_ok w.
Proof.
  intros (Hr & Hup & Ht & Hc & Hd & Hh). split; [split|split; [done|by rewrite Hr]].
  - unfold kept_ok. by rewrite Hr, Hd.
  - intros _. unfold live_ok. rewrite Hr, Hd, Ht. split; [done|]. split; [by left|done].
Qed.

Lemma history_ok idle w : history false idle w → inv w ∧ (idle = true → idle_ok w).
Proof.
  induction 1 as [w Hw|idle w w' _ [Hi Hd] Hm|A p w a w' _ [_ Hd] Hop He|A p w w' _ [_ Hd] Hop He|idle w w' _ [Hi _] He|idle w w' _ [Hi _] He].
  - apply at_rest_idle in Hw. split; [by apply idle_inv|done].
  - split; [by eapply inv_move|]. intros E. eapply idle_move; [done|auto].
  - assert (idle_ok w') as Hok; [|split; [by apply idle_inv|done]]. specialize (Hd eq_refl).
    destruct Hop; [pose proof (start_safe w Hd) as Hs|pose proof (advance_safe w Hd) as Hs]; by eapply (safe_ends _ _ _ _ _ _ _ Hs).
  - split; [|done]. specialize (Hd eq_refl).
    destruct Hop; [pose proof (start_safe w Hd) as Hs|pose proof (advance_safe w Hd) as Hs]; by eapply safe_reached.
  - split; [|done]. eapply safe_reached; [by apply boot_safe|done].
  - assert (idle_ok w') as Hok; [|split; [by apply idle_inv|done]].
    eapply (safe_ends _ _ _ _ _ _ _ (boot_safe w Hi)); done.
Qed.


(** ** A service that does not fail *)

Definition perform_call (fresh : Ca) (e : rcall) (w : fleet) : ranswer e * fleet :=
  match e with
  | SelectRotation => (Some (fl_rotation w), w)
  | SelectWaiting c wanted => (Some (behind c wanted (fl_store w)), w)
  | InsertRotation x =>
      match fl_rotation w with Some _ => (Some false, w) | None => (Some true, set_rotation (Some x) w) end
  | UpdatePhase p => (Some (), set_rotation (with_phase p <$> fl_rotation w) w)
  | DeleteRotation => (Some (), set_rotation None w)
  | BumpAllHosts => (Some (), set_store bump_all_hosts w)
  | GenerateCa =>
      (if parses (ca_cert_pem fresh) (ca_key_pem fresh) && bool_decide (unseen (ca_cert_pem fresh) w) then Some fresh else None, w)
  | CurrentCa => (fl_signer w, w)
  | SetCa ca => ((), set_ca ca w)
  | IssueServer ca => ((λ x, x.1.1) <$> issue 0 (ca_cert_pem ca) (ca_key_pem ca) [], w)
  | StoreAgentTls trusted cert => (Some (), set_agent_tls trusted cert w)
  | StoreApiTls cert => (Some (), set_api_tls cert w)
  | WriteCaKey key => (Some (), set_dir (λ ca, mkCa (ca_cert_pem ca) key) w)
  | WriteCaCert pem => (Some (), set_dir (λ ca, mkCa pem (ca_key_pem ca)) w)
  | LoadCa => (if parses (ca_cert_pem (fl_dir w)) (ca_key_pem (fl_dir w)) then Some (fl_dir w) else None, w)
  | Bind ca cert => ((), set_api_tls cert (set_agent_tls [ca_cert_pem ca] cert (set_ca ca w)))
  | Serve => ((), set_up true w)
  end.

Lemma perform_call_step lossy fresh e w : rstep lossy w e (perform_call fresh e w).1 (perform_call fresh e w).2.
Proof.
  exists w. split; [apply rtc_refl|]. destruct e; cbn; unfold changes; auto.
  - destruct (fl_rotation w); auto.
  - split; [done|]. destruct (parses _ _) eqn:E; cbn; [|done]. by case_bool_decide.
  - split; [done|]. by eexists _, _.
  - split; [done|]. case_match; auto.
Qed.

(** An operation carried out. *)
Definition after {A} (fresh : Ca) (p : rprog A) (w : fleet) : fleet := (run (perform_call fresh) p w).2.

Lemma history_after lossy fresh {A} (p : rprog A) w :
  operation_of p → history lossy true w → history lossy true (after fresh p w).
Proof. intros Hop Hh. eapply history_done; [done|exact Hop|]. apply run_ends. intros e w'. apply perform_call_step. Qed.
End rotation.

(** ** An example *)

#[local] Existing Instance milli.

(** Certificates that name the last line of their issuer's. *)
Definition last_line (s : string) : string := default s (last (split "010" s)).

Lemma last_line_issuer cert x :
  existsb (λ ca, starts_with (ca ++ "/") (last_line cert ++ "/" ++ x)) (split "010" cert) = true.
Proof.
  apply existsb_exists. exists (last_line cert). split.
  - unfold last_line. destruct (last (split "010" cert)) as [l|] eqn:E; cbn.
    + apply last_Some in E as [k ->]. apply in_app_iff. right. by left.
    + apply last_None in E. by destruct cert; cbn in E; repeat case_match.
  - change ("/" ++ x)%string with (String "/" x). by rewrite (str_app_snoc (last_line cert) "/" x), starts_with_app.
Qed.

#[local] Instance signing_pki : Pki.
Proof.
  refine {|
    generate := @generate toy_pki;
    parses _ _ := true;
    issue n cert _ _ := Some (last_line cert ++ "/" ++ format_dec (Z.of_nat n), "key", 7776000);
    trusts bundle cert := existsb (λ ca, starts_with (ca ++ "/") cert) (split "010" bundle);
    token := @token toy_pki;
    backup_key := @backup_key toy_pki;
    uuid := @uuid toy_pki
  |}%string.
  - intros r cert key names c k n [= <- _ _]. apply last_line_issuer.
  - intros a b c. by rewrite split_app, List.existsb_app.
Defined.

Definition example_host : HostRow := mkHost "host-1" None None None 1 0 true None None (Some "ca-0") false None None ∅.

Definition example_fleet : fleet :=
  mkFleet (mkStore 0 0 0 {["h1" := example_host]} ∅ ∅ ∅ ∅ ∅ ∅ ∅ [] []) None (mkCa "ca-0" "key-0") ["ca-0"] "ca-0/0" "ca-0/0"
    (mkCa "ca-0" "key-0") true {["h1" := mkSide "ca-0" "ca-0/host"]}.

Lemma example_at_rest : at_rest example_fleet.
Proof.
  do 5 (split; [done|]). intros h row. cbn. intros [<- <-]%lookup_singleton_Some _. exists (mkSide "ca-0" "ca-0/host"). by split.
Qed.

(** The host hears of the new CA and says so. *)
Definition new_example : Ca := mkCa "ca-1" "key-1".
Definition example_report (s : Side) : Report :=
  mkReport 1 "10.0.0.1" (mkResources (1000 : f64) (1000 : f64) (1000 : f64)) [] (Some (sd_bundle s)) ∅.

Definition talks (w : fleet) : bool :=
  match fl_sides w !! "h1" with Some s => fl_up w && in_touch w s | None => false end.

Definition hears (w : fleet) : fleet :=
  match for_hosts (fl_rotation w), fl_sides w !! "h1" with
  | Some (b, _), Some s => set_side "h1" (mkSide b (sd_cert s)) w
  | _, _ => w
  end.

Lemma hears_move w : bool_decide (is_Some (fl_rotation w)) && talks w = true → move id true w (hears w).
Proof.
  intros [Hr%bool_decide_eq_true Ht]%andb_true_iff. unfold hears, talks in *. destruct (fl_rotation w) as [r|] eqn:E; [|by destruct Hr]. cbn [for_hosts fmap option_fmap option_map].
  destruct (fl_sides w !! "h1") as [s|] eqn:Es; [|done]. apply andb_true_iff in Ht as [Hup Hs].
  eapply move_poll; [done..|]. by rewrite E.
Qed.

Definition says (w : fleet) : fleet :=
  match fl_sides w !! "h1" with
  | Some s => match report "h1" (example_report s) (fl_store w) with Ok (_, store) => set_store (λ _, store) w | Err _ => w end
  | None => w
  end.

Definition heard_from (w : fleet) : bool :=
  match fl_sides w !! "h1" with Some s => is_ok (report "h1" (example_report s) (fl_store w)) | None => false end.

Lemma says_move w : talks w && heard_from w = true → move id true w (says w).
Proof.
  intros [Ht Hr]%andb_true_iff. unfold says, talks, heard_from in *. destruct (fl_sides w !! "h1") as [s|] eqn:Es; [|done].
  destruct (report _ _ _) as [[[] store]|] eqn:E; [|done]. apply andb_true_iff in Ht as [Hup Hs].
  apply (move_report id true w "h1" s (example_report s) store); [exact Hup|exact Es|exact Hs|reflexivity|exact E].
Qed.

(** It asks for a certificate, and the answer is lost. *)
Definition example_sign (ca : Ca) (csr h : string) : option string := Some (last_line (ca_cert_pem ca) ++ "/" ++ h)%string.

Lemma example_signs ca : signs ca (example_sign ca).
Proof. intros csr h c [= <-]. apply last_line_issuer. Qed.

Definition asking (w : fleet) : result failure (string * Store) :=
  rotate_certificate (example_sign (fl_signer w)) (ca_cert_pem (fl_signer w)) "h1" "csr" (fl_store w).
Definition asks (w : fleet) : fleet := match asking w with Ok (_, store) => set_store (λ _, store) w | Err _ => w end.

Lemma asks_move w : talks w && is_ok (asking w) = true → move id true w (asks w).
Proof.
  intros [Ht Hr]%andb_true_iff. unfold asks, talks in *. destruct (fl_sides w !! "h1") as [s|] eqn:Es; [|done].
  destruct (asking w) as [[cert store]|] eqn:E; [|done]. apply andb_true_iff in Ht as [Hup Hs].
  eapply move_renew_lost; [done..|apply example_signs|exact E].
Qed.

(** Every turn of the rotation, up to its last phase. *)
Definition begun_example : fleet := after id new_example (start_rotation id) example_fleet.
Definition issue_example : fleet := after id new_example (advance_rotation id) (says (hears begun_example)).
Definition trim_example : fleet := after id new_example (advance_rotation id) (asks (hears issue_example)).

Lemma begun_history lossy : history id lossy true begun_example.
Proof. apply history_after; [constructor|apply history_init, example_at_rest]. Qed.

Lemma issue_history : history id true true issue_example.
Proof.
  apply history_after; [constructor|]. apply (history_move _ _ _ (hears begun_example)).
  - apply (history_move _ _ _ begun_example); [apply begun_history|]. apply hears_move. reflexivity.
  - apply says_move. reflexivity.
Qed.

Lemma trim_history : history id true true trim_example.
Proof.
  apply history_after; [constructor|]. apply (history_move _ _ _ (hears issue_example)).
  - apply (history_move _ _ _ issue_example); [apply issue_history|]. apply hears_move. reflexivity.
  - apply asks_move. reflexivity.
Qed.

(** A host whose answer to a renewal was lost is shut out: the service records
    the certificate it signed as the host's, so the rotation goes on to its last
    phase, in which the certificate the host still has is no longer accepted. *)
Theorem lost_renewal_locks_out : ∃ w h row s,
  history id true true w ∧ fl_up w = true ∧ hosts (fl_store w) !! h = Some row ∧ ho_enrolled row = true ∧
  fl_sides w !! h = Some s ∧ in_touch w s = false.
Proof.
  exists trim_example, "h1". do 2 eexists. split; [exact trim_history|]. repeat split; reflexivity.
Qed.

