(* ===== verification/AdminAccess.v ===== *)
(** The edges of the admin API: src/pgcluster-admin/src/state.rs (keys), api/mod.rs
    (authentication and pages), api/audit.rs, and the backup repositories of
    api/backups.rs and model.rs.

    A handler under the key check is any program on the store that answers with a
    status. The creation of a repository is its first transaction, and each look of
    the loop that waits for a host to check it.

    - [change_is_recorded]: nothing runs without a key, and each change is recorded
      with the name of the key it came with.
    - [pages_cover]: following page tokens gives each row once, in order, in pages of
      a bounded size.
    - [repositories_stay], [repository_vanishes]: a repository in use stays, if a
      database is checked and inserted in one transaction; it is not.
    - [vanished_stops_host]: a host that runs a database whose repository is gone is
      sent nothing at all. *)
From S2P Require Import Prelude Standby Placement Metadata Requests Reconciler AdminApi HostApi Orchestration OpenAccess.

Local Open Scope Z_scope.

(** ** Keys *)

Definition MIN_API_KEY_LEN : nat := 32.

Section keys.
(** [hex::decode], and SHA-256. *)
Context (hex_decode : string → option string) (sha256 : string → string).

(** Names and the hashes the configuration holds, in hex. *)
Definition parse_key (k : string * string) : option (string * string) :=
  bytes ← hex_decode k.2;
  if (String.length bytes =? 32)%nat then Some (k.1, bytes) else None.

Definition parse_keys (keys : list (string * string)) : option (list (string * string)) := mapM parse_key keys.

(** Every hash is compared, and the last that matches names the key. *)
Definition identify (keys : list (string * string)) (key : string) : option string :=
  if (String.length key <? MIN_API_KEY_LEN)%nat then None
  else fold_left (λ found k, if String.eqb k.2 (sha256 key) then Some k.1 else found) keys None.

(** SIGHUP replaces the keys, or keeps them if one does not parse. *)
Definition set_keys (keys : list (string * string)) (old : list (string * string)) : list (string * string) :=
  default old (parse_keys keys).

(** ** Requests *)

Record AuditRow := mkAudit {
  au_key_name : string;
  au_method : string;
  au_path : string;
  au_status : Z;
  au_database_id : option string
}.

Definition database_of (path : string) : option string :=
  rest ← strip_prefix "/v1/databases/" path;
  let id := match split_once "/" rest with Some (id, _) => id | None => rest end in
  if is_empty id then None else Some id.

Definition audit_row (name method path : string) (status : Z) : AuditRow :=
  mkAudit name method path status (database_of path).

Definition is_read (method : string) : bool := String.eqb method "GET" || String.eqb method "HEAD".

Definition bearer (authorization : option string) : option string := trim <$> (authorization ≫= strip_prefix "Bearer ").

(** [State] is what a handler changes; an audit record can fail to be written. *)
Definition require_api_key {State} (keys : list (string * string)) (authorization : option string) (method path : string)
    (handler : State → Z * State) (recorded : bool) (w : State * list AuditRow) : Z * (State * list AuditRow) :=
  match bearer authorization ≫= identify keys with
  | None => (401, w)
  | Some name =>
      let '(status, s) := handler w.1 in
      (status, (s, if negb (is_read method) && recorded then w.2 ++ [audit_row name method path status] else w.2))
  end.
End keys.

(** ** Pages *)

Definition DEFAULT_LIMIT : Z := 100.
Definition MAX_LIMIT : Z := 500.

Record Page := mkPage { pg_limit : option Z; pg_token : option string }.
Record Listing (A : Type) := mkListing { li_items : list A; li_next : option string }.
Arguments mkListing {A} _ _.
Arguments li_items {A} _.
Arguments li_next {A} _.

Definition fetch_limit (p : Page) : Z := Z.min (Z.max (default DEFAULT_LIMIT (pg_limit p)) 1) MAX_LIMIT + 1.
Definition page_after (p : Page) : string := default EmptyString (pg_token p).

Definition from_rows {A} (rows : list A) (p : Page) (id : A → string) : Listing A :=
  let size := Z.to_nat (fetch_limit p - 1) in
  let more := (size <? length rows)%nat in
  let rows := take size rows in
  mkListing rows (if more then id <$> last rows else None).

(** [WHERE id > $1 ORDER BY id LIMIT $2] of a table of ids. *)
Definition select_page {A} (after : string) (limit : Z) (m : gmap string A) : list (string * A) :=
  take (Z.to_nat limit) (List.filter (λ x : string * A, negb (str_leb x.1 after))
    (sort_by (λ a b : string * A, str_leb a.1 b.1) (map_to_list m))).

Definition list_page {A} (p : Page) (m : gmap string A) : Listing (string * A) :=
  from_rows (select_page (page_after p) (fetch_limit p) m) p fst.

(** A client that asks for page after page. *)
Fixpoint all_pages {A} (fuel : nat) (p : Page) (m : gmap string A) : list (list (string * A)) :=
  match fuel with
  | O => []
  | S fuel =>
      let l := list_page p m in
      li_items l :: match li_next l with Some t => all_pages fuel (mkPage (pg_limit p) (Some t)) m | None => [] end
  end.

(** ** Repositories *)

Section repositories.
Context `{!F64, !Pki} (scheduler : SchedulerConfig) (parse_net : string → bool).

Record CreateRepository := mkCreateRepository {
  cr_name : string;
  cr_kind : string;
  cr_config : RepositoryConfig;
  cr_credentials : RepositoryCredentials
}.

Definition plain (v : option string) : bool :=
  match v with
  | Some v => negb (str_exists (λ c, existsb (Ascii.eqb c) ["'"; "\"; "010"; "013"]%char) v)
  | None => true
  end.

Definition into_parts (r : CreateRepository) : result failure (string * string * RepositoryConfig * RepositoryCredentials) :=
  let c := cr_config r in
  _ ← check_host_name (cr_name r);
  _ ← (if negb (plain (rc_path c)) || negb (plain (rc_bucket c)) || negb (plain (rc_prefix c)) then Err INVALID else Ok ());
  _ ← (if String.eqb (cr_kind r) "posix" then
         if match rc_path c with Some p => starts_with "/" p | None => false end then Ok () else Err INVALID
       else if String.eqb (cr_kind r) "s3" then
         if match rc_bucket c with Some b => is_empty b | None => true end then Err INVALID else Ok ()
       else Err INVALID);
  if Bool.eqb (bool_decide (is_Some (access_key_id (cr_credentials r)))) (bool_decide (is_Some (secret_access_key (cr_credentials r))))
  then Ok (cr_name r, cr_kind r, c, cr_credentials r)
  else Err INVALID.

(** The online host that was seen last. *)
Definition seen_last (s : Store) : option string :=
  fst <$> max_by_key (λ a b : string * HostRow, default 0 (ho_last_seen_at a.2) <=? default 0 (ho_last_seen_at b.2))
    (List.filter (λ x : string * HostRow, seen_within s x.2) (map_to_list (hosts s))).

Definition begin_repository (r : CreateRepository) : tx string :=
  parts ← lift (into_parts r);
  let '(name, kind, config, credentials) := parts in
  host ← gets seen_last;
  host ← expect CONFLICT host;
  id ← new_uuid;
  let sealed := match access_key_id credentials with
                | Some _ => Some (seal ("repository/" ++ id)%string credentials)
                | None => None
                end in
  same ← gets (λ s, existsb (λ x : string * RepositoryRow, String.eqb (re_name x.2) name) (map_to_list (repositories s)));
  _ ← guard (negb same) CONFLICT;
  taken ← gets (λ s, repositories s !! id);
  match taken with
  | Some _ => throw (Context "duplicate key")
  | None =>
      _ ← modify (set_repositories (insert id (mkRepository name kind config sealed "verifying" None (Some host))));
      _ ← bump_host host;
      mret id
  end.

Definition remove_unverified (id : string) : tx () := modify (set_repositories (delete id)).

(** A look of the waiting request: to go on waiting, or its answer. *)
Definition look (id : string) : tx string :=
  row ← gets (λ s, repositories s !! id);
  r ← expect RowNotFound row;
  mret (re_status r).

(** What follows a look, in a statement of its own. *)
Definition after_look (id status : string) (past_deadline : bool) : tx (option (result failure ())) :=
  if String.eqb status "verified" then mret (Some (Ok ()))
  else if String.eqb status "failed" then _ ← remove_unverified id; mret (Some (Err INVALID))
  else if past_deadline then _ ← remove_unverified id; mret (Some (Err CONFLICT))
  else mret None.

Definition uses (id : string) (d : DatabaseRow) : bool :=
  String.eqb (repository_id (Metadata.backup (da_spec d))) id && negb (String.eqb (da_status d) "deleted").

Definition delete_repository (id : string) : tx () :=
  found ← gets (λ s, repositories s !! id);
  _ ← expect NOT_FOUND found;
  users ← gets (λ s, existsb (λ x : string * DatabaseRow, uses id x.2) (map_to_list (databases s)));
  _ ← guard (negb users) CONFLICT;
  modify (set_repositories (delete id)).

(** The creation of a database, as the statements run: checks, then a transaction. *)
Definition create_checks (request : CreateDatabase) : tx (string * option string * DatabaseSpec) :=
  parts ← lift (into_spec parse_net request);
  let '(name, workspace, spec) := parts in
  _ ← check_repository (repository_id (Metadata.backup spec));
  _ ← check_placement [] (spec_hosts spec);
  _ ← check_capacity scheduler spec;
  mret (name, workspace, spec).

Definition create_insert (name : string) (workspace : option string) (spec : DatabaseSpec) : tx string :=
  id ← insert_database name workspace spec; op_create id Create 1.

(** A database is being created or serves with a repository that was verified. *)
Definition used_ok (s : Store) : Prop :=
  ∀ id d, databases s !! id = Some d → da_status d ≠ "deleted" →
    ∃ r, repositories s !! repository_id (Metadata.backup (da_spec d)) = Some r ∧ re_status r = "verified".

(** What leaves databases and repositories alone. *)
Definition same_rows (s s' : Store) : Prop := databases s' = databases s ∧ repositories s' = repositories s.

#[local] Instance same_rows_preorder : PreOrder same_rows.
Proof. split; [done|]. intros a b c [Hd Hr] [Hd' Hr']. split; congruence. Qed.

Lemma same_rows_used s s' : same_rows s s' → used_ok s → used_ok s'.
Proof. intros [Hd Hr] Hs id d. rewrite Hd, Hr. apply Hs. Qed.

Lemma op_create_rows id k g : keeps same_rows (op_create id k g).
Proof. keeps_auto ltac:(apply keeps_modify; done). Qed.

Lemma insert_database_Ok name workspace spec s id s' :
  insert_database name workspace spec s = Ok (id, s') →
  repositories s' = repositories s ∧ databases s !! id = None ∧
  ∃ d, databases s' = <[id := d]> (databases s) ∧ da_spec d = spec ∧ da_status d = "provisioning".
Proof.
  unfold insert_database, new_uuid, draw, guard, gets, modify, throw, mbind, tx_bind, mret, tx_ret. intros Hi.
  repeat (case_match; simplify_eq). cbn in *. split; [done|]. split; [done|]. by eexists.
Qed.

Lemma create_insert_Ok name workspace spec s op s' :
  create_insert name workspace spec s = Ok (op, s') →
  repositories s' = repositories s ∧
  ∃ id d, databases s' = <[id := d]> (databases s) ∧ databases s !! id = None ∧ da_spec d = spec ∧ da_status d = "provisioning".
Proof.
  intros (id & s1 & Hi & Ho)%tx_bind_Ok. apply insert_database_Ok in Hi as (Hr & Hn & d & Hd & Hsp & Hst).
  apply op_create_rows in Ho as [Hd' Hr']. rewrite Hd', Hr', Hd. split; [done|]. by exists id, d.
Qed.

Lemma create_checks_Ok request s name workspace spec s' :
  create_checks request s = Ok ((name, workspace, spec), s') →
  same_rows s s' ∧ ∃ r, repositories s !! repository_id (Metadata.backup spec) = Some r ∧ re_status r = "verified".
Proof.
  intros Hc. split.
  { revert Hc. assert (keeps same_rows (create_checks request)) as Hk; [|by apply Hk].
    unfold create_checks. apply keeps_bind; [exact _|keeps_auto ltac:(apply keeps_modify; done)|]. intros [[n w] sp].
    apply keeps_bind; [exact _|keeps_auto ltac:(apply keeps_modify; done)|intros []].
    apply keeps_bind; [exact _| |intros []; keeps_auto ltac:(apply keeps_modify; done)].
    generalize (spec_hosts sp). intros l. generalize (@nil string). induction l as [|x l IH]; intros seen; cbn [check_placement].
    - apply keeps_ret; exact _.
    - apply keeps_bind; [exact _|apply keeps_gets; exact _|]. intros o. apply keeps_bind; [exact _|apply keeps_expect; exact _|].
      intros [k h]. apply keeps_bind; [exact _|keeps_auto ltac:(apply keeps_modify; done)|]. intros []. apply IH. }
  revert Hc. unfold create_checks. intros ([[n w] sp] & s1 & Hl & Hrest)%tx_bind_Ok.
  assert (s1 = s) as -> by (unfold lift, mret, tx_ret, throw in Hl; case_match; by simplify_eq).
  apply tx_bind_Ok in Hrest as ([] & s2 & Hrep & Hrest).
  assert (sp = spec) as ->.
  { apply tx_bind_Ok in Hrest as ([] & s3 & _ & Hrest). apply tx_bind_Ok in Hrest as ([] & s4 & _ & [= _ _ -> _]). done. }
  unfold check_repository, guard, gets, throw, mbind, tx_bind, mret, tx_ret in Hrep.
  destruct (repositories s !! _) as [r|]; [|done]. destruct (String.eqb_spec (re_status r) "verified"); [|done]. by exists r.
Qed.
End repositories.

(** ** Proofs: keys *)

Section keys_proofs.
Context (sha256 : string → string).

Lemma identify_Some keys key name :
  identify sha256 keys key = Some name → (MIN_API_KEY_LEN ≤ String.length key)%nat ∧ (name, sha256 key) ∈ keys.
Proof.
  unfold identify. destruct (Nat.ltb_spec (String.length key) MIN_API_KEY_LEN) as [|Hlen]; [done|]. intros Hf. split; [done|].
  assert (∀ o, fold_left (λ found k, if String.eqb k.2 (sha256 key) then Some k.1 else found) keys o = Some name →
    o = Some name ∨ (name, sha256 key) ∈ keys) as Hall; [|destruct (Hall None Hf); done].
  clear Hf. induction keys as [|[n h] keys IH]; intros o Ho; cbn in Ho; [by left|].
  destruct (IH _ Ho) as [Hn|]; [|right; by constructor].
  destruct (String.eqb_spec h (sha256 key)) as [->|]; [|by left]. injection Hn as ->. right. constructor.
Qed.

(** A request that changes anything came with a key of at least 32 bytes whose hash is
    among those configured. Its handler ran, and unless the request is a read or the
    record could not be written, the log gains one row with the name of that key, the
    method, the path, the status and the database the path names. *)
Theorem change_is_recorded {State} keys authorization method path (handler : State → Z * State) recorded w status w' :
  require_api_key sha256 keys authorization method path handler recorded w = (status, w') → w' ≠ w →
  ∃ key name, bearer authorization = Some key ∧ (MIN_API_KEY_LEN ≤ String.length key)%nat ∧ (name, sha256 key) ∈ keys ∧
    handler w.1 = (status, w'.1) ∧
    w'.2 = if is_read method || negb recorded then w.2 else w.2 ++ [audit_row name method path status].
Proof.
  unfold require_api_key. destruct (bearer authorization) as [key|] eqn:Eb; [|by intros [= <- <-]]. cbn [mbind option_bind].
  destruct (identify sha256 keys key) as [name|] eqn:Ei; [|by intros [= <- <-]].
  apply identify_Some in Ei as [Hlen Hin]. destruct (handler w.1) as [st s] eqn:Eh. intros [= <- <-] _.
  exists key, name. split_and!; try done. cbn. by destruct (is_read method), recorded.
Qed.
End keys_proofs.

(** ** Proofs: pages *)

Section pages_proofs.
Context {A : Type}.

Definition below (a b : string * A) : Prop := str_leb b.1 a.1 = false.
Definition by_id (a b : string * A) : bool := str_leb a.1 b.1.

Lemma ids_below (l : list (string * A)) : NoDup l.*1 → StronglySorted below (sort_by by_id l).
Proof.
  intros Hd. assert (StronglySorted (λ a b, by_id a b = true) (sort_by by_id l)) as Hs.
  { apply sort_by_sorted; unfold by_id; [intros ??; apply str_leb_total|intros ???; apply str_leb_trans]. }
  assert (NoDup (sort_by by_id l).*1) as Hd' by by rewrite sort_by_perm. clear Hd. induction Hs as [|x k _ IH Hx]; constructor.
  - apply IH. by apply NoDup_cons in Hd' as [_ ?].
  - rewrite fmap_cons, NoDup_cons in Hd'. destruct Hd' as [Hn _]. rewrite Forall_forall in Hx |- *. intros y Hy.
    specialize (Hx y Hy). unfold below, by_id in *. destruct (str_leb y.1 x.1) eqn:E; [|done]. exfalso.
    rewrite (str_leb_antisym _ _ Hx E) in Hn. by apply Hn, list_elem_of_fmap_2.
Qed.

(** What follows a row of a sorted table. *)
Lemma filter_after l1 x l2 :
  StronglySorted below (l1 ++ x :: l2) → List.filter (λ y : string * A, negb (str_leb y.1 x.1)) (l1 ++ x :: l2) = l2.
Proof.
  intros Hs. induction l1 as [|y l1 IH]; cbn [app] in *; apply StronglySorted_inv in Hs as [Hs Hf]; cbn.
  - rewrite (le_refl str_leb str_leb_total). cbn. clear Hs. induction Hf as [|y l2 Hy Hf IH]; [done|]. cbn.
    unfold below in Hy. rewrite Hy. cbn. by f_equal.
  - rewrite Forall_app, Forall_cons in Hf. destruct Hf as (_ & Hx & _). unfold below in Hx. rewrite (str_leb_total _ _ Hx). cbn. auto.
Qed.

Lemma filter_first (l : list (string * A)) :
  EmptyString ∉ l.*1 → List.filter (λ y : string * A, negb (str_leb y.1 EmptyString)) l = l.
Proof.
  induction l as [|[k a] l IH]; [done|]. rewrite fmap_cons, not_elem_of_cons. cbn. intros [Hk Hl]. rewrite (IH Hl).
  destruct (str_leb k EmptyString) eqn:E; [|done]. exfalso. apply Hk. apply str_leb_antisym; [by destruct k|done].
Qed.

Lemma fetch_limit_pos p : 1 ≤ fetch_limit p - 1 ≤ 500 ∧ fetch_limit p - 1 ≤ Z.max (default DEFAULT_LIMIT (pg_limit p)) 1.
Proof. unfold fetch_limit, MAX_LIMIT. lia. Qed.

(** A page is the first rows after its token, and the token it gives is the last of them. *)
Lemma list_page_rows p (m : gmap string A) l1 l2 k :
  k = Z.to_nat (fetch_limit p - 1) → sort_by by_id (map_to_list m) = l1 ++ l2 →
  List.filter (λ x : string * A, negb (str_leb x.1 (page_after p))) (sort_by by_id (map_to_list m)) = l2 →
  list_page p m = mkListing (take k l2) (if (k <? length l2)%nat then fst <$> last (take k l2) else None).
Proof.
  intros -> _ Hf. unfold list_page, from_rows, select_page. fold by_id. rewrite Hf.
  pose proof (fetch_limit_pos p) as [Hp _]. rewrite take_take, length_take.
  replace (Z.to_nat (fetch_limit p - 1) `min` Z.to_nat (fetch_limit p))%nat with (Z.to_nat (fetch_limit p - 1)) by lia.
  f_equal. destruct (Nat.ltb_spec (Z.to_nat (fetch_limit p - 1)) (length l2)), (Nat.ltb_spec (Z.to_nat (fetch_limit p - 1))
    (Z.to_nat (fetch_limit p) `min` length l2)); try done; lia.
Qed.

Lemma all_pages_rows fuel p (m : gmap string A) l1 l2 :
  sort_by by_id (map_to_list m) = l1 ++ l2 →
  List.filter (λ x : string * A, negb (str_leb x.1 (page_after p))) (sort_by by_id (map_to_list m)) = l2 →
  (length l2 < fuel)%nat → concat (all_pages fuel p m) = l2.
Proof.
  revert p l1 l2. induction fuel as [|fuel IH]; intros p l1 l2 Hl Hf Hlen; [lia|]. cbn [all_pages concat].
  rewrite (list_page_rows p m l1 l2 _ eq_refl Hl Hf). cbn [li_items li_next].
  pose proof (fetch_limit_pos p) as [Hp _]. set (k := Z.to_nat (fetch_limit p - 1)) in *.
  destruct (Nat.ltb_spec k (length l2)) as [Hk|Hk].
  - destruct (last (take k l2)) as [x|] eqn:Ex; cbn [fmap option_fmap option_map].
    2: { apply last_None in Ex. apply (f_equal length) in Ex. rewrite length_take in Ex. cbn in Ex. lia. }
    apply last_Some in Ex as [l' Ex]. pose proof (take_drop k l2) as Htd. rewrite Ex, <-(assoc_L (++)) in Htd. cbn [concat].
    rewrite (IH _ (l1 ++ l' ++ [x]) (drop k l2)).
    + by rewrite take_drop.
    + rewrite Hl, <-Htd at 1. by rewrite <-!(assoc_L (++)).
    + cbn [page_after pg_token default]. pose proof (ids_below (map_to_list m) (NoDup_fst_map_to_list m)) as Hs.
      assert (sort_by by_id (map_to_list m) = (l1 ++ l') ++ x :: drop k l2) as Hx
        by (rewrite Hl, <-Htd at 1; by rewrite <-!(assoc_L (++))).
      unfold page_after. cbn. rewrite Hx in Hs |- *. by apply filter_after.
    + rewrite length_drop. lia.
  - cbn [concat]. rewrite app_nil_r. by rewrite take_ge.
Qed.

Lemma all_pages_bound fuel p (m : gmap string A) :
  Forall (λ page, Z.of_nat (length page) ≤ Z.min MAX_LIMIT (Z.max 1 (default DEFAULT_LIMIT (pg_limit p)))) (all_pages fuel p m).
Proof.
  revert p. induction fuel as [|fuel IH]; intros p; cbn [all_pages]; [constructor|]. constructor.
  - unfold list_page, from_rows. cbn [li_items]. rewrite length_take. unfold fetch_limit, MAX_LIMIT. lia.
  - destruct (li_next _) as [t|]; [|constructor]. apply (IH (mkPage (pg_limit p) (Some t))).
Qed.

(** C34 Following the page tokens of a list ends, and gives each row of the table once, in
    the order of their ids, whatever limit was asked for. No page has more rows than that
    limit, nor than 500. *)
Theorem pages_cover limit (m : gmap string A) fuel :
  m !! EmptyString = None → (size m < fuel)%nat →
  let pages := all_pages fuel (mkPage limit None) m in
  concat pages ≡ₚ map_to_list m ∧ StronglySorted (λ a b, str_leb b.1 a.1 = false) (concat pages) ∧
  Forall (λ page, Z.of_nat (length page) ≤ Z.min MAX_LIMIT (Z.max 1 (default DEFAULT_LIMIT limit))) pages.
Proof.
  intros Hm Hfuel pages. assert (concat pages = sort_by by_id (map_to_list m)) as ->.
  { apply (all_pages_rows _ _ _ []); [done| |].
    - apply filter_first. rewrite sort_by_perm. intros ([k a] & Hk & Hin%elem_of_map_to_list)%list_elem_of_fmap.
      cbn in Hk. congruence.
    - by rewrite sort_by_length, length_map_to_list. }
  split; [apply sort_by_perm|]. split; [apply ids_below, NoDup_fst_map_to_list|]. apply (all_pages_bound fuel (mkPage limit None)).
Qed.
End pages_proofs.

(** ** Proofs: repositories *)

Section repositories_proofs.
Context `{!F64, !Pki} (scheduler : SchedulerConfig) (parse_net : string → bool).

(** A transaction that changes repositories or adds a database, the checks of a creation
    in one with its insert, and a look in one with what follows it. *)
Inductive repository_step : Store → Store → Prop :=
  | RCreateDatabase s request name workspace spec s1 op s' :
      create_checks scheduler parse_net request s = Ok ((name, workspace, spec), s1) →
      create_insert name workspace spec s1 = Ok (op, s') → repository_step s s'
  | RBegin s r id s' : begin_repository r s = Ok (id, s') → repository_step s s'
  | RLook s id status s1 late answer s' :
      look id s = Ok (status, s1) → after_look id status late s1 = Ok (answer, s') → repository_step s s'
  | RDelete s id s' : delete_repository id s = Ok ((), s') → repository_step s s'
  | RChecked s host id error s' : repository_check host id error s = Ok ((), s') → repository_step s s'.

Lemma used_ok_less s s' :
  databases s' = databases s → (∀ id r, repositories s !! id = Some r → re_status r = "verified" →
    (∃ x d, databases s !! x = Some d ∧ uses id d = true) → ∃ r', repositories s' !! id = Some r' ∧ re_status r' = "verified") →
  used_ok s → used_ok s'.
Proof.
  intros Hd Hr Hu x d Hx Hst. rewrite Hd in Hx. destruct (Hu x d Hx Hst) as (r & Hrow & Hv).
  apply (Hr _ r Hrow Hv). exists x, d. split; [done|]. unfold uses. rewrite String.eqb_refl. by destruct (String.eqb_spec (da_status d) "deleted").
Qed.

Lemma after_look_Ok id status late s answer s' r :
  repositories s !! id = Some r → re_status r = status → after_look id status late s = Ok (answer, s') →
  databases s' = databases s ∧ (repositories s' = repositories s ∨ repositories s' = delete id (repositories s) ∧ status ≠ "verified").
Proof.
  intros Hr Hs. unfold after_look, remove_unverified, modify, mbind, tx_bind, mret, tx_ret.
  destruct (String.eqb_spec status "verified"); [intros [= <- <-]; auto|].
  destruct (String.eqb_spec status "failed"); [intros [= <- <-]; auto|].
  destruct late; intros [= <- <-]; auto.
Qed.

Lemma begin_repository_Ok r s id s' :
  begin_repository r s = Ok (id, s') →
  databases s' = databases s ∧ ∃ row, repositories s' = <[id := row]> (repositories s) ∧ repositories s !! id = None ∧ re_status row = "verifying".
Proof.
  unfold begin_repository. intros ([[[name kind] config] credentials] & s1 & Hl & Hb)%tx_bind_Ok.
  assert (s1 = s) as -> by (unfold lift in Hl; destruct (into_parts r); [by injection Hl|done]). clear Hl.
  unfold new_uuid, draw, guard, gets, expect, bump_host, modify, throw, mbind, tx_bind, mret, tx_ret in Hb.
  repeat (case_match; simplify_eq); cbn in *; (split; [done|]); by eexists.
Qed.

Lemma delete_repository_Ok id s s' :
  delete_repository id s = Ok ((), s') →
  databases s' = databases s ∧ repositories s' = delete id (repositories s) ∧ ∀ x d, databases s !! x = Some d → uses id d = false.
Proof.
  unfold delete_repository, guard, gets, expect, modify, throw, mbind, tx_bind, mret, tx_ret. intros Hd.
  repeat (case_match; simplify_eq). cbn. split; [done|]. split; [done|]. intros x d Hx. apply not_true_is_false. intros Hu.
  match goal with Hn : negb _ = true |- _ => apply negb_true_iff in Hn; revert Hn end. apply not_false_iff_true.
  apply existsb_exists. exists (x, d). split; [|done]. by apply list_elem_of_In, elem_of_map_to_list.
Qed.

Lemma repository_check_Ok host id error s s' :
  repository_check host id error s = Ok ((), s') →
  databases s' = databases s ∧ ∀ k r, repositories s !! k = Some r → re_status r = "verified" → repositories s' !! k = Some r.
Proof.
  unfold repository_check. intros (h & s1 & Hk & [= <-])%tx_bind_Ok.
  assert (s1 = s) as ->.
  { unfold known_host, gets, guard, mbind, tx_bind, mret, tx_ret, throw in Hk. by repeat (case_match; simplify_eq). }
  cbn. split; [done|]. intros k r Hr Hv. destruct (decide (id = k)) as [->|].
  - rewrite lookup_alter_eq, Hr. cbn. by rewrite Hv, andb_false_r.
  - by rewrite lookup_alter_ne.
Qed.

(** If a database is checked and inserted in one transaction, and a waiting request looks
    and removes in one, every database that is not deleted keeps a repository that was
    verified: none of the requests that create, check, give up or delete a repository, nor
    one that creates a database, takes it away. *)
Theorem repositories_stay s s' : used_ok s → repository_step s s' → used_ok s'.
Proof.
  intros Hu Hstep. destruct Hstep as [s request name ws spec s1 op s' Hc Hi|s r id s' Hb|s id st s1 late a s' Hl Ha|s id s' Hd|s host id e s' Hc].
  - apply create_checks_Ok in Hc as [[Hd Hr] (r & Hrow & Hv)]. apply create_insert_Ok in Hi as (Hr' & id & d & Hd' & Hn & Hsp & _).
    intros x dx Hx Hst. rewrite Hr', Hr. rewrite Hd' in Hx. apply lookup_insert_Some in Hx as [[<- <-]|[_ Hx]].
    + rewrite Hsp. by exists r.
    + rewrite Hd in Hx. by apply (Hu x).
  - apply begin_repository_Ok in Hb as (Hd & row & Hr & Hn & _). revert Hu. apply used_ok_less; [done|]. intros k rk Hk Hv _.
    exists rk. rewrite Hr, lookup_insert_ne; [done|congruence].
  - unfold look, gets, expect, mbind, tx_bind, mret, tx_ret, throw in Hl.
    destruct (repositories s !! id) as [r|] eqn:Er; [|done]. cbn in Hl. injection Hl as <- <-.
    destruct (after_look_Ok _ _ _ _ _ _ _ Er eq_refl Ha) as [Hd Hr]. revert Hu. apply used_ok_less; [done|]. intros k rk Hk Hv _.
    exists rk. destruct Hr as [->|[-> Hne]]; [done|]. rewrite lookup_delete_ne; [done|]. congruence.
  - apply delete_repository_Ok in Hd as (Hd & Hr & Hno). revert Hu. apply used_ok_less; [done|]. intros k rk Hk Hv (x & d & Hx & Hus).
    exists rk. rewrite Hr, lookup_delete_ne; [done|]. intros ->. rewrite (Hno x d Hx) in Hus. done.
  - apply repository_check_Ok in Hc as [Hd Hr]. revert Hu. apply used_ok_less; [done|]. intros k rk Hk Hv _. eauto.
Qed.

(** The code checks the repository of a new database before the transaction that inserts
    it. A deletion of that repository between the two is accepted, as no database uses it
    yet, and the creation then succeeds: the database waits to be provisioned with a
    repository that is gone. *)
Theorem repository_vanishes request s name workspace spec s1 s2 op s3 :
  create_checks scheduler parse_net request s = Ok ((name, workspace, spec), s1) →
  delete_repository (repository_id (Metadata.backup spec)) s1 = Ok ((), s2) →
  create_insert name workspace spec s2 = Ok (op, s3) →
  ∃ id d, databases s3 !! id = Some d ∧ da_status d = "provisioning" ∧ da_spec d = spec ∧
    repositories s3 !! repository_id (Metadata.backup spec) = None.
Proof.
  intros _ (_ & Hr & _)%delete_repository_Ok (Hr' & id & d & Hd & _ & Hsp & Hst)%create_insert_Ok.
  exists id, d. rewrite Hd, Hr', Hr. split; [apply lookup_insert_eq|]. split; [done|]. split; [done|]. apply lookup_delete_eq.
Qed.

Lemma result_mapM_all {E A B} (f : A → result E B) l k x : mapM f l = Ok k → x ∈ l → ∃ y, f x = Ok y.
Proof.
  revert k. induction l as [|z l IH]; intros k; cbn; [intros _ Hx; by apply elem_of_nil in Hx|].
  destruct (f z) as [b|] eqn:Ef; [|done]. cbn. destruct (mapM f l) as [bs|] eqn:El; [|done]. cbn.
  intros _ [->|Hx]%elem_of_cons; [by exists b|]. by apply (IH bs).
Qed.

(** A host with a live node of a database whose repository is gone is sent no document at
    all, whatever else it runs: the other databases on it get no change of address, password
    or members from then on. *)
Theorem vanished_stops_host s host_id db node n d :
  nodes s !! (db, node) = Some n → no_host_id n = host_id → no_retracted n = false →
  databases s !! db = Some d → repositories s !! repository_id (Metadata.backup (da_spec d)) = None →
  ∃ e, build_desired_state s host_id = Err e.
Proof.
  intros Hn Hh Hlive Hd Hr. destruct (build_desired_state s host_id) as [doc|e] eqn:E; [exfalso|by exists e].
  revert E. unfold build_desired_state. destruct (hosts s !! host_id) as [h|]; [|done]. cbn.
  destruct (mapM _ _) as [l|] eqn:El; [intros _|done].
  assert (((db, node), n) ∈ host_nodes s host_id) as Hin.
  { unfold host_nodes. apply elem_of_sort_by, list_elem_of_omap. exists ((db, node), n). split; [by apply elem_of_map_to_list|].
    by rewrite Hh, String.eqb_refl, Hlive. }
  destruct (result_mapM_all _ _ _ _ El Hin) as [i Hi]. cbn in Hi. rewrite Hd in Hi. cbn in Hi. revert Hi.
  unfold build_instance, repository. rewrite Hr. destruct (da_secrets d) as [sealed|]; [|done]. cbn.
  by destruct (open db sealed).
Qed.
End repositories_proofs.

(** ** Checks *)

Lemma change_is_recorded_witness :
  let sha (_ : string) := "hash" in
  let handler (n : Z) := (202, n + 1) in
  ∃ key name, bearer (Some "Bearer 0123456789abcdef0123456789abcdef") = Some key ∧ (MIN_API_KEY_LEN ≤ String.length key)%nat ∧
    (name, sha key) ∈ [("ops", "hash")] ∧ handler 7 = (202, 8) ∧
    [mkAudit "ops" "POST" "/v1/databases/db-1/restart" 202 (Some "db-1")] =
      (if is_read "POST" || negb true then [] else [] ++ [audit_row name "POST" "/v1/databases/db-1/restart" 202]).
Proof.
  intros sha handler.
  apply (change_is_recorded sha [("ops", "hash")] (Some "Bearer 0123456789abcdef0123456789abcdef") "POST" "/v1/databases/db-1/restart"
    handler true (7, []) 202 (8, [mkAudit "ops" "POST" "/v1/databases/db-1/restart" 202 (Some "db-1")])); [by vm_compute|done].
Defined.

Definition check_table : gmap string Z := {[ "a" := 1; "b" := 2; "c" := 3 ]}.

Lemma pages_cover_witness :
  all_pages 4 (mkPage (Some 2) None) check_table = [[("a", 1); ("b", 2)]; [("c", 3)]] ∧
  concat (all_pages 4 (mkPage (Some 2) None) check_table) ≡ₚ map_to_list check_table.
Proof.
  split; [by vm_compute|]. apply (pages_cover (Some 2) check_table 4); [by vm_compute|]. vm_compute. lia.
Defined.

#[local] Existing Instance milli.

Definition raced_spec : DatabaseSpec := mkSpec "18" false [] (mkResources (1000 : f64) (2000 : f64) (10000 : f64)) "async" ["10.0.0.0/8"] []
  (mkOwner "app" "SCRAM-SHA-256$4096:c2FsdA==$c3RvcmVk:c2VydmVy") (mkBackup "r1" 7) None None None.

Definition check_checked : Store := commit (create_checks check_scheduler (λ _, true) check_open_create) check_online.
Definition check_unhoused : Store := commit (delete_repository "r1") check_checked.
Definition check_raced : Store := commit (create_insert "orders" None raced_spec) check_unhoused.

Lemma checked_spec :
  create_checks check_scheduler (λ _, true) check_open_create check_online = Ok (("orders", None, raced_spec), check_checked).
Proof. reflexivity. Qed.

Lemma repositories_stay_witness :
  used_ok check_online ∧ used_ok (commit (create_insert "orders" None raced_spec) check_checked).
Proof.
  assert (used_ok check_online) as Hu by (intros id d Hd; cbn in Hd; by rewrite lookup_empty in Hd). split; [done|].
  destruct (commit_Ok (create_insert "orders" None raced_spec) check_checked) as [op Hop]; [by vm_compute|].
  apply (repositories_stay check_scheduler (λ _, true) check_online); [done|].
  eapply RCreateDatabase; [apply checked_spec|exact Hop].
Defined.

Lemma repository_vanishes_witness :
  ∃ id d, databases check_raced !! id = Some d ∧ da_status d = "provisioning" ∧ da_spec d = raced_spec ∧
    repositories check_raced !! "r1" = None.
Proof.
  destruct (commit_Ok (delete_repository "r1") check_checked) as [[] Hd]; [by vm_compute|].
  destruct (commit_Ok (create_insert "orders" None raced_spec) check_unhoused) as [op Hop]; [by vm_compute|].
  exact (repository_vanishes check_scheduler (λ _, true) check_open_create check_online "orders" None raced_spec check_checked
    check_unhoused op check_raced checked_spec Hd Hop).
Defined.

(** The reconciler goes on to place the database. *)
Definition check_houseless : Store := play_all check_scheduler (λ _, true) id (λ _ _, None) "ca" [PRun] check_raced.

Lemma vanished_stops_host_witness : ∃ e, build_desired_state check_houseless "h1" = Err e.
Proof.
  assert (match nodes check_houseless !! ("id-0", "n1"), databases check_houseless !! "id-0" with
          | Some n, Some d => String.eqb (no_host_id n) "h1" && negb (no_retracted n) &&
              match repositories check_houseless !! repository_id (Metadata.backup (da_spec d)) with None => true | Some _ => false end
          | _, _ => false
          end = true) as Hc by by vm_compute.
  destruct (nodes check_houseless !! ("id-0", "n1")) as [n|] eqn:En; [|done].
  destruct (databases check_houseless !! "id-0") as [d|] eqn:Ed; [|done].
  apply andb_true_iff in Hc as [[Hh%String.eqb_eq Hl%negb_true_iff]%andb_true_iff Hr].
  apply (vanished_stops_host check_houseless "h1" "id-0" "n1" n d); [done..|].
  by destruct (repositories check_houseless !! _).
Defined.
