(* ===== verification/ConfigFile.v ===== *)
(** Reading configuration files: the [Deserialize] implementations of
    src/pgcluster/src/config/mod.rs, as serde derives them.

    A parsed TOML document is a [value]. A field is read by its key; one that is
    missing takes its default, or makes the document invalid where the source
    gives none; keys the source does not name are ignored. The TOML parser is
    the toml crate's and stays outside: [from_toml] is a parameter, and
    [from_file] is the reading and the validation after it. *)
From S2P Require Import Prelude Topology Lease Pool Routing Admission Config.

Local Open Scope Z_scope.

(** ** Documents *)

Inductive value :=
| VBool (b : bool)
| VInt (n : Z)
| VString (s : string)
| VArray (l : list value)
| VTable (fields : list (string * value)).

Definition lookup_key (k : string) (fields : list (string * value)) : option value :=
  snd <$> List.find (λ kv, String.eqb kv.1 k) fields.

(** ** Fields *)

Definition read_table {A} (f : list (string * value) → option A) (v : value) : option A :=
  match v with VTable l => f l | _ => None end.

Definition read_string (v : value) : option string := match v with VString s => Some s | _ => None end.
Definition read_bool (v : value) : option bool := match v with VBool b => Some b | _ => None end.

(** An unsigned integer of [w] bits. *)
Definition read_uint (w : Z) (v : value) : option Z :=
  match v with VInt n => if bool_decide (in_u w n) then Some n else None | _ => None end.

Definition read_list {A} (read : value → option A) (v : value) : option (list A) :=
  match v with VArray l => mapM read l | _ => None end.

Definition read_map (v : value) : option (gmap string string) :=
  read_table (λ l, list_to_map <$> mapM (λ '(k, v), pair k <$> read_string v) l) v.

Definition required {A} (read : value → option A) (k : string) (l : list (string * value)) : option A :=
  lookup_key k l ≫= read.

(** [#[serde(default = ..)]]. *)
Definition defaulted {A} (d : A) (read : value → option A) (k : string) (l : list (string * value))
    : option A :=
  match lookup_key k l with Some v => read v | None => Some d end.

(** A field of type [Option]. *)
Definition optional {A} (read : value → option A) (k : string) (l : list (string * value))
    : option (option A) :=
  match lookup_key k l with Some v => Some <$> read v | None => Some None end.

(** ** Sections *)

Definition read_mode (v : value) : option ClusterMode :=
  s ← read_string v;
  if String.eqb s "cluster" then Some Cluster
  else if String.eqb s "coordinator" then Some Coordinator else None.

Definition read_cluster : value → option ClusterConfig := read_table (λ l,
  name ← required read_string "name" l;
  data_dir ← required read_string "data_dir" l;
  mode ← defaulted Cluster read_mode "mode" l;
  secrets_file ← optional read_string "secrets_file" l;
  Some (mkClusterConfig name data_dir mode secrets_file)).

Definition read_peer : value → option RaftPeer := read_table (λ l,
  id ← required (read_uint 64) "id" l;
  addr ← required read_string "addr" l;
  Some (mkRaftPeer id addr)).

Definition read_raft : value → option RaftConfig := read_table (λ l,
  node_id ← required (read_uint 64) "node_id" l;
  peers ← required (read_list read_peer) "peers" l;
  heartbeat ← defaulted default_heartbeat (read_uint 64) "heartbeat_interval_ms" l;
  election ← defaulted default_election_timeout (read_uint 64) "election_timeout_ms" l;
  bootstrap ← defaulted false read_bool "bootstrap" l;
  Some (mkRaftConfig node_id peers heartbeat election bootstrap)).

Definition default_priority : Z := 100.

Definition read_node : value → option ConfigNode := read_table (λ l,
  id ← required read_string "id" l;
  agent_addr ← required read_string "agent_addr" l;
  postgres_addr ← required read_string "postgres_addr" l;
  priority ← defaulted default_priority (read_uint 32) "priority" l;
  tags ← defaulted ∅ read_map "tags" l;
  Some (mkConfigNode id agent_addr postgres_addr priority tags)).

Definition read_nodes : value → option (list ConfigNode) :=
  read_table (defaulted [] (read_list read_node) "node").

Definition read_replication_mode (v : value) : option ReplicationMode :=
  s ← read_string v;
  if String.eqb s "async" then Some Async
  else if String.eqb s "sync" then Some Sync
  else if String.eqb s "sync_strict" then Some SyncStrict else None.

Definition default_replication_password_env : string := "PG_REPLICATION_PASSWORD".
Definition default_slot_prefix : string := "pgcluster_".
Definition default_sync_degrade_timeout : Z := 30.
Definition default_max_slot_wal_keep_size : Z := 10 * 1024.

Definition read_replication : value → option ReplicationConfig := read_table (λ l,
  user ← required read_string "replication_user" l;
  password_env ← defaulted default_replication_password_env read_string "replication_password_env" l;
  slot_prefix ← defaulted default_slot_prefix read_string "slot_prefix" l;
  mode ← defaulted Async read_replication_mode "replication_mode" l;
  degrade ← defaulted default_sync_degrade_timeout (read_uint 64) "sync_degrade_timeout_seconds" l;
  keep ← defaulted default_max_slot_wal_keep_size (read_uint 64) "max_slot_wal_keep_size_mb" l;
  Some (mkReplicationConfig user password_env slot_prefix mode degrade keep)).

Definition read_pool : value → option PoolConfig := read_table (λ l,
  max ← defaulted 25 (read_uint 32) "max_connections_per_db_user" l;
  idle ← defaulted 600 (read_uint 64) "idle_timeout_seconds" l;
  connect ← defaulted 5 (read_uint 64) "connect_timeout_seconds" l;
  Some (mkPoolConfig max idle connect)).

Definition read_read_routing : value → option ReadRoutingConfig := read_table (λ l,
  enabled ← defaulted false read_bool "enabled" l;
  lag ← defaulted (10 * 1024 * 1024) (read_uint 64) "max_replica_lag_bytes" l;
  Some (mkReadRouting enabled lag)).

Definition default_proxy_listen : string := "0.0.0.0:5432".
Definition default_admin_listen : string := "0.0.0.0:5433".
Definition default_health_listen : string := "0.0.0.0:8008".
Definition default_auth_user : string := "pgcluster_auth".
Definition default_auth_password_env : string := "PGCLUSTER_AUTH_PASSWORD".
Definition default_quorum_lease : Z := 1000.
Definition default_max_client_connections : Z := 10000.
Definition default_max_pending_logins : Z := 512.
Definition default_max_pending_logins_per_address : Z := 64.
Definition default_login_timeout : Z := 10000.

Definition read_proxy : value → option ProxyConfig := read_table (λ l,
  listen ← defaulted default_proxy_listen read_string "listen_addr" l;
  admin ← defaulted default_admin_listen read_string "admin_listen_addr" l;
  health ← defaulted default_health_listen read_string "health_listen_addr" l;
  pool ← defaulted default_pool read_pool "pool" l;
  routing ← defaulted default_read_routing read_read_routing "read_routing" l;
  auth_user ← defaulted default_auth_user read_string "auth_user" l;
  auth_env ← defaulted default_auth_password_env read_string "auth_password_env" l;
  lease ← defaulted default_quorum_lease (read_uint 64) "quorum_lease_ms" l;
  cidrs ← optional (read_list read_string) "allowed_cidrs" l;
  require_tls ← defaulted false read_bool "require_tls" l;
  clients ← defaulted default_max_client_connections (read_uint 64) "max_client_connections" l;
  pending ← defaulted default_max_pending_logins (read_uint 64) "max_pending_logins" l;
  per_addr ← defaulted default_max_pending_logins_per_address (read_uint 64)
               "max_pending_logins_per_address" l;
  login ← defaulted default_login_timeout (read_uint 64) "login_timeout_ms" l;
  Some (mkProxyConfig listen admin health pool routing auth_user auth_env lease cidrs require_tls
    clients pending per_addr login)).

Definition read_failover : value → option FailoverConfig := read_table (λ l,
  interval ← defaulted 500 (read_uint 64) "health_check_interval_ms" l;
  failures ← defaulted 3 (read_uint 32) "health_check_failures_before_failover" l;
  heartbeat ← defaulted 10 (read_uint 64) "agent_heartbeat_timeout_seconds" l;
  promote ← defaulted 30 (read_uint 64) "promote_timeout_secs" l;
  repoint ← defaulted 60 (read_uint 64) "repoint_timeout_secs" l;
  Some (mkFailoverConfig interval failures heartbeat promote repoint)).

Definition read_tls : value → option TlsConfig := read_table (λ l,
  ca ← optional read_string "ca_cert" l;
  cert ← optional read_string "cert" l;
  key ← optional read_string "key" l;
  plaintext ← defaulted false read_bool "insecure_plaintext" l;
  proxy_cert ← optional read_string "proxy_cert" l;
  proxy_key ← optional read_string "proxy_key" l;
  Some (mkTlsConfig ca cert key plaintext proxy_cert proxy_key)).

Definition default_tls : TlsConfig := mkTlsConfig None None None false None None.
Definition default_metrics_listen : string := "0.0.0.0:9190".

Definition read_metrics : value → option string :=
  read_table (defaulted default_metrics_listen read_string "listen_addr").

Definition default_api_listen : string := "0.0.0.0:8009".

Definition read_api : value → option ApiConfig := read_table (λ l,
  listen ← defaulted default_api_listen read_string "listen_addr" l;
  keys ← defaulted [] (read_list read_string) "api_keys" l;
  public ← defaulted false read_bool "public_read_endpoints" l;
  no_auth ← defaulted false read_bool "insecure_no_auth" l;
  Some (mkApiConfig listen keys public no_auth)).

Definition read_s3 : value → option S3Config := read_table (λ l,
  bucket ← required read_string "bucket" l;
  prefix ← defaulted EmptyString read_string "prefix" l;
  region ← optional read_string "region" l;
  endpoint ← optional read_string "endpoint" l;
  path_style ← defaulted false read_bool "path_style" l;
  Some (mkS3Config bucket prefix region endpoint path_style)).

Definition read_posix : value → option PosixConfig :=
  read_table (λ l, mkPosixConfig <$> required read_string "path" l).

Definition default_backup_interval : Z := 24 * 3600.
Definition default_delta_steps : Z := 6.
Definition default_retain_full : Z := 4.

Definition read_backup : value → option BackupConfig := read_table (λ l,
  enabled ← defaulted true read_bool "enabled" l;
  s3 ← optional read_s3 "s3" l;
  posix ← optional read_posix "posix" l;
  prefer_replica ← defaulted true read_bool "prefer_replica" l;
  interval ← defaulted default_backup_interval (read_uint 64) "interval_seconds" l;
  steps ← defaulted default_delta_steps (read_uint 32) "delta_steps" l;
  retain ← defaulted default_retain_full (read_uint 32) "retain_full" l;
  key_env ← optional read_string "encryption_key_env" l;
  Some (mkBackupConfig enabled s3 posix prefer_replica interval steps retain key_env)).

Definition read_config : value → option PgClusterConfig := read_table (λ l,
  cluster ← required read_cluster "cluster" l;
  raft ← required read_raft "raft" l;
  nodes ← defaulted [] read_nodes "nodes" l;
  replication ← required read_replication "replication" l;
  proxy ← required read_proxy "proxy" l;
  failover ← defaulted default_failover read_failover "failover" l;
  tls ← defaulted default_tls read_tls "tls" l;
  metrics ← defaulted default_metrics_listen read_metrics "metrics" l;
  api ← required read_api "api" l;
  backup ← optional read_backup "backup" l;
  Some (mkConfig cluster raft nodes replication proxy failover tls metrics api backup)).

(** ** Files *)

Section from_file.
Context (from_toml : string → option value).
Context (parse_socket_addr : string → bool) {IpNet : Type} (parse_net : string → option IpNet).

(** [PgClusterConfig::from_file], from the file's text. *)
Definition from_file (content : string) : option PgClusterConfig :=
  cfg ← from_toml content ≫= read_config;
  match validate parse_socket_addr parse_net cfg with Ok _ => Some cfg | Err _ => None end.
End from_file.

(** The addresses of a node by its ID. *)
Definition postgres_addr_of (cfg : PgClusterConfig) (id : string) : option string :=
  cn_postgres_addr <$> List.find (λ n, String.eqb (cn_id n) id) (cfg_nodes cfg).
Definition agent_addr_of (cfg : PgClusterConfig) (id : string) : option string :=
  cn_agent_addr <$> List.find (λ n, String.eqb (cn_id n) id) (cfg_nodes cfg).

(** ** Settings that change without a restart *)

(** src/pgcluster/src/config/runtime.rs: what SIGHUP replaces, and the last
    failed backup's label and error. *)
Record Runtime := mkRuntime {
  rt_api_keys : list string;
  rt_retain_full : Z;
  backup_failure : option (string * string)
}.

Definition runtime_apply (cfg : PgClusterConfig) (r : Runtime) : Runtime :=
  mkRuntime (api_keys (api cfg)) (match backup cfg with Some b => retain_full b | None => 0 end)
    (backup_failure r).

Definition runtime_new (cfg : PgClusterConfig) : Runtime := runtime_apply cfg (mkRuntime [] 0 None).

Definition runtime_retain_full (r : Runtime) (configured : Z) : Z :=
  if rt_retain_full r =? 0 then configured else rt_retain_full r.

Definition record_backup (failure : option (string * string)) (r : Runtime) : Runtime :=
  mkRuntime (rt_api_keys r) (rt_retain_full r) failure.

(** ** What was read has its types *)

(** Every number of a configuration is in the range of the source's type. *)
Record config_typed (c : PgClusterConfig) : Prop := {
  ct_raft : u64 (node_id (raft c)) ∧ u64 (heartbeat_interval_ms (raft c)) ∧ u64 (election_timeout_ms (raft c));
  ct_peers : Forall (λ p, u64 (peer_id p)) (peers (raft c));
  ct_nodes : Forall (λ n, in_u 32 (cn_priority n)) (cfg_nodes c);
  ct_replication : u64 (sync_degrade_timeout_seconds (replication c)) ∧ u64 (max_slot_wal_keep_size_mb (replication c));
  ct_pool : in_u 32 (max_connections_per_db_user (pool (proxy c))) ∧ u64 (idle_timeout_seconds (pool (proxy c))) ∧
    u64 (connect_timeout_seconds (pool (proxy c)));
  ct_proxy : u64 (quorum_lease_ms (proxy c)) ∧ u64 (max_replica_lag_bytes (read_routing (proxy c))) ∧
    u64 (max_client_connections (proxy c)) ∧ u64 (max_pending_logins (proxy c)) ∧
    u64 (max_pending_logins_per_address (proxy c)) ∧ u64 (login_timeout_ms (proxy c));
  ct_failover : u64 (health_check_interval_ms (failover c)) ∧
    in_u 32 (health_check_failures_before_failover (failover c)) ∧
    u64 (agent_heartbeat_timeout_seconds (failover c)) ∧ u64 (promote_timeout_secs (failover c)) ∧
    u64 (repoint_timeout_secs (failover c));
  ct_backup : ∀ b, backup c = Some b →
    u64 (interval_seconds b) ∧ in_u 32 (delta_steps b) ∧ in_u 32 (retain_full b)
}.

Lemma read_uint_range w v n : read_uint w v = Some n → in_u w n.
Proof. destruct v; cbn; try done. case_bool_decide; [|done]. by intros [= <-]. Qed.

Section readers.
Context {A : Type} (P : A → Prop) (read : value → option A).
Hypothesis read_P : ∀ v x, read v = Some x → P x.

Lemma required_P k l x : required read k l = Some x → P x.
Proof. unfold required. intros (v & _ & Hv)%bind_Some. by eapply read_P. Qed.

Lemma defaulted_P d k l x : P d → defaulted d read k l = Some x → P x.
Proof. intros Hd. unfold defaulted. case_match; [by eapply read_P|]. by intros [= <-]. Qed.

Lemma optional_P k l o x : optional read k l = Some o → o = Some x → P x.
Proof.
  unfold optional. case_match; [|by intros [= <-]]. intros Hf ->. apply fmap_Some in Hf as (y & Hy & [= ->]). by eapply read_P.
Qed.

Lemma read_list_P v l : read_list read v = Some l → Forall P l.
Proof.
  destruct v as [| | |vs|]; cbn; try done. intros Hm. apply mapM_Some in Hm. induction Hm; constructor; [by eapply read_P|done].
Qed.

Lemma read_table_P (f : list (string * value) → option A) : (∀ l x, f l = Some x → P x) → ∀ v x, read_table f v = Some x → P x.
Proof. intros Hf [] x; cbn; try done. apply Hf. Qed.
End readers.

Lemma uint_required w k l n : required (read_uint w) k l = Some n → in_u w n.
Proof. apply (required_P (in_u w)), read_uint_range. Qed.

Lemma uint_defaulted w d k l n : defaulted d (read_uint w) k l = Some n → in_u w d → in_u w n.
Proof. intros Hr Hd. by eapply (defaulted_P (in_u w)); [apply read_uint_range| |exact Hr]. Qed.

(** Take a reader apart. *)
Ltac unread :=
  repeat match goal with H : (_ ≫= _) = Some _ |- _ => apply bind_Some in H as (? & ? & H) end; simplify_eq; cbn.

(** A number that was read or is a default. *)
Ltac ranged :=
  match goal with
  | H : required (read_uint _) _ _ = Some ?n |- in_u _ ?n => exact (uint_required _ _ _ _ H)
  | H : defaulted _ (read_uint _) _ _ = Some ?n |- in_u _ ?n => apply (uint_defaulted _ _ _ _ _ H); split; by vm_compute
  end.

Ltac rangeds := repeat first [ranged | split].

Lemma read_raft_typed v r : read_raft v = Some r →
  (u64 (node_id r) ∧ u64 (heartbeat_interval_ms r) ∧ u64 (election_timeout_ms r)) ∧ Forall (λ p, u64 (peer_id p)) (peers r).
Proof.
  revert v r. apply read_table_P. intros l r Hr. unread. split; [rangeds|].
  eapply (required_P (Forall (λ p, u64 (peer_id p)))); [|done]. intros v ps. apply read_list_P.
  apply read_table_P. intros l' p Hp. unread. ranged.
Qed.

Lemma read_nodes_typed v ns : read_nodes v = Some ns → Forall (λ n, in_u 32 (cn_priority n)) ns.
Proof.
  revert v ns. apply read_table_P. intros l ns. apply defaulted_P; [|done]. intros v ns'. apply read_list_P.
  apply read_table_P. intros l' n Hn. unread. ranged.
Qed.

Lemma read_pool_typed v p : read_pool v = Some p →
  in_u 32 (max_connections_per_db_user p) ∧ u64 (idle_timeout_seconds p) ∧ u64 (connect_timeout_seconds p).
Proof. revert v p. apply read_table_P. intros l p Hp. unread. rangeds. Qed.

Lemma read_routing_typed v r : read_read_routing v = Some r → u64 (max_replica_lag_bytes r).
Proof. revert v r. apply read_table_P. intros l r Hr. unread. ranged. Qed.

Lemma read_proxy_typed v p : read_proxy v = Some p →
  (in_u 32 (max_connections_per_db_user (pool p)) ∧ u64 (idle_timeout_seconds (pool p)) ∧
   u64 (connect_timeout_seconds (pool p))) ∧
  (u64 (quorum_lease_ms p) ∧ u64 (max_replica_lag_bytes (read_routing p)) ∧ u64 (max_client_connections p) ∧
   u64 (max_pending_logins p) ∧ u64 (max_pending_logins_per_address p) ∧ u64 (login_timeout_ms p)).
Proof.
  revert v p. apply read_table_P. intros l p Hp. unread.
  repeat match goal with
  | H : defaulted _ read_pool _ _ = Some _ |- _ => apply (defaulted_P _ _ read_pool_typed) in H; [|repeat split; by vm_compute]
  | H : defaulted _ read_read_routing _ _ = Some _ |- _ =>
      apply (defaulted_P _ _ read_routing_typed) in H; [|split; by vm_compute]
  end.
  split; [done|]. split; [ranged|]. split; [done|]. rangeds.
Qed.

Lemma read_failover_typed v f : read_failover v = Some f →
  u64 (health_check_interval_ms f) ∧ in_u 32 (health_check_failures_before_failover f) ∧
  u64 (agent_heartbeat_timeout_seconds f) ∧ u64 (promote_timeout_secs f) ∧ u64 (repoint_timeout_secs f).
Proof. revert v f. apply read_table_P. intros l f Hf. unread. rangeds. Qed.

Lemma read_replication_typed v r : read_replication v = Some r →
  u64 (sync_degrade_timeout_seconds r) ∧ u64 (max_slot_wal_keep_size_mb r).
Proof. revert v r. apply read_table_P. intros l r Hr. unread. rangeds. Qed.

Lemma read_backup_typed v b : read_backup v = Some b →
  u64 (interval_seconds b) ∧ in_u 32 (delta_steps b) ∧ in_u 32 (retain_full b).
Proof. revert v b. apply read_table_P. intros l b Hb. unread. rangeds. Qed.

Lemma read_config_typed v c : read_config v = Some c → config_typed c.
Proof.
  revert v c. apply read_table_P. intros l c Hc. unread.
  repeat match goal with
  | H : required read_raft _ _ = Some _ |- _ => apply (required_P _ _ read_raft_typed) in H as [? ?]
  | H : required read_replication _ _ = Some _ |- _ => apply (required_P _ _ read_replication_typed) in H
  | H : required read_proxy _ _ = Some _ |- _ => apply (required_P _ _ read_proxy_typed) in H as [? ?]
  | H : defaulted _ read_nodes _ _ = Some _ |- _ => apply (defaulted_P _ _ read_nodes_typed) in H; [|done]
  | H : defaulted _ read_failover _ _ = Some _ |- _ =>
      apply (defaulted_P _ _ read_failover_typed) in H; [|repeat split; by vm_compute]
  end.
  split; cbn; try done. intros b Hb. eapply (optional_P _ _ read_backup_typed); eassumption.
Qed.

