(* ===== verification/Backups.v ===== *)
(** Backups of a cluster: src/pgcluster/src/backup/ and src/pgcluster/src/api/backup.rs.

    The coordinator's code is programs over its calls: RPCs to agents, writes to
    Raft, clocks, and what it shares with the API. A scheduler's turn takes and
    returns what the loop keeps, the time of the last failure.

    - [manifest_means_backup]: a manifest is written only for a backup an agent
      finished, of the node it names; retention runs only after that, and drops a
      manifest only when the repository no longer has its backup.
    - [source_is_best]: which node is backed up.
    - [backups_when_due]: when the scheduler starts one.
    - [interval_wraps]: with an interval that does not fit an [i64], always.
    - [restore_apart]: restores never go to a node of this cluster. *)
From S2P Require Import Prelude Topology StateMachine Config Effects Standby ConfigFile.

Local Open Scope Z_scope.

(** ** Calls *)

Record PushResponse := mkPush { pu_success : bool; pu_backup_name : string; pu_size_bytes : Z; pu_error : string }.
Record DeleteResponse := mkDelete { de_success : bool; de_remaining : list string; de_error : string }.
Record VerifyResponse := mkVerify { ve_success : bool; ve_report : string; ve_error : string }.

Inductive bcall :=
| BConnect (node addr : string)
| BEvict (node : string)
| BPush (node : string)
| BDelete (node : string) (retain_full : Z) (target : string)
| BVerify (node : string)
| BRestore (node : string) (request : RestoreRequest)
| BWrite (cmd : TopologyCommand)
| BLeads
| BTopology
| BRuntime
| BRecord (failure : option (string * string))
| BUnixNow
| BInstantMs
| BDate (format : string)
| BBeginRestore
| BEndRestore (error : option string).

(** An RPC answers [None] when it fails. *)
Definition banswer (e : bcall) : Type :=
  match e with
  | BConnect _ _ | BWrite _ | BLeads | BBeginRestore => bool
  | BEvict _ | BRecord _ | BEndRestore _ => ()
  | BPush _ => option PushResponse
  | BDelete _ _ _ => option DeleteResponse
  | BVerify _ => option VerifyResponse
  | BRestore _ _ => option (bool * string)
  | BTopology => ClusterTopology
  | BRuntime => Runtime
  | BUnixNow | BInstantMs => Z
  | BDate _ => string
  end.

Abbreviation bprog := (prog banswer).
Definition bdo (e : bcall) : bprog (banswer e) := call e.

(** ** walg.rs *)

(** [credentials::get] of a name. *)
Definition walg_settings (credential : string → string) (c : BackupConfig) : gmap string string :=
  let put k v (m : gmap string string) := <[k := v]> m in
  let maybe k (v : option string) m := match v with Some v => put k v m | None => m end in
  let from_env k v m := if is_empty v then m else put k v m in
  let m := put "WALG_DELTA_MAX_STEPS" (format_dec (delta_steps c)) ∅ in
  let m := put "WALG_COMPRESSION_METHOD" "zstd" m in
  let m := match s3 c with
           | Some x =>
               let m := put "WALG_S3_PREFIX" ("s3://" ++ bucket x ++ "/" ++ trim_end_char "/" (trim_start_char "/" (prefix x)))%string m in
               let m := maybe "AWS_REGION" (region x) m in
               let m := maybe "AWS_ENDPOINT" (endpoint x) m in
               let m := if path_style x then put "AWS_S3_FORCE_PATH_STYLE" "true" m else m in
               fold_left (λ m name, from_env name (credential name) m)
                 ["AWS_ACCESS_KEY_ID"; "AWS_SECRET_ACCESS_KEY"; "AWS_SESSION_TOKEN"] m
           | None => m
           end in
  let m := maybe "WALG_FILE_PREFIX" (posix_path <$> posix c) m in
  match encryption_key_env c with
  | Some env =>
      if is_empty (credential env) then m
      else put "WALG_LIBSODIUM_KEY_TRANSFORM" "base64" (put "WALG_LIBSODIUM_KEY" (credential env) m)
  | None => m
  end.

Section backups.
Context `{!HashOrder}.
(** What an error says. *)
Context (failure_text : string).

(** ** Scheduling *)

Definition U64_LAG : Z := 2 ^ 64 - 1.

Definition backup_candidates (t : ClusterTopology) : list (string * Z) :=
  (λ x : string * NodeRole, (x.1, get_or U64_LAG (replica_lag_bytes t) x.1)) <$>
    List.filter (λ x : string * NodeRole,
      match x.2 with Replica => true | _ => false end &&
      match node_configs t !! x.1 with Some cfg => negb (is_external cfg) | None => false end) (hash_iter (node_roles t)).

(** [min_by_key]: the first of the least. *)
Definition least_lagged (l : list (string * Z)) : option (string * Z) :=
  max_by_key (λ a b, b.2 <=? a.2) (reverse l).

Definition primary_source (t : ClusterTopology) : option (string * string) :=
  cfg ← node_configs t !! primary_node_id t; Some (primary_node_id t, agent_addr cfg).

Definition select_source (t : ClusterTopology) (prefer_replica : bool) : option (string * string) :=
  match (if prefer_replica then least_lagged (backup_candidates t) else None) with
  | Some (id, _) =>
      match node_configs t !! id with Some cfg => Some (id, agent_addr cfg) | None => primary_source t end
  | None => primary_source t
  end.

Definition last_backup_ts (t : ClusterTopology) : option Z :=
  max_by_key Z.leb (completed_at <$> List.filter (λ b, match status b with Completed => true | Failed => false end) (backups t)).

(** [as i64] of a [u64]. *)
Definition as_i64 (z : Z) : Z := if z <? 2 ^ 63 then z else z - 2 ^ 64.

Definition is_due (interval_seconds : Z) (last : option Z) (now : Z) : bool :=
  match last with None => true | Some last => as_i64 interval_seconds <=? now - last end.

(** ** One backup *)

Definition remove_manifests_except (t : ClusterTopology) (newest : BackupManifest) (remaining : list string) : bprog () :=
  for_each (λ old : BackupManifest,
    if String.eqb (backup_id old) (backup_id newest) || existsb (String.eqb (backup_id old)) remaining then Ret ()
    else _ ← bdo (BWrite (RemoveBackupManifest (backup_id old))); Ret ()) (backups t).

(** A node, by an agent's connection: one push. *)
Definition push_on (node addr : string) : bprog (option PushResponse) :=
  ok ← bdo (BConnect node addr); if ok : bool then bdo (BPush node) else Ret None.

(** A push on the source, or on the primary if a standby refuses. *)
Definition push_somewhere (t : ClusterTopology) (prefer : bool) : bprog (option (string * PushResponse)) :=
  source ←? Ret (select_source t prefer);
  response ←? push_on source.1 source.2;
  if negb (pu_success response) && negb (String.eqb source.1 (primary_node_id t)) then
    primary ←? Ret (select_source t false);
    response ←? push_on primary.1 primary.2;
    Ret (Some (primary.1, response))
  else Ret (Some (source.1, response)).

Definition apply_retention (t : ClusterTopology) (node : string) (retain : Z) (m : BackupManifest) : bprog () :=
  response ← bdo (BDelete node retain EmptyString);
  match response : option DeleteResponse with
  | Some r => if de_success r then remove_manifests_except t m (de_remaining r) else Ret ()
  | None => Ret ()
  end.

(** An error is [None]. The time is read once a source was found. *)
Definition run_backup (t : ClusterTopology) (c : BackupConfig) (retain : Z) (frequency label : string) : bprog (option BackupManifest) :=
  _ ←? Ret (select_source t (prefer_replica c));
  started ← bdo BUnixNow;
  pushed ←? push_somewhere t (prefer_replica c);
  let '(source, response) := pushed in
  if negb (pu_success response) then Ret None
  else
    completed ← bdo BUnixNow;
    let m := mkBackupManifest (pu_backup_name response) label frequency source started completed
               (pu_size_bytes response) (pu_backup_name response) Completed in
    written ← bdo (BWrite (AddBackupManifest m));
    if negb (written : bool) then Ret None
    else _ ← apply_retention t source retain m; Ret (Some m).

(** ** The scheduler *)

Definition RETRY_DELAY_MS : Z := 60000.

Definition resting (last_failure : option Z) (now : Z) : bool :=
  match last_failure with Some at_ => now - at_ <? RETRY_DELAY_MS | None => false end.

(** What follows a run, scheduled or asked for. *)
Definition record_run (label : string) (m : option BackupManifest) : bprog () :=
  bdo (BRecord (match m with Some _ => None | None => Some (label, failure_text) end)).

Definition scheduled_backup (c : BackupConfig) (t : ClusterTopology) : bprog (option Z) :=
  date ← bdo (BDate "%Y-%m-%d");
  let label := ("scheduled-" ++ date)%string in
  rt ← bdo BRuntime;
  m ← run_backup t c (runtime_retain_full rt (retain_full c)) "scheduled" label;
  match m : option BackupManifest with
  | Some _ => _ ← record_run label m; Ret None
  | None => now ← bdo BInstantMs; _ ← record_run label None; Ret (Some now)
  end.

(** A tick, which gives the time of the last failure. *)
Definition scheduler_tick (c : BackupConfig) (last_failure : option Z) : bprog (option Z) :=
  if negb (backup_enabled c) then Ret last_failure
  else
    now ← (match last_failure with Some _ => bdo BInstantMs | None => Ret 0 end : bprog Z);
    if resting last_failure now then Ret last_failure
    else
      leads ← bdo BLeads;
      if negb leads then Ret last_failure
      else
        t ← bdo BTopology;
        rt ← bdo BRuntime;
        now ← (match backup_failure rt with Some _ => Ret 0 | None => bdo BUnixNow end : bprog Z);
        if match backup_failure rt with Some _ => true | None => is_due (interval_seconds c) (last_backup_ts t) now end
        then scheduled_backup c t
        else Ret last_failure.

(** ** Requests *)

Definition enabled (configured : option BackupConfig) : result Z BackupConfig :=
  match configured with
  | None => Err 404
  | Some c => if backup_enabled c then Ok c else Err 503
  end.

Definition list_backups (frequency_wanted : option string) (t : ClusterTopology) : list BackupManifest :=
  sort_by newer (List.filter (λ b,
    match frequency_wanted with Some f => String.eqb (frequency b) f | None => true end) (backups t)).

(** The task a request leaves running, with its label. *)
Definition trigger_backup (configured : option BackupConfig) (label_asked frequency_asked : option string)
    : bprog (result Z (bprog ())) :=
  match enabled configured with
  | Err e => Ret (Err e)
  | Ok c =>
      rt ← bdo BRuntime;
      label ← match label_asked with
              | Some label => Ret label
              | None => date ← bdo (BDate "%Y-%m-%dT%H%M%S"); Ret ("manual-" ++ date)%string
              end;
      t ← bdo BTopology;
      Ret (Ok (m ← run_backup t c (runtime_retain_full rt (retain_full c)) (default "manual" frequency_asked) label;
               record_run label m))
  end.

Definition primary_agent : bprog (option (string * string)) := t ← bdo BTopology; Ret (primary_source t).

Definition delete_backup (configured : option BackupConfig) (id : string) : bprog Z :=
  match enabled configured with
  | Err e => Ret e
  | Ok _ =>
      t ← bdo BTopology;
      if negb (existsb (λ b, String.eqb (backup_id b) id) (backups t)) then Ret 404
      else
        primary ← primary_agent;
        match primary : option (string * string) with
        | None => Ret 503
        | Some (node, addr) =>
            ok ← bdo (BConnect node addr);
            if negb (ok : bool) then Ret 500
            else
              response ← bdo (BDelete node 0 id);
              match response : option DeleteResponse with
              | Some r =>
                  if negb (de_success r) then Ret 500
                  else written ← bdo (BWrite (RemoveBackupManifest id)); Ret (if written : bool then 204 else 500)
              | None => Ret 500
              end
        end
  end.

Definition verify_backups (configured : option BackupConfig) : bprog (result Z string) :=
  match enabled configured with
  | Err e => Ret (Err e)
  | Ok _ =>
      primary ← primary_agent;
      match primary : option (string * string) with
      | None => Ret (Err 503)
      | Some (node, addr) =>
          ok ← bdo (BConnect node addr);
          if negb (ok : bool) then Ret (Err 500)
          else
            response ← bdo (BVerify node);
            Ret (match response : option VerifyResponse with
                 | Some r => if ve_success r then Ok (ve_report r) else Err 500
                 | None => Err 500
                 end)
      end
  end.

(** The task a restore leaves running. *)
Definition restore_task (agent : string) (request : RestoreRequest) : bprog () :=
  ok ← bdo (BConnect agent agent);
  r ← (if ok : bool then bdo (BRestore agent request) else Ret None);
  _ ← bdo (BEvict agent);
  bdo (BEndRestore (match r : option (bool * string) with
                    | Some (true, _) => None
                    | Some (false, e) => Some e
                    | None => Some failure_text
                    end)).

Definition start_restore (credential : string → string) (configured : option BackupConfig)
    (agent backup target_time : string) (force : bool) : bprog (result Z (bprog ())) :=
  match enabled configured with
  | Err e => Ret (Err e)
  | Ok c =>
      t ← bdo BTopology;
      if existsb (λ x : string * NodeConfig, String.eqb (agent_addr x.2) agent) (hash_iter (node_configs t)) then Ret (Err 409)
      else
        began ← bdo BBeginRestore;
        if negb (began : bool) then Ret (Err 409)
        else Ret (Ok (restore_task agent (mkRestoreRequest backup target_time force None (walg_settings credential c))))
  end.

(** ** What a run does *)

Definition harmless (o : obs banswer) : Prop :=
  match obs_ev o with BConnect _ _ | BPush _ | BUnixNow => True | _ => False end.

(** A manifest that retention drops, after the repository's answer. *)
Definition dropped (m : BackupManifest) (r : option DeleteResponse) (o : obs banswer) : Prop :=
  ∃ id d, obs_ev o = BWrite (RemoveBackupManifest id) ∧ id ≠ backup_id m ∧ r = Some d ∧ de_success d = true ∧
    id ∉ de_remaining d.

Definition retention (node : string) (retain : Z) (m : BackupManifest) (tr : list (obs banswer)) : Prop :=
  ∃ r drops, tr = Obs (BDelete node retain EmptyString) r :: drops ∧ Forall (dropped m r) drops.

(** The manifest of a push. *)
Definition manifest_of (frequency_ label_ node : string) (r : PushResponse) (m : BackupManifest) : Prop :=
  backup_id m = pu_backup_name r ∧ location m = pu_backup_name r ∧ size_bytes m = pu_size_bytes r ∧
  source_node m = node ∧ label m = label_ ∧ frequency m = frequency_ ∧ status m = Completed.

Lemma push_on_runs node addr :
  all_runs (push_on node addr) (λ o tr, Forall harmless tr ∧ ∀ r, o = Some r → Obs (BPush node) (Some r) ∈ tr).
Proof.
  intros [|]; cbn; [|by repeat constructor]. intros r. split; [by repeat constructor|]. intros x ->. right. left.
Qed.

Lemma push_somewhere_runs t prefer :
  all_runs (push_somewhere t prefer) (λ o tr, Forall harmless tr ∧ ∀ node r, o = Some (node, r) →
    Obs (BPush node) (Some r) ∈ tr ∧ ∃ addr, select_source t prefer = Some (node, addr) ∨ select_source t false = Some (node, addr)).
Proof.
  unfold push_somewhere. destruct (select_source t prefer) as [[n a]|] eqn:E; [|by split]. cbn [try_bind mbind prog_bind bind_prog].
  eapply all_runs_try; [apply push_on_runs|by intros tr [Hf _]|]. intros r tr [Hh Hr]. cbn [fst snd].
  destruct (negb (pu_success r) && _).
  - destruct (select_source t false) as [[n' a']|] eqn:E'; [|by split; [rewrite app_nil_r|]]. cbn [try_bind mbind prog_bind bind_prog].
    eapply all_runs_try; [apply push_on_runs|by intros tr' [Hf' _]; split; [by apply Forall_app|]|].
    intros r' tr' [Hh' Hr']. cbn. rewrite app_nil_r. split; [by apply Forall_app|]. intros node x [= <- <-].
    split; [apply elem_of_app; right; auto|by exists a'; right].
  - cbn. rewrite app_nil_r. split; [done|]. intros node x [= <- <-]. split; [auto|by exists a; left].
Qed.

Lemma retention_runs t node retain m : all_runs (apply_retention t node retain m) (λ _ tr, retention node retain m tr).
Proof.
  intros [d|]; cbn; [|by exists None, []]. destruct (de_success d) eqn:Hs; [|by exists (Some d), []].
  eapply all_runs_mono; [apply only_runs with (P := dropped m (Some d))|by intros [] tr Htr; exists (Some d), tr].
  apply only_for_each. intros old _. destruct (_ || _) eqn:E; [done|]. apply orb_false_iff in E as [E1 E2].
  intros ok. split; [|done]. exists (backup_id old), d. split; [done|]. split; [by apply String.eqb_neq|].
  split; [done|]. split; [done|]. intros Hin. apply list_elem_of_In in Hin.
  assert (existsb (String.eqb (backup_id old)) (de_remaining d) = true) as Hx; [|by rewrite Hx in E2].
  apply existsb_exists. exists (backup_id old). split; [done|by apply String.eqb_eq].
Qed.

(** C28 A backup is listed only after an agent finished it: every run of a backup
    asks the chosen node, or the primary if that refuses, and writes nothing, or it
    writes one manifest, of the backup that the node it names has just answered
    with; only then does it apply retention, and it drops a manifest only if the
    repository says that backup is gone and it is not the new one. *)
Theorem manifest_means_backup t c retain freq lab :
  all_runs (run_backup t c retain freq lab) (λ o tr,
    Forall harmless tr ∧ o = None ∨
    ∃ before node addr r m ok after,
      tr = before ++ Obs (BWrite (AddBackupManifest m)) ok :: after ∧ Forall harmless before ∧
      Obs (BPush node) (Some r) ∈ before ∧ pu_success r = true ∧ manifest_of freq lab node r m ∧
      (select_source t (prefer_replica c) = Some (node, addr) ∨ select_source t false = Some (node, addr)) ∧
      if ok then o = Some m ∧ retention node retain m after else o = None ∧ after = []).
Proof.
  unfold run_backup. destruct (select_source t (prefer_replica c)) as [s|] eqn:E; [|by left].
  cbn [try_bind mbind prog_bind bind_prog]. apply all_runs_bind. intros started. cbn [all_runs].
  eapply all_runs_try; [apply push_somewhere_runs| |].
  { intros tr [Hh _]. left. by split; [constructor|]. }
  intros [node r] tr [Hh Hr]. destruct (Hr node r eq_refl) as [Hin [addr Hsel]]. clear Hr.
  destruct (pu_success r) eqn:Hs; cbn [negb]; [|left; split; [constructor; [done|by rewrite app_nil_r]|done]].
  intros completed ok. set (m := mkBackupManifest _ _ _ _ _ _ _ _ _).
  assert (Forall harmless (Obs BUnixNow started :: tr ++ [Obs BUnixNow completed])) as Hb.
  { constructor; [done|]. apply Forall_app. split; [done|by repeat constructor]. }
  assert (Obs (BPush node) (Some r) ∈ Obs BUnixNow started :: tr ++ [Obs BUnixNow completed]) as Hp by set_solver.
  destruct ok; cbn [negb].
  - eapply all_runs_bind, all_runs_mono; [apply retention_runs|]. cbn. intros [] after Ha. right.
    exists (Obs BUnixNow started :: tr ++ [Obs BUnixNow completed]), node, addr, r, m, true, after.
    split; [cbn; by rewrite app_nil_r, <- app_assoc|]. repeat split; try done. by rewrite <- E.
  - right. exists (Obs BUnixNow started :: tr ++ [Obs BUnixNow completed]), node, addr, r, m, false, [].
    split; [cbn; by rewrite <- app_assoc|]. repeat split; try done. by rewrite <- E.
Qed.

(** ** Where *)

(** A node a backup may be taken from without asking the primary. *)
Definition backup_standby (t : ClusterTopology) (id : string) : Prop :=
  node_roles t !! id = Some Replica ∧ ∃ cfg, node_configs t !! id = Some cfg ∧ is_external cfg = false.

Definition lag_of (t : ClusterTopology) (id : string) : Z := get_or U64_LAG (replica_lag_bytes t) id.

Lemma elem_of_backup_candidates t id l :
  (id, l) ∈ backup_candidates t ↔ backup_standby t id ∧ l = lag_of t id.
Proof.
  unfold backup_candidates, backup_standby. rewrite list_elem_of_fmap. split.
  - intros ([id' role] & [= -> ->] & Hin). apply elem_of_lfilter in Hin as [Hin Hb]. apply elem_of_hash_iter in Hin. cbn in Hb.
    destruct role; try done. cbn in Hb. destruct (node_configs t !! id') as [cfg|]; [|done].
    split; [|done]. split; [done|]. exists cfg. split; [done|]. by apply negb_true_iff.
  - intros [[Hr (cfg & Hc & He)] ->]. exists (id, Replica). split; [done|]. apply elem_of_lfilter.
    split; [by apply elem_of_hash_iter|]. cbn. by rewrite Hc, He.
Qed.

Lemma least_lagged_spec l m : least_lagged l = Some m → m ∈ l ∧ ∀ x, x ∈ l → m.2 ≤ x.2.
Proof.
  intros E. apply max_by_key_spec in E as [Hin Hmax].
  - split; [by apply elem_of_reverse|]. intros x Hx. apply Z.leb_le, Hmax. by apply elem_of_reverse.
  - intros a b. destruct (Z.leb_spec b.2 a.2), (Z.leb_spec a.2 b.2); auto; lia.
  - intros a b c Hab%Z.leb_le Hbc%Z.leb_le. apply Z.leb_le. lia.
Qed.

(** The node that is backed up, where standbys are preferred, is a standby of the
    cluster's own with the least known lag, if there is one, and otherwise the
    primary; there is none only if the primary's address is not known. This holds
    for every hash iteration order. *)
Theorem source_is_best t prefer :
  match select_source t prefer with
  | Some (id, addr) =>
      (∃ cfg, node_configs t !! id = Some cfg ∧ addr = agent_addr cfg) ∧
      (prefer = true ∧ backup_standby t id ∧ (∀ id', backup_standby t id' → lag_of t id ≤ lag_of t id') ∨
       id = primary_node_id t ∧ (prefer = true → ∀ id', ¬ backup_standby t id'))
  | None => node_configs t !! primary_node_id t = None ∧ (prefer = true → ∀ id', ¬ backup_standby t id')
  end.
Proof.
  assert (∀ P : Prop, P → match primary_source t with
    | Some (id, addr) => (∃ cfg, node_configs t !! id = Some cfg ∧ addr = agent_addr cfg) ∧ id = primary_node_id t ∧ P
    | None => node_configs t !! primary_node_id t = None ∧ P end) as Hprimary.
  { intros P HP. unfold primary_source. destruct (node_configs t !! primary_node_id t) as [cfg|] eqn:E; cbn; [|done]. eauto. }
  unfold select_source. destruct prefer; [|specialize (Hprimary (false = true → ∀ id', ¬ backup_standby t id'));
    destruct (primary_source t) as [[id addr]|]; naive_solver].
  destruct (least_lagged (backup_candidates t)) as [[id l]|] eqn:E.
  - apply least_lagged_spec in E as [Hin Hmin]. apply elem_of_backup_candidates in Hin as [Hs ->].
    pose proof Hs as [_ (cfg & Hc & _)]. rewrite Hc. split; [by exists cfg|]. left. split; [done|]. split; [done|].
    intros id' Hs'. apply (Hmin (id', lag_of t id')). by apply elem_of_backup_candidates.
  - assert (∀ id', ¬ backup_standby t id') as Hnone.
    { apply max_by_key_None in E. intros id' Hs'. apply (elem_of_nil (id', lag_of t id')). rewrite <- E.
      apply elem_of_reverse. by apply elem_of_backup_candidates. }
    specialize (Hprimary (true = true → ∀ id', ¬ backup_standby t id') (λ _, Hnone)).
    destruct (primary_source t) as [[id addr]|]; naive_solver.
Qed.

(** ** When *)

Definition pushes (o : obs banswer) : Prop := match obs_ev o with BPush _ => True | _ => False end.

Lemma quiet tr : Forall (λ o, ¬ pushes o) tr → ¬ Exists pushes tr.
Proof. rewrite Exists_exists, Forall_forall. naive_solver. Qed.

(** The scheduler asks for a backup only where backups are on, while this process
    leads, at least a minute after the last one it could not take, and either when
    one is due by the newest manifest listed or when the last one failed. *)
Theorem backups_when_due c last_failure :
  all_runs (scheduler_tick c last_failure) (λ _ tr, Exists pushes tr →
    backup_enabled c = true ∧ Obs BLeads true ∈ tr ∧
    (∀ at_, last_failure = Some at_ → ∃ now, Obs BInstantMs now ∈ tr ∧ RETRY_DELAY_MS ≤ now - at_) ∧
    ∃ t rt, Obs BTopology t ∈ tr ∧ Obs BRuntime rt ∈ tr ∧
      (backup_failure rt ≠ None ∨ ∃ now, Obs BUnixNow now ∈ tr ∧ is_due (interval_seconds c) (last_backup_ts t) now = true)).
Proof.
  unfold scheduler_tick. destruct (backup_enabled c); cbn [negb]; [|by intros ?%Exists_nil].
  apply all_runs_bind. eapply all_runs_mono with (Q := λ (now : Z) tr, Forall (λ o, ¬ pushes o) tr ∧
    ∀ at_, last_failure = Some at_ → Obs BInstantMs now ∈ tr).
  { destruct last_failure as [at_|]; [|by split]. intros now. split; [by apply Forall_singleton; intros []|]. intros _ _. left. }
  intros now tr1 [Hq1 Hnow]. destruct (resting last_failure now) eqn:Hrest.
  { cbn. rewrite app_nil_r. intros Hp. exfalso. by eapply quiet. }
  intros leads. destruct leads; cbn [negb]; [|].
  2:{ cbn. intros Hp. apply quiet in Hp; [done|]. apply Forall_app. split; [done|]. by apply Forall_singleton; intros []. }
  intros t rt. apply all_runs_bind. eapply all_runs_mono with (Q := λ (now : Z) tr, Forall (λ o, ¬ pushes o) tr ∧
    (backup_failure rt = None → Obs BUnixNow now ∈ tr)).
  { destruct (backup_failure rt) as [x|]; [by split|]. intros u. split; [by apply Forall_singleton; intros []|]. intros _. left. }
  intros now2 tr2 [Hq2 Hnow2].
  destruct (match backup_failure rt with Some _ => true | None => _ end) eqn:Hdue.
  - eapply all_runs_mono; [apply all_runs_True|]. intros r tr3 _ _. split; [done|]. split; [set_solver|].
    split.
    + intros at_ ->. exists now. split; [specialize (Hnow at_ eq_refl); set_solver|]. cbn in Hrest. lia.
    + exists t, rt. split; [set_solver|]. split; [set_solver|]. destruct (backup_failure rt) as [x|]; [by left|right].
      exists now2. split; [specialize (Hnow2 eq_refl); set_solver|done].
  - cbn. intros Hp. apply quiet in Hp; [done|]. rewrite app_nil_r.
    repeat first [apply Forall_app; split|apply Forall_cons; split|done|by intros []].
Qed.

(** An interval of more than an [i64] holds is negative, so a backup is always due. *)
Lemma interval_wraps interval last now :
  2 ^ 63 ≤ interval < 2 ^ 64 → last ≤ now → is_due interval (Some last) now = true.
Proof. intros Hi Hl. unfold is_due, as_i64. destruct (Z.ltb_spec interval (2 ^ 63)); [lia|]. apply Z.leb_le. lia. Qed.

(** ** Restores *)

(** A restore is started only onto an agent that is no node's of this cluster,
    only if none is running, and what it leaves running calls that agent alone. *)
Theorem restore_apart credential configured agent backup target_time force :
  all_runs (start_restore credential configured agent backup target_time force) (λ res tr, ∀ task, res = Ok task →
    Obs BBeginRestore true ∈ tr ∧
    (∃ t, Obs BTopology t ∈ tr ∧ ∀ id cfg, node_configs t !! id = Some cfg → agent_addr cfg ≠ agent) ∧
    only (λ o, match obs_ev o with
               | BConnect node addr => node = agent ∧ addr = agent
               | BRestore node _ | BEvict node => node = agent
               | BEndRestore _ => True
               | _ => False
               end) task).
Proof.
  unfold start_restore. destruct (enabled configured) as [c|e]; [|by intros task].
  intros t. cbn -[existsb hash_iter restore_task walg_settings only].
  destruct (existsb _ (hash_iter (node_configs t))) eqn:E; [by intros task|].
  cbn -[existsb hash_iter restore_task walg_settings only]. intros [|]; [|by intros task].
  intros task [= <-]. split; [right; left|]. split.
  - exists t. split; [left|]. intros id cfg Hc Ha. apply not_true_iff_false in E. apply E, existsb_exists.
    exists (id, cfg). split; [by apply list_elem_of_In, elem_of_hash_iter|by apply String.eqb_eq].
  - unfold restore_task. intros ok. split; [done|]. destruct ok; [|by intros []].
    intros r. split; [done|]. intros []. split; [done|]. intros []. by split.
Qed.
End backups.
