(* ===== verification/HostModel.v ===== *)
(** What a host is sent and how it checks it: src/vk-agent/src/host/model.rs and
    config.rs, with the texts the other files of src/vk-agent/src/host make of
    these values: quoting, ports, disk quotas, tokens, releases and positions in
    the WAL archive.

    A failed check has no text here. The parser of CIDR blocks is ipnet's and a
    parameter.

    - [instance_id_inj]: two valid instances share a directory, units and a
      firewall table only if they are the same node.
    - [archived_until_sound]: every commit before the time a host reports is in
      the WAL archive.
    - [quoting_round_trip]: SQL reads a quoted literal as the text it quotes. *)
From S2P Require Import Prelude Admission Placement Metadata Requests Standby.

Local Open Scope Z_scope.

(** ** Documents *)

(** Where a database's backups live. *)
Record BackupTarget := mkTarget {
  t_kind : string;
  t_path : option string;
  t_bucket : option string;
  t_prefix : option string;
  t_region : option string;
  t_endpoint : option string;
  t_path_style : bool;
  t_access_key_id : option string;
  t_secret_access_key : option string;
  t_encryption_key : option string
}.

Record BackupPolicy := mkPolicy { bp_target : BackupTarget; bp_retain_full : Z }.

Record Restore := mkRestoreFrom {
  re_source : BackupTarget;
  re_target_time : option string;
  re_source_database : string
}.

Record Peer := mkPeer { peer_node : string; peer_address : string; peer_port_base : Z }.

Record InstanceSecrets := mkInstanceSecrets {
  s_ca_cert_pem : string;
  s_cert_pem : string;
  s_key_pem : string;
  s_superuser_password : string;
  s_replication_password : string;
  s_auth_password : string;
  s_api_key : string;
  s_next : option NextPasswords;
  s_proxy_cert_pem : option string;
  s_proxy_key_pem : option string
}.

Section documents.
Context `{!F64}.

Record Task := mkTask { task_id : string; task_kind : string; task_on : string; task_params : json }.

Record Instance := mkInstance {
  i_database_id : string;
  i_database_name : string;
  i_node : string;
  i_generation : Z;
  i_operation_id : option string;
  i_postgres_version : string;
  i_resources : Resources;
  i_port_base : Z;
  i_address : string;
  i_peers : list Peer;
  i_bootstrap : string;
  i_restore : option Restore;
  i_backup : BackupPolicy;
  i_tasks : list Task;
  i_replication_mode : string;
  i_allowed_cidrs : list string;
  i_extensions : list string;
  i_owner : Owner;
  i_secrets : InstanceSecrets;
  i_role : string;
  i_rename_from : option string;
  i_replicas : list Peer
}.

Record RepositoryCheck := mkCheck { check_id : string; check_target : BackupTarget }.
Record AdminCa := mkAdminCa { bundle_pem : string; renew_client_certificate : bool }.

Record DesiredState := mkDesired {
  d_generation : Z;
  d_instances : list Instance;
  d_repository_checks : list RepositoryCheck;
  d_admin_ca : option AdminCa
}.

(** Names a directory and systemd units. *)
Definition instance_id (i : Instance) : string := (i_database_id i ++ "-" ++ i_node i)%string.

(** The number in a node's name. *)
Definition raft_id (node : string) : Z := default 0 (strip_prefix "n" node ≫= parse_u64).

Definition is_ha (i : Instance) : bool := negb (bool_decide (i_peers i = [])).
Definition is_replica (i : Instance) : bool := String.eqb (i_role i) "replica".
End documents.

(** ** Checks *)

Definition U16_MAX : Z := 2 ^ 16 - 1.

Definition id_char (c : ascii) : bool := is_ascii_alphanumeric c || Ascii.eqb c "-" || Ascii.eqb c "_".

Definition plain_id (text : string) : bool :=
  negb (is_empty text) && (String.length text <=? 64)%nat && str_all id_char text.

Definition valid_node_name (node : string) : bool := negb (raft_id node =? 0).

Definition address_char (c : ascii) : bool := is_ascii_alphanumeric c || str_exists (Ascii.eqb c) ".-_:".

Definition valid_address (address : string) : bool :=
  negb (is_empty address) && (String.length address <=? 253)%nat && str_all address_char address.

(** A value that lands inside quotes in a config file. *)
Definition conf_char (c : ascii) : bool :=
  negb (Ascii.eqb c QUOTE || Ascii.eqb c BACKSLASH || Ascii.eqb c LF || Ascii.eqb c CR).
Definition valid_conf_value (value : string) : bool := str_all conf_char value.

Definition starts_with_digit (s : string) : bool :=
  match s with String c _ => is_ascii_digit c | EmptyString => false end.

Definition valid_identifier (name : string) : bool :=
  negb (is_empty name) && (String.length name <=? 63)%nat && negb (starts_with_digit name) &&
  str_all ident_char name.

Definition valid_verifier (v : string) : bool :=
  starts_with "SCRAM-SHA-256$" v && str_all verifier_char v.

Definition extension_char (c : ascii) : bool :=
  is_ascii_lowercase c || is_ascii_digit c || str_exists (Ascii.eqb c) "_-".

Definition valid_extension (e : string) : bool := negb (is_empty e) && str_all extension_char e.

(** [BackupTarget::validate]. *)
Definition target_validate (t : BackupTarget) : bool :=
  if String.eqb (t_kind t) "posix" then
    match t_path t with
    | Some path => starts_with "/" path && valid_conf_value path
    | None => false
    end
  else if String.eqb (t_kind t) "s3" then
    match t_bucket t with
    | Some bucket =>
        negb (is_empty bucket) && valid_conf_value bucket &&
        match t_prefix t with Some prefix => valid_conf_value prefix | None => true end
    | None => false
    end
  else false.

(** The ports of a block at [port_base] are below the largest one. *)
Definition room_for_block (port_base : Z) : bool := port_base <=? U16_MAX - 10.

Definition valid_peer (p : Peer) : bool :=
  valid_address (peer_address p) && valid_node_name (peer_node p) && room_for_block (peer_port_base p).

Definition valid_replica (p : Peer) : bool :=
  valid_address (peer_address p) &&
  (negb (is_empty (peer_node p)) && (String.length (peer_node p) <=? 32)%nat &&
   str_all ident_char (peer_node p) && room_for_block (peer_port_base p)).

Section validate.
Context `{!F64} (parse_net : string → bool).

Definition valid_bootstrap (i : Instance) : bool :=
  if bool_decide (i_bootstrap i ∈ ["initdb"; "seed"; "replica"; "promoted"]) then true
  else if String.eqb (i_bootstrap i) "restore" then
    match i_restore i with
    | Some r =>
        valid_identifier (re_source_database r) &&
        match re_target_time r with Some t => valid_conf_value t | None => true end
    | None => false
    end
  else false.

(** [Instance::validate]. *)
Definition instance_validate (i : Instance) : bool :=
  plain_id (i_database_id i) && plain_id (i_node i) &&
  (str_all is_ascii_digit (i_postgres_version i) && negb (is_empty (i_postgres_version i))) &&
  valid_identifier (i_database_name i) &&
  match i_rename_from i with Some from => valid_identifier from | None => true end &&
  valid_identifier (username (i_owner i)) &&
  valid_verifier (scram_verifier (i_owner i)) &&
  forallb valid_extension (i_extensions i) &&
  bool_decide (i_role i ∈ ["member"; "replica"]) &&
  valid_bootstrap i &&
  room_for_block (i_port_base i) &&
  valid_address (i_address i) &&
  valid_node_name (i_node i) &&
  forallb valid_peer (i_peers i) &&
  forallb valid_replica (i_replicas i) &&
  forallb parse_net (i_allowed_cidrs i) &&
  target_validate (bp_target (i_backup i)) &&
  match i_restore i with Some r => target_validate (re_source r) | None => true end.
End validate.

(** ** Settings of a host *)

Inductive QuotaKind := QuotaAuto | QuotaXfs | QuotaNone.
Inductive FirewallKind := Nftables | NoFirewall.
Inductive RunnerKind := SystemdRunner | PlainRunner.

Record HostConfig := mkHostConfig {
  admin_url : string;
  state_dir : string;
  instances_dir : string;
  enrollment_token_file : option string;
  advertise_address : option string;
  runner : RunnerKind;
  run_as : option string;
  pg_bin_template : string;
  pgcluster_path : string;
  vk_agent_path : option string;
  systemd_unit_dir : string;
  report_interval_seconds : Z;
  firewall : FirewallKind;
  host_walg_path : string;
  disk_quota : QuotaKind
}.

Definition host_config_validate (c : HostConfig) : bool :=
  starts_with "https://" (admin_url c) && negb (report_interval_seconds c =? 0) &&
  str_contains "{version}" (pg_bin_template c).

(** [str::replace] of a text that occurs without overlaps: [skip] counts the
    characters left of an occurrence. *)
Fixpoint replace_text (pat by_ : string) (skip : nat) (s : string) : string :=
  match s with
  | EmptyString => EmptyString
  | String a s' =>
      match skip with
      | S k => replace_text pat by_ k s'
      | O =>
          if starts_with pat s then (by_ ++ replace_text pat by_ (String.length pat - 1) s')%string
          else String a (replace_text pat by_ 0 s')
      end
  end.

Definition pg_bin (c : HostConfig) (version : string) : string :=
  replace_text "{version}" version 0 (pg_bin_template c).

(** ** Texts *)

(** [18.1] from [18.1 (Debian 18.1-1.pgdg120+1)]. *)
Definition release_of (text : string) : option string :=
  trim_end_char "," <$> List.find starts_with_digit (split_whitespace text).

Definition quote_with (q : ascii) (text : string) : string :=
  String q (replace_char q (String q (String q EmptyString)) text ++ String q EmptyString).

Definition DQUOTE : ascii := "034".
Definition quote_literal : string → string := quote_with QUOTE.
Definition quote_ident : string → string := quote_with DQUOTE.

(** A token is [<secret>.<SHA-256 of the CA's PEM>]. *)
Definition split_token (token : string) : option (string * string) :=
  match rsplit_once "." (trim token) with
  | Some (secret, fingerprint) =>
      if is_empty secret || negb (String.length fingerprint =? 64)%nat then None
      else Some (secret, fingerprint)
  | None => None
  end.

(** ** Disk quotas *)

(** FNV-1a of 32 bits, cut to 31 and never zero. *)
Definition fnv_step (hash : Z) (c : ascii) : Z :=
  wrap 32 (Z.lxor hash (Z.of_N (N_of_ascii c)) * 0x01000193).

Definition project_id (id : string) : Z :=
  Z.max (Z.land (foldl fnv_step 0x811c9dc5 (list_ascii_of_string id)) 0x7fffffff) 1.

(** A line of /proc/self/mounts whose mount point holds [path]. *)
Definition mount_of (path line : string) : option (string * string * string) :=
  match split_whitespace line with
  | _ :: point :: fstype :: options :: _ =>
      if String.eqb path point || String.eqb point "/" ||
         starts_with (trim_end_char "/" point ++ "/") path
      then Some (point, fstype, options) else None
  | _ => None
  end.

Definition project_quota_mount (mounts path : string) : option string :=
  match max_by_key (λ a b : string * string * string, (String.length a.1.1 <=? String.length b.1.1)%nat)
          (omap (mount_of path) (lines mounts)) with
  | Some (point, fstype, options) =>
      if String.eqb fstype "xfs" &&
         existsb (λ o, bool_decide (o ∈ ["prjquota"; "pquota"; "pqnoenforce"])) (split "," options)
      then Some point else None
  | None => None
  end.

(** [detect], given what was read: [None] is an error. *)
Definition detect_quota (kind : QuotaKind) (mounts : option string) (dir : string)
    : option (option string) :=
  match kind with
  | QuotaNone => Some None
  | _ =>
      mounts ← mounts;
      match project_quota_mount mounts dir, kind with
      | Some fs, _ => Some (Some fs)
      | None, QuotaXfs => None
      | None, _ => Some None
      end
  end.

(** ** The WAL archive *)

Definition SEGMENT_HEADER : Z := 40.
Definition MAX_SAMPLES : nat := 64.

(** A time and the WAL position then, oldest first. *)
Abbreviation WalSamples := (list (Z * Z)).

Definition record_sample (time lsn : Z) (samples : WalSamples) : WalSamples :=
  let samples := samples ++ [(time, lsn)] in
  if (MAX_SAMPLES <? length samples)%nat then drop 1 samples else samples.

(** The newest time whose position the archive has reached. *)
Definition covered_by (samples : WalSamples) (archived : Z) : option Z :=
  fst <$> List.find (λ '(_, lsn), saturating_sub lsn SEGMENT_HEADER <=? archived) (rev samples).

Definition is_hexdigit (c : ascii) : bool := bool_decide (is_Some (to_digit 16 c)).

(** The position where a WAL segment ends, from its file's name. *)
Definition archived_end (segment : string) (segment_size : Z) : option Z :=
  if negb (String.length segment =? 24)%nat || negb (str_all is_hexdigit segment) then None
  else
    high ← from_str_radix 16 (2 ^ 64 - 1) (substring 8 8 segment);
    low ← from_str_radix 16 (2 ^ 64 - 1) (substring 16 8 segment);
    Some (wrap 64 (wrap 64 (Z.shiftl high 32) + wrap 64 ((low + 1) * segment_size))).

(** What [observe] makes of a row of pg_stat_archiver: the samples it keeps, and
    the time every commit before it had reached the archive. *)
Definition wal_until (samples : WalSamples) (now : Z) (lsn : option Z) (archived : option string)
    (segment_size : Z) : WalSamples * option Z :=
  match lsn with
  | None => (samples, None)
  | Some lsn =>
      let samples := record_sample now lsn samples in
      (samples, archived ≫= λ a, archived_end a segment_size ≫= covered_by samples)
  end.

(** ** Texts of characters *)

Lemma every_app P a b : every P (a ++ b)%string ↔ every P a ∧ every P b.
Proof.
  unfold every. induction a as [|c a IH]; cbn; [split; [by split; [constructor|]|by intros [_ ?]]|].
  rewrite !Forall_cons, IH. tauto.
Qed.

Lemma every_mono (P Q : ascii → Prop) s : every P s → (∀ c, P c → Q c) → every Q s.
Proof. intros H HPQ. eapply Forall_impl; [exact H|]. auto. Qed.

Lemma every_no_char c P s : every P s → (∀ x, P x → x ≠ c) → str_exists (Ascii.eqb c) s = false.
Proof. intros H HP. apply Requests.no_char. exact (every_mono P _ s H HP). Qed.

(** ** Directories of instances *)

Section instances.
Context `{!F64} (parse_net : string → bool).

Lemma digits_value_every radix max s acc v :
  digits_value radix max s acc = Some v → every (λ c, is_Some (to_digit radix c)) s.
Proof.
  revert acc. induction s as [|c s IH]; intros acc; cbn; [by constructor|].
  destruct (to_digit radix c) as [d|] eqn:E; [|done]. destruct (_ <=? _); [|done].
  intros Hs. constructor; [by rewrite E|]. by eapply IH.
Qed.

(** A number's text holds only a sign and digits. *)
Lemma parse_no_char radix max s v c :
  radix ≤ 16 → 16 ≤ digit_of c → c ≠ "+"%char → from_str_radix radix max s = Some v → str_exists (Ascii.eqb c) s = false.
Proof.
  intros Hr Hc Hp Hs. assert (∀ t acc, digits_value radix max t acc = Some v → str_exists (Ascii.eqb c) t = false) as Hd.
  { intros t acc Ht. eapply every_no_char; [by eapply digits_value_every|].
    intros x [d Hx] ->. unfold to_digit in Hx. destruct (Z.ltb_spec (digit_of c) radix); [lia|done]. }
  unfold from_str_radix in Hs. destruct s as [|a s]; [done|].
  destruct (Ascii.eqb_spec a "+") as [->|]; [|by eapply Hd].
  destruct s as [|b s]; [done|]. cbn [str_exists]. apply orb_false_iff. split; [by apply Ascii.eqb_neq|]. exact (Hd _ _ Hs).
Qed.

Lemma node_no_char node c : 16 ≤ digit_of c → c ≠ "+"%char → c ≠ "n"%char →
  valid_node_name node = true → str_exists (Ascii.eqb c) node = false.
Proof.
  intros Hc Hp Hn. unfold valid_node_name, raft_id. destruct (strip_prefix "n" node) as [rest|] eqn:E; cbn; [|done].
  destruct (parse_u64 rest) as [v|] eqn:Ep; cbn; [|done]. intros _.
  apply strip_prefix_Some in E as ->. cbn [String.append str_exists]. apply orb_false_iff. split; [by apply Ascii.eqb_neq|].
  by apply (parse_no_char 10 (2 ^ 64 - 1) rest v).
Qed.

Lemma node_no_dash node : valid_node_name node = true → str_exists (Ascii.eqb "-") node = false.
Proof. by apply node_no_char. Qed.

Lemma validate_node_name i : instance_validate parse_net i = true → valid_node_name (i_node i) = true.
Proof. unfold instance_validate. intros Hv. bool_prop. done. Qed.

(** The name of a valid instance's directory names its database and node:
    two instances that share a directory, units or a firewall table are one. *)
Theorem instance_id_inj (i j : Instance) :
  instance_validate parse_net i = true → instance_validate parse_net j = true →
  instance_id i = instance_id j → i_database_id i = i_database_id j ∧ i_node i = i_node j.
Proof.
  intros Hi%validate_node_name%node_no_dash Hj%validate_node_name%node_no_dash E.
  unfold instance_id in E. apply (f_equal (rsplit_once "-")) in E.
  change ("-" ++ i_node i)%string with (String "-" (i_node i)) in E.
  change ("-" ++ i_node j)%string with (String "-" (i_node j)) in E.
  rewrite !rsplit_once_app in E by done. by simplify_eq.
Qed.
End instances.

(** ** Quoting *)

(** What SQL reads of a quoted text, from after its opening quote: the text, and
    what follows the closing quote. A doubled quote stands for one. *)
Fixpoint sql_quoted (q : ascii) (s : string) : option (string * string) :=
  match s with
  | EmptyString => None
  | String a s' =>
      if Ascii.eqb a q then
        match s' with
        | String b s'' =>
            if Ascii.eqb b q then (λ '(t, rest), (String q t, rest)) <$> sql_quoted q s''
            else Some (EmptyString, s')
        | EmptyString => Some (EmptyString, EmptyString)
        end
      else (λ '(t, rest), (String a t, rest)) <$> sql_quoted q s'
  end.

Lemma sql_quoted_replace q text rest :
  match rest with String b _ => Ascii.eqb b q = false | EmptyString => True end →
  sql_quoted q (replace_char q (String q (String q EmptyString)) text ++ String q rest)%string =
    Some (text, rest).
Proof.
  intros Hr. induction text as [|a text IH]; cbn [replace_char String.append].
  - cbn. rewrite Ascii.eqb_refl. destruct rest; [done|]. by rewrite Hr.
  - destruct (Ascii.eqb_spec a q) as [->|Hne]; cbn [String.append sql_quoted].
    + rewrite !Ascii.eqb_refl, IH. done.
    + apply Ascii.eqb_neq in Hne. rewrite Hne, IH. done.
Qed.

(** Whatever a text holds, SQL reads a statement's quoted literal or identifier
    as that text, and goes on with what the code wrote after it. *)
Theorem quoting_round_trip q text rest :
  match rest with String b _ => Ascii.eqb b q = false | EmptyString => True end →
  ∃ inner, (quote_with q text ++ rest)%string = String q inner ∧ sql_quoted q inner = Some (text, rest).
Proof.
  intros Hr. eexists. split; [done|]. rewrite <- str_app_assoc. by apply sql_quoted_replace.
Qed.

(** ** Positions and times *)

Section wal.
(** A commit's time and the position its record ends at. *)
Context (commit : Z → Z → Prop) (segment_size : Z).
(** Segments have a power of two of bytes, at least 1 MiB and at most 1 GiB. *)
Hypothesis size_divides : (segment_size | 2 ^ 32).
Hypothesis size_above : SEGMENT_HEADER < segment_size.
(** A segment begins with a page header, where no record ends. *)
Hypothesis header_holds_none : ∀ t p, commit t p → ¬ (0 < p mod segment_size ≤ SEGMENT_HEADER).

(** Postgres reads the clock before the position. *)
Definition sampled (o : Z * Z) : Prop := 0 ≤ o.2 ∧ ∀ t p, commit t p → t < o.1 → p ≤ o.2.

Lemma record_sampled time lsn samples :
  sampled (time, lsn) → Forall sampled samples → Forall sampled (record_sample time lsn samples).
Proof.
  intros Hs Hl. unfold record_sample. assert (Forall sampled (samples ++ [(time, lsn)])).
  { apply Forall_app. by split; [|constructor]. }
  destruct (_ <? _)%nat; [by apply Forall_drop|done].
Qed.

Lemma archived_end_multiple segment e :
  archived_end segment segment_size = Some e → 0 ≤ e ∧ (segment_size | e).
Proof.
  unfold archived_end. destruct (_ || _); [done|].
  intros (high & _ & (low & _ & [= <-])%bind_Some)%bind_Some.
  assert (segment_size | 2 ^ 64) as H64.
  { replace (2 ^ 64) with (2 ^ 32 * 2 ^ 32) by lia. by apply Z.divide_mul_l. }
  assert (∀ x, (segment_size | x) → (segment_size | wrap 64 x)) as Hw.
  { intros x Hx. unfold wrap. rewrite Z.mod_eq by lia. apply Z.divide_sub_r; [exact Hx|].
    by apply Z.divide_mul_l. }
  split; [by apply wrap_in_u|]. apply Hw, Z.divide_add_r; apply Hw.
  - rewrite Z.shiftl_mul_pow2 by lia. by apply Z.divide_mul_r.
  - apply Z.divide_mul_r, Z.divide_refl.
Qed.

Lemma covered_sound samples e time t p :
  Forall sampled samples → 0 ≤ e → (segment_size | e) → covered_by samples e = Some time →
  commit t p → t < time → p ≤ e.
Proof.
  intros Hall He [q ->] Hc Hcommit Ht. unfold covered_by in Hc.
  destruct (List.find _ (rev samples)) as [[time' lsn]|] eqn:Ef; [|done]. injection Hc as [= ->].
  apply find_some in Ef as [Hin Hle%Z.leb_le]. apply in_rev, list_elem_of_In in Hin.
  rewrite Forall_forall in Hall. destruct (Hall _ Hin) as [Hlsn Hs].
  specialize (Hs t p Hcommit Ht). cbn in Hs, Hlsn. unfold saturating_sub in Hle.
  destruct (decide (p ≤ q * segment_size)) as [|Hgt]; [done|]. exfalso.
  apply (header_holds_none t p Hcommit).
  assert (p mod segment_size = p - q * segment_size) as ->; [|lia].
  symmetry. apply (Z.mod_unique_pos _ _ q); lia.
Qed.

(** The samples after a sequence of observations. *)
Definition samples_after (observations : list (Z * option Z)) : WalSamples :=
  foldl (λ samples '(now, lsn), (wal_until samples now lsn None segment_size).1) [] observations.

Lemma samples_after_sampled observations :
  Forall (λ '(now, lsn), ∀ l, lsn = Some l → sampled (now, l)) observations →
  Forall sampled (samples_after observations).
Proof.
  unfold samples_after. assert (Forall sampled []) as H0 by constructor. revert H0.
  generalize (@nil (Z * Z)). induction observations as [|[now [lsn|]] l IH]; intros samples Hs Ho; [done|..];
    apply Forall_cons in Ho as [Ho Hl]; cbn [foldl]; apply IH; try done.
  apply record_sampled; auto.
Qed.

(** Whatever a host observed before, the time it takes from one more look at
    the server is one every commit before which is in the archive: the position
    of its record lies in the segments up to the last archived one. *)
Theorem archived_until_sound observations now lsn segment e until t p :
  Forall (λ '(now, lsn), ∀ l, lsn = Some l → sampled (now, l)) (observations ++ [(now, lsn)]) →
  archived_end segment segment_size = Some e →
  (wal_until (samples_after observations) now lsn (Some segment) segment_size).2 = Some until →
  commit t p → t < until → p ≤ e.
Proof.
  intros Ho He Hu Hc Ht. apply Forall_app in Ho as [Ho Hn]. apply Forall_cons in Hn as [Hn _].
  unfold wal_until in Hu. destruct lsn as [lsn|]; [|done]. cbn in Hu. rewrite He in Hu. cbn in Hu.
  destruct (archived_end_multiple _ _ He) as [H0 Hd].
  eapply covered_sound; [|done..]. apply record_sampled; [by apply Hn|by apply samples_after_sampled].
Qed.
End wal.

(** A 16 MiB segment, two looks at the server, and the archive one segment on. *)
Lemma archived_until_sound_witness :
  let commit t p := t = 5 ∧ p = 16777300 in
  let size := 16777216 in
  (wal_until (samples_after size [(3, Some 16777256)]) 9 (Some 33554472) (Some "000000010000000000000001") size).2
    = Some 9 ∧ 16777300 ≤ 33554432.
Proof.
  split; [reflexivity|].
  apply (archived_until_sound (λ t p, t = 5 ∧ p = 16777300) 16777216) with
    (observations := [(3, Some 16777256)]) (now := 9) (lsn := Some 33554472)
    (segment := "000000010000000000000001"%string) (until := 9) (t := 5).
  - exists 256. reflexivity.
  - reflexivity.
  - intros t p [-> ->]. vm_compute. intros [_ Hp]. by apply Hp.
  - apply Forall_cons. split; [|apply Forall_cons; split; [|by constructor]];
      intros l [= <-]; (split; [cbn; lia|intros t p [-> ->]; cbn; lia]).
  - reflexivity.
  - reflexivity.
  - by split.
  - lia.
Defined.
