(* ===== verification/Firewall.v ===== *)
(** Firewall rules of an instance: src/vk-agent/src/host/firewall.rs.

    [firewall_render] is the text given to nft. The second part reads such
    texts: the commands and rules of nftables that occur in it, with a packet's
    way through the tables. What is not in the repository is a parameter: the
    hash, and how ipnet prints a network and nft reads a source.

    [firewall_decides]: after the script, and whatever tables there were, the
    instance's table decides exactly as the documentation of the module says,
    and every other table is as before. *)
From S2P Require Import Prelude Admission Requests Standby HostModel.

Local Open Scope string_scope.

(** ** Addresses in text *)

Definition lower (c : ascii) : ascii :=
  let n := N_of_ascii c in if ((65 <=? n) && (n <=? 90))%N then ascii_of_N (n + 32) else c.

Fixpoint str_map (f : ascii → ascii) (s : string) : string :=
  match s with EmptyString => EmptyString | String c s => String (f c) (str_map f s) end.

(** [{:x}]. *)
Definition format_hex_lower (n : Z) : string := str_map lower (format_hex n).

Definition show_v4 (a : Z) : string :=
  join "." (format_dec <$> be_bytes 4 a).

(** The eight segments of an IPv6 address. *)
Definition segments (a : Z) : list Z := (λ k, Z.land (Z.shiftr a (16 * k)) 65535) <$> [7; 6; 5; 4; 3; 2; 1; 0]%Z.

(** The longest run of zero segments, the first of those: where it starts and
    its length. [cur] is the run being read. *)
Fixpoint longest_zeros (i : nat) (cur best : nat * nat) (l : list Z) : nat * nat :=
  match l with
  | [] => best
  | s :: l =>
      if (s =? 0)%Z then
        let cur := if (cur.2 =? 0)%nat then (i, 1%nat) else (cur.1, S cur.2) in
        longest_zeros (S i) cur (if (best.2 <? cur.2)%nat then cur else best) l
      else longest_zeros (S i) (0, 0)%nat best l
  end.

Definition show_segments (l : list Z) : string := join ":" (format_hex_lower <$> l).

(** [Display] of an [Ipv6Addr]. *)
Definition show_v6 (a : Z) : string :=
  if (Z.shiftr a 32 =? 0xFFFF)%Z then "::ffff:" ++ show_v4 (wrap 32 a)
  else
    let l := segments a in
    let '(start, len) := longest_zeros 0 (0, 0)%nat (0, 0)%nat l in
    if (1 <? len)%nat then show_segments (take start l) ++ "::" ++ show_segments (drop (start + len) l)
    else show_segments l.

Definition show_ip (ip : IpAddr) : string := match ip with V4 a => show_v4 a | V6 a => show_v6 a end.

Definition is_ipv4 (ip : IpAddr) : bool := match ip with V4 _ => true | V6 _ => false end.

(** ** The script *)

Section firewall.
Context {IpNet : Type} (show_net : IpNet → string) (net_is_v4 : IpNet → bool).
Context (sha256_hex : string → string).

(** What one instance's table has to say. *)
Record Rules := mkRules {
  fw_instance_id : string;
  fw_proxy_port : Z;
  fw_peer_ports : Z * Z * Z;
  fw_peers : list IpAddr;
  fw_allowed_cidrs : list IpNet
}.

Definition table_name (id : string) : string := "pgcluster_" ++ substring 0 16 (sha256_hex id).

Definition set_of (items : list string) : option string :=
  if bool_decide (items = []) then None else Some ("{ " ++ join ", " items ++ " }").

(** The loopback interface, in quotes. *)
Definition LO : string := String DQUOTE ("lo" ++ String DQUOTE EmptyString).

Definition NL : string := String LF EmptyString.

Definition accept_sources (ports : string) (v4 v6 : option string) : string :=
  match v4 with Some sources => ("    tcp dport " ++ ports ++ " ip saddr " ++ sources ++ " accept") ++ NL | None => EmptyString end ++
  match v6 with Some sources => ("    tcp dport " ++ ports ++ " ip6 saddr " ++ sources ++ " accept") ++ NL | None => EmptyString end.

Definition peer_ports_text (ports : Z * Z * Z) : string :=
  let '(postgres, raft, agent) := ports in
  "{ " ++ format_dec postgres ++ ", " ++ format_dec raft ++ ", " ++ format_dec agent ++ " }".

Definition firewall_render (rules : Rules) : string :=
  let table := table_name (fw_instance_id rules) in
  let peer_ports := peer_ports_text (fw_peer_ports rules) in
  let proxy := format_dec (fw_proxy_port rules) in
  let peers_v4 := set_of (show_ip <$> List.filter is_ipv4 (fw_peers rules)) in
  let peers_v6 := set_of (show_ip <$> List.filter (λ ip, negb (is_ipv4 ip)) (fw_peers rules)) in
  let clients_v4 := set_of (show_net <$> List.filter net_is_v4 (fw_allowed_cidrs rules)) in
  let clients_v6 := set_of (show_net <$> List.filter (λ n, negb (net_is_v4 n)) (fw_allowed_cidrs rules)) in
  ("add table inet " ++ table) ++ NL ++
  ("delete table inet " ++ table) ++ NL ++
  ("table inet " ++ table ++ " {") ++ NL ++
  "  chain input {" ++ NL ++
  "    type filter hook input priority 0; policy accept;" ++ NL ++
  ("    iif " ++ LO ++ " accept") ++ NL ++
  accept_sources peer_ports peers_v4 peers_v6 ++
  ("    tcp dport " ++ peer_ports ++ " drop") ++ NL ++
  ("    tcp dport " ++ proxy ++ " ct state established,related accept") ++ NL ++
  accept_sources proxy clients_v4 clients_v6 ++
  ("    tcp dport " ++ proxy ++ " drop") ++ NL ++
  "  }" ++ NL ++
  "}" ++ NL.

(** The script that forgets an instance's rules. *)
Definition firewall_remove_script (id : string) : string :=
  ("add table inet " ++ table_name id) ++ NL ++ ("delete table inet " ++ table_name id) ++ NL.

End firewall.

(** ** How nftables reads it *)

Inductive verdict := Accept | Drop.

Inductive matcher :=
| Loopback
| Established
| FromV4 (sources : list string)
| FromV6 (sources : list string)
| Any.

(** The destination ports of a rule, or none for any packet. *)
Record nft_rule := mkRule { r_ports : option (list Z); r_match : matcher; r_verdict : verdict }.

Abbreviation tables := (gmap string (list nft_rule)).

(** The words up to a closing brace, without the commas between them. *)
Fixpoint set_items (ws : list string) : option (list string * list string) :=
  match ws with
  | [] => None
  | w :: ws =>
      if String.eqb w "}" then Some ([], ws)
      else (λ '(items, rest), (trim_end_char "," w :: items, rest)) <$> set_items ws
  end.

(** A single value or a set. *)
Definition values (ws : list string) : option (list string * list string) :=
  match ws with
  | w :: ws => if String.eqb w "{" then set_items ws else Some ([w], ws)
  | [] => None
  end.

(** What follows the words [p]. *)
Fixpoint after_words (p ws : list string) : option (list string) :=
  match p, ws with
  | [], _ => Some ws
  | a :: p, b :: ws => if String.eqb a b then after_words p ws else None
  | _, [] => None
  end.

Definition parse_sources (make : list string → matcher) (ports : list Z) (ws : list string) : option nft_rule :=
  '(sources, ws) ← values ws;
  if bool_decide (ws = ["accept"]) then Some (mkRule (Some ports) (make sources) Accept) else None.

Definition parse_rule (ws : list string) : option nft_rule :=
  if bool_decide (ws = ["iif"; LO; "accept"]) then Some (mkRule None Loopback Accept)
  else
    ws ← after_words ["tcp"; "dport"] ws;
    '(ports, ws) ← values ws;
    ports ← mapM parse_u16 ports;
    if bool_decide (ws = ["drop"]) then Some (mkRule (Some ports) Any Drop)
    else if bool_decide (ws = ["ct"; "state"; "established,related"; "accept"])
      then Some (mkRule (Some ports) Established Accept)
    else match after_words ["ip"; "saddr"] ws, after_words ["ip6"; "saddr"] ws with
         | Some ws, _ => parse_sources FromV4 ports ws
         | None, Some ws => parse_sources FromV6 ports ws
         | None, None => None
         end.

(** Where in a script the reader is. *)
Inductive script_place := Top | InTable (t : string) | InChain (t : string) (rules : list nft_rule).

Definition present (t : string) (ts : tables) : tables :=
  match ts !! t with Some _ => ts | None => <[t := []]> ts end.

Definition top_line (ts : tables) (ws : list string) : option (script_place * tables) :=
  match after_words ["add"; "table"; "inet"] ws, after_words ["delete"; "table"; "inet"] ws,
        after_words ["table"; "inet"] ws with
  | Some [t], _, _ => Some (Top, present t ts)
  | _, Some [t], _ => match ts !! t with Some _ => Some (Top, delete t ts) | None => None end
  | _, _, Some [t; b] => if String.eqb b "{" then Some (InTable t, present t ts) else None
  | _, _, _ => None
  end.

Definition CHAIN_TYPE : list string := ["type"; "filter"; "hook"; "input"; "priority"; "0;"; "policy"; "accept;"].

Definition nft_line (st : script_place * tables) (ws : list string) : option (script_place * tables) :=
  let '(p, ts) := st in
  match p with
  | Top => top_line ts ws
  | InTable t =>
      if bool_decide (ws = ["chain"; "input"; "{"]) then Some (InChain t [], ts)
      else if bool_decide (ws = ["}"]) then Some (Top, ts)
      else None
  | InChain t rules =>
      if bool_decide (ws = CHAIN_TYPE) then Some (InChain t rules, ts)
      else if bool_decide (ws = ["}"]) then Some (InTable t, <[t := (default [] (ts !! t) ++ rules)%list]> ts)
      else r ← parse_rule ws; Some (InChain t (rules ++ [r])%list, ts)
  end.

Fixpoint nft_lines (st : script_place * tables) (l : list (list string)) : option (script_place * tables) :=
  match l with
  | [] => Some st
  | ws :: l => st ← nft_line st ws; nft_lines st l
  end.

(** The script is one transaction: if a line fails, nothing changes. *)
Definition nft_run (script : string) (ts : tables) : option tables :=
  match nft_lines (Top, ts) (split_whitespace <$> lines script) with
  | Some (Top, ts) => Some ts
  | _ => None
  end.

(** A TCP packet for this machine. *)
Record packet := mkPacket { pk_loopback : bool; pk_port : Z; pk_source : IpAddr; pk_established : bool }.

Section packets.
(** How nft reads a source, an address or a network. *)
Context (nft_source : string → IpAddr → bool).

Definition matches (m : matcher) (p : packet) : bool :=
  match m with
  | Loopback => pk_loopback p
  | Established => pk_established p
  | FromV4 sources => is_ipv4 (pk_source p) && existsb (λ s, nft_source s (pk_source p)) sources
  | FromV6 sources => negb (is_ipv4 (pk_source p)) && existsb (λ s, nft_source s (pk_source p)) sources
  | Any => true
  end.

Definition applies (r : nft_rule) (p : packet) : bool :=
  match r_ports r with Some ports => bool_decide (pk_port p ∈ ports) | None => true end && matches (r_match r) p.

(** The first rule that applies decides; without one, the chain's policy. *)
Fixpoint chain_verdict (rules : list nft_rule) (p : packet) : verdict :=
  match rules with
  | [] => Accept
  | r :: rules => if applies r p then r_verdict r else chain_verdict rules p
  end.

(** Each table has its say, and one drop is enough. *)
Definition admits (ts : tables) (p : packet) : bool :=
  forallb (λ '(_, rules), match chain_verdict rules p with Accept => true | Drop => false end) (map_to_list ts).

End packets.

(** ** What is meant *)

Section policy.
Context {IpNet : Type} (contains : IpNet → IpAddr → bool).

(** The database's own nodes reach its Postgres, Raft and agent ports; clients
    on the allowlist, and connections already made, reach the proxy. *)
Definition firewall_policy (rules : Rules) (p : packet) : verdict :=
  let '(postgres, raft, agent) := fw_peer_ports rules in
  if pk_loopback p then Accept
  else if bool_decide (pk_port p ∈ [postgres; raft; agent]) then
    if bool_decide (pk_source p ∈ fw_peers rules) then Accept else Drop
  else if (pk_port p =? fw_proxy_port rules)%Z then
    if pk_established p || existsb (λ n, contains n (pk_source p)) (fw_allowed_cidrs rules)
    then Accept else Drop
  else Accept.
End policy.

#[local] Arguments Ascii.eqb _ _ : simpl never.

(** ** Words of a line *)

Lemma str_all_app f a b : str_all f (a ++ b) = str_all f a && str_all f b.
Proof.
  unfold str_all. induction a as [|c a IH]; cbn; [done|]. destruct (f c); cbn; [apply IH|done].
Qed.

Lemma str_all_cons f c s : str_all f (String c s) = f c && str_all f s.
Proof. unfold str_all. cbn. by destruct (f c). Qed.

Lemma str_all_mono (f g : ascii → bool) s :
  (∀ c, f c = true → g c = true) → str_all f s = true → str_all g s = true.
Proof.
  intros Hfg. induction s as [|c s IH]; [done|]. rewrite !str_all_cons.
  intros [Hc Hs]%andb_true_iff. by rewrite Hfg, IH.
Qed.

Lemma str_all_join f sep l :
  str_all f sep = true → Forall (λ s, str_all f s = true) l → str_all f (join sep l) = true.
Proof.
  intros Hsep. induction 1 as [|x l Hx Hl IH]; [done|]. destruct l as [|y l]; [done|].
  change (join sep (x :: y :: l)) with (x ++ sep ++ join sep (y :: l)). by rewrite !str_all_app, Hx, Hsep, IH.
Qed.

(** Printable characters and spaces. *)
Definition spaced (s : string) : bool := str_all (λ c, printable c || Ascii.eqb c " ") s.

(** A character of a word in a set. *)
Definition item_char (c : ascii) : bool := printable c && negb (str_exists (Ascii.eqb c) ",{}").
Definition item (w : string) : bool := negb (is_empty w) && str_all item_char w.

Lemma item_spaced w : item w = true → spaced w = true.
Proof.
  intros [_ Hw]%andb_true_iff. eapply str_all_mono; [|done]. intros c [Hc _]%andb_true_iff. by rewrite Hc.
Qed.

Lemma item_word w : item w = true → printable_str w = true ∧ w ≠ EmptyString.
Proof.
  intros [Hne Hw]%andb_true_iff. apply is_empty_false in Hne. split; [|done]. clear Hne.
  induction w as [|c w IH]; [done|]. rewrite str_all_cons in Hw. apply andb_true_iff in Hw as [Hc Hw].
  apply andb_true_iff in Hc as [Hc _]. cbn. by rewrite Hc, IH.
Qed.

Lemma split_ws_app cur p s :
  spaced p = true → split_ws 0 cur (p ++ String " " s) = (split_ws 0 cur p ++ split_ws 0 EmptyString s)%list.
Proof.
  revert cur. induction p as [|a p IH]; intros cur Hp; [by destruct cur|].
  unfold spaced in Hp. rewrite str_all_cons in Hp. apply andb_true_iff in Hp as [Ha Hp].
  cbn [String.append]. destruct (printable a) eqn:Hpr.
  - cbn [split_ws]. rewrite !space_len_printable by done. by apply IH.
  - apply Ascii.eqb_eq in Ha as ->. destruct cur as [|c cur]; cbn -[split_ws]; cbn [split_ws]; [by apply IH|].
    change (space_len (String " " (p ++ String " " s))) with 1%nat.
    change (space_len (String " " p)) with 1%nat. cbn. f_equal. by apply IH.
Qed.

Lemma split_words_app p s :
  spaced p = true →
  split_whitespace (p ++ String " " s) = (split_whitespace p ++ split_whitespace s)%list.
Proof. apply split_ws_app. Qed.

Lemma split_item w : item w = true → split_whitespace w = [w].
Proof. intros [? ?]%item_word. by apply split_whitespace_last. Qed.

Lemma spaced_app a b : spaced (a ++ b) = spaced a && spaced b.
Proof. apply str_all_app. Qed.

Lemma spaced_no_char c s : printable c || Ascii.eqb c " " = false → spaced s = true → no_char c s = true.
Proof.
  intros Hc. induction s as [|a s IH]; [done|]. unfold spaced in *. rewrite str_all_cons.
  intros [Ha Hs]%andb_true_iff. specialize (IH Hs). unfold no_char in *. cbn. apply negb_true_iff in IH.
  rewrite IH, orb_false_r. apply negb_true_iff, Ascii.eqb_neq. intros ->. congruence.
Qed.

Lemma strip_cr_id w : no_char CR w = true → strip_cr w = w.
Proof.
  intros Hw. destruct (strip_cr_cases w) as [|E]; [done|]. rewrite E, no_char_app in Hw.
  by apply andb_true_iff in Hw as [_ Hw].
Qed.

(** The next line of a text. *)
Lemma script_line w s :
  spaced w = true →
  split_whitespace <$> lines (w ++ NL ++ s) = split_whitespace w :: (split_whitespace <$> lines s).
Proof.
  intros Hw. change (NL ++ s) with (String LF s). rewrite lines_cons by (by apply spaced_no_char).
  by rewrite strip_cr_id by (by apply spaced_no_char).
Qed.

(** ** Sets *)

(** The words of a set's items. *)
Fixpoint comma_words (items : list string) : list string :=
  match items with
  | [] => []
  | [x] => [x]
  | x :: l => (x ++ ",") :: comma_words l
  end.

Lemma split_items items s :
  items ≠ [] → Forall (λ w, item w = true) items →
  split_whitespace (join ", " items ++ String " " s) = (comma_words items ++ split_whitespace s)%list.
Proof.
  intros Hne Hall. induction Hall as [|x l Hx Hl IH]; [done|]. destruct l as [|y l].
  - cbn [join comma_words]. rewrite split_words_app by (by apply item_spaced). by rewrite split_item.
  - change (join ", " (x :: y :: l)) with (x ++ (", " ++ join ", " (y :: l))).
    rewrite <- !str_app_assoc. change (", " ++ join ", " (y :: l) ++ String " " s) with
      ("," ++ String " " (join ", " (y :: l) ++ String " " s)). rewrite str_app_assoc.
    destruct (item_word _ Hx) as [Hp Hn].
    rewrite split_words_app by (rewrite spaced_app, item_spaced by done; done).
    rewrite IH by done. rewrite split_whitespace_last; [done| |by destruct x].
    clear -Hp. induction x as [|c x IHx]; cbn in *; [done|]. apply andb_true_iff in Hp as [-> Hp]. by apply IHx.
Qed.

Lemma items_spaced items : Forall (λ w, item w = true) items → spaced (join ", " items) = true.
Proof.
  intros Hi. apply str_all_join; [done|]. eapply Forall_impl; [exact Hi|]. apply item_spaced.
Qed.

Lemma item_no_char w c : item w = true → item_char c = false → no_char c w = true.
Proof.
  intros [_ Hw]%andb_true_iff Hc. induction w as [|a w IH]; [done|]. rewrite str_all_cons in Hw.
  apply andb_true_iff in Hw as [Ha Hw]. specialize (IH Hw). unfold no_char in *. cbn. apply negb_true_iff in IH.
  rewrite IH, orb_false_r. apply negb_true_iff, Ascii.eqb_neq. intros ->. congruence.
Qed.

Lemma trim_comma w : no_char "," w = true → trim_end_char "," (w ++ ",") = w.
Proof.
  induction w as [|a w IH]; intros Hw; [done|]. unfold no_char in *. cbn in Hw.
  apply negb_true_iff, orb_false_iff in Hw as [Ha Hw]. cbn [String.append trim_end_char].
  rewrite IH by (by rewrite Hw). destruct w; [|done]. by rewrite Ascii.eqb_sym, Ha.
Qed.

Lemma not_brace w c s : item_char c = false → item w = true → w ≠ String c s.
Proof.
  intros Hc [_ Hw]%andb_true_iff ->. rewrite str_all_cons, Hc in Hw. done.
Qed.

Lemma set_items_words items ws :
  Forall (λ w, item w = true) items → set_items (comma_words items ++ "}" :: ws) = Some (items, ws).
Proof.
  induction 1 as [|x l Hx Hl IH]; [done|].
  assert (String.eqb x "}" = false) as Hb by (apply String.eqb_neq; by apply not_brace).
  destruct l as [|y l].
  - cbn [comma_words app set_items]. rewrite Hb. cbn. by rewrite trim_end_char_id by (by apply item_no_char).
  - change (comma_words (x :: y :: l)) with ((x ++ ",") :: comma_words (y :: l)).
    cbn [app set_items]. assert (String.eqb (x ++ ",") "}" = false) as ->.
    { apply String.eqb_neq. destruct x as [|c x]; [done|]. intros [= -> _]. by apply (not_brace _ "}" x) in Hx. }
    rewrite IH. cbn. by rewrite trim_comma by (by apply item_no_char).
Qed.

(** ** Numbers and addresses as items *)

Lemma digit_item d : (0 ≤ d < 16)%Z → item_char (digit_char d) = true ∧ item_char (lower (digit_char d)) = true.
Proof.
  intros Hd. assert (In d [0; 1; 2; 3; 4; 5; 6; 7; 8; 9; 10; 11; 12; 13; 14; 15]%Z) as Hin by (cbn; lia).
  repeat (destruct Hin as [<-|Hin]; [by split|]). done.
Qed.

Lemma digits_all f fuel radix n acc :
  (∀ d, (0 ≤ d < 16)%Z → f (digit_char d) = true) → (2 ≤ radix ≤ 16)%Z → (0 ≤ n)%Z →
  str_all f (digits_fuel fuel radix n acc) = str_all f acc.
Proof.
  intros Hf Hr. revert n acc. induction fuel as [|fuel IH]; intros n acc Hn; [done|].
  cbn [digits_fuel]. pose proof (Z.mod_pos_bound n radix ltac:(lia)).
  assert (str_all f (String (digit_char (n mod radix)) acc) = str_all f acc) as E.
  { rewrite str_all_cons, Hf by lia. done. }
  case_match; [done|]. rewrite IH by (apply Z.div_pos; lia). done.
Qed.

Lemma str_all_map f g s : str_all f (str_map g s) = str_all (λ c, f (g c)) s.
Proof. induction s as [|c s IH]; [done|]. cbn [str_map]. by rewrite !str_all_cons, IH. Qed.

Lemma str_map_empty g s : is_empty (str_map g s) = is_empty s.
Proof. by destruct s. Qed.

Lemma digits_not_empty radix n : (2 ≤ radix ≤ 16)%Z → (0 ≤ n)%Z →
  is_empty (digits_fuel 64 radix n EmptyString) = false.
Proof. intros Hr Hn. by destruct (digits_fuel_head 63 radix n EmptyString Hr Hn) as (d & s & -> & _). Qed.

Lemma format_dec_item n : (0 ≤ n)%Z → item (format_dec n) = true.
Proof.
  intros Hn. unfold item, format_dec. rewrite digits_not_empty, digits_all by (lia || by apply digit_item). done.
Qed.

Lemma format_hex_lower_item n : (0 ≤ n)%Z → item (format_hex_lower n) = true.
Proof.
  intros Hn. unfold item, format_hex_lower, format_hex. rewrite str_map_empty, str_all_map.
  rewrite digits_not_empty, digits_all by (lia || by apply digit_item). done.
Qed.

Lemma item_app a b : item a = true → str_all item_char b = true → item (a ++ b) = true.
Proof.
  unfold item. rewrite str_all_app. intros [Ha ->]%andb_true_iff ->. by destruct a.
Qed.

Lemma join_item sep l :
  str_all item_char sep = true → l ≠ [] → Forall (λ w, item w = true) l → item (join sep l) = true.
Proof.
  intros Hsep Hne Hl. unfold item. apply andb_true_iff. split.
  - destruct Hl as [|x l Hx Hl]; [done|]. apply andb_true_iff in Hx as [Hx _]. destruct x; [done|]. by destruct l.
  - apply str_all_join; [done|]. eapply Forall_impl; [exact Hl|]. by intros x [_ ?]%andb_true_iff.
Qed.

Lemma show_v4_item a : item (show_v4 a) = true.
Proof.
  apply join_item; [done|done|]. apply Forall_fmap. eapply Forall_impl; [apply be_bytes_byte|].
  intros b [Hb _]. by apply format_dec_item.
Qed.

Lemma show_segments_chars l : Forall (λ s, 0 ≤ s)%Z l → str_all item_char (show_segments l) = true.
Proof.
  intros Hl. apply str_all_join; [done|]. apply Forall_fmap. eapply Forall_impl; [exact Hl|].
  intros s Hs%format_hex_lower_item. by apply andb_true_iff in Hs as [_ ?].
Qed.

Lemma segments_nonneg a : Forall (λ s, 0 ≤ s)%Z (segments a).
Proof. unfold segments. apply Forall_fmap, Forall_forall. intros k _. apply Z.land_nonneg. by right. Qed.

Lemma show_ip_item ip : item (show_ip ip) = true.
Proof.
  destruct ip as [a|a]; cbn [show_ip]; [apply show_v4_item|]. unfold show_v6.
  pose proof (segments_nonneg a) as Hs. destruct (_ =? _)%Z.
  - apply (item_app "::ffff:"); [done|]. pose proof (show_v4_item (wrap 32 a)) as Hv.
    by apply andb_true_iff in Hv as [_ ?].
  - destruct (longest_zeros _ _ _ _) as [start len]. destruct (_ <? _)%nat.
    + unfold item. rewrite !str_all_app, !show_segments_chars by (by apply Forall_take || by apply Forall_drop).
      by destruct (show_segments _).
    + apply join_item; [done|done|]. apply Forall_fmap. eapply Forall_impl; [exact Hs|].
      apply format_hex_lower_item.
Qed.

Lemma hexdigit_item c : is_hexdigit c = true → item_char c = true.
Proof. destruct c as [[] [] [] [] [] [] [] []]; vm_compute; done. Qed.

Lemma str_all_substring f n m s : str_all f s = true → str_all f (substring n m s) = true.
Proof.
  revert n m. induction s as [|c s IH]; intros n m; [by destruct n, m|]. rewrite str_all_cons.
  intros [Hc Hs]%andb_true_iff. destruct n as [|n]; [destruct m as [|m]; [done|]|]; cbn [substring];
    [rewrite str_all_cons, Hc|]; by apply IH.
Qed.

(** ** The script's words *)

Section script.
Context {IpNet : Type} (show_net : IpNet → string) (net_is_v4 : IpNet → bool).
Context (sha256_hex : string → string).

Definition tcp_line (ports tail : list string) : list string := ("tcp" :: "dport" :: ports ++ tail)%list.

Definition source_words (ports : list string) (family : string) (items : list string) : list (list string) :=
  if bool_decide (items = []) then []
  else [tcp_line ports (family :: "saddr" :: "{" :: comma_words items ++ ["}"; "accept"])].

Lemma tcp_words ports tail :
  spaced ports = true →
  split_whitespace ("    tcp dport " ++ ports ++ String " " tail) =
    tcp_line (split_whitespace ports) (split_whitespace tail).
Proof.
  intros Hp. change ("    tcp dport " ++ ports ++ String " " tail) with
    ("    tcp dport" ++ String " " (ports ++ String " " tail)).
  by rewrite !split_words_app.
Qed.

Lemma tcp_spaced ports tail :
  spaced ports = true → spaced tail = true → spaced ("    tcp dport " ++ ports ++ String " " tail) = true.
Proof. intros Hp Ht. change (String " " tail) with (" " ++ tail). by rewrite !spaced_app, Hp, Ht. Qed.

(** One line of [accept_sources]. *)
Lemma source_line ports family items s :
  spaced ports = true → item family = true → Forall (λ w, item w = true) items →
  split_whitespace <$> lines (match set_of items with
    | Some sources => ("    tcp dport " ++ ports ++ " " ++ family ++ " saddr " ++ sources ++ " accept") ++ NL
    | None => EmptyString
    end ++ s) =
  (source_words (split_whitespace ports) family items ++ (split_whitespace <$> lines s))%list.
Proof.
  intros Hp Hf Hi. unfold set_of, source_words. case_bool_decide as Hnil; [done|].
  rewrite <- str_app_assoc. change (" " ++ family ++ ?x) with (String " " (family ++ x)).
  rewrite script_line.
  - rewrite tcp_words by done. cbn [app]. f_equal. f_equal.
    change (family ++ " saddr " ++ ("{ " ++ join ", " items ++ " }") ++ " accept") with
      (family ++ String " " ("saddr" ++ String " " (("{" ++ String " " (join ", " items ++ " }")) ++ " accept"))).
    rewrite !split_words_app by (done || by apply item_spaced). rewrite (split_item family) by done.
    rewrite <- str_app_assoc. change (String " " (join ", " items ++ " }") ++ " accept") with
      (String " " ((join ", " items ++ " }") ++ " accept")).
    rewrite split_words_app by done. rewrite <- str_app_assoc.
    change (" }" ++ " accept") with (String " " "} accept"). by rewrite split_items.
  - apply tcp_spaced; [done|]. rewrite !spaced_app, item_spaced, items_spaced by done. done.
Qed.

Lemma accept_words ports v4 v6 s :
  spaced ports = true → Forall (λ w, item w = true) v4 → Forall (λ w, item w = true) v6 →
  split_whitespace <$> lines (accept_sources ports (set_of v4) (set_of v6) ++ s) =
  (source_words (split_whitespace ports) "ip" v4 ++ source_words (split_whitespace ports) "ip6" v6 ++
    (split_whitespace <$> lines s))%list.
Proof.
  intros Hp H4 H6. unfold accept_sources. rewrite <- str_app_assoc.
  rewrite <- (source_line ports "ip6" v6 s) by done. exact (source_line ports "ip" v4 _ Hp eq_refl H4).
Qed.

(** Ports as words, and what nft reads of them. *)
Definition reads_ports (words : list string) (ports : list Z) : Prop :=
  ∃ texts, (∀ rest, values (words ++ rest) = Some (texts, rest)) ∧ mapM parse_u16 texts = Some ports.

Definition is_port (p : Z) : Prop := (0 ≤ p < 2 ^ 16)%Z.

Lemma parse_format_port p : is_port p → parse_u16 (format_dec p) = Some p.
Proof. intros Hp. unfold is_port in Hp. apply from_str_radix_format; lia. Qed.

Lemma one_port p : is_port p → spaced (format_dec p) = true ∧ reads_ports (split_whitespace (format_dec p)) [p].
Proof.
  intros Hp. assert (item (format_dec p) = true) as Hi by (apply format_dec_item, Hp).
  split; [by apply item_spaced|]. rewrite split_item by done. exists [format_dec p]. split.
  - intros rest. cbn [app values]. assert (String.eqb (format_dec p) "{" = false) as ->; [|done].
    apply String.eqb_neq. by apply not_brace.
  - cbn. by rewrite parse_format_port.
Qed.

Lemma peer_ports_words a b c :
  is_port a → is_port b → is_port c →
  spaced (peer_ports_text (a, b, c)) = true ∧ reads_ports (split_whitespace (peer_ports_text (a, b, c))) [a; b; c].
Proof.
  intros Ha Hb Hc. set (items := format_dec <$> [a; b; c]).
  assert (Forall (λ w, item w = true) items) as Hi.
  { repeat constructor; apply format_dec_item; unfold is_port in *; lia. }
  assert (peer_ports_text (a, b, c) = "{" ++ String " " (join ", " items ++ " }")) as ->.
  { unfold peer_ports_text, items. cbn [fmap list_fmap join]. by rewrite <- !str_app_assoc. }
  split; [change ("{" ++ String " " ?x) with ("{ " ++ x); rewrite !spaced_app, items_spaced by done; done|].
  rewrite split_words_app by done. rewrite split_items by done. exists items. split.
  - intros rest. rewrite <- app_assoc. cbn [app values]. rewrite <- app_assoc. by apply set_items_words.
  - unfold items. cbn. by rewrite !parse_format_port.
Qed.

(** ** What nft makes of it *)

Lemma parse_tcp words ports tail :
  reads_ports words ports →
  parse_rule (tcp_line words tail) =
    if bool_decide (tail = ["drop"]) then Some (mkRule (Some ports) Any Drop)
    else if bool_decide (tail = ["ct"; "state"; "established,related"; "accept"])
      then Some (mkRule (Some ports) Established Accept)
    else match after_words ["ip"; "saddr"] tail, after_words ["ip6"; "saddr"] tail with
         | Some ws, _ => parse_sources FromV4 ports ws
         | None, Some ws => parse_sources FromV6 ports ws
         | None, None => None
         end.
Proof.
  intros (texts & Hv & Hm). unfold parse_rule, tcp_line.
  rewrite bool_decide_eq_false_2 by done.
  change (after_words ["tcp"; "dport"] ("tcp" :: "dport" :: words ++ tail)%list) with (Some (words ++ tail)%list).
  cbn [mbind option_bind]. rewrite Hv. cbn [mbind option_bind]. rewrite Hm. done.
Qed.

Lemma parse_set items make ports :
  Forall (λ w, item w = true) items →
  parse_sources make ports ("{" :: comma_words items ++ ["}"; "accept"])%list =
    Some (mkRule (Some ports) (make items) Accept).
Proof.
  intros Hi. unfold parse_sources. change (values ("{" :: ?x)) with (set_items x).
  rewrite set_items_words by done. done.
Qed.

Definition source_rules (ports : list Z) (make : list string → matcher) (items : list string) : list nft_rule :=
  if bool_decide (items = []) then [] else [mkRule (Some ports) (make items) Accept].

Lemma chain_line t rules ts ws r :
  parse_rule ws = Some r → hd EmptyString ws = "tcp" ∨ hd EmptyString ws = "iif" →
  nft_line (InChain t rules, ts) ws = Some (InChain t (rules ++ [r])%list, ts).
Proof.
  intros Hr Hh. cbn [nft_line]. rewrite !bool_decide_eq_false_2, Hr; [done|..]; intros ->; by destruct Hh.
Qed.

Lemma source_lines t rules ts words ports make family items rest :
  reads_ports words ports → Forall (λ w, item w = true) items →
  (family = "ip" ∧ make = FromV4 ∨ family = "ip6" ∧ make = FromV6) →
  nft_lines (InChain t rules, ts) (source_words words family items ++ rest) =
  nft_lines (InChain t (rules ++ source_rules ports make items)%list, ts) rest.
Proof.
  intros Hp Hi Hf. unfold source_words, source_rules. case_bool_decide; [by rewrite app_nil_r|].
  cbn [app nft_lines]. erewrite chain_line; [done| |by left]. rewrite (parse_tcp words ports) by done.
  rewrite !bool_decide_eq_false_2 by (by destruct Hf as [[-> _]|[-> _]]).
  by destruct Hf as [[-> ->]|[-> ->]]; apply parse_set.
Qed.

(** The chain the script leaves. *)
Definition chain_of (rules : Rules (IpNet := IpNet)) : list nft_rule :=
  let '(postgres, raft, agent) := fw_peer_ports rules in
  let peer_ports := [postgres; raft; agent] in
  let proxy := [fw_proxy_port rules] in
  ([mkRule None Loopback Accept] ++
   source_rules peer_ports FromV4 (show_ip <$> List.filter is_ipv4 (fw_peers rules)) ++
   source_rules peer_ports FromV6 (show_ip <$> List.filter (λ ip, negb (is_ipv4 ip)) (fw_peers rules)) ++
   [mkRule (Some peer_ports) Any Drop; mkRule (Some proxy) Established Accept] ++
   source_rules proxy FromV4 (show_net <$> List.filter net_is_v4 (fw_allowed_cidrs rules)) ++
   source_rules proxy FromV6 (show_net <$> List.filter (λ n, negb (net_is_v4 n)) (fw_allowed_cidrs rules)) ++
   [mkRule (Some proxy) Any Drop])%list.

Hypothesis hash_is_hex : ∀ s, str_all is_hexdigit (sha256_hex s) = true.

Lemma table_item id : item (table_name sha256_hex id) = true.
Proof.
  apply item_app; [done|]. apply str_all_substring. eapply str_all_mono; [apply hexdigit_item|apply hash_is_hex].
Qed.

(** Values the rules are made of. *)
Definition rules_ok (rules : Rules (IpNet := IpNet)) : Prop :=
  let '(postgres, raft, agent) := fw_peer_ports rules in
  is_port postgres ∧ is_port raft ∧ is_port agent ∧ is_port (fw_proxy_port rules) ∧
  (fw_proxy_port rules ∉ [postgres; raft; agent]) ∧
  Forall (λ n, item (show_net n) = true) (fw_allowed_cidrs rules).

Lemma filter_items {A} (show : A → string) (f : A → bool) l :
  Forall (λ x, item (show x) = true) l → Forall (λ w, item w = true) (show <$> List.filter f l).
Proof.
  intros Hl. apply Forall_fmap, Forall_forall. intros x [Hx _]%elem_of_lfilter.
  rewrite Forall_forall in Hl. by apply Hl.
Qed.

Lemma present_lookup t (ts : tables) : is_Some (present t ts !! t) ∧ delete t (present t ts) = delete t ts.
Proof.
  unfold present. destruct (ts !! t) eqn:E; [by rewrite E|]. split; [by rewrite lookup_insert_eq|].
  by rewrite delete_insert_eq.
Qed.

Lemma table_lines t (ts : tables) rest :
  nft_lines (Top, ts) (["add"; "table"; "inet"; t] :: ["delete"; "table"; "inet"; t] :: rest) =
  nft_lines (Top, delete t ts) rest.
Proof.
  cbn [nft_lines]. change (nft_line (Top, ts) ["add"; "table"; "inet"; t]) with (Some (Top, present t ts)).
  cbn [mbind option_bind].
  change (nft_line (Top, present t ts) ["delete"; "table"; "inet"; t]) with
    (match present t ts !! t with Some _ => Some (Top, delete t (present t ts)) | None => None end).
  destruct (present_lookup t ts) as [[x ->] ->]. done.
Qed.

Lemma line_words t p s :
  item t = true → spaced p = true →
  split_whitespace <$> lines ((p ++ String " " t) ++ NL ++ s) =
  ((split_whitespace p ++ [t])%list :: (split_whitespace <$> lines s)).
Proof.
  intros Ht Hp. rewrite script_line.
  - by rewrite split_words_app, (split_item t) by done.
  - change (String " " t) with (" " ++ t). by rewrite !spaced_app, Hp, (item_spaced t) by done.
Qed.

(** The script as nft reads it. *)
Lemma render_words rules :
  rules_ok rules →
  ∃ pw qw,
    let '(postgres, raft, agent) := fw_peer_ports rules in
    let t := table_name sha256_hex (fw_instance_id rules) in
    reads_ports pw [postgres; raft; agent] ∧ reads_ports qw [fw_proxy_port rules] ∧
    split_whitespace <$> lines (firewall_render show_net net_is_v4 sha256_hex rules) =
    ([["add"; "table"; "inet"; t]; ["delete"; "table"; "inet"; t]; ["table"; "inet"; t; "{"];
      ["chain"; "input"; "{"]; CHAIN_TYPE; ["iif"; LO; "accept"]] ++
     source_words pw "ip" (show_ip <$> List.filter is_ipv4 (fw_peers rules)) ++
     source_words pw "ip6" (show_ip <$> List.filter (λ ip, negb (is_ipv4 ip)) (fw_peers rules)) ++
     [tcp_line pw ["drop"]; tcp_line qw ["ct"; "state"; "established,related"; "accept"]] ++
     source_words qw "ip" (show_net <$> List.filter net_is_v4 (fw_allowed_cidrs rules)) ++
     source_words qw "ip6" (show_net <$> List.filter (λ n, negb (net_is_v4 n)) (fw_allowed_cidrs rules)) ++
     [tcp_line qw ["drop"]; ["}"]; ["}"]])%list.
Proof.
  unfold rules_ok, firewall_render. destruct (fw_peer_ports rules) as [[a b] c].
  intros (Ha & Hb & Hc & Hq & _ & Hn). destruct (peer_ports_words a b c) as [Hps Hpr]; [done..|].
  destruct (one_port (fw_proxy_port rules) Hq) as [Hqs Hqr].
  exists (split_whitespace (peer_ports_text (a, b, c))), (split_whitespace (format_dec (fw_proxy_port rules))).
  split; [done|]. split; [done|]. cbv zeta. set (t := table_name sha256_hex (fw_instance_id rules)).
  assert (item t = true) as Ht by apply table_item.
  assert (Forall (λ ip, item (show_ip ip) = true) (fw_peers rules)) as Hip
    by (apply Forall_forall; intros; apply show_ip_item).
  rewrite (line_words t "add table inet") by done. rewrite (line_words t "delete table inet") by done.
  rewrite script_line; [|by rewrite !spaced_app, (item_spaced t) by done].
  change ("table inet " ++ t ++ " {") with ("table inet" ++ String " " (t ++ String " " "{")).
  rewrite !split_words_app by (done || by apply item_spaced). rewrite (split_item t) by done.
  do 3 rewrite script_line by done.
  rewrite accept_words by (done || by apply filter_items).
  rewrite script_line by (by apply tcp_spaced). rewrite tcp_words by done.
  rewrite script_line by (by apply tcp_spaced). rewrite tcp_words by done.
  rewrite accept_words by (done || by apply filter_items).
  rewrite script_line by (by apply tcp_spaced). rewrite tcp_words by done.
  reflexivity.
Qed.

(** The instance's table holds the chain, and the others are as they were. *)
Lemma render_runs rules (ts : tables) :
  rules_ok rules →
  nft_run (firewall_render show_net net_is_v4 sha256_hex rules) ts =
    Some (<[table_name sha256_hex (fw_instance_id rules) := chain_of rules]> ts).
Proof.
  intros Hok. destruct (render_words rules Hok) as (pw & qw & Hw). unfold nft_run, chain_of, rules_ok in *.
  destruct (fw_peer_ports rules) as [[a b] c]. destruct Hok as (_ & _ & _ & _ & _ & Hn).
  cbv zeta in *. destruct Hw as (Hpw & Hqw & ->). set (t := table_name sha256_hex (fw_instance_id rules)).
  assert (Forall (λ ip, item (show_ip ip) = true) (fw_peers rules)) as Hip
    by (apply Forall_forall; intros; apply show_ip_item).
  cbn [app]. rewrite table_lines. cbn [nft_lines].
  change (nft_line (Top, delete t ts) ["table"; "inet"; t; "{"]) with
    (Some (InTable t, present t (delete t ts))).
  unfold present. rewrite lookup_delete_eq. cbn [mbind option_bind].
  change (nft_line (InTable t, ?ts) ["chain"; "input"; "{"]) with (Some (InChain t [], ts)). cbn [mbind option_bind].
  change (nft_line (InChain t [], ?ts) CHAIN_TYPE) with (Some (InChain t [], ts)). cbn [mbind option_bind].
  rewrite (chain_line _ _ _ _ (mkRule None Loopback Accept)) by (reflexivity || by right). cbn [mbind option_bind app].
  rewrite (source_lines _ _ _ pw [a; b; c] FromV4) by (done || (by left) || by apply filter_items).
  rewrite (source_lines _ _ _ pw [a; b; c] FromV6) by (done || (by right) || by apply filter_items).
  cbn [nft_lines app]. rewrite (chain_line _ _ _ _ (mkRule (Some [a; b; c]) Any Drop)) by ((by rewrite (parse_tcp pw [a; b; c])) || by left). cbn [mbind option_bind].
  rewrite (chain_line _ _ _ _ (mkRule (Some [fw_proxy_port rules]) Established Accept))
    by ((by rewrite (parse_tcp qw [fw_proxy_port rules])) || by left). cbn [mbind option_bind].
  rewrite (source_lines _ _ _ qw [fw_proxy_port rules] FromV4) by (done || (by left) || by apply filter_items).
  rewrite (source_lines _ _ _ qw [fw_proxy_port rules] FromV6) by (done || (by right) || by apply filter_items).
  cbn [nft_lines app]. rewrite (chain_line _ _ _ _ (mkRule (Some [fw_proxy_port rules]) Any Drop))
    by ((by rewrite (parse_tcp qw [fw_proxy_port rules])) || by left). cbn [mbind option_bind].
  change (nft_line (InChain t ?r, ?ts) ["}"]) with (Some (InTable t, <[t := (default [] (ts !! t) ++ r)%list]> ts)).
  cbn [mbind option_bind]. change (nft_line (InTable t, ?ts) ["}"]) with (Some (Top, ts)). cbn [mbind option_bind nft_lines].
  rewrite lookup_insert_eq. cbn [default app]. rewrite insert_insert_eq, insert_delete_eq.
  by rewrite <- !app_assoc.
Qed.

(** ** What the chain decides *)

Context (nft_source : string → IpAddr → bool) (contains : IpNet → IpAddr → bool).

(** Sources of one family. *)
Lemma chain_sources ports (v4 : bool) items rest p :
  chain_verdict nft_source (source_rules ports (if v4 then FromV4 else FromV6) items ++ rest) p =
  if bool_decide (pk_port p ∈ ports) && Bool.eqb (is_ipv4 (pk_source p)) v4 &&
     existsb (λ s, nft_source s (pk_source p)) items
  then Accept else chain_verdict nft_source rest p.
Proof.
  unfold source_rules. case_bool_decide as Hi; [subst; cbn [existsb app]; by rewrite andb_false_r|].
  cbn [app chain_verdict]. unfold applies. cbn [r_ports r_match r_verdict].
  rewrite <- andb_assoc. destruct v4; cbn [matches]; by destruct (is_ipv4 (pk_source p)).
Qed.

(** A source is in the set of its own family. *)
Lemma sources_split {A} (show : A → string) (f : A → bool) (g : A → IpAddr → bool) l src :
  (∀ x, x ∈ l → nft_source (show x) src = g x src) → (∀ x, x ∈ l → g x src = true → f x = is_ipv4 src) →
  Bool.eqb (is_ipv4 src) true && existsb (λ s, nft_source s src) (show <$> List.filter f l) ||
  Bool.eqb (is_ipv4 src) false && existsb (λ s, nft_source s src) (show <$> List.filter (λ x, negb (f x)) l) =
  existsb (λ x, g x src) l.
Proof.
  intros Hs Hf. induction l as [|x l IH]; [by destruct (is_ipv4 src)|].
  assert (∀ y, y ∈ l → y ∈ x :: l) as Hl by (intros; by right).
  specialize (IH (λ y Hy, Hs y (Hl y Hy)) (λ y Hy, Hf y (Hl y Hy))). cbn [List.filter existsb].
  rewrite <- IH. clear IH Hl. pose proof (Hs x (list_elem_of_here x l)) as Hx.
  pose proof (Hf x (list_elem_of_here x l)) as Hx'. destruct (f x); cbn; rewrite ?Hx;
    destruct (g x src), (is_ipv4 src); cbn; try done; try (by specialize (Hx' eq_refl));
    by destruct (existsb _ _).
Qed.

(** What is relied on of ipnet and of nft: an address stands for itself, a
    network for what it contains, which is of its own family. *)
Definition sources_ok (rules : Rules (IpNet := IpNet)) : Prop :=
  (∀ ip src, ip ∈ fw_peers rules → nft_source (show_ip ip) src = bool_decide (src = ip)) ∧
  (∀ n src, n ∈ fw_allowed_cidrs rules → nft_source (show_net n) src = contains n src) ∧
  (∀ n src, n ∈ fw_allowed_cidrs rules → contains n src = true → net_is_v4 n = is_ipv4 src).

Lemma chain_decides rules p :
  rules_ok rules → sources_ok rules →
  chain_verdict nft_source (chain_of rules) p = firewall_policy contains rules p.
Proof.
  unfold rules_ok, chain_of, firewall_policy. destruct (fw_peer_ports rules) as [[a b] c].
  intros (_ & _ & _ & _ & Hq & _) (Hip & Hnet & Hfam). cbv zeta.
  cbn [app chain_verdict]. unfold applies at 1. cbn [r_ports r_match r_verdict matches andb].
  destruct (pk_loopback p) eqn:Hlo; [done|].
  rewrite (chain_sources _ true), (chain_sources _ false). cbn [app chain_verdict].
  unfold applies at 1 2. cbn [r_ports r_match r_verdict matches]. rewrite andb_true_r.
  pose proof (sources_split show_ip is_ipv4 (λ ip src, bool_decide (src = ip)) (fw_peers rules) (pk_source p)) as Hpeers.
  specialize (Hpeers (λ ip, Hip ip _)). assert (∀ x, x ∈ fw_peers rules → bool_decide (pk_source p = x) = true →
    is_ipv4 x = is_ipv4 (pk_source p)) as Hx by (by intros x _ ->%bool_decide_eq_true).
  specialize (Hpeers Hx). clear Hx.
  assert (existsb (λ x, bool_decide (pk_source p = x)) (fw_peers rules) = bool_decide (pk_source p ∈ fw_peers rules)) as Eb.
  { apply eq_true_iff_eq. rewrite existsb_exists, bool_decide_eq_true. setoid_rewrite bool_decide_eq_true.
    split; [intros (x & Hin & ->); by apply list_elem_of_In|].
    intros Hin. exists (pk_source p). by rewrite <- list_elem_of_In. }
  cbv beta in Hpeers. rewrite Eb in Hpeers. clear Eb.
  destruct (bool_decide (pk_port p ∈ [a; b; c])) eqn:Hport; cbn [andb].
  - rewrite <- Hpeers. by destruct (_ && existsb _ (show_ip <$> List.filter is_ipv4 _)), (_ && existsb _ _).
  - assert (bool_decide (pk_port p ∈ [fw_proxy_port rules]) = (pk_port p =? fw_proxy_port rules)%Z) as Eq.
    { apply eq_true_iff_eq. by rewrite bool_decide_eq_true, list_elem_of_singleton, Z.eqb_eq. }
    rewrite Eq. destruct (pk_port p =? fw_proxy_port rules)%Z eqn:Epq; cbn [andb].
    + destruct (pk_established p); [done|]. cbn [orb].
      rewrite (chain_sources _ true), (chain_sources _ false), Eq. cbn [andb chain_verdict].
      unfold applies. cbn [r_ports r_match r_verdict matches]. rewrite Eq. cbn [andb].
      rewrite <- (sources_split show_net net_is_v4 contains (fw_allowed_cidrs rules) (pk_source p)) by auto.
      by destruct (_ && existsb _ (show_net <$> List.filter net_is_v4 _)), (_ && existsb _ _).
    + rewrite (chain_sources _ true), (chain_sources _ false), Eq. cbn [andb chain_verdict].
      unfold applies. cbn [r_ports r_match r_verdict matches]. by rewrite Eq.
Qed.

(** C17 nft accepts the script whatever tables there are, and replaces the
    instance's table alone. That table then lets in loopback, the database's own
    nodes to its Postgres, Raft and agent ports and nobody else there, and to
    the proxy the clients on the allowlist and the connections already made,
    and nobody else; it says nothing about other ports. *)
Theorem firewall_decides rules (ts : tables) :
  rules_ok rules → sources_ok rules →
  ∃ chain, nft_run (firewall_render show_net net_is_v4 sha256_hex rules) ts =
      Some (<[table_name sha256_hex (fw_instance_id rules) := chain]> ts) ∧
    ∀ p, chain_verdict nft_source chain p = firewall_policy contains rules p.
Proof.
  intros Hr Hs. exists (chain_of rules). split; [by apply render_runs|]. intros p. by apply chain_decides.
Qed.

(** The script that removes a table removes it, or finds none. *)
Lemma remove_runs id (ts : tables) :
  nft_run (firewall_remove_script sha256_hex id) ts = Some (delete (table_name sha256_hex id) ts).
Proof.
  unfold nft_run, firewall_remove_script. set (t := table_name sha256_hex id).
  assert (item t = true) as Ht by apply table_item. rewrite (line_words t "add table inet") by done.
  rewrite <- (str_app_nil_r NL), (line_words t "delete table inet") by done.
  cbn [app]. change (lines EmptyString) with (@nil string). cbn [fmap list_fmap].
  change (split_whitespace "add table inet" ++ ?x)%list with ("add" :: "table" :: "inet" :: x).
  change (split_whitespace "delete table inet" ++ ?x)%list with ("delete" :: "table" :: "inet" :: x).
  by rewrite table_lines.
Qed.
End script.

(** Two peers, one of each family, and one network of clients. *)
Definition example_source (s : string) (src : IpAddr) : bool :=
  if String.eqb s "10.0.0.2" then bool_decide (src = V4 167772162)
  else if String.eqb s "2001:db8::1" then bool_decide (src = V6 42540766411282592856903984951653826561)
  else if String.eqb s "192.168.0.0/16"
    then match src with V4 a => (Z.shiftr a 16 =? 49320)%Z | V6 _ => false end
  else false.

Definition example_rules : Rules (IpNet := ()) :=
  mkRules "db-1-n1" 20000 (20002, 20003, 20004)%Z
    [V4 167772162; V6 42540766411282592856903984951653826561] [()].

Lemma firewall_decides_witness :
  ∃ chain, nft_run (firewall_render (λ _ : (), "192.168.0.0/16") (λ _, true) (λ _, "0123456789abcdef") example_rules)
      {["other" := []]} = Some (<["pgcluster_0123456789abcdef" := chain]> {["other" := []]}) ∧
    chain_verdict example_source chain (mkPacket false 20002 (V4 167772162) false) = Accept ∧
    chain_verdict example_source chain (mkPacket false 20002 (V4 3232235777) false) = Drop ∧
    chain_verdict example_source chain (mkPacket false 20000 (V4 3232235777) false) = Accept ∧
    chain_verdict example_source chain (mkPacket false 20000 (V4 167772162) false) = Drop.
Proof.
  destruct (firewall_decides (λ _ : (), "192.168.0.0/16") (λ _, true) (λ _, "0123456789abcdef") (λ s, eq_refl)
    example_source (λ _ src, match src with V4 a => (Z.shiftr a 16 =? 49320)%Z | V6 _ => false end)
    example_rules {["other" := []]}) as (chain & Hrun & Hp).
  - unfold rules_ok, is_port. cbn. split; [lia|]. split; [lia|]. split; [lia|]. split; [lia|].
    split; [|by repeat constructor]. apply (bool_decide_unpack _). vm_compute. exact I.
  - split; [|split].
    + intros ip src [->|[->|Hin]%elem_of_cons]%elem_of_cons; [reflexivity..|]. by apply not_elem_of_nil in Hin.
    + intros [] src _. reflexivity.
    + by intros [] [a|a] _.
  - exists chain. split; [exact Hrun|]. rewrite !Hp. by repeat split.
Defined.
