(* ===== verification/HostCalls.v ===== *)
(** What the host agent asks of its machine, and how the machine changes.

    The agent's code is a program ([Effects.prog]) over [hcall]: files, programs
    it runs, systemd, the local Postgres, the clock and the admin service. A
    [machine] keeps what the theorems speak of: the files and directories, and
    for each unit of systemd that runs, the files as they were when it last read
    them. [step] is what a call may answer and do: a file that is there can be
    read, every other call may fail, and a removal or a plain write that failed
    leaves any part. All other answers are free.

    [safe I P p Q w]: along every run of [p] from [w], [I] holds at every point,
    also where the run is cut short, [P] of every call, and [Q] at the end.

    At the bottom is src/vk-agent/src/host/fsutil.rs, with [write_private_atomic]
    for its single calls; above it a private write is one call. *)
From S2P Require Import Prelude Effects Admission Standby Firewall.

Local Open Scope Z_scope.

(** ** Calls *)

(** How a request is sent: to a server nothing vouches for, to one that has a
    certificate of [ca], with a certificate and key of the host's own or
    without, or to this machine with a key. *)
Inductive Via :=
| Unverified
| Trusting (ca : string) (identity : option (string * string))
| Loopback (key : string).

(** What a request carries: nothing, [json!] with its fields, or a value as
    serde_json prints it. *)
Inductive arg := AText (s : string) | ANumber (n : Z) | AFlag (b : bool) | ANull.
Inductive payload := NoPayload | Object (fields : list (string * arg)) | Document (text : string).

(** The time, the WAL position, the last segment archived, the size of one,
    whether the server is in recovery, and its version. *)
Record WalRow := mkWalRow {
  wr_now : Z;
  wr_lsn : string;
  wr_archived : option string;
  wr_segment_size : Z;
  wr_in_recovery : bool;
  wr_version : string
}.

Inductive hcall :=
(* files *)
| ReadText (path : string)
| TryRead (path : string)
| PathExists (path : string)
| WritePrivate (path text : string)
| WriteText (path text : string)
| GiveTo (path : string)
| CreateDirs (path : string)
| SetMode (path : string) (mode : Z)
| RemoveOne (path : string)
| Rename (old new : string)
| RemoveTree (path : string)
| ListDirs (path : string)
(* the machine *)
| CurrentExe
| PortFree (port : Z)
| LookupHost (name : string)
| XfsQuota (mount command : string)
| Nft (script : string)
| RunProgram (program : string) (args : list string)
| RunOutput (program : string) (args : list string)
| RunStdout (program : string) (args : list string)
| ProcessId
| Systemctl (args : list string)
| Kill (pid : Z) (signal : string)
| Spawn (program : string) (args : list string) (env : list (string * string)) (log : string)
(* the local Postgres and the proxy's health *)
| PgConnect (server database password : string)
| PgBool (database sql : string) (bind : list string)
| PgText (database sql : string)
| PgWalPosition (database : string)
| PgExec (database sql : string)
| PgClose (database : string)
| HttpGet (url : string)
(* requests, keys and what the machine has *)
| Http (via : Via) (method url : string) (body : payload) (timeout_ms : Z)
| NewKey
| ModifiedMs (path : string)
| EnvironmentVar (name : string)
| RouteTo (target : string)
| Parallelism
| FilesystemSize (path : string)
(* time and the admin service *)
| AdminLog (operation : option string) (message : string)
| NowMs
| WallClockMs
| SleepMs (ms : Z).

(** A text that cannot be read is [None], and a call that failed [false]; a
    program answers whether it could be run and then whether it succeeded, or
    what it printed if it did. [TryRead] tells a missing file, [Some None], from
    one that cannot be read. A request answers its status and, if it arrives, its
    body; a key comes with a request for a certificate; a filesystem has a number
    of blocks of a size. [RunStdout] answers what a program printed, however it
    ended. *)
Definition hanswer (e : hcall) : Type :=
  match e with
  | ReadText _ | CurrentExe | PgText _ _ | RunOutput _ _ | RunStdout _ _ | EnvironmentVar _ | RouteTo _ => option string
  | PgWalPosition _ => option WalRow
  | Http _ _ _ _ _ => option (Z * option string)
  | NewKey => option (string * string)
  | ModifiedMs _ | Parallelism => option Z
  | FilesystemSize _ => option (Z * Z)
  | TryRead _ => option (option string)
  | PathExists _ | WritePrivate _ _ | WriteText _ _ | RemoveOne _ | Rename _ _
  | GiveTo _ | CreateDirs _ | SetMode _ _ | RemoveTree _ | PortFree _
  | XfsQuota _ _ | Nft _ | Kill _ _ | PgConnect _ _ _ | PgExec _ _ | HttpGet _ => bool
  | ListDirs _ => option (list string)
  | LookupHost _ => option (list IpAddr)
  | RunProgram _ _ | Systemctl _ | PgBool _ _ _ => option bool
  | Spawn _ _ _ _ => option Z
  | NowMs | WallClockMs | ProcessId => Z
  | PgClose _ | AdminLog _ _ | SleepMs _ => ()
  end.

Abbreviation hprog := (prog hanswer).
Definition hdo (e : hcall) : hprog (hanswer e) := Effects.call (R := hanswer) e.

(** A call whose failure is the caller's, as [?] does. *)
Definition must (p : hprog bool) : hprog (option ()) :=
  ok ← p; Ret (if ok : bool then Some () else None).

(** Run an effect whose failure is ignored. *)
Definition ignore {A} (p : hprog A) : hprog () := _ ← p; Ret ().

(** [for x in l { f(x)?; }]. *)
Fixpoint try_each {A} (f : A → hprog (option ())) (l : list A) : hprog (option ()) :=
  match l with
  | [] => Ret (Some ())
  | x :: l => _ ←? f x; try_each f l
  end.

(** [output.status.success()], an error if the program could not be run. *)
Definition succeeds (p : hprog (option bool)) : hprog (option ()) :=
  r ← p; Ret (match r : option bool with Some true => Some () | _ => None end).

(** ** The machine *)

Record machine := mkMachine {
  files : gmap string string;
  dirs : gset string;
  (** A running unit and the files when it last read them. *)
  active : gmap string (gmap string string)
}.

Definition set_files (f : gmap string string → gmap string string) (w : machine) : machine :=
  mkMachine (f (files w)) (dirs w) (active w).
Definition set_dirs (f : gset string → gset string) (w : machine) : machine :=
  mkMachine (files w) (f (dirs w)) (active w).
Definition set_active (f : gmap string (gmap string string) → gmap string (gmap string string)) (w : machine)
    : machine :=
  mkMachine (files w) (dirs w) (f (active w)).

(** A path is a directory or lies in it. *)
Definition under (dir path : string) : bool :=
  String.eqb dir path || starts_with (path_join dir EmptyString) path.

Lemma under_join dir name : under dir (path_join dir name) = true.
Proof.
  unfold under. rewrite orb_true_iff. right. unfold path_join. case_match.
  - rewrite str_app_nil_r. apply starts_with_app.
  - rewrite !str_app_assoc, str_app_nil_r. apply starts_with_app.
Qed.

(** What lies in a directory within [d] lies in [d]. *)
Lemma under_sub d name q : under (path_join d name) q = true → under d q = true.
Proof.
  unfold under at 1. rewrite orb_true_iff. intros [<-%String.eqb_eq|E]; [apply under_join|].
  apply starts_with_inv in E as [r ->]. unfold path_join at 1. case_match;
    rewrite ?str_app_nil_r, <- ?str_app_assoc, <- path_join_app; apply under_join.
Qed.

Lemma under_rel d a b : a ≠ EmptyString → ends_with "/" a = false →
  under (path_join d a) (path_join d b) = String.eqb a b || starts_with (a ++ "/") b.
Proof.
  intros Ha He. unfold under. rewrite path_join_eqb, path_join_join by done. f_equal. apply starts_with_join.
Qed.

(** What an entry of a directory may be called. *)
Definition entry_name (name : string) : bool := negb (is_empty name) && negb (str_exists (Ascii.eqb "/") name).

Lemma ends_with_inv c s : ends_with c s = true → ∃ s', s = (s' ++ String c EmptyString)%string.
Proof.
  induction s as [|a s IH]; [done|]. cbn. destruct s as [|b s].
  - intros ->%Ascii.eqb_eq. by exists EmptyString.
  - intros E. destruct (IH E) as [s' ->]. by exists (String a s').
Qed.

(** Two entries of a directory hold nothing in common. *)
Lemma entries_apart d a b rel : entry_name a = true → entry_name b = true → a ≠ b →
  under (path_join d a) (path_join (path_join d b) rel) = false.
Proof.
  unfold entry_name. rewrite !andb_true_iff, !negb_true_iff. intros [Ha Hsa] [Hb Hsb] Hne.
  assert (∀ s, str_exists (Ascii.eqb "/") s = false → ends_with "/" s = false) as Hends.
  { intros s Hs. apply not_true_iff_false. intros [s' ->]%ends_with_inv. revert Hs. clear. induction s' as [|x s' IH]; cbn; [done|].
    intros [_ ?]%orb_false_iff. auto. }
  assert (∀ s, is_empty s = false → s ≠ EmptyString) as Hemp by (by intros [] ?).
  rewrite path_join_join, under_rel by auto. apply orb_false_iff. split.
  - apply String.eqb_neq. intros ->. revert Hsa. clear. induction b as [|x b IH]; cbn; [done|]. intros [_ ?]%orb_false_iff. auto.
  - apply not_true_iff_false. intros [t E]%starts_with_inv. rewrite <- str_app_assoc in E. cbn in E.
    apply (f_equal (split_once "/")) in E. rewrite !split_once_app in E by done. by injection E.
Qed.

(** The machine differs at most under [dir]. *)
Definition changed_under (dir : string) (w w' : machine) : Prop :=
  (∀ p, under dir p = false → files w' !! p = files w !! p ∧ (p ∈ dirs w' ↔ p ∈ dirs w)) ∧ active w' = active w.

(** What systemd makes of the commands used. A unit reads its files when it
    starts and on SIGHUP. *)
Definition loads (units : list string) (w : machine) : machine :=
  set_active (λ a, foldr (λ u a, <[u := files w]> a) a units) w.

Definition starts (units : list string) (w : machine) : machine :=
  set_active (λ a, foldr (λ u a, match a !! u with Some _ => a | None => <[u := files w]> a end) a units) w.

Definition reloads (units : list string) (w : machine) : machine :=
  set_active (λ a, foldr (λ u a, match a !! u with Some _ => <[u := files w]> a | None => a end) a units) w.

Definition stops (units : list string) (w : machine) : machine :=
  set_active (λ a, foldr delete a units) w.

(** The effect of a command that succeeded. *)
Definition systemctl_effect (args : list string) (w : machine) : machine :=
  match after_words ["enable"; "--now"] args, after_words ["disable"; "--now"] args,
        after_words ["restart"] args, after_words ["kill"; "--kill-whom=main"; "--signal=HUP"] args with
  | Some units, _, _, _ => starts units w
  | _, Some units, _, _ => stops units w
  | _, _, Some units, _ => loads units w
  | _, _, _, Some units => reloads units w
  | _, _, _, _ => w
  end.

(** Asking whether a unit is active answers so. *)
Definition systemctl_answers (args : list string) (w : machine) (r : bool) : Prop :=
  match after_words ["is-active"; "--quiet"] args with
  | Some [u] => r = bool_decide (is_Some (active w !! u))
  | _ => True
  end.

(** The data directory a program is told to work on, after [-D]. *)
Fixpoint data_arg (args : list string) : option string :=
  match args with
  | a :: ((d :: _) as rest) => if String.eqb a "-D" then Some d else data_arg rest
  | _ => None
  end.

(** The directory WAL-G fetches a backup to, after its own options. *)
Definition fetch_arg (args : list string) : option string :=
  match args with
  | "--config" :: _ :: command :: d :: _ => if String.eqb command "backup-fetch" then Some d else None
  | _ => None
  end.

(** What a call may answer, and the machine after it. A program may change what
    lies under its data directory; the commands of pg_ctl, which name what to do
    first, keep its PG_VERSION. *)
Definition step (w : machine) (e : hcall) : hanswer e → machine → Prop :=
  match e return hanswer e → machine → Prop with
  | ReadText p => λ r w', r = files w !! p ∧ w' = w
  | TryRead p => λ r w', (r = None ∨ r = Some (files w !! p)) ∧ w' = w
  | PathExists p => λ r w', r = bool_decide (is_Some (files w !! p) ∨ p ∈ dirs w) ∧ w' = w
  | WritePrivate p text => λ r w', w' = if r then set_files <[p := text]> w else w
  | WriteText p text => λ r w', ∃ text', w' = set_files <[p := text']> w ∧ (r = true → text' = text) ∨ w' = w ∧ r = false
  | CreateDirs p => λ r w', w' = if r then set_dirs (λ d, {[p]} ∪ d) w else w
  | RemoveOne p => λ r w', w' = if r then set_files (delete p) w else w
  | Rename p q => λ r w', if r then ∃ t, files w !! p = Some t ∧ w' = set_files (λ f, <[q := t]> (delete p f)) w else w' = w
  | RemoveTree p => λ r w', changed_under p w w' ∧
      if r then ∀ q, under p q = true → files w' !! q = None ∧ q ∉ dirs w' else files w' ⊆ files w ∧ dirs w' ⊆ dirs w
  | ListDirs p => λ r w', w' = w ∧ ∀ l, r = Some l → ∀ id, id ∈ l ↔ path_join p id ∈ dirs w ∧ entry_name id = true
  | RunProgram _ args => λ _ w',
      match data_arg args with
      | Some d => changed_under d w w' ∧
          (head args ≠ Some "-D" → files w' !! path_join d "PG_VERSION" = files w !! path_join d "PG_VERSION" ∧
             (path_join d "PG_VERSION" ∈ dirs w' ↔ path_join d "PG_VERSION" ∈ dirs w))
      | None => w' = w
      end
  | RunOutput _ args => λ _ w', match fetch_arg args with Some d => changed_under d w w' | None => w' = w end
  | Systemctl args => λ r w',
      match r with
      | Some true => w' = systemctl_effect args w ∧ systemctl_answers args w true
      | Some false => files w' = files w ∧ dirs w' = dirs w ∧ systemctl_answers args w false ∧
          (after_words ["is-active"; "--quiet"] args ≠ None → w' = w)
      | None => w' = w
      end
  | _ => λ _ w', w' = w
  end.

(** A call may change the file [q]. *)
Definition touches (e : hcall) (q : string) : bool :=
  match e with
  | WritePrivate p _ | WriteText p _ | RemoveOne p => String.eqb p q
  | Rename p p' => String.eqb p q || String.eqb p' q
  | RemoveTree p => under p q
  | RunProgram _ args =>
      match data_arg args with
      | Some d => under d q && (bool_decide (head args = Some "-D") || negb (String.eqb (path_join d "PG_VERSION") q))
      | None => false
      end
  | RunOutput _ args => match fetch_arg args with Some d => under d q | None => false end
  | _ => false
  end.

Lemma untouched w e r w' q :
  step w e r w' → touches e q = false → files w' !! q = files w !! q ∧ (q ∈ dirs w → q ∈ dirs w').
Proof.
  destruct e; cbn; try (by intros ->); try (by intros [_ ->]); try (by intros [-> _]).
  - destruct r; intros ->; [|done]. intros Hq%String.eqb_neq. split; [by apply lookup_insert_ne|done].
  - intros (t & [[-> _]|[-> _]]); [|done]. intros Hq%String.eqb_neq. split; [by apply lookup_insert_ne|done].
  - destruct r; intros ->; [|done]. split; [done|]. cbn. set_solver.
  - destruct r; intros ->; [|done]. intros Hq%String.eqb_neq. split; [by apply lookup_delete_ne|done].
  - destruct r; [|by intros ->]. intros (t & _ & ->) [H1%String.eqb_neq H2%String.eqb_neq]%orb_false_iff. cbn.
    by rewrite lookup_insert_ne, lookup_delete_ne.
  - intros [[Hc _] _] Hq. destruct (Hc q Hq) as [-> ->]. done.
  - destruct (data_arg args) as [d|]; [|by intros ->]. intros [[Hc _] Hv].
    rewrite andb_false_iff, orb_false_iff, bool_decide_eq_false, negb_false_iff.
    intros [Hq|[Hh <-%String.eqb_eq]]; [destruct (Hc q Hq) as [-> ->]|destruct (Hv Hh) as [-> ->]]; done.
  - destruct (fetch_arg args) as [d|]; [|by intros ->]. intros [Hc _] Hq. destruct (Hc q Hq) as [-> ->]. done.
  - destruct r as [[]|]; [intros [-> _] _|by intros (-> & -> & _)|by intros ->].
    unfold systemctl_effect. by repeat case_match.
Qed.

(** Only systemd changes what runs. *)
Lemma same_active w e r w' : step w e r w' → (∀ args, e ≠ Systemctl args) → active w' = active w.
Proof.
  destruct e; cbn; intros Hs He; try (by subst); try (by destruct Hs; subst);
    try (by destruct r; subst); try (by destruct Hs as [[_ ?] _]).
  - by destruct Hs as (t & [[-> _]|[-> _]]).
  - destruct r; [|by subst]. by destruct Hs as (t & _ & ->).
  - destruct (data_arg args); [by destruct Hs as [[_ ?] _]|by subst].
  - destruct (fetch_arg args); [by destruct Hs as [_ ?]|by subst].
  - by destruct (He args).
Qed.

(** Something is at [q]. *)
Definition present (w : machine) (q : string) : Prop := is_Some (files w !! q) ∨ q ∈ dirs w.

(** ** Reasoning along runs *)

Abbreviation safe := (safe_on step).
Abbreviation reached := (reached_on step).
Abbreviation ends := (ends_on step).
Abbreviation anything := (λ _ : machine, True).
Abbreviation any_call := (λ _ : hcall, True).

Lemma answers e : inhabited (hanswer e).
Proof. destruct e; cbn; constructor; exact inhabitant. Qed.

Lemma safe_do {B} I (P : hcall → Prop) e (f : hanswer e → hprog B) Q w :
  I w → P e → (∀ r w', step w e r w' → safe I P (f r) Q w') → safe I P (hdo e ≫= f) Q w.
Proof. apply safe_call. Qed.

Lemma safe_only {A} (I : machine → Prop) (P : hcall → Prop) (p : hprog A) w :
  only (λ o, P (obs_ev o)) p → (∀ w e r w', P e → I w → step w e r w' → I w') → I w →
  safe I P p (λ _ _, True) w.
Proof. apply safe_only_on, answers. Qed.

(** The calls that leave the files in [S] and what runs alone. *)
Definition spares (S : string → Prop) (e : hcall) : Prop :=
  (∀ q, S q → touches e q = false) ∧ ∀ args, e ≠ Systemctl args.

(** The files in [S] are as they were, and so is what runs. *)
Definition agree (S : string → Prop) (w w' : machine) : Prop :=
  (∀ q, S q → files w' !! q = files w !! q ∧ (q ∈ dirs w → q ∈ dirs w')) ∧ active w' = active w.

Lemma agree_refl S w : agree S w w.
Proof. done. Qed.

Lemma agree_trans S w1 w2 w3 : agree S w1 w2 → agree S w2 w3 → agree S w1 w3.
Proof.
  intros [H1 E1] [H2 E2]. split; [|congruence]. intros q Hq.
  destruct (H1 q Hq) as [<- ?], (H2 q Hq) as [<- ?]. auto.
Qed.

Lemma spares_step S w e r w' : spares S e → step w e r w' → agree S w w'.
Proof. intros [Ht Ha] Hs. split; [|by eapply same_active]. intros q Hq. eapply untouched; [done|auto]. Qed.

Lemma safe_spares {A} S (p : hprog A) w :
  only (λ o, spares S (obs_ev o)) p → safe (agree S w) (spares S) p (λ _ _, True) w.
Proof.
  intros Hp. apply safe_only; [done| |apply agree_refl].
  intros w1 e r w2 He H1 Hs. eapply agree_trans; [exact H1|]. by eapply spares_step.
Qed.

Lemma only_try {A B} P (p : hprog (option A)) (f : A → hprog (option B)) :
  only P p → (∀ a, only P (f a)) → only P (try_bind p f).
Proof. intros Hp Hf. apply only_bind; [done|]. by intros [a|]. Qed.

Lemma only_try_each {A} P (f : A → hprog (option ())) l : (∀ x, only P (f x)) → only P (try_each f l).
Proof. intros Hf. induction l as [|x l IH]; cbn; [done|]. apply only_try; auto. Qed.

Lemma only_hdo P e : (∀ r, P (Obs e r)) → only P (hdo e).
Proof. intros HP r. by split. Qed.

Lemma only_must P (p : hprog bool) : only P p → only P (must p).
Proof. intros Hp. apply only_bind; [done|]. by intros []. Qed.

(** ** fsutil.rs *)

(** The single calls of a private write, on files whose contents may not have
    reached the disk. *)
Inductive fcall :=
| FRemove (path : string)
| FCreateNew (path : string) (mode : Z)
| FWriteAll (path text : string)
| FSyncAll (path : string)
| FRename (old new : string).

Definition fanswer (e : fcall) : Type := match e with FRemove _ => () | _ => bool end.

Abbreviation fprog := (prog fanswer).
Definition fdo (e : fcall) : fprog (fanswer e) := Effects.call (R := fanswer) e.

(** [Path::with_extension("tmp")]: the extension begins at the last dot of the
    file's name, unless that is its first character. *)
Definition with_tmp (path : string) : string :=
  let '(dir, name) := match rsplit_once "/" path with Some (d, n) => ((d ++ "/")%string, n) | None => (EmptyString, path) end in
  let stem := match rsplit_once "." name with Some (s, _) => if is_empty s then name else s | None => name end in
  (dir ++ stem ++ ".tmp")%string.

(** The temporary file lies beside the file. *)
Lemma with_tmp_join d name stem ext :
  rsplit_once "." name = Some (stem, ext) → is_empty stem = false → str_exists (Ascii.eqb "/") name = false →
  with_tmp (path_join d name) = path_join d (stem ++ ".tmp").
Proof.
  intros Hn Hs Hslash. unfold with_tmp, path_join. destruct (is_empty d) eqn:Ed; cbn [orb].
  { destruct d; [|done]. cbn [String.append]. by rewrite rsplit_once_None, Hn, Hs. }
  destruct (ends_with "/" d) eqn:Es.
  - destruct (ends_with_inv _ _ Es) as [d' ->]. rewrite <- !str_app_assoc. cbn [String.append].
    by rewrite rsplit_once_app, Hn, Hs by done; rewrite <- str_app_assoc.
  - cbn [String.append]. by rewrite rsplit_once_app, Hn, Hs by done; rewrite <- str_app_assoc.
Qed.

(** 0o600. *)
Definition OWNER_ONLY : Z := 384.

Definition write_private (path contents : string) : fprog bool :=
  let tmp := with_tmp path in
  _ ← fdo (FRemove tmp);
  created ← fdo (FCreateNew tmp OWNER_ONLY);
  if negb created then Ret false else
  written ← fdo (FWriteAll tmp contents);
  if negb written then Ret false else
  synced ← fdo (FSyncAll tmp);
  if negb synced then Ret false else
  fdo (FRename tmp path).

(** A file's text as programs see it, and whether all of it is on disk. *)
Record entry := mkEntry { e_text : string; e_synced : bool; e_mode : Z }.

(** What a call may do: a write that failed may have written a part. *)
Definition fstep (s : gmap string entry) (e : fcall) : fanswer e → gmap string entry → Prop :=
  match e return fanswer e → gmap string entry → Prop with
  | FRemove p => λ _ s', s' = delete p s ∨ s' = s
  | FCreateNew p mode => λ r s', if r then s !! p = None ∧ s' = <[p := mkEntry EmptyString false mode]> s else s' = s
  | FWriteAll p text => λ r s', ∃ old, s !! p = Some old ∧
      if r then s' = <[p := mkEntry (e_text old ++ text) false (e_mode old)]> s
      else ∃ part, s' = <[p := mkEntry part false (e_mode old)]> s
  | FSyncAll p => λ r s', if r then s' = alter (λ x, mkEntry (e_text x) true (e_mode x)) p s else s' = s
  | FRename old new => λ r s', if r then ∃ x, s !! old = Some x ∧ s' = <[new := x]> (delete old s) else s' = s
  end.

(** After a crash a file not on disk holds anything. *)
Definition after_crash (s s' : gmap string entry) : Prop :=
  ∀ p, match s !! p with
       | Some x => if e_synced x then s' !! p = Some x else True
       | None => s' !! p = None
       end.

Abbreviation fsafe I := (safe_on fstep I (λ _, True)).

Lemma fsafe_do {B} I e (f : fanswer e → fprog B) Q s :
  I s → (∀ r s', fstep s e r s' → fsafe I (f r) Q s') → fsafe I (fdo e ≫= f) Q s.
Proof. intros. by apply safe_call. Qed.

Section atomic.
Context (path text : string) (s : gmap string entry).
Let tmp : string := with_tmp path.
Hypothesis tmp_apart : path ≠ tmp.
Hypothesis old_synced : ∀ x, s !! path = Some x → e_synced x = true.

(** What holds wherever a private write is cut short. *)
Definition write_inv (s' : gmap string entry) : Prop :=
  (∀ s'', after_crash s' s'' → s'' !! path = s !! path ∨ s'' !! path = Some (mkEntry text true OWNER_ONLY)) ∧
  (∀ q, q ≠ path → q ≠ tmp → s' !! q = s !! q) ∧
  (∀ q x, s' !! q = Some x → s !! q = Some x ∨ e_mode x = OWNER_ONLY).

(** Until the rename only the temporary file differs. *)
Definition only_tmp (s' : gmap string entry) : Prop :=
  (∀ q, q ≠ tmp → s' !! q = s !! q) ∧ (∀ x, s' !! tmp = Some x → s !! tmp = Some x ∨ e_mode x = OWNER_ONLY).

Lemma only_tmp_inv s' : only_tmp s' → write_inv s'.
Proof.
  intros [Hq Ht]. split; [|split].
  - intros s'' Hc. left. specialize (Hc path). rewrite Hq in Hc by done.
    destruct (s !! path) as [x|] eqn:E; [|done]. by rewrite (old_synced x) in Hc.
  - auto.
  - intros q x Hx. destruct (decide (q = tmp)) as [->|]; [auto|]. left. by rewrite <- Hq.
Qed.

Lemma only_tmp_insert s' x : only_tmp s' → e_mode x = OWNER_ONLY → only_tmp (<[tmp := x]> s').
Proof.
  intros [Hq _] Hx. split; [intros q Hne; rewrite lookup_insert_ne by done; auto|].
  rewrite lookup_insert_eq. intros ? [= <-]. by right.
Qed.

Lemma only_tmp_delete s' : only_tmp s' → only_tmp (delete tmp s').
Proof.
  intros [Hq _]. split; [intros q Hne; rewrite lookup_delete_ne by done; auto|]. by rewrite lookup_delete_eq.
Qed.

(** The calls up to the rename, and the rename. *)
Lemma rename_safe s' :
  only_tmp s' → s' !! tmp = Some (mkEntry text true OWNER_ONLY) →
  fsafe write_inv (fdo (FRename tmp path))
    (λ r s', s' !! path = if r : bool then Some (mkEntry text true OWNER_ONLY) else s !! path) s'.
Proof.
  intros Ho Ht. split; [by apply only_tmp_inv|]. split; [done|]. intros [] s1; cbn.
  - intros (x & Hx & ->). rewrite Ht in Hx. injection Hx as <-. destruct Ho as [Hq _].
    assert ((<[path := mkEntry text true OWNER_ONLY]> (delete tmp s')) !! path = Some (mkEntry text true OWNER_ONLY))
      as Hp by apply lookup_insert_eq.
    split; [|done]. split; [|split].
    + intros s'' Hc. right. specialize (Hc path). by rewrite Hp in Hc.
    + intros q Hqp Hqt. rewrite lookup_insert_ne, lookup_delete_ne by done. auto.
    + intros q x. destruct (decide (q = path)) as [->|Hqp]; [rewrite Hp; intros [= <-]; by right|].
      rewrite lookup_insert_ne by done. destruct (decide (q = tmp)) as [->|Hqt]; [by rewrite lookup_delete_eq|].
      rewrite lookup_delete_ne by done. rewrite Hq by done. by left.
  - intros ->. split; [by apply only_tmp_inv|]. by apply Ho.
Qed.

Lemma failed_safe s' : only_tmp s' →
  fsafe write_inv (Ret false) (λ r s', s' !! path = if r : bool then Some (mkEntry text true OWNER_ONLY) else s !! path) s'.
Proof. intros Ho. split; [by apply only_tmp_inv|]. by apply Ho. Qed.

(** C27 A private write, cut short anywhere by an error or by a crash, leaves the
    old file or the new one, whole; it touches no other file but its temporary
    one; and whatever it creates only the owner may read, from its first byte. *)
Theorem write_private_atomic :
  fsafe write_inv (write_private path text)
    (λ r s', s' !! path = if r : bool then Some (mkEntry text true OWNER_ONLY) else s !! path) s.
Proof.
  assert (only_tmp s) as Ho by (split; auto). unfold write_private. fold tmp. cbv zeta.
  apply fsafe_do; [by apply only_tmp_inv|]. intros [] s1 Hs1.
  assert (only_tmp s1) as Ho1 by (destruct Hs1 as [-> | ->]; [by apply only_tmp_delete|done]). clear Hs1 Ho.
  apply fsafe_do; [by apply only_tmp_inv|]. intros [] s2; cbn [fstep negb]; [|intros ->; by apply failed_safe].
  intros [_ ->]. assert (only_tmp (<[tmp := mkEntry EmptyString false OWNER_ONLY]> s1)) as Ho2
    by (by apply only_tmp_insert).
  apply fsafe_do; [by apply only_tmp_inv|]. intros r s3 (old & Hold & Hs3).
  rewrite lookup_insert_eq in Hold. injection Hold as <-. destruct r; cbn [negb e_text e_mode String.append] in *.
  2: { destruct Hs3 as [part ->]. by apply failed_safe, only_tmp_insert. }
  subst s3. rewrite insert_insert_eq. assert (only_tmp (<[tmp := mkEntry text false OWNER_ONLY]> s1)) as Ho3
    by (by apply only_tmp_insert).
  apply fsafe_do; [by apply only_tmp_inv|]. intros [] s4; cbn [fstep negb]; intros ->; [|by apply failed_safe].
  apply rename_safe; [|by rewrite lookup_alter_eq, lookup_insert_eq].
  rewrite alter_insert_eq. by apply only_tmp_insert.
Qed.
End atomic.

Lemma write_private_atomic_witness :
  fsafe (write_inv "/state/host_id" "h1" ∅) (write_private "/state/host_id" "h1")
    (λ r s', s' !! "/state/host_id" = if r : bool then Some (mkEntry "h1" true OWNER_ONLY) else (∅ : gmap string entry) !! "/state/host_id") ∅.
Proof. apply (write_private_atomic "/state/host_id" "h1" ∅); [done|]. intros x. by rewrite lookup_empty. Defined.
