(* ===== verification/HostRunner.v ===== *)
(** Starting and stopping an instance's processes:
    src/vk-agent/src/host/runner.rs.

    [Runner] is the trait, a record of programs over the host's calls, with the
    two implementations: units of systemd, and detached processes with pid
    files. [RunnerLaws] is what InstanceManager relies on, stated on the machine
    of HostCalls; [systemd_laws] discharges it for systemd.

    - [install_idempotent]: after an install that succeeded, another one only
      reads, and changes nothing.
    - [plain_signals_own]: a process gets a signal only if its arguments named
      this instance's configuration and it was no zombie. *)
From S2P Require Import Prelude Effects Admission Placement Metadata Requests Standby HostModel Firewall HostRender HostCalls.

Local Open Scope Z_scope.

(** ** Processes of an instance *)

Section processes.
Context `{!F64, !F64Cast}.

Record Processes := mkProcesses {
  p_id : string;
  p_layout : Layout;
  p_vk_agent : string;
  p_pgcluster : string;
  p_pg_ctl : string;
  p_user : option string;
  p_resources : option Resources;
  p_proxy : bool
}.

Definition agent_unit_name (id : string) : string := ("vk-instance-" ++ id ++ "-agent.service")%string.
Definition proxy_unit_name (id : string) : string := ("vk-instance-" ++ id ++ "-pgcluster.service")%string.
Definition slice_name (id : string) : string := ("vk-instance-" ++ id ++ ".slice")%string.

(** The units this instance runs, the agent first. *)
Definition units (p : Processes) : list string :=
  agent_unit_name (p_id p) :: if p_proxy p then [proxy_unit_name (p_id p)] else [].

(** ** Limits *)

Record Limits := mkLimits { cpu_quota_percent : Z; memory_max_bytes : Z; io_weight : Z }.

Definition limits_of (r : Resources) : Limits :=
  let percent := f_round (f_mul (vcpu r) (f_lit "100.0")) in
  mkLimits (f_to_u64 (f_max percent (f_lit "1.0")))
    (f_to_u64 (f_mul (f_mul (f_mul (memory_gb r) (f_lit "1024.0")) (f_lit "1024.0")) (f_lit "1024.0")))
    (f_to_u64 (f_clamp percent (f_lit "1.0") (f_lit "10000.0"))).

Definition limit_properties (l : Limits) : list string :=
  ["CPUQuota=" ++ format_dec (cpu_quota_percent l) ++ "%"; "MemoryMax=" ++ format_dec (memory_max_bytes l);
   "IOWeight=" ++ format_dec (io_weight l)]%string.

(** ** Unit files *)

Definition text_lines (l : list string) : string := String.concat EmptyString ((λ s, s ++ NL)%string <$> l).

Definition slice_unit (id : string) (l : Limits) : string :=
  text_lines (["[Unit]"; "Description=Resource limits for " ++ id; EmptyString; "[Slice]"; "CPUAccounting=yes";
    "MemoryAccounting=yes"; "IOAccounting=yes"]%string ++ limit_properties l).

Definition user_line (p : Processes) : list string :=
  match p_user p with Some user => ["User=" ++ user]%string | None => [] end.

Definition agent_unit (p : Processes) : string :=
  text_lines (["[Unit]"; "Description=vk-agent and Postgres for " ++ p_id p; "After=network-online.target";
    EmptyString; "[Service]"; "Type=simple"; "Slice=" ++ slice_name (p_id p)]%string ++ user_line p ++
   ["ExecStart=" ++ p_vk_agent p ++ " " ++ l_agent_config (p_layout p); "Restart=always"; "RestartSec=2";
    "KillMode=control-group"; "KillSignal=SIGINT"; "TimeoutStopSec=90"; "LimitNOFILE=65536"; EmptyString;
    "[Install]"; "WantedBy=multi-user.target"]%string).

Definition proxy_unit (p : Processes) : string :=
  text_lines (["[Unit]"; "Description=pgcluster for " ++ p_id p;
    "After=network-online.target " ++ agent_unit_name (p_id p); EmptyString; "[Service]"; "Type=simple";
    "Slice=" ++ slice_name (p_id p)]%string ++ user_line p ++
   ["EnvironmentFile=" ++ l_env_file (p_layout p);
    "ExecStart=" ++ p_pgcluster p ++ " server --config " ++ l_pgcluster_config (p_layout p); "Restart=always";
    "RestartSec=2"; "LimitNOFILE=65536"; EmptyString; "[Install]"; "WantedBy=multi-user.target"]%string).

(** ** The trait *)

Record Runner := mkRunner {
  r_install : Processes → hprog (option ());
  r_start : Processes → hprog (option ());
  r_stop : Processes → hprog (option ());
  r_restart : Processes → hprog (option ());
  r_reload_proxy : Processes → hprog (option ());
  r_reload_certificates : Processes → hprog (option ());
  r_is_running : Processes → hprog (option bool);
  r_remove : Processes → hprog (option ())
}.

(** ** systemd *)

Definition systemctl (args : list string) : hprog (option ()) := succeeds (hdo (Systemctl args)).

Section systemd.
Context (unit_dir : string).

(** Write a unit file that differs; whether one did. *)
Definition install_unit (path text : string) : hprog (option bool) :=
  current ← hdo (ReadText path);
  if bool_decide (current = Some text) then Ret (Some false)
  else ok ← hdo (WriteText path text); Ret (if ok : bool then Some true else None).

Fixpoint install_units (changed : bool) (l : list (string * string)) : hprog (option bool) :=
  match l with
  | [] => Ret (Some changed)
  | (path, text) :: l => wrote ←? install_unit path text; install_units (changed || wrote) l
  end.

Definition unit_files (p : Processes) : list (string * string) :=
  [(path_join unit_dir (agent_unit_name (p_id p)), agent_unit p);
   (path_join unit_dir (proxy_unit_name (p_id p)), proxy_unit p)] ++
  match p_resources p with
  | Some r => [(path_join unit_dir (slice_name (p_id p)), slice_unit (p_id p) (limits_of r))]
  | None => []
  end.

Definition systemd_install (p : Processes) : hprog (option ()) :=
  changed ←? install_units false (unit_files p);
  if changed : bool then
    _ ←? systemctl ["daemon-reload"];
    match p_resources p with
    | Some r =>
        systemctl (["set-property"; "--runtime"; slice_name (p_id p)] ++ limit_properties (limits_of r))
    | None => Ret (Some ())
    end
  else Ret (Some ()).

Definition systemd_start (p : Processes) : hprog (option ()) :=
  systemctl (["enable"; "--now"] ++ units p).

Definition systemd_stop (p : Processes) : hprog (option ()) :=
  systemctl ["disable"; "--now"; proxy_unit_name (p_id p); agent_unit_name (p_id p)].

Definition systemd_restart (p : Processes) : hprog (option ()) :=
  try_each (λ u, systemctl ["restart"; u]) (units p).

Definition systemd_reload_proxy (p : Processes) : hprog (option ()) :=
  systemctl ["kill"; "--kill-whom=main"; "--signal=HUP"; proxy_unit_name (p_id p)].

Definition systemd_reload_certificates (p : Processes) : hprog (option ()) :=
  systemctl (["kill"; "--kill-whom=main"; "--signal=HUP"] ++ units p).

Fixpoint all_active (l : list string) : hprog (option bool) :=
  match l with
  | [] => Ret (Some true)
  | u :: l =>
      r ← hdo (Systemctl ["is-active"; "--quiet"; u]);
      match r : option bool with
      | None => Ret None
      | Some false => Ret (Some false)
      | Some true => all_active l
      end
  end.

Definition systemd_is_running (p : Processes) : hprog (option bool) := all_active (units p).

Definition systemd_remove (p : Processes) : hprog (option ()) :=
  _ ← systemd_stop p;
  _ ←? try_each (λ name,
         let path := path_join unit_dir name in
         there ← hdo (PathExists path);
         if there : bool then must (hdo (RemoveOne path)) else Ret (Some ()))
       [agent_unit_name (p_id p); proxy_unit_name (p_id p); slice_name (p_id p)];
  systemctl ["daemon-reload"].

Definition Systemd : Runner :=
  mkRunner systemd_install systemd_start systemd_stop systemd_restart systemd_reload_proxy
    systemd_reload_certificates systemd_is_running systemd_remove.
End systemd.

(** ** Plain processes *)

Definition pid_path (l : Layout) (name : string) : string := path_join (l_dir l) (name ++ ".pid").

Definition NUL : ascii := "000".

(** Whether a process runs [config] and is no zombie, from what /proc says. *)
Definition runs_config (cmdline stat config : string) : bool :=
  existsb (λ arg, String.eqb arg config) (split NUL cmdline) &&
  negb match rsplit_once ")" stat with Some (_, rest) => starts_with "Z" (trim_start 0 rest) | None => false end.

(** The number as [Display] prints an [i32]. *)
Definition show_i32 (pid : Z) : string :=
  if pid <? 0 then String "-" (format_dec (- pid)) else format_dec pid.

(** The pid in a file, if that process is alive and still runs [config]. *)
Definition live_pid (file config : string) : hprog (option Z) :=
  text ←? hdo (ReadText file);
  match parse_i32 (trim text) with
  | None => Ret None
  | Some pid =>
      cmdline ←? hdo (ReadText ("/proc/" ++ show_i32 pid ++ "/cmdline")%string);
      stat ←? hdo (ReadText ("/proc/" ++ show_i32 pid ++ "/stat")%string);
      Ret (if runs_config cmdline stat config then Some pid else None)
  end.

Definition spawn_detached (p : Processes) (name program : string) (args : list string) (config : string)
    (env : list (string * string)) : hprog (option ()) :=
  let pid_file := pid_path (p_layout p) name in
  live ← live_pid pid_file config;
  match live : option Z with
  | Some _ => Ret (Some ())
  | None =>
      pid ←? hdo (Spawn program args env (path_join (l_logs (p_layout p)) (name ++ ".log")));
      must (hdo (WriteText pid_file (show_i32 pid)))
  end.

Definition STOP_TIMEOUT_MS : Z := 30000.
Definition STOP_POLL_MS : Z := 100.

(** Wait for a process to go, and kill it in the end. *)
Fixpoint wait_gone (fuel : nat) (deadline pid : Z) (pid_file config : string) : hprog (option ()) :=
  match fuel with
  | O => Ret None
  | S fuel =>
      live ← live_pid pid_file config;
      match live : option Z with
      | None => Ret (Some ())
      | Some _ =>
          now ← hdo NowMs;
          if deadline <=? now then _ ← hdo (Kill pid "SIGKILL"); Ret (Some ())
          else _ ← hdo (SleepMs STOP_POLL_MS); wait_gone fuel deadline pid pid_file config
      end
  end.

Definition signal_and_wait (fuel : nat) (pid_file config signal : string) : hprog (option ()) :=
  live ← live_pid pid_file config;
  match live : option Z with
  | None => Ret (Some ())
  | Some pid =>
      _ ←? must (hdo (Kill pid signal));
      now ← hdo NowMs;
      wait_gone fuel (now + STOP_TIMEOUT_MS) pid pid_file config
  end.

Definition plain_start (p : Processes) : hprog (option ()) :=
  let l := p_layout p in
  _ ←? spawn_detached p "vk-agent" (p_vk_agent p) [l_agent_config l] (l_agent_config l) [];
  if p_proxy p then
    text ←? hdo (ReadText (l_env_file l));
    spawn_detached p "pgcluster" (p_pgcluster p) ["server"; "--config"; l_pgcluster_config l]
      (l_pgcluster_config l) (read_env_file text)
  else Ret (Some ()).

Definition plain_stop (fuel : nat) (p : Processes) : hprog (option ()) :=
  let l := p_layout p in
  _ ←? signal_and_wait fuel (pid_path l "pgcluster") (l_pgcluster_config l) "SIGTERM";
  _ ←? signal_and_wait fuel (pid_path l "vk-agent") (l_agent_config l) "SIGTERM";
  there ← hdo (PathExists (path_join (l_data l) "postmaster.pid"));
  if there : bool then
    r ← hdo (RunProgram (p_pg_ctl p) ["stop"; "-w"; "-m"; "fast"; "-D"; l_data l]);
    Ret (match r : option bool with Some _ => Some () | None => None end)
  else Ret (Some ()).

Definition plain_restart (fuel : nat) (p : Processes) : hprog (option ()) :=
  _ ←? plain_stop fuel p; plain_start p.

(** Send SIGHUP to a process that has to be there. *)
Definition hang_up (pid_file config : string) : hprog (option ()) :=
  pid ←? live_pid pid_file config; must (hdo (Kill pid "SIGHUP")).

Definition plain_reload_proxy (p : Processes) : hprog (option ()) :=
  let l := p_layout p in
  if p_proxy p then hang_up (pid_path l "pgcluster") (l_pgcluster_config l) else Ret (Some ()).

Definition plain_reload_certificates (p : Processes) : hprog (option ()) :=
  let l := p_layout p in
  _ ←? hang_up (pid_path l "vk-agent") (l_agent_config l); plain_reload_proxy p.

Definition plain_is_running (p : Processes) : hprog (option bool) :=
  let l := p_layout p in
  agent ← live_pid (pid_path l "vk-agent") (l_agent_config l);
  proxy ← live_pid (pid_path l "pgcluster") (l_pgcluster_config l);
  Ret (Some (bool_decide (is_Some (agent : option Z)) &&
             (bool_decide (is_Some (proxy : option Z)) || negb (p_proxy p)))).

Definition Plain (fuel : nat) : Runner :=
  mkRunner (λ _, Ret (Some ())) plain_start (plain_stop fuel) (plain_restart fuel) plain_reload_proxy
    plain_reload_certificates plain_is_running (plain_stop fuel).

(** [build]. *)
Definition build_runner (fuel : nat) (c : HostConfig) : Runner :=
  match runner c with SystemdRunner => Systemd (systemd_unit_dir c) | PlainRunner => Plain fuel end.

(** ** What InstanceManager relies on *)

(** Files outside [dir] and the directories are as they were. *)
Definition kept (dir : string) (w w' : machine) : Prop :=
  (∀ q, under dir q = false → files w' !! q = files w !! q) ∧ dirs w' = dirs w.

(** What a runner may call: it reads, writes its own files in [dir], and talks
    to systemd. *)
Definition runner_call (dir : string) (e : hcall) : Prop :=
  match e with
  | ReadText _ | PathExists _ | Systemctl _ => True
  | WriteText q _ | RemoveOne q => under dir q = true
  | _ => False
  end.

Definition runs_within {A} (dir : string) (p : hprog A) (Q : A → machine → machine → Prop) : Prop :=
  ∀ w, safe (kept dir w) (runner_call dir) p (λ a w', Q a w w') w.

(** A runner that keeps its files in [dir]. What a failed call leaves running is
    not known. *)
Class RunnerLaws (dir : string) (r : Runner) : Prop := {
  law_install p : runs_within dir (r_install r p) (λ o w w', o = Some () → active w' = active w);
  law_start p : runs_within dir (r_start r p) (λ o w w', o = Some () →
    ∀ u, u ∈ units p → active w' !! u = Some (default (files w) (active w !! u)));
  law_restart p : runs_within dir (r_restart r p) (λ o w w', o = Some () →
    ∀ u, u ∈ units p → active w' !! u = Some (files w));
  law_reload_proxy p : runs_within dir (r_reload_proxy r p) (λ o w w', o = Some () →
    (∀ u, u ≠ proxy_unit_name (p_id p) → active w' !! u = active w !! u) ∧
    active w' !! proxy_unit_name (p_id p) = (λ _, files w) <$> active w !! proxy_unit_name (p_id p));
  law_reload_certificates p : runs_within dir (r_reload_certificates r p) (λ o w w', o = Some () →
    ∀ u, u ∈ units p → active w' !! u = (λ _, files w) <$> active w !! u);
  law_is_running p : runs_within dir (r_is_running r p) (λ o w w', w' = w ∧
    ∀ b, o = Some b → b = true ↔ ∀ u, u ∈ units p → is_Some (active w !! u));
  law_stop p : runs_within dir (r_stop r p) (λ o w w', o = Some () → ∀ u, u ∈ units p → active w' !! u = None);
  law_remove p : runs_within dir (r_remove r p) (λ _ _ _, True)
}.

Lemma kept_refl dir w : kept dir w w.
Proof. done. Qed.

Lemma kept_trans dir w1 w2 w3 : kept dir w1 w2 → kept dir w2 w3 → kept dir w1 w3.
Proof. intros [Hf Hd] [Hf' Hd']. split; [|congruence]. intros q Hq. rewrite Hf', Hf; done. Qed.

(** Each step of a runner keeps what the runner has to. *)
Lemma runner_step_kept dir w e r w' : runner_call dir e → step w e r w' → kept dir w w'.
Proof.
  destruct e; cbn; try done.
  - by intros _ [_ ->].
  - by intros _ [_ ->].
  - intros Hu (text' & [[-> _]|[-> _]]); [|done]. split; [|done]. intros q Hq. cbn.
    apply lookup_insert_ne. intros ->. by rewrite Hu in Hq.
  - intros Hu ->. destruct r; [|done]. split; [|done]. intros q Hq. cbn. apply lookup_delete_ne.
    intros ->. by rewrite Hu in Hq.
  - intros _. destruct r as [[]|].
    + intros [-> _]. unfold systemctl_effect. by repeat case_match.
    + intros (Hf & Hd & _). split; [by intros; rewrite Hf|done].
    + by intros ->.
Qed.

(** A program that makes only a runner's calls runs within [dir]. *)
Lemma calls_within {A} dir (p : hprog A) w0 w (Q : A → machine → Prop) :
  only (λ o, runner_call dir (obs_ev o)) p → kept dir w0 w → safe anything any_call p Q w →
  safe (kept dir w0) (runner_call dir) p Q w.
Proof.
  revert w. induction p as [a|e k IH]; cbn; intros w Hp Hw [_ Hs]; (split; [done|]); [done|].
  destruct Hs as [_ Hs]. assert (runner_call dir e) as He by (destruct (answers e) as [r]; by destruct (Hp r)).
  split; [done|]. intros r w' Hst. apply IH; [by destruct (Hp r)| |auto].
  eapply kept_trans; [exact Hw|]. by eapply runner_step_kept.
Qed.

Lemma runs_within_intro {A} dir (p : hprog A) Q :
  only (λ o, runner_call dir (obs_ev o)) p → (∀ w, safe anything any_call p (λ a w', Q a w w') w) →
  runs_within dir p Q.
Proof. intros Hp Hs w. by apply calls_within. Qed.

(** ** systemd keeps the laws *)

Section systemd_laws.
Context (dir : string).
Abbreviation within := (only (λ o, runner_call dir (obs_ev o))).

Lemma systemctl_within args : within (systemctl args).
Proof. done. Qed.

Lemma install_units_within changed l :
  Forall (λ x, under dir x.1 = true) l → within (install_units changed l).
Proof.
  intros Hl. revert changed. induction Hl as [|[path text] l Hp _ IH]; intros changed; [done|].
  cbn [install_units]. apply only_try; [|intros; apply IH]. intros r. split; [done|]. cbn.
  case_bool_decide; [done|]. by intros ok.
Qed.

Lemma unit_files_under p : Forall (λ x, under dir x.1 = true) (unit_files dir p).
Proof.
  unfold unit_files. repeat (apply Forall_cons; split; [apply under_join|]). destruct (p_resources p); [|done].
  apply Forall_cons; split; [apply under_join|done].
Qed.

Lemma systemd_install_within p : within (systemd_install dir p).
Proof.
  apply only_try; [apply install_units_within, unit_files_under|]. intros []; [|done].
  apply only_try; [done|]. intros _. by destruct (p_resources p).
Qed.

Lemma all_active_within l : within (all_active l).
Proof. induction l as [|u l IH]; cbn; [done|]. intros [[]|]; by split. Qed.

Lemma systemd_remove_within p : within (systemd_remove dir p).
Proof.
  apply only_bind; [done|]. intros _. apply only_try; [|done]. apply only_try_each. intros name.
  intros []; (split; [done|]); [|done]. intros r. split; [apply under_join|done].
Qed.

Abbreviation after := (safe anything any_call).

(** A command that succeeded had its effect. *)
Lemma systemctl_after args (Q : option () → machine → Prop) w :
  Q (Some ()) (systemctl_effect args w) → (∀ w', Q None w') → after (systemctl args) Q w.
Proof.
  intros Hs Hn. split; [done|]. split; [done|]. intros [[]|] w' Hst; cbn in *; (split; [done|]); [|done|done].
  by destruct Hst as [-> _].
Qed.

Lemma install_unit_after path text w :
  after (install_unit path text) (λ o w', is_Some o → active w' = active w) w.
Proof.
  split; [done|]. split; [done|]. intros r w' [-> ->]. cbn -[step]. case_bool_decide; [done|].
  split; [done|]. split; [done|]. intros ok w' (t & [[-> _]|[-> _]]); by split.
Qed.

Lemma install_units_after changed l w :
  after (install_units changed l) (λ o w', is_Some o → active w' = active w) w.
Proof.
  revert changed w. induction l as [|[path text] l IH]; intros changed w; [done|].
  cbn [install_units]. eapply safe_try; [eapply safe_mono; [apply install_unit_after|]|].
  - intros [b|] w' _ Hw; [|by intros [? ?]]. exact (Hw (ex_intro _ b eq_refl)).
  - intros b w' _ Ha. cbn beta in Ha. rewrite <- Ha. apply IH.
Qed.

(** What the commands do to a unit they name, and to one they do not. *)
Lemma starts_lookup l w u :
  active (starts l w) !! u = if bool_decide (u ∈ l) then Some (default (files w) (active w !! u)) else active w !! u.
Proof.
  unfold starts, loads, reloads, set_active. cbn [active].
  induction l as [|v l IH]; cbn [foldr]; [by rewrite bool_decide_false by set_solver|]. destruct (decide (u = v)) as [->|Hne].
  - rewrite (bool_decide_true (v ∈ v :: l)) by set_solver.
    destruct (bool_decide (v ∈ l)); rewrite IH; [by rewrite IH|].
    destruct (active w !! v) as [x|]; [by rewrite IH|]. apply lookup_insert_eq.
  - rewrite (bool_decide_ext (u ∈ v :: l) (u ∈ l)) by set_solver.
    destruct (foldr _ _ _ !! v); rewrite ?lookup_insert_ne by done; exact IH.
Qed.

Lemma loads_lookup l w u :
  active (loads l w) !! u = if bool_decide (u ∈ l) then Some (files w) else active w !! u.
Proof.
  unfold starts, loads, reloads, set_active. cbn [active].
  induction l as [|v l IH]; cbn [foldr]; [by rewrite bool_decide_false by set_solver|]. destruct (decide (u = v)) as [->|Hne].
  - rewrite (bool_decide_true (v ∈ v :: l)) by set_solver. apply lookup_insert_eq.
  - rewrite (bool_decide_ext (u ∈ v :: l) (u ∈ l)) by set_solver. by rewrite lookup_insert_ne.
Qed.

Lemma reloads_lookup l w u :
  active (reloads l w) !! u = if bool_decide (u ∈ l) then (λ _, files w) <$> active w !! u else active w !! u.
Proof.
  unfold starts, loads, reloads, set_active. cbn [active].
  induction l as [|v l IH]; cbn [foldr]; [by rewrite bool_decide_false by set_solver|]. destruct (decide (u = v)) as [->|Hne].
  - rewrite (bool_decide_true (v ∈ v :: l)) by set_solver.
    destruct (bool_decide (v ∈ l)), (active w !! v) as [x|]; cbn in *; rewrite IH; rewrite ?lookup_insert_eq, ?IH; done.
  - rewrite (bool_decide_ext (u ∈ v :: l) (u ∈ l)) by set_solver.
    destruct (foldr _ _ _ !! v); rewrite ?lookup_insert_ne by done; exact IH.
Qed.

Lemma stops_lookup l w u : u ∈ l → active (stops l w) !! u = None.
Proof.
  cbn. induction l as [|v l IH]; [by intros ?%not_elem_of_nil|]. cbn [foldr].
  destruct (decide (u = v)) as [->|]; [by rewrite lookup_delete_eq|]. rewrite lookup_delete_ne by done. set_solver.
Qed.

Lemma restart_after l w :
  after (try_each (λ u, systemctl ["restart"; u]) l)
    (λ o w', o = Some () → ∀ u,
      active w' !! u = if bool_decide (u ∈ l) then Some (files w) else active w !! u) w.
Proof.
  revert w. induction l as [|v l IH]; intros w.
  - split; [done|]. intros _ u. by rewrite bool_decide_false by set_solver.
  - cbn [try_each]. eapply safe_try; [apply (systemctl_after _ (λ o w', match o with
      Some _ => w' = loads [v] w | None => None = Some () → _ end)); [done|by intros]|].
    intros _ w' _ ->. eapply safe_mono; [apply IH|]. cbn beta. intros o w' _ Hw Ho u.
    rewrite (Hw Ho), loads_lookup. repeat case_bool_decide; set_solver.
Qed.

Lemma all_active_after l w :
  after (all_active l)
    (λ o w', w' = w ∧ ∀ b, o = Some b → b = true ↔ ∀ u, u ∈ l → is_Some (active w !! u)) w.
Proof.
  induction l as [|v l IH]; cbn [all_active].
  { split; [done|]. split; [done|]. intros b [= <-]. set_solver. }
  split; [done|]. split; [done|]. intros [[]|] w'; cbn.
  - intros [-> Hv]. symmetry in Hv. apply bool_decide_eq_true in Hv. eapply safe_mono; [exact IH|].
    cbn beta. intros o w' _ [-> Ho]. split; [done|]. intros b Hb. rewrite (Ho b Hb). set_solver.
  - intros (_ & _ & Hv & ->); [|done]. symmetry in Hv. apply bool_decide_eq_false in Hv.
    split; [done|]. split; [done|]. intros b [= <-]. split; [done|]. intros Hall. destruct Hv. apply Hall. set_solver.
  - intros ->. by split.
Qed.

(** One command, and what the unit files show. *)
Lemma command_within args (Q : option () → machine → machine → Prop) :
  (∀ w, Q (Some ()) w (systemctl_effect args w)) → (∀ w w', Q None w w') → runs_within dir (systemctl args) Q.
Proof. intros Hs Hn. apply runs_within_intro; [done|]. intros w. by apply systemctl_after. Qed.

Lemma systemd_install_law p :
  runs_within dir (systemd_install dir p) (λ o w w', o = Some () → active w' = active w).
Proof.
  apply runs_within_intro; [apply systemd_install_within|]. intros w.
  eapply safe_try; [eapply safe_mono; [apply install_units_after|]|].
  { cbn beta. intros [b|] w' _ Hw; [exact (Hw (ex_intro _ b eq_refl))|done]. }
  cbn beta. intros [] w' _ Hw; [|by split].
  eapply safe_try; [apply (systemctl_after _ (λ o w'', match o with Some _ => w'' = w' | None => None = Some () → _ end));
    [done|by intros]|].
  intros _ w'' _ ->. destruct (p_resources p); [|by split]. by apply systemctl_after.
Qed.

#[global] Instance systemd_laws : RunnerLaws dir (Systemd dir).
Proof.
  split; intros p.
  - apply systemd_install_law.
  - apply command_within; [|done]. intros w _ u Hu. change (systemctl_effect _ w) with (starts (units p) w).
    by rewrite starts_lookup, bool_decide_true.
  - apply runs_within_intro; [by apply only_try_each|]. intros w. eapply safe_mono; [apply restart_after|].
    cbn beta. intros o w' _ Hw Ho u Hu. by rewrite (Hw Ho), bool_decide_true.
  - apply command_within; [|done]. intros w _.
    change (systemctl_effect _ w) with (reloads [proxy_unit_name (p_id p)] w).
    split; [intros u Hu|]; rewrite reloads_lookup; [rewrite bool_decide_false|rewrite bool_decide_true]; set_solver.
  - apply command_within; [|done]. intros w _ u Hu. change (systemctl_effect _ w) with (reloads (units p) w).
    by rewrite reloads_lookup, bool_decide_true.
  - apply runs_within_intro; [apply all_active_within|]. intros w. apply all_active_after.
  - apply command_within; [|done]. intros w _ u Hu.
    change (systemctl_effect _ w) with (stops [proxy_unit_name (p_id p); agent_unit_name (p_id p)] w).
    apply stops_lookup. unfold units in Hu. destruct (p_proxy p); set_solver.
  - apply runs_within_intro; [apply systemd_remove_within|]. intros w.
    eapply safe_mono; [apply safe_True|done].
Qed.

(** ** Installing again *)

(** Once its unit files are there, an install reads them and nothing more. *)
Lemma install_units_same w changed l :
  (∀ path text, (path, text) ∈ l → files w !! path = Some text) →
  safe (eq w) (λ e, ∃ path, e = ReadText path) (install_units changed l) (λ o _, o = Some changed) w.
Proof.
  revert changed. induction l as [|[path text] l IH]; intros changed Hl; [done|]. cbn [install_units].
  split; [done|]. split; [eauto|]. intros r w' [-> ->]. cbn -[safe]. rewrite (Hl path text) by set_solver.
  rewrite bool_decide_true by done. cbn -[safe]. rewrite orb_false_r. apply IH. set_solver.
Qed.

Lemma install_units_present changed l w :
  NoDup l.*1 →
  after (install_units changed l) (λ o w', is_Some o →
    (∀ path text, (path, text) ∈ l → files w' !! path = Some text) ∧
    ∀ q, q ∉ l.*1 → files w' !! q = files w !! q) w.
Proof.
  revert changed w. induction l as [|[path text] l IH]; intros changed w Hl.
  { split; [done|]. intros _. split; [set_solver|done]. }
  cbn in Hl. apply NoDup_cons in Hl as [Hp Hl]. cbn [install_units].
  eapply (safe_try _ _ _ _ (λ _ w', files w' !! path = Some text ∧ ∀ q, q ≠ path → files w' !! q = files w !! q)).
  - split; [done|]. split; [done|]. intros r w' [-> ->]. cbn -[step]. case_bool_decide as E; [by split|].
    split; [done|]. split; [done|]. intros ok w' (t & [[-> Ht]|[-> Hok]]); (split; [done|]); destruct ok; cbn;
      try (by intros [? ?]); [|done].
    rewrite Ht, lookup_insert_eq by done. split; [done|]. intros q Hq. by rewrite lookup_insert_ne.
  - intros b w' _ [Hw Hne]. eapply safe_mono; [by apply IH|]. cbn. intros o w'' _ Ho Hs.
    destruct (Ho Hs) as [Hin Hout]. split.
    + intros p t. rewrite elem_of_cons. intros [[= -> ->]|Hpt]; [by rewrite Hout, Hw|auto].
    + intros q Hq. apply not_elem_of_cons in Hq as [Hq1 Hq2]. by rewrite Hout, Hne.
Qed.

Lemma unit_names_apart id :
  agent_unit_name id ≠ proxy_unit_name id ∧ agent_unit_name id ≠ slice_name id ∧ proxy_unit_name id ≠ slice_name id.
Proof.
  unfold agent_unit_name, proxy_unit_name, slice_name.
  repeat split; intros E%str_app_inj_l%str_app_inj_l; discriminate.
Qed.

Lemma unit_files_NoDup p : NoDup (unit_files dir p).*1.
Proof.
  destruct (unit_names_apart (p_id p)) as (H1 & H2 & H3). unfold unit_files.
  assert (∀ a b, a ≠ b → path_join dir a ≠ path_join dir b) as Hj by (intros a b Hn E; apply Hn; exact (path_join_inj _ _ _ E)).
  destruct (p_resources p); cbn [fmap list_fmap app fst]; repeat (apply NoDup_cons; split); try apply NoDup_nil_2;
    repeat (apply not_elem_of_cons; split); auto using not_elem_of_nil.
Qed.

(** Doing an install again changes nothing: after one that succeeded, another
    reads the unit files, calls nothing else, and succeeds. *)
Theorem install_idempotent p w :
  after (systemd_install dir p) (λ o w', o = Some () →
    safe (eq w') (λ e, ∃ path, e = ReadText path) (systemd_install dir p) (λ o' _, o' = Some ()) w') w.
Proof.
  set (ok w' := ∀ path text, (path, text) ∈ unit_files dir p → files w' !! path = Some text).
  assert (∀ w', ok w' → safe (eq w') (λ e, ∃ path, e = ReadText path) (systemd_install dir p)
    (λ o' _, o' = Some ()) w') as Hagain.
  { intros w' Hok. eapply safe_bind_mono; [by apply install_units_same|]. by intros o w'' <- ->. }
  eapply safe_mono with (Q := λ o w', o = Some () → ok w'); [|auto].
  eapply (safe_try _ _ _ _ (λ _ w', ok w')).
  { eapply safe_mono; [apply install_units_present, unit_files_NoDup|]. cbn beta.
    intros [b|] w' _ Hw; [|done]. exact (proj1 (Hw (ex_intro _ b eq_refl))). }
  intros [] w1 _ Hok; [|by split].
  eapply (safe_try _ _ _ _ (λ _ w', ok w')); [by apply systemctl_after|]. intros _ w2 _ Hok2.
  destruct (p_resources p); [|by split]. by apply systemctl_after.
Qed.
End systemd_laws.

(** ** Signals reach the instance's own processes *)

Abbreviation history := (list (obs hanswer)).

(** Along every run from [h], [P] of what was answered so far and each call, and
    [Q] of all of it at the end. *)
Fixpoint logged {A} (P : history → hcall → Prop) (h : history) (p : hprog A) (Q : A → history → Prop) : Prop :=
  match p with
  | Ret a => Q a h
  | Vis e k => P h e ∧ ∀ r, logged P (h ++ [Obs e r]) (k r) Q
  end.

Lemma logged_mono {A} P h (p : hprog A) (Q Q' : A → history → Prop) :
  logged P h p Q → (∀ a h', Q a (h ++ h') → Q' a (h ++ h')) → logged P h p Q'.
Proof.
  revert h. induction p as [a|e k IH]; intros h; cbn.
  - intros Hq HQ. specialize (HQ a []). rewrite app_nil_r in HQ. auto.
  - intros [HP Hk] HQ. split; [done|]. intros r. eapply IH; [apply Hk|]. intros a h'. rewrite <- app_assoc. apply HQ.
Qed.

Lemma logged_bind {A B} P h (p : hprog A) (f : A → hprog B) Q :
  logged P h p (λ a h, logged P h (f a) Q) → logged P h (p ≫= f) Q.
Proof.
  unfold mbind, prog_bind. revert h. induction p as [a|e k IH]; intros h; cbn; [done|].
  intros [HP Hk]. split; auto.
Qed.

Lemma logged_runs {A} P h (p : hprog A) Q :
  logged P h p Q → all_runs p (λ a tr, Q a (h ++ tr) ∧
    ∀ before o later, tr = before ++ o :: later → P (h ++ before) (obs_ev o)).
Proof.
  revert h. induction p as [a|e k IH]; intros h; cbn.
  - intros Hq. rewrite app_nil_r. split; [done|]. by intros [] ? ?.
  - intros [HP Hk] r. eapply all_runs_mono; [apply (IH r), Hk|]. cbn beta. intros a tr [Hq Hall].
    rewrite <- app_assoc in Hq. split; [done|]. intros [|x before] o later; cbn; intros [= <- E].
    + by rewrite app_nil_r.
    + specialize (Hall before o later E). by rewrite <- app_assoc in Hall.
Qed.

(** /proc has shown that [pid] runs [config]. *)
Definition shown (h : history) (pid : Z) (config : string) : Prop :=
  ∃ cmdline stat, Obs (ReadText ("/proc/" ++ show_i32 pid ++ "/cmdline")%string) (Some cmdline) ∈ h ∧
    Obs (ReadText ("/proc/" ++ show_i32 pid ++ "/stat")%string) (Some stat) ∈ h ∧
    runs_config cmdline stat config = true.

Lemma shown_app h h' pid config : shown h pid config → shown (h ++ h') pid config.
Proof. intros (c & t & Hc & Ht & Hr). exists c, t. rewrite !elem_of_app. auto. Qed.

Section own.
Context (configs : list string).

Definition own_signal (h : history) (e : hcall) : Prop :=
  match e with Kill pid _ => ∃ config, config ∈ configs ∧ shown h pid config | _ => True end.

Lemma live_pid_logged h file config :
  logged own_signal h (live_pid file config) (λ o h', ∀ pid, o = Some pid → shown h' pid config).
Proof.
  split; [done|]. intros [text|]; [|done]. cbn -[runs_config]. destruct (parse_i32 _) as [pid|]; [|done].
  split; [done|]. intros [cmdline|]; [|done]. split; [done|]. intros [stat|]; [|done].
  cbn -[runs_config]. intros pid'. destruct (runs_config cmdline stat config) eqn:E; [|done]. intros [= <-].
  exists cmdline, stat. rewrite !elem_of_app, !list_elem_of_singleton. auto.
Qed.

(** Programs that send no signal. *)
Lemma logged_quiet {A} h (p : hprog A) (Q : A → history → Prop) :
  only (λ o, match obs_ev o with Kill _ _ => False | _ => True end) p → (∀ a h', Q a (h ++ h')) → logged own_signal h p Q.
Proof.
  revert h. induction p as [a|e k IH]; intros h Hp HQ; cbn.
  - specialize (HQ a []). by rewrite app_nil_r in HQ.
  - cbn in Hp. split; [destruct (answers e) as [r], (Hp r); by destruct e|].
    intros r. apply IH; [apply Hp|]. intros a h'. rewrite <- app_assoc. apply HQ.
Qed.

(** A look at /proc, and what follows. *)
Lemma logged_live {B} h file config (f : option Z → hprog B) Q :
  (∀ h', logged own_signal (h ++ h') (f None) Q) →
  (∀ pid h', shown (h ++ h') pid config → logged own_signal (h ++ h') (f (Some pid)) Q) →
  logged own_signal h (live_pid file config ≫= f) Q.
Proof.
  intros Hn Hs. apply logged_bind. eapply logged_mono; [apply live_pid_logged|]. cbn beta.
  intros [pid|] h' Ho; [|auto]. apply Hs. by apply Ho.
Qed.

Lemma wait_gone_logged fuel deadline pid file config h :
  config ∈ configs → shown h pid config →
  logged own_signal h (wait_gone fuel deadline pid file config) (λ _ _, True).
Proof.
  intros Hc. revert h. induction fuel as [|fuel IH]; intros h Hs; [done|]. cbn [wait_gone].
  apply logged_live; [done|]. intros pid' h' _. split; [done|]. intros now. cbn -[logged].
  apply (shown_app _ (h' ++ [Obs NowMs now])) in Hs. rewrite app_assoc in Hs.
  destruct (deadline <=? now).
  - split; [by exists config|]. by intros [].
  - split; [done|]. intros []. apply IH. by apply shown_app.
Qed.

Lemma signal_and_wait_logged fuel file config signal h :
  config ∈ configs → logged own_signal h (signal_and_wait fuel file config signal) (λ _ _, True).
Proof.
  intros Hc. apply logged_live; [done|]. intros pid h' Hs. split; [by exists config|]. intros []; [|done].
  split; [done|]. intros now. apply wait_gone_logged; [done|]. by do 2 apply shown_app.
Qed.

Lemma hang_up_logged file config h :
  config ∈ configs → logged own_signal h (hang_up file config) (λ _ _, True).
Proof. intros Hc. apply logged_live; [done|]. intros pid h' Hs. split; [by exists config|]. by intros []. Qed.

Lemma spawn_detached_quiet p name program args config env :
  only (λ o, match obs_ev o with Kill _ _ => False | _ => True end) (spawn_detached p name program args config env).
Proof.
  apply only_bind.
  - intros [text|]; (split; [done|]); [|done]. cbn -[runs_config]. destruct (parse_i32 _); [|done].
    intros [cmdline|]; (split; [done|]); [|done]. by intros [stat|].
  - intros [pid|]; [done|]. intros [pid|]; (split; [done|]); [|done]. by intros [].
Qed.

Lemma logged_try {A B} h (p : hprog (option A)) (f : A → hprog (option B)) :
  logged own_signal h p (λ _ _, True) → (∀ a h, logged own_signal h (f a) (λ _ _, True)) →
  logged own_signal h (try_bind p f) (λ _ _, True).
Proof. intros Hp Hf. apply logged_bind. eapply logged_mono; [exact Hp|]. by intros [a|] h' _; [apply Hf|]. Qed.

Lemma plain_start_logged p h : logged own_signal h (plain_start p) (λ _ _, True).
Proof.
  apply logged_quiet; [|done]. apply only_try; [apply spawn_detached_quiet|]. intros _. destruct (p_proxy p); [|done].
  intros [text|]; (split; [done|]); [|done]. apply spawn_detached_quiet.
Qed.

Lemma plain_stop_logged fuel p h :
  l_agent_config (p_layout p) ∈ configs → l_pgcluster_config (p_layout p) ∈ configs →
  logged own_signal h (plain_stop fuel p) (λ _ _, True).
Proof.
  intros Ha Hp. apply logged_try; [by apply signal_and_wait_logged|]. intros _ h1.
  apply logged_try; [by apply signal_and_wait_logged|]. intros _ h2.
  split; [done|]. intros []; [|done]. split; [done|]. by intros [].
Qed.

Lemma plain_reload_proxy_logged p h :
  l_pgcluster_config (p_layout p) ∈ configs → logged own_signal h (plain_reload_proxy p) (λ _ _, True).
Proof. intros Hp. unfold plain_reload_proxy. destruct (p_proxy p); [by apply hang_up_logged|done]. Qed.
End own.

(** The operations of a runner that change what runs. *)
Definition operations (r : Runner) (p : Processes) : list (hprog (option ())) :=
  [r_install r p; r_start r p; r_stop r p; r_restart r p; r_reload_proxy r p; r_reload_certificates r p; r_remove r p].

(** The plain runner sends a signal, whatever it answers, only to a process
    that /proc has shown, since the operation began, to run this instance's
    configuration and to be no zombie: a recycled pid is not mistaken for it. *)
Theorem plain_signals_own fuel p op :
  op ∈ operations (Plain fuel) p →
  all_runs op (λ _ tr, ∀ before pid signal ok later, tr = before ++ Obs (Kill pid signal) ok :: later →
    ∃ config, config ∈ [l_agent_config (p_layout p); l_pgcluster_config (p_layout p)] ∧ shown before pid config).
Proof.
  set (configs := [l_agent_config (p_layout p); l_pgcluster_config (p_layout p)]). intros Hop.
  assert (logged (own_signal configs) [] op (λ _ _, True)) as Hl.
  { assert (l_agent_config (p_layout p) ∈ configs) as Ha by set_solver.
    assert (l_pgcluster_config (p_layout p) ∈ configs) as Hp by set_solver.
    unfold operations in Hop. rewrite !elem_of_cons, elem_of_nil in Hop.
    destruct Hop as [-> |[-> |[-> |[-> |[-> |[-> |[-> |[]]]]]]]]; cbn [Plain r_install r_start r_stop r_restart
      r_reload_proxy r_reload_certificates r_remove]; [done|apply plain_start_logged|by apply plain_stop_logged
      | |by apply plain_reload_proxy_logged| |by apply plain_stop_logged].
    - apply logged_try; [by apply plain_stop_logged|]. intros; apply plain_start_logged.
    - apply logged_try; [by apply hang_up_logged|]. intros; by apply plain_reload_proxy_logged. }
  eapply all_runs_mono; [apply (logged_runs _ [] _ _ Hl)|]. cbn beta. intros _ tr [_ Hall] before pid signal ok later E.
  exact (Hall before (Obs (Kill pid signal) ok) later E).
Qed.
End processes.
