(* ===== verification/HostClient.v ===== *)
(** A host's connection to the admin service: src/vk-agent/src/host/client.rs.

    SHA-256, the PEM parsers and serde_json are parameters; a client is what it
    trusts and the certificate it shows ([Via]). [AdminClient::log] is the call
    [AdminLog].

    - [enrolment_trusts_token]: the token's secret goes only to a server with the
      CA whose hash the token carries, and wherever an enrolment is cut short, a
      host that has its identity has all of it.
    - [renewal_cut_short]: a renewal cut short between its two files leaves a key
      beside a certificate of another, and a host that can never connect again. *)
From S2P Require Import Prelude Effects Admission Placement Metadata Requests Standby HostModel Firewall HostRender HostCalls HostRunner.

Local Open Scope Z_scope.

(** ** Errors and answers *)

(** Why a host could not connect, as far as what follows tells them apart. *)
Inductive ClientError := NoCaHash | TokenMalformed | CaMismatch | TokenRefused | TokenNotSet | Failed.

(** [?] on a result that keeps its error. *)
Definition or_fail {E A B} (p : hprog (result E A)) (f : A → hprog (result E B)) : hprog (result E B) :=
  p ≫= λ r : result E A, match r with Ok a => f a | Err e => Ret (Err e) end.

Notation "x ←! p ; q" := (or_fail p (λ x, q)) (at level 20, p at level 100, q at level 200, right associativity).

(** A step whose failure has no word of its own. *)
Definition failing {A} (p : hprog (option A)) : hprog (result ClientError A) :=
  o ← p; Ret (ok_or Failed (o : option A)).

Definition HTTP_TIMEOUT_MS : Z := 30000.
Definition ROTATE_AFTER_MS : Z := 30 * 86400 * 1000.

(** [error_for_status]. *)
Definition is_error_status (status : Z) : bool := (400 <=? status) && (status <? 600).

(** ** Identity *)

Definition ca_file (dir : string) : string := path_join dir "ca.crt".
Definition cert_file (dir : string) : string := path_join dir "host.crt".
Definition key_file (dir : string) : string := path_join dir "host.key".
Definition host_id_file (dir : string) : string := path_join dir "host_id".

(** All of them, up to the first that is missing. *)
Fixpoint all_exist (paths : list string) : hprog bool :=
  match paths with
  | [] => Ret true
  | p :: paths => there ← hdo (PathExists p); if there : bool then all_exist paths else Ret false
  end.

Definition identity_exists (dir : string) : hprog bool :=
  all_exist [ca_file dir; cert_file dir; key_file dir; host_id_file dir].

Record EnrollResponse := mkEnrollResponse { en_host_id : string; en_certificate_pem : string }.

Record AdminClient := mkAdminClient { ac_base : string; ac_dir : string; ac_http : Via; ac_host_id : string }.

Section client.
Context `{!F64}.
Context (sha256_hex : string → string).
(** Whether reqwest can be built from a CA and an identity. *)
Context (client_ok : string → option (string * string) → bool).
Context (parse_enrolled : string → option EnrollResponse) (parse_rotated : string → option string)
  (parse_desired : string → option DesiredState).

Definition build_client (ca : string) (identity : option (string * string)) : option Via :=
  if client_ok ca identity then Some (Trusting ca identity) else None.

Definition client_from_files (dir : string) : hprog (option Via) :=
  ca ←? hdo (ReadText (ca_file dir));
  cert ←? hdo (ReadText (cert_file dir));
  key ←? hdo (ReadText (key_file dir));
  Ret (build_client ca (Some (cert, key))).

(** A request that has to be answered without an error, and its body. *)
Definition request (via : Via) (method url : string) (body : payload) : hprog (option string) :=
  r ← hdo (Http via method url body HTTP_TIMEOUT_MS);
  Ret (match r : option (Z * option string) with
       | Some (status, text) => if is_error_status status then None else text
       | None => None
       end).

(** The same where only the status matters. *)
Definition send_to (via : Via) (url : string) (body : payload) : hprog (option ()) :=
  r ← hdo (Http via "POST" url body HTTP_TIMEOUT_MS);
  Ret (match r : option (Z * option string) with
       | Some (status, _) => if is_error_status status then None else Some ()
       | None => None
       end).

Definition token_parts (token : string) : result ClientError (string * string) :=
  match split_token token with
  | Some parts => Ok parts
  | None => Err (match rsplit_once "." (trim token) with Some _ => TokenMalformed | None => NoCaHash end)
  end.

Definition enrolled_with (via : Via) (base secret csr : string) : hprog (result ClientError EnrollResponse) :=
  r ← hdo (Http via "POST" (base ++ "/agent/v1/enroll") (Object [("token", AText secret); ("csr_pem", AText csr)])
             HTTP_TIMEOUT_MS);
  Ret (match r : option (Z * option string) with
       | Some (status, text) =>
           if status =? 401 then Err TokenRefused
           else if is_error_status status then Err Failed
           else ok_or Failed (text ≫= parse_enrolled)
       | None => Err Failed
       end).

Definition enroll (base dir token : string) : hprog (result ClientError ()) :=
  parts ←! Ret (token_parts token);
  ca ←! failing (request Unverified "GET" (base ++ "/agent/v1/ca") NoPayload);
  if negb (String.eqb (sha256_hex ca) (str_map lower parts.2)) then Ret (Err CaMismatch)
  else
    key ←! failing (hdo NewKey);
    via ←! Ret (ok_or Failed (build_client ca None));
    enrolled ←! enrolled_with via base parts.1 key.2;
    _ ←! failing (must (hdo (WritePrivate (ca_file dir) ca)));
    _ ←! failing (must (hdo (WritePrivate (key_file dir) key.1)));
    _ ←! failing (must (hdo (WritePrivate (cert_file dir) (en_certificate_pem enrolled))));
    failing (must (hdo (WritePrivate (host_id_file dir) (en_host_id enrolled)))).

Definition connect (admin_url dir : string) (token : hprog (result ClientError string))
    : hprog (result ClientError AdminClient) :=
  let base := trim_end_char "/" admin_url in
  known ← identity_exists dir;
  _ ←! (if known : bool then Ret (Ok ()) else t ←! token; enroll base dir t);
  via ←! failing (client_from_files dir);
  host_id ←! failing (hdo (ReadText (host_id_file dir)));
  Ret (Ok (mkAdminClient base dir via (trim host_id))).

(** ** Requests *)

Inductive Poll := Changed (state : DesiredState) | Unchanged.

Definition poll_desired (c : AdminClient) (generation wait_secs : Z) : hprog (option Poll) :=
  r ← hdo (Http (ac_http c) "GET"
             (ac_base c ++ "/agent/v1/desired-state?generation=" ++ show_i32 generation ++
              "&wait_seconds=" ++ format_dec wait_secs) NoPayload (wait_secs * 1000 + HTTP_TIMEOUT_MS));
  Ret (match r : option (Z * option string) with
       | Some (status, text) =>
           if status =? 304 then Some Unchanged
           else if status =? 200 then Changed <$> (text ≫= parse_desired)
           else None
       | None => None
       end).

Definition send_report (c : AdminClient) (report : string) : hprog (option ()) :=
  send_to (ac_http c) (ac_base c ++ "/agent/v1/report") (Document report).

Definition send_task_result (c : AdminClient) (id result : string) : hprog (option ()) :=
  send_to (ac_http c) (ac_base c ++ "/agent/v1/tasks/" ++ id ++ "/result") (Document result).

Definition send_repository_check (c : AdminClient) (id : string) (error : option string) : hprog (option ()) :=
  send_to (ac_http c) (ac_base c ++ "/agent/v1/repository-checks/" ++ id)
    (Object [("error", match error with Some e => AText e | None => ANull end)]).

Definition send_cluster_report (c : AdminClient) (report : string) : hprog (option ()) :=
  send_to (ac_http c) (ac_base c ++ "/agent/v1/cluster") (Document report).

(** ** Certificates *)

Definition ca_fingerprint (c : AdminClient) : hprog (option string) :=
  pem ←? hdo (ReadText (ca_file (ac_dir c))); Ret (Some (sha256_hex pem)).

Definition with_http (c : AdminClient) (via : Via) : AdminClient :=
  mkAdminClient (ac_base c) (ac_dir c) via (ac_host_id c).

Definition trust (c : AdminClient) (bundle : string) : hprog (option AdminClient) :=
  current ←? ca_fingerprint c;
  if String.eqb current (sha256_hex bundle) then Ret (Some c)
  else
    cert ←? hdo (ReadText (cert_file (ac_dir c)));
    key ←? hdo (ReadText (key_file (ac_dir c)));
    via ←? Ret (build_client bundle (Some (cert, key)));
    _ ←? must (hdo (WritePrivate (ca_file (ac_dir c)) bundle));
    Ret (Some (with_http c via)).

Definition renew_certificate (c : AdminClient) : hprog (option AdminClient) :=
  new ←? hdo NewKey;
  text ←? request (ac_http c) "POST" (ac_base c ++ "/agent/v1/certificate") (Object [("csr_pem", AText new.2)]);
  cert ←? Ret (parse_rotated text);
  ca ←? hdo (ReadText (ca_file (ac_dir c)));
  via ←? Ret (build_client ca (Some (cert, new.1)));
  _ ←? must (hdo (WritePrivate (key_file (ac_dir c)) new.1));
  _ ←? must (hdo (WritePrivate (cert_file (ac_dir c)) cert));
  Ret (Some (with_http c via)).

Definition rotate_if_due (c : AdminClient) : hprog (option AdminClient) :=
  issued ←? hdo (ModifiedMs (cert_file (ac_dir c)));
  now ← hdo WallClockMs;
  if Z.max 0 (now - issued) <? ROTATE_AFTER_MS then Ret (Some c) else renew_certificate c.

(** ** Enrolment *)

(** The CA is the one whose hash the token carries. *)
Definition vouched (token ca : string) : Prop :=
  ∃ secret hash, split_token token = Some (secret, hash) ∧ sha256_hex ca = str_map lower hash.

(** Whom a host speaks to before it has an identity, and that it tells nothing to
    those nothing vouches for. *)
Definition speaks (token : string) (e : hcall) : Prop :=
  match e with
  | Http Unverified _ _ body _ => body = NoPayload
  | Http (Trusting ca _) _ _ _ _ => vouched token ca
  | Http (Loopback _) _ _ _ _ => False
  | _ => True
  end.

(** The files of an identity, whole. *)
Definition identity (dir : string) (w : machine) (ca cert key id : string) : Prop :=
  files w !! ca_file dir = Some ca ∧ files w !! cert_file dir = Some cert ∧
  files w !! key_file dir = Some key ∧ files w !! host_id_file dir = Some id.

Section enrolling.
Context (dir token : string).

(** Where the file that comes last is there, so are the others. *)
Definition none_or_whole (w : machine) : Prop :=
  present w (host_id_file dir) → ∃ ca cert key id, identity dir w ca cert key id ∧ vouched token ca.

Ltac apart :=
  unfold ca_file, cert_file, key_file, host_id_file; let E := fresh "E" in intros E; apply path_join_inj in E; discriminate.

Lemma written_apart p text w : p ≠ host_id_file dir → ¬ present w (host_id_file dir) →
  ¬ present (set_files <[p := text]> w) (host_id_file dir).
Proof. intros Hp Hw [Hf|Hd]; [|by destruct Hw; right]. cbn in Hf. rewrite lookup_insert_ne in Hf by done. destruct Hw. by left. Qed.

(** A program that looks and asks, and what follows. *)
Lemma speaks_bind {A B} (p : hprog A) (f : A → hprog B) I Q w :
  only (λ o, speaks token (obs_ev o) ∧ ∀ r w w', step w (obs_ev o) r w' → w' = w) p → I w →
  (∀ a, safe I (speaks token) (f a) Q w) → safe I (speaks token) (p ≫= f) Q w.
Proof.
  unfold mbind, prog_bind. intros Hp Hw Hf. induction p as [a|e k IH]; [apply Hf|]. cbn in Hp |- *. split; [done|].
  assert (inhabited (hanswer e)) as [r0] by apply answers. split; [apply (Hp r0)|].
  intros r w' Hs. rewrite (proj2 (proj1 (Hp r)) r w w' Hs). by apply IH, Hp.
Qed.

Lemma asks e : speaks token e → (∀ r w w', step w e r w' → w' = w) →
  only (λ o, speaks token (obs_ev o) ∧ ∀ r w w', step w (obs_ev o) r w' → w' = w) (hdo e).
Proof. intros He Hs r. by split. Qed.

(** A file of the identity is written, or the enrolment is over. *)
Lemma write_next {B} p text (f : () → hprog (result ClientError B)) I Q w :
  I w → (∀ e, Q (Err e) w) → (∀ w', w' = set_files <[p := text]> w → safe I (speaks token) (f ()) Q w') →
  safe I (speaks token) (or_fail (failing (must (hdo (WritePrivate p text)))) f) Q w.
Proof. intros Hw He Hf. split; [done|]. split; [done|]. intros [] w'; cbn; [apply Hf|]. by intros ->. Qed.

Definition connected (r : result ClientError AdminClient) (w : machine) : Prop :=
  ∀ c, r = Ok c → ∃ ca cert key id,
    identity dir w ca cert key id ∧ ac_http c = Trusting ca (Some (cert, key)) ∧ ac_host_id c = trim id.

Lemma reads_identity base w I : I w →
  safe I (speaks token)
    (via ←! failing (client_from_files dir);
     host_id ←! failing (hdo (ReadText (host_id_file dir)));
     Ret (Ok (mkAdminClient base dir via (trim host_id)))) connected w.
Proof.
  intros Hw. do 3 (split; [done|]; split; [done|]; intros ? ? [-> ->]; cbn;
    match goal with |- context [files w !! ?p] => let E := fresh "F" in destruct (files w !! p) eqn:E; [cbn|by split] end).
  unfold build_client. destruct (client_ok _ _); cbn; [|by split]. split; [done|]. split; [done|]. intros ? ? [-> ->].
  destruct (files w !! host_id_file dir) eqn:F2; cbn; (split; [done|]); [|done].
  intros c [= <-]. by repeat eexists.
Qed.

Lemma enroll_safe base w : ¬ present w (host_id_file dir) →
  safe none_or_whole (speaks token) (enroll base dir token)
    (λ _ _, True) w.
Proof.
  intros Hw. assert (∀ w', ¬ present w' (host_id_file dir) → none_or_whole w') as Hno by (intros w' H' H2; done).
  unfold enroll, token_parts, or_fail at 1. cbn [mbind prog_bind bind_prog].
  destruct (split_token token) as [[secret hash]|] eqn:Et; [|by split; [apply Hno|]]. cbn [fst snd].
  apply speaks_bind; [apply only_bind; [|done]; apply only_bind; [by apply asks; [|by intros]|done]|by apply Hno|].
  intros [ca|e]; [|by split; [apply Hno|]]. destruct (String.eqb_spec (sha256_hex ca) (str_map lower hash)) as [Eh|]; cbn [negb];
    [|by split; [apply Hno|]].
  assert (vouched token ca) as Hv by (by exists secret, hash).
  apply speaks_bind; [by apply only_bind; [apply asks; [|by intros]|]|by apply Hno|]. intros [key|e]; [|by split; [apply Hno|]].
  unfold build_client, or_fail at 1. cbn [mbind prog_bind bind_prog]. destruct (client_ok ca None); cbn [ok_or]; [|by split; [apply Hno|]].
  apply speaks_bind; [apply only_bind; [by apply asks; [|by intros]|done]|by apply Hno|].
  intros [enrolled|e]; [|by split; [apply Hno|]].
  apply write_next; [by apply Hno|done|]. intros w1 E1.
  assert (¬ present w1 (host_id_file dir)) as H1 by (subst; apply written_apart; [apart|done]).
  apply write_next; [by apply Hno|done|]. intros w2 E2.
  assert (¬ present w2 (host_id_file dir)) as H2 by (subst w2; apply written_apart; [apart|done]).
  apply write_next; [by apply Hno|done|]. intros w3 E3.
  assert (¬ present w3 (host_id_file dir)) as H3 by (subst w3; apply written_apart; [apart|done]).
  split; [by apply Hno|]. split; [done|]. intros [] w4; cbn; intros ->; (split; [|done]); [|by apply Hno].
  intros _. exists ca, (en_certificate_pem enrolled), key.1, (en_host_id enrolled). split; [|done].
  subst w3 w2 w1. unfold identity. cbn. repeat split; repeat (rewrite lookup_insert_ne by apart); by rewrite lookup_insert_eq.
Qed.

(** C18 A host without an identity tells its token's secret only to a server with
    the CA whose hash the token carries, and to a server nothing vouches for it
    sends nothing at all. Wherever the enrolment is cut short, the host has no
    identity or all of it, with that CA; and when it connects, it trusts the CA
    and shows the certificate and key that are on disk. *)
Theorem enrolment_trusts_token admin_url w :
  ¬ present w (host_id_file dir) →
  safe none_or_whole (speaks token) (connect admin_url dir (Ret (Ok token))) connected w.
Proof.
  intros Hw. assert (none_or_whole w) as Hn by (intros Hp; done). unfold connect. cbv zeta.
  apply speaks_bind; [|done|].
  { unfold identity_exists. repeat (apply only_bind; [apply asks; [done|by intros ? ? ? [_ ->]]|]; intros []); done. }
  intros known. eapply safe_bind_mono with (Q' := λ _ _, True).
  - destruct known; [by split|]. by apply enroll_safe.
  - intros [[]|e] w' Hw' _; [by apply reads_identity|by split].
Qed.
End enrolling.

(** ** Renewal *)

(** Only looking at files. *)
Definition looks (e : hcall) : Prop :=
  match e with ReadText _ | PathExists _ => True | _ => False end.

(** With an identity on disk that no client can be made of, nothing is asked. *)
Lemma connect_stuck admin_url dir token w ca cert key id :
  identity dir w ca cert key id → client_ok ca (Some (cert, key)) = false →
  safe (eq w) looks (connect admin_url dir token) (λ r _, r = Err Failed) w.
Proof.
  intros (Hca & Hcert & Hkey & Hid) Hno. unfold connect, identity_exists. cbn -[safe_on].
  do 4 (split; [done|]; split; [done|]; intros ? ? [-> ->]; rewrite bool_decide_true by (left; eauto)).
  split; [done|]; split; [done|]; intros ? ? [-> ->]; rewrite Hca.
  split; [done|]; split; [done|]; intros ? ? [-> ->]; rewrite Hcert.
  split; [done|]; split; [done|]; intros ? ? [-> ->]; rewrite Hkey. cbn. unfold build_client. rewrite Hno. by split.
Qed.

(** A renewal writes the key and the certificate one after the other. Cut short
    between them, it leaves the new key beside the old certificate; and where no
    client can be built of the two, the host never connects again, nor enrols,
    without a hand on its files. *)
Theorem renewal_cut_short c w ca cert key id new text cert' :
  identity (ac_dir c) w ca cert key id → parse_rotated text = Some cert' → client_ok ca (Some (cert', new)) = true →
  ∃ w', reached (renew_certificate c) w w' ∧ identity (ac_dir c) w' ca cert new id ∧
    (client_ok ca (Some (cert, new)) = false → ∀ admin_url token,
      safe (eq w') looks (connect admin_url (ac_dir c) token) (λ r _, r = Err Failed) w').
Proof.
  intros (Hca & Hcert & Hkey & Hid) Ht Hok. set (w' := set_files <[key_file (ac_dir c) := new]> w).
  assert (identity (ac_dir c) w' ca cert new id) as Hw'.
  { unfold identity, w'. cbn. rewrite lookup_insert_eq.
    rewrite !lookup_insert_ne by (intros E; apply path_join_inj in E; discriminate). done. }
  exists w'. split; [|split; [done|]; intros; by eapply connect_stuck].
  apply reached_step with (r := Some (new, EmptyString)) (w' := w); [done|].
  apply reached_step with (r := Some (200, Some text)) (w' := w); [done|]. cbn. rewrite Ht. cbn.
  apply reached_step with (r := Some ca) (w' := w); [done|]. cbn. unfold build_client. rewrite Hok. cbn.
  apply reached_step with (r := true) (w' := w'); [done|]. apply reached_here.
Qed.
End client.

(** ** Examples *)

(** Hashes and documents that are the texts themselves, and a client of any pair
    but one of a new key with an old certificate. *)
Definition example_hash (pem : string) : string := pem.
Definition example_client_ok (ca : string) (identity : option (string * string)) : bool :=
  match identity with Some (cert, key) => String.eqb cert key | None => true end.
Definition example_token : string := "secret.0123456789abcdef0123456789abcdef0123456789abcdef0123456789abcdef".

Definition enrolled_machine : machine :=
  mkMachine {["/state/ca.crt" := "ca"; "/state/host.crt" := "one"; "/state/host.key" := "one"; "/state/host_id" := "h1"]} ∅ ∅.

Definition example_client : AdminClient :=
  mkAdminClient "https://admin" "/state" (Trusting "ca" (Some ("one", "one"))) "h1".

Lemma enrolment_trusts_token_witness :
  safe (none_or_whole example_hash "/state" example_token) (speaks example_hash example_token)
    (connect example_hash example_client_ok (λ _, Some (mkEnrollResponse "h1" "cert")) "https://admin" "/state"
       (Ret (Ok example_token)))
    (connected "/state") (mkMachine ∅ ∅ ∅).
Proof. apply enrolment_trusts_token. intros [Hf|Hd]; [by destruct Hf|set_solver]. Defined.

Lemma renewal_cut_short_witness :
  ∃ w', reached (renew_certificate example_client_ok Some example_client) enrolled_machine w' ∧
    identity "/state" w' "ca" "one" "two" "h1" ∧
    (example_client_ok "ca" (Some ("one", "two")) = false → ∀ admin_url token,
      safe (eq w') looks (connect example_hash example_client_ok (λ _, None) admin_url "/state" token)
        (λ r _, r = Err Failed) w').
Proof.
  apply (renewal_cut_short example_hash example_client_ok (λ _, None) Some example_client enrolled_machine
           "ca" "one" "one" "h1" "two" "two" "two"); [|done|done].
  by repeat split.
Defined.
