(* ===== verification/HostRestore.v ===== *)
(** Filling a new data directory from a backup: src/vk-agent/src/host/restore.rs,
    with the repository of src/vk-agent/src/walg.rs it uses and the writes of
    src/vk-agent/src/host/fsutil.rs.

    Recovery runs in a private server with no network; only then is the data
    made this database's. What serde_json and chrono read and write are
    parameters, as in Agent.

    - [restore_adopts]: a restore succeeds only after every statement that makes
      the data this database's was run on a server that had left recovery.
    - [restorer_spares]: it touches the data directory and its own files only. *)
From S2P Require Import Prelude Effects Admission Placement Metadata Requests Standby Agent HostModel Firewall HostRender HostCalls.

Local Open Scope Z_scope.

(** ** fsutil.rs *)

Section fsutil.
(** Whether instances run as another user than the agent. *)
Context (other_user : bool).

Definition give_to (path : string) : hprog (option ()) :=
  if other_user then must (hdo (GiveTo path)) else Ret (Some ()).

Definition write_private_if_changed (path contents : string) : hprog (option bool) :=
  current ← hdo (ReadText path);
  if bool_decide (current = Some contents) then Ret (Some false)
  else
    _ ←? must (hdo (WritePrivate path contents));
    _ ←? give_to path;
    Ret (Some true).

(** [create_dir_all], owner only. *)
Definition private_dir (path : string) : hprog (option ()) :=
  _ ←? must (hdo (CreateDirs path));
  _ ←? must (hdo (SetMode path 448));
  give_to path.
End fsutil.

(** ** files.rs *)

Definition host_update_auto_conf (data key value : string) : hprog (option ()) :=
  pid ← hdo ProcessId;
  let conf := path_join data "postgresql.auto.conf" in
  let tmp := path_join data ("postgresql.auto.conf" ++ "." ++ format_dec pid ++ ".tmp") in
  existing ←? hdo (TryRead conf);
  _ ←? must (hdo (WriteText tmp (updated_auto_conf (default EmptyString existing) key value)));
  must (hdo (Rename tmp conf)).

Definition host_signal_file (data name : string) : hprog (option ()) :=
  must (hdo (WriteText (path_join data name) EmptyString)).

(** ** A repository: walg.rs *)

(** [HashMap::insert] for each of a list, in order. *)
Definition settings_of (l : list (string * string)) : gmap string string := list_to_map (rev l).

Definition opt_setting (name : string) (value : option string) : list (string * string) :=
  match value with Some v => [(name, v)] | None => [] end.

Definition trim_slashes (s : string) : string := trim_start_char "/" (trim_end_char "/" s).

Definition repository_settings (t : BackupTarget) : gmap string string :=
  settings_of (
    [("WALG_COMPRESSION_METHOD", "zstd")] ++
    opt_setting "WALG_FILE_PREFIX" (t_path t) ++
    match t_bucket t with
    | Some bucket =>
        [("WALG_S3_PREFIX", "s3://" ++ bucket ++ "/" ++ trim_slashes (default EmptyString (t_prefix t)))%string]
    | None => []
    end ++
    opt_setting "AWS_REGION" (t_region t) ++
    opt_setting "AWS_ENDPOINT" (t_endpoint t) ++
    opt_setting "AWS_ACCESS_KEY_ID" (t_access_key_id t) ++
    opt_setting "AWS_SECRET_ACCESS_KEY" (t_secret_access_key t) ++
    (if t_path_style t then [("AWS_S3_FORCE_PATH_STYLE", "true")] else []) ++
    match t_encryption_key t with
    | Some key => [("WALG_LIBSODIUM_KEY", key); ("WALG_LIBSODIUM_KEY_TRANSFORM", "base64")]
    | None => []
    end).

Section repository.
Context (settings_to_json : gmap string string → string)
  (from_json : string → option (list ListedBackup)) (parse_target_time : string → option Z).
Context (other_user : bool).

Record Repository := mkRepository { rp_binary : string; rp_config_path : string }.

Definition host_write_owner_only (path contents : string) : hprog (option ()) :=
  let tmp := with_tmp path in
  _ ←? must (hdo (WriteText tmp contents));
  _ ←? must (hdo (SetMode tmp OWNER_ONLY));
  must (hdo (Rename tmp path)).

Definition repository_create (binary config_path : string) (target : BackupTarget) : hprog (option Repository) :=
  _ ←? host_write_owner_only config_path (settings_to_json (repository_settings target));
  _ ←? give_to other_user config_path;
  Ret (Some (mkRepository binary config_path)).

Definition repository_run (r : Repository) (args : list string) : hprog (option string) :=
  hdo (RunOutput (rp_binary r) (["--config"; rp_config_path r] ++ args)).

(** The last component of a path. *)
Definition file_name (path : string) : string :=
  match rsplit_once "/" path with Some (_, name) => name | None => path end.

Definition repository_probe (r : Repository) (probe : string) : hprog (option ()) :=
  let name := ("pgcluster-check/" ++ file_name probe)%string in
  _ ←? repository_run r ["st"; "put"; "--no-compress"; "--no-encrypt"; probe; name];
  _ ←? repository_run r ["st"; "rm"; name];
  Ret (Some ()).

Definition repository_backup (r : Repository) (target_time : option string) : hprog (option string) :=
  match target_time with
  | Some text =>
      out ←? repository_run r ["backup-list"; "--json"; "--detail"];
      Ret (backups ← parse_list from_json out; target ← parse_target_time text; newest_before backups target)
  | None => Ret (Some "LATEST")
  end.

Definition repository_fetch (r : Repository) (data : string) (target_time : option string) : hprog (option ()) :=
  name ←? repository_backup r target_time;
  _ ←? repository_run r ["backup-fetch"; data; name];
  Ret (Some ()).

Definition repository_restore_command (r : Repository) : string :=
  (rp_binary r ++ " --config " ++ rp_config_path r ++ " wal-fetch %f %p")%string.

(** ** restore.rs *)

Section restorer.
Context `{!F64, !F64Cast}.

Definition RECOVERY_TIMEOUT_MS : Z := 6 * 3600 * 1000.
Definition RESTORE_POLL_MS : Z := 500.
Definition TARGET_NOT_REACHED : string := "recovery ended before configured recovery target was reached".
Definition RESTORE_HBA : string := ("local all all trust" ++ NL)%string.

Record Restorer := mkRestorer {
  rst_instance : Instance;
  rst_restore : Restore;
  rst_layout : Layout;
  rst_pg_bin : string;
  rst_walg_path : string
}.

Implicit Types (r : Restorer).

Definition restore_log r : string := path_join (l_logs (rst_layout r)) "restore.log".
Definition restore_conf_path r : string := path_join (l_dir (rst_layout r)) "restore.conf".
Definition restore_hba_path r : string := path_join (l_dir (rst_layout r)) "restore-hba.conf".

(** What recovery is told in postgresql.auto.conf. *)
Definition recovery_settings_of r (repo : Repository) : list (string * string) :=
  [("restore_command", repository_restore_command repo); ("recovery_target_timeline", "latest");
   ("recovery_target_action", "promote"); ("primary_conninfo", EmptyString); ("primary_slot_name", EmptyString);
   ("synchronous_standby_names", EmptyString); ("archive_mode", "off"); ("archive_command", EmptyString)] ++
  opt_setting "recovery_target_time" (re_target_time (rst_restore r)).

Definition prepare_recovery r (data : string) (repo : Repository) : hprog (option ()) :=
  _ ← hdo (RemoveOne (path_join data ".pgpass"));
  _ ← hdo (RemoveOne (path_join data "standby.signal"));
  _ ←? host_signal_file data "recovery.signal";
  _ ←? try_each (λ '(name, value), host_update_auto_conf data name value) (recovery_settings_of r repo);
  _ ←? give_to other_user (path_join data "postgresql.auto.conf");
  _ ←? give_to other_user (path_join data "recovery.signal");
  _ ←? private_dir other_user (l_socket_dir (rst_layout r));
  _ ←? write_private_if_changed other_user (restore_conf_path r) (restore_conf (rst_instance r) (rst_layout r));
  _ ←? write_private_if_changed other_user (restore_hba_path r) RESTORE_HBA;
  _ ← hdo (RemoveOne (restore_log r));
  Ret (Some ()).

Definition pg_ctl_of r : string := (rst_pg_bin r ++ "/pg_ctl")%string.

(** [.output().await?], whatever the status. *)
Definition ran (p : hprog (option bool)) : hprog (option ()) :=
  o ← p; Ret ((λ _, ()) <$> (o : option bool)).

Definition restore_start r (data : string) : hprog (option ()) :=
  ran (hdo (RunProgram (pg_ctl_of r)
    ["start"; "-D"; data; "-l"; restore_log r; "-w"; "-t"; "3600"; "-o";
     ("--config-file=" ++ String QUOTE (restore_conf_path r ++ String QUOTE EmptyString))%string])).

Definition restore_stop r (data : string) : hprog (option ()) :=
  ran (hdo (RunProgram (pg_ctl_of r) ["stop"; "-w"; "-m"; "fast"; "-D"; data])).

(** The private server, by its socket. *)
Definition restore_server r : string := l_socket_dir (rst_layout r).

Definition IN_RECOVERY : string := "SELECT pg_is_in_recovery()".
Definition ROLE_EXISTS : string := "SELECT EXISTS (SELECT 1 FROM pg_roles WHERE rolname = $1)".

(** An error, or whether recovery is over, with a connection if so. *)
Definition is_promoted r : hprog (option bool) :=
  _ ←? must (hdo (PgConnect (restore_server r) "postgres" EmptyString));
  recovering ←? hdo (PgBool "postgres" IN_RECOVERY []);
  Ret (Some (negb recovering)).

Definition recovery_ran_out r : hprog bool :=
  log ← hdo (ReadText (restore_log r));
  Ret (match log : option string with Some text => str_contains TARGET_NOT_REACHED text | None => false end).

Definition server_gave_up r (data : string) : hprog bool :=
  there ← hdo (PathExists (path_join data "postmaster.pid"));
  if there : bool then Ret false else ran_out ← recovery_ran_out r; Ret (negb ran_out).

(** No commit follows the target: recover to the end of the archive. *)
Definition retry_to_end r (data : string) : hprog (option ()) :=
  _ ←? host_update_auto_conf data "recovery_target_time" EmptyString;
  _ ←? give_to other_user (path_join data "postgresql.auto.conf");
  _ ← hdo (RemoveOne (restore_log r));
  restore_start r data.

(** The end of a turn: give up with the server, or sleep and go on. *)
Definition keep_waiting r (data : string) (again : hprog (option ())) : hprog (option ()) :=
  gave_up ← server_gave_up r data;
  if gave_up : bool then Ret None else _ ← hdo (SleepMs RESTORE_POLL_MS); again.

Definition look_again r (data : string) (retried : bool) (again : bool → hprog (option ())) : hprog (option ()) :=
  if retried then keep_waiting r data (again true)
  else
    out ← recovery_ran_out r;
    if out : bool then _ ←? retry_to_end r data; keep_waiting r data (again true)
    else keep_waiting r data (again false).

(** The loop that ends with a connection to a promoted server. *)
Fixpoint await_promotion (fuel : nat) r (data : string) (deadline : Z) (retried : bool) : hprog (option ()) :=
  match fuel with
  | O => Ret None
  | S fuel =>
      p ← is_promoted r;
      match p : option bool with
      | Some true => Ret (Some ())
      | Some false => look_again r data retried (await_promotion fuel r data deadline)
      | None =>
          now ← hdo NowMs;
          if deadline <=? now then Ret None else look_again r data retried (await_promotion fuel r data deadline)
      end
  end.

(** What makes the restored data this database's, before the slots. *)
Definition adopt_statements r (replicator : bool) : list string :=
  let i := rst_instance r in
  let source := re_source_database (rst_restore r) in
  (["ALTER ROLE " ++ SUPERUSER ++ " PASSWORD " ++ quote_literal (s_superuser_password (i_secrets i));
    "ALTER ROLE " ++ quote_ident (username (i_owner i)) ++ " PASSWORD " ++
      quote_literal (scram_verifier (i_owner i))]%string ++
   (if String.eqb source (i_database_name i) then []
    else ["ALTER DATABASE " ++ quote_ident source ++ " RENAME TO " ++ quote_ident (i_database_name i)]%string) ++
   (if replicator
    then ["ALTER ROLE " ++ REPLICATION_USER ++ " PASSWORD " ++ quote_literal (s_replication_password (i_secrets i))]%string
    else []) ++
   ["ALTER SYSTEM RESET ALL"]).

Definition DROP_SLOTS : string := "SELECT pg_drop_replication_slot(slot_name) FROM pg_replication_slots".

Definition adopt r : hprog (option ()) :=
  replicator ←? hdo (PgBool "postgres" ROLE_EXISTS [REPLICATION_USER]);
  _ ←? try_each (λ sql, must (hdo (PgExec "postgres" sql))) (adopt_statements r replicator);
  _ ←? must (hdo (PgExec "postgres" DROP_SLOTS));
  must (hdo (PgExec "postgres" "CHECKPOINT")).

Definition recover_and_adopt (fuel : nat) r (data : string) : hprog (option ()) :=
  _ ←? restore_start r data;
  now ← hdo NowMs;
  _ ←? await_promotion fuel r data (now + RECOVERY_TIMEOUT_MS) false;
  _ ←? adopt r;
  _ ← hdo (PgClose "postgres");
  Ret (Some ()).

Definition restorer_run (fuel : nat) r : hprog (option ()) :=
  let l := rst_layout r in
  let data := l_data l in
  there ← hdo (PathExists data);
  _ ←? (if there : bool then must (hdo (RemoveTree data)) else Ret (Some ()));
  _ ←? private_dir other_user data;
  repo ←? repository_create (rst_walg_path r) (l_walg_restore_config l) (re_source (rst_restore r));
  _ ←? repository_fetch repo data (re_target_time (rst_restore r));
  _ ←? prepare_recovery r data repo;
  result ← recover_and_adopt fuel r data;
  _ ← restore_stop r data;
  _ ← hdo (RemoveOne (l_walg_restore_config l));
  _ ← hdo (RemoveOne (restore_conf_path r));
  _ ← hdo (RemoveOne (restore_hba_path r));
  Ret result.

(** ** What a restore leaves alone *)

(** Not in the data directory, and none of the files a restore makes. *)
Definition outside_restore (l : Layout) (q : string) : Prop :=
  under (l_data l) q = false ∧
  q ∉ [l_walg_restore_config l; with_tmp (l_walg_restore_config l); path_join (l_dir l) "restore.conf";
       path_join (l_dir l) "restore-hba.conf"; path_join (l_logs l) "restore.log"].

Lemma not_under_ne p x q : under p q = false → String.eqb (path_join p x) q = false.
Proof. intros Hu. apply String.eqb_neq. intros <-. by rewrite under_join in Hu. Qed.

Section spares.
Context (r : Restorer) (S : string → Prop).
Hypothesis HS : ∀ q, S q → outside_restore (rst_layout r) q.
Abbreviation sparing := (only (λ o, spares S (obs_ev o))).

Lemma spares_none e : (∀ q, touches e q = false) → (∀ args, e ≠ Systemctl args) → spares S e.
Proof. by split. Qed.

Lemma spares_data e : (∀ q, under (l_data (rst_layout r)) q = false → touches e q = false) →
  (∀ args, e ≠ Systemctl args) → spares S e.
Proof. intros Ht Ha. split; [|done]. intros q Hq. apply Ht. by apply HS. Qed.

Lemma spares_own e p : p ∈ [l_walg_restore_config (rst_layout r); with_tmp (l_walg_restore_config (rst_layout r));
    restore_conf_path r; restore_hba_path r; restore_log r] →
  (∀ q, String.eqb p q = false → touches e q = false) → (∀ args, e ≠ Systemctl args) → spares S e.
Proof.
  intros Hp Ht Ha. split; [|done]. intros q Hq. apply Ht, String.eqb_neq. intros ->. by destruct (HS q Hq) as [_ []].
Qed.

Ltac spare_call :=
  first [ apply spares_none; done
        | apply spares_data; [intros q Hq; cbn; rewrite ?not_under_ne by done; by rewrite ?Hq|done]
        | eapply spares_own; [|intros q Hq; cbn; rewrite ?Hq; done|done]; set_solver ].

Ltac spare_steps :=
  repeat first
    [ progress intros
    | apply only_try | apply only_must | apply only_try_each
    | apply only_hdo; intros; spare_call
    | case_bool_decide; cbn [only]
    | done
    | apply only_bind ].

Lemma auto_conf_spares key value : sparing (host_update_auto_conf (l_data (rst_layout r)) key value).
Proof. unfold host_update_auto_conf. spare_steps. Qed.

Lemma give_to_spares path : sparing (give_to other_user path).
Proof. unfold give_to. destruct other_user; spare_steps. Qed.

Lemma private_dir_spares path : sparing (private_dir other_user path).
Proof. unfold private_dir. spare_steps. apply give_to_spares. Qed.

Lemma own_file_spares path text : path ∈ [restore_conf_path r; restore_hba_path r] →
  sparing (write_private_if_changed other_user path text).
Proof.
  intros Hp. unfold write_private_if_changed. apply only_bind; [spare_steps|]. intros o. case_bool_decide; [done|].
  apply only_try; [|intros _; apply only_try; [apply give_to_spares|done]].
  apply only_must, only_hdo. intros ok. eapply (spares_own _ path); [set_solver| |done]. done.
Qed.

Lemma prepare_spares repo : sparing (prepare_recovery r (l_data (rst_layout r)) repo).
Proof.
  unfold prepare_recovery, host_signal_file. apply only_bind; [spare_steps|intros _].
  apply only_bind; [spare_steps|intros _]. apply only_try; [spare_steps|intros _].
  apply only_try; [apply only_try_each; intros []; apply auto_conf_spares|intros _].
  do 2 (apply only_try; [apply give_to_spares|intros _]).
  apply only_try; [apply private_dir_spares|intros _].
  do 2 (apply only_try; [apply own_file_spares; set_solver|intros _]). spare_steps.
Qed.

Lemma start_spares : sparing (restore_start r (l_data (rst_layout r))).
Proof. unfold restore_start, ran. spare_steps. Qed.

Lemma keep_waiting_spares again : sparing again → sparing (keep_waiting r (l_data (rst_layout r)) again).
Proof.
  intros Ha. unfold keep_waiting. apply only_bind.
  - unfold server_gave_up, recovery_ran_out. apply only_bind; [spare_steps|]. intros []; spare_steps.
  - intros []; [done|]. apply only_bind; [spare_steps|]. by intros _.
Qed.

Lemma look_again_spares retried again : (∀ b, sparing (again b)) →
  sparing (look_again r (l_data (rst_layout r)) retried again).
Proof.
  intros Ha. unfold look_again. destruct retried; [by apply keep_waiting_spares|].
  apply only_bind; [unfold recovery_ran_out; spare_steps|]. intros []; [|by apply keep_waiting_spares].
  apply only_try; [|intros _; by apply keep_waiting_spares].
  unfold retry_to_end. apply only_try; [apply auto_conf_spares|intros _].
  apply only_try; [apply give_to_spares|intros _]. apply only_bind; [spare_steps|intros _]. apply start_spares.
Qed.

Lemma await_spares fuel deadline retried : sparing (await_promotion fuel r (l_data (rst_layout r)) deadline retried).
Proof.
  revert retried. induction fuel as [|fuel IH]; intros retried; [done|]. cbn [await_promotion].
  apply only_bind; [unfold is_promoted; spare_steps|]. intros [[]|]; [done|by apply look_again_spares|].
  apply only_bind; [spare_steps|]. intros now. destruct (deadline <=? now); [done|by apply look_again_spares].
Qed.

Lemma adopt_spares : sparing (adopt r).
Proof. unfold adopt. spare_steps. Qed.

Lemma fetch_spares repo : sparing (repository_fetch repo (l_data (rst_layout r)) (re_target_time (rst_restore r))).
Proof.
  unfold repository_fetch, repository_backup, repository_run. destruct (re_target_time _); spare_steps.
Qed.

Lemma create_spares binary target : sparing (repository_create binary (l_walg_restore_config (rst_layout r)) target).
Proof.
  unfold repository_create, host_write_owner_only. apply only_try; [|spare_steps; apply give_to_spares].
  do 2 (apply only_try; [spare_steps|intros _]). apply only_must, only_hdo. intros ok. split; [|done].
  intros q Hq. destruct (HS q Hq) as [_ Hn]. cbn. apply orb_false_iff. split; apply String.eqb_neq; set_solver.
Qed.

(** A restore touches the data directory and the files it makes itself. *)
Lemma restorer_spares fuel : sparing (restorer_run fuel r).
Proof.
  unfold restorer_run, recover_and_adopt, restore_stop, ran. cbv zeta. apply only_bind; [spare_steps|intros there].
  apply only_try; [destruct there; spare_steps|intros _]. apply only_try; [apply private_dir_spares|intros _].
  apply only_try; [apply create_spares|intros repo]. apply only_try; [apply fetch_spares|intros _].
  apply only_try; [apply prepare_spares|intros _]. apply only_bind; [|spare_steps].
  apply only_try; [apply start_spares|intros _]. apply only_bind; [spare_steps|intros now].
  apply only_try; [apply await_spares|intros _]. apply only_try; [apply adopt_spares|intros _]. spare_steps.
Qed.
End spares.

(** ** What a restore did when it succeeded *)

Abbreviation history := (list (obs hanswer)).

(** Statements run on the restored server. *)
Definition executed (l : list string) : history := (λ sql, Obs (PgExec "postgres" sql) true) <$> l.

Definition no_sql (o : obs hanswer) : Prop := match obs_ev o with PgExec _ _ => False | _ => True end.

Ltac quiet_steps :=
  repeat first [ progress intros | apply only_try | apply only_must | apply only_try_each
               | apply only_hdo; intros; exact I | case_match | done | apply only_bind ].

Lemma prepare_quiet r data repo : only no_sql (prepare_recovery r data repo).
Proof.
  unfold prepare_recovery, host_signal_file, host_update_auto_conf, private_dir, write_private_if_changed, give_to.
  quiet_steps.
Qed.

Lemma start_quiet r data : only no_sql (restore_start r data).
Proof. unfold restore_start, ran. quiet_steps. Qed.

(** A success leaves [T] behind, after calls that ran no statement. *)
Definition leaves (T : history → Prop) (p : hprog (option ())) : Prop :=
  all_runs p (λ o tr, o = Some () → ∃ before t, tr = before ++ t ∧ Forall no_sql before ∧ T t).

Lemma leaves_bind {A} T (p : hprog A) (f : A → hprog (option ())) :
  only no_sql p → (∀ a, leaves T (f a)) → leaves T (p ≫= f).
Proof.
  intros Hp Hf. apply all_runs_bind. eapply all_runs_mono; [by apply only_runs|]. cbn beta. intros a t1 H1.
  eapply all_runs_mono; [apply Hf|]. cbn beta. intros o t2 Ho E. destruct (Ho E) as (before & t & -> & Hb & Ht).
  exists (t1 ++ before), t. rewrite app_assoc, Forall_app. auto.
Qed.

Lemma leaves_try {A} T (p : hprog (option A)) (f : A → hprog (option ())) :
  only no_sql p → (∀ a, leaves T (f a)) → leaves T (try_bind p f).
Proof. intros Hp Hf. apply leaves_bind; [done|]. by intros [a|]. Qed.

Lemma keep_waiting_leaves T r data again : leaves T again → leaves T (keep_waiting r data again).
Proof.
  intros Ha. unfold keep_waiting. apply leaves_bind; [unfold server_gave_up, recovery_ran_out; quiet_steps|].
  intros []; [done|]. apply leaves_bind; [quiet_steps|]. by intros _.
Qed.

Lemma look_again_leaves T r data retried again :
  (∀ b, leaves T (again b)) → leaves T (look_again r data retried again).
Proof.
  intros Ha. unfold look_again. destruct retried; [by apply keep_waiting_leaves|].
  apply leaves_bind; [unfold recovery_ran_out; quiet_steps|]. intros []; [|by apply keep_waiting_leaves].
  apply leaves_try; [|intros _; by apply keep_waiting_leaves].
  unfold retry_to_end, host_update_auto_conf, give_to. apply only_try; [quiet_steps|intros _].
  apply only_try; [quiet_steps|intros _]. apply only_bind; [quiet_steps|intros _]. apply start_quiet.
Qed.

Lemma promoted_runs r :
  all_runs (is_promoted r) (λ o tr, Forall no_sql tr ∧
    (o = Some true → ∃ before, tr = before ++ [Obs (PgBool "postgres" IN_RECOVERY []) (Some false)] ∧ Forall no_sql before)).
Proof.
  intros []; [|split; [by repeat constructor|done]].
  intros [[]|]; (split; [by repeat constructor|]); cbn; try done. intros _.
  exists [Obs (PgConnect (restore_server r) "postgres" EmptyString) true]. split; [done|by repeat constructor].
Qed.

(** More calls without statements before. *)
Lemma leaves_prefix {A} T (p : hprog A) t1 (Q : A → Prop) : Forall no_sql t1 →
  all_runs p (λ o tr, Q o → ∃ before t, tr = before ++ t ∧ Forall no_sql before ∧ T t) →
  all_runs p (λ o tr, Q o → ∃ before t, t1 ++ tr = before ++ t ∧ Forall no_sql before ∧ T t).
Proof.
  intros H1 Hp. eapply all_runs_mono; [exact Hp|]. cbn beta. intros o tr Ho HQ.
  destruct (Ho HQ) as (before & t & -> & Hb & Ht). exists (t1 ++ before), t. rewrite app_assoc, Forall_app. auto.
Qed.

(** The wait ends with a server that said it is no longer in recovery. *)
Lemma await_leaves fuel r data deadline retried :
  leaves (eq [Obs (PgBool "postgres" IN_RECOVERY []) (Some false)]) (await_promotion fuel r data deadline retried).
Proof.
  revert retried. induction fuel as [|fuel IH]; intros retried; [done|]. cbn [await_promotion].
  apply all_runs_bind. eapply all_runs_mono; [apply promoted_runs|]. cbn beta. intros [[]|] t1 [H1 Ht].
  - intros _. destruct (Ht eq_refl) as (before & -> & Hb). exists before, [Obs (PgBool "postgres" IN_RECOVERY []) (Some false)].
    by rewrite app_nil_r.
  - apply leaves_prefix; [done|]. by apply look_again_leaves.
  - apply leaves_prefix; [done|]. apply leaves_bind; [quiet_steps|]. intros now. destruct (deadline <=? now); [done|].
    by apply look_again_leaves.
Qed.

(** What adopting leaves: the answer about the role, and every statement. *)
Definition adopted r (t : history) : Prop :=
  ∃ replicator, t = Obs (PgBool "postgres" ROLE_EXISTS [REPLICATION_USER]) (Some replicator) ::
    executed (adopt_statements r replicator ++ [DROP_SLOTS; "CHECKPOINT"]).

Lemma execute_runs l :
  all_runs (try_each (λ sql, must (hdo (PgExec "postgres" sql))) l) (λ o tr, o = Some () → tr = executed l).
Proof.
  induction l as [|sql l IH]; [done|]. cbn [try_each]. intros []; [|done].
  eapply all_runs_mono; [exact IH|]. cbn. intros o tr Ho E. by rewrite (Ho E).
Qed.

Lemma adopt_runs r : all_runs (adopt r) (λ o tr, o = Some () → adopted r tr).
Proof.
  intros [replicator|]; [|done]. cbn -[try_each adopt_statements].
  eapply all_runs_try; [apply execute_runs|done|]. cbn beta. intros [] t1 Ht. rewrite (Ht eq_refl).
  intros []; [|done]. intros []; [|done]. intros _. exists replicator. unfold executed.
  rewrite fmap_app. done.
Qed.

(** Recovery, then adoption, then no more statements. *)
Definition recovered r (t : history) : Prop :=
  ∃ t1 later, t = Obs (PgBool "postgres" IN_RECOVERY []) (Some false) :: t1 ++ later ∧ adopted r t1 ∧ Forall no_sql later.

Lemma recover_leaves fuel r data : leaves (recovered r) (recover_and_adopt fuel r data).
Proof.
  unfold recover_and_adopt. apply leaves_try; [apply start_quiet|intros _]. apply leaves_bind; [quiet_steps|intros now].
  eapply all_runs_try; [apply await_leaves|done|]. cbn beta. intros [] t1 Ht.
  destruct (Ht eq_refl) as (before & t & -> & Hb & <-).
  eapply all_runs_try; [apply adopt_runs|done|]. cbn beta. intros [] t2 Ha.
  intros []. intros _. exists before, (Obs (PgBool "postgres" IN_RECOVERY []) (Some false) :: t2 ++ [Obs (PgClose "postgres") ()]).
  rewrite <- app_assoc. split; [done|]. split; [done|]. exists t2, [Obs (PgClose "postgres") ()].
  split; [done|]. split; [by apply Ha|by repeat constructor].
Qed.

(** What follows runs no statement and keeps the result. *)
Lemma leaves_then r (p : hprog (option ())) (g : option () → hprog (option ())) :
  leaves (recovered r) p → (∀ o, all_runs (g o) (λ o' tr, o' = o ∧ Forall no_sql tr)) →
  leaves (recovered r) (p ≫= g).
Proof.
  intros Hp Hg. apply all_runs_bind. eapply all_runs_mono; [exact Hp|]. cbn beta. intros o t1 Ho.
  eapply all_runs_mono; [apply Hg|]. cbn beta. intros o' t2 [-> H2] E.
  destruct (Ho E) as (before & t & -> & Hb & t' & later & -> & Ha & Hl).
  eexists before, _. rewrite <- app_assoc. split; [done|]. split; [done|]. exists t', (later ++ t2).
  rewrite app_comm_cons, <- app_assoc, Forall_app. auto.
Qed.

(** C29 A restore succeeds only after a server that had left recovery ran, in
    order, every statement that makes the data this database's: the passwords,
    the name, the settings, the slots and a checkpoint. It runs no other. *)
Theorem restore_adopts fuel r :
  all_runs (restorer_run fuel r) (λ o tr, o = Some () → ∃ before t later,
    tr = before ++ Obs (PgBool "postgres" IN_RECOVERY []) (Some false) :: t ++ later ∧
    adopted r t ∧ Forall no_sql before ∧ Forall no_sql later).
Proof.
  assert (leaves (recovered r) (restorer_run fuel r)) as Hl.
  { unfold restorer_run. cbv zeta. apply leaves_bind; [quiet_steps|intros there].
    apply leaves_try; [destruct there; quiet_steps|intros _].
    apply leaves_try; [unfold private_dir, give_to; quiet_steps|intros _].
    apply leaves_try; [unfold repository_create, host_write_owner_only, give_to; quiet_steps|intros repo].
    apply leaves_try; [unfold repository_fetch, repository_backup, repository_run; quiet_steps|intros _].
    apply leaves_try; [apply prepare_quiet|intros _]. apply leaves_then; [apply recover_leaves|].
    intros o [ok|]; intros [] [] []; cbn; (split; [done|by repeat constructor]). }
  eapply all_runs_mono; [exact Hl|]. cbn beta. intros o tr Ho E.
  destruct (Ho E) as (before & t & -> & Hb & t1 & later & -> & Ha & Hlat). by exists before, t1, later.
Qed.
End restorer.
End repository.
