(* ===== verification/HostInstance.v ===== *)
(** Making one instance match desired state: src/vk-agent/src/host/instance.rs,
    with the calls of quota.rs and firewall.rs it makes.

    serde_json's text of the records is a parameter that reads back what it
    wrote. Waiting loops have fuel for their timeout at their pace; running out
    of it counts as the timeout.

    - [applied_data_kept]: once an instance runs, applying any desired state to
      it, cut short anywhere and again, never clears its data.
    - [remove_only_own]: a directory without this host's record is left alone.
    - [changes_reach_processes]: an apply that succeeds leaves every process
      running with the files just written, unless only some of them ran. *)
From S2P Require Import Prelude Effects Admission Placement Metadata Requests Standby Agent HostModel Firewall ConfigFile HostRender HostCalls HostRunner HostRestore.

Local Open Scope Z_scope.

(** ** Records *)

(** What has been applied to an instance, and which host made it. *)
Record Applied := mkApplied {
  a_host_id : string;
  a_generation : Z;
  a_verifier : string;
  a_extensions : list string;
  a_bootstrapped : bool
}.

Definition applied_default : Applied := mkApplied EmptyString 0 EmptyString [] false.

(** What a quota was last set to. *)
Record QuotaApplied := mkQuotaApplied { q_project : Z; q_bytes : Z }.

#[global] Instance QuotaApplied_eq_dec : EqDecision QuotaApplied.
Proof. solve_decision. Defined.

(** serde_json on the two records. *)
Class RecordJson := {
  applied_to_json : Applied → string;
  applied_of_json : string → option Applied;
  quota_to_json : QuotaApplied → string;
  quota_of_json : string → option QuotaApplied;
  applied_json_back : ∀ a, applied_of_json (applied_to_json a) = Some a
}.

Inductive Progress := Running | Seeding.

#[global] Instance Progress_eq_dec : EqDecision Progress.
Proof. solve_decision. Defined.

(** Certificates, passwords or peers; and pgcluster.toml. *)
Record FilesChanged := mkChanged { fc_reload : bool; fc_proxy_config : bool }.

Definition READY_TIMEOUT_MS : Z := 120000.
Definition READY_POLL_MS : Z := 500.

(** As many turns as the timeout has at its pace, and two more. *)
Definition READY_TURNS : nat := 242.

(** [body] until it has an answer, an error, or the time is up. *)
Fixpoint poll {A} (turns : nat) (deadline : Z) (body : hprog (option (option A))) : hprog (option A) :=
  match turns with
  | O => Ret None
  | S turns =>
      r ←? body;
      match r : option A with
      | Some a => Ret (Some a)
      | None =>
          now ← hdo NowMs;
          if deadline <=? now then Ret None
          else _ ← hdo (SleepMs READY_POLL_MS); poll turns deadline body
      end
  end.

(** The order of a [BTreeSet] of addresses: IPv4 first. *)
Definition ip_leb (a b : IpAddr) : bool :=
  match a, b with
  | V4 x, V4 y | V6 x, V6 y => x <=? y
  | V4 _, V6 _ => true
  | V6 _, V4 _ => false
  end.

Section manager.
Context `{!F64, !F64Cast, !RecordJson}.
(** Printers and parsers of other crates. *)
Context (to_toml : value → string).
Context {IpNet : Type} (parse_net : string → option IpNet) (show_net : IpNet → string) (net_is_v4 : IpNet → bool).
Context (sha256_hex : string → string).
Context (settings_to_json : gmap string string → string)
  (from_json : string → option (list ListedBackup)) (parse_target_time : string → option Z).

(** [InstanceManager]: the settings, the runner, this host's name, whether
    instances run as another user, and where quotas apply. *)
Context (config : HostConfig) (run : Runner) (host_id : string) (other_user : bool) (quota_fs : option string).
(** Turns of the wait for recovery. *)
Context (recovery_turns : nat).

Implicit Types (i : Instance) (l : Layout).

Abbreviation write_if_changed := (write_private_if_changed other_user).

(** ** Records on disk *)

Definition read_applied l : hprog (option Applied) :=
  text ←? hdo (ReadText (l_applied l)); Ret (applied_of_json text).

Definition write_applied l (a : Applied) : hprog (option ()) :=
  _ ←? write_if_changed (l_applied l) (applied_to_json a); Ret (Some ()).

(** ** Ports, processes and addresses *)

(** The ports of a list that something listens on. *)
Fixpoint taken_ports (ports : list Z) : hprog (list Z) :=
  match ports with
  | [] => Ret []
  | port :: ports =>
      free ← hdo (PortFree port);
      rest ← taken_ports ports;
      Ret (if free : bool then rest else port :: rest)
  end.

(** [port_base..port_base.saturating_add(10)]. *)
Definition ports_in_use (port_base : Z) : hprog (list Z) :=
  taken_ports ((λ k, port_base + Z.of_nat k) <$> seq 0 (Z.to_nat (Z.min (port_base + 10) U16_MAX - port_base))).

Definition processes (id version : string) : hprog (option Processes) :=
  vk_agent ←? match vk_agent_path config with Some path => Ret (Some path) | None => hdo CurrentExe end;
  Ret (Some (mkProcesses id (layout_new (instances_dir config) id) vk_agent (pgcluster_path config)
               (pg_bin config version ++ "/pg_ctl")%string (run_as config) None true)).

Definition with_role (p : Processes) (resources : Resources) (proxy : bool) : Processes :=
  mkProcesses (p_id p) (p_layout p) (p_vk_agent p) (p_pgcluster p) (p_pg_ctl p) (p_user p) (Some resources) proxy.

Definition processes_for i : hprog (option Processes) :=
  p ←? processes (instance_id i) (i_postgres_version i);
  Ret (Some (with_role p (i_resources i) (negb (is_replica i)))).

Fixpoint resolve_all (names : list string) : hprog (option (list IpAddr)) :=
  match names with
  | [] => Ret (Some [])
  | name :: names =>
      found ←? hdo (LookupHost name);
      rest ←? resolve_all names;
      Ret (Some (found ++ rest))
  end.

Definition instance_addresses i : hprog (option (list IpAddr)) :=
  if negb (is_ha i) then Ret (Some [])
  else
    found ←? resolve_all ((peer_address <$> i_peers i) ++ (peer_address <$> i_replicas i) ++ [i_address i]);
    Ret (Some (sort_by ip_leb (remove_dups found))).

(** ** Preparing *)

Definition prepare_directories l : hprog (option ()) :=
  try_each (private_dir other_user) [l_dir l; l_raft l; l_tls l; l_logs l; l_socket_dir l].

Definition prepare_repository i : hprog (option ()) :=
  match t_path (bp_target (i_backup i)) with
  | Some path => private_dir other_user path
  | None => Ret (Some ())
  end.

Definition firewall_apply (script : string) : hprog (option ()) :=
  match firewall config with NoFirewall => Ret (Some ()) | Nftables => must (hdo (Nft script)) end.

Definition firewall_rules i (nodes : list IpAddr) (cidrs : list IpNet) : Rules :=
  mkRules (instance_id i) (proxy_port i) (peer_ports i) nodes cidrs.

Definition apply_firewall i (nodes : list IpAddr) : hprog (option ()) :=
  match mapM parse_net (i_allowed_cidrs i) with
  | Some cidrs => firewall_apply (firewall_render show_net net_is_v4 sha256_hex (firewall_rules i nodes cidrs))
  | None => Ret None
  end.

(** ** quota.rs *)

Definition quota_bytes (storage_gb : f64) : Z :=
  f_to_u64 (f_mul storage_gb (f_mul (f_mul (f_lit "1024.0") (f_lit "1024.0")) (f_lit "1024.0"))).

Definition xfs_quota (fs command : string) : hprog (option ()) := must (hdo (XfsQuota fs command)).

Definition quota_apply (fs dir id : string) (storage_gb : f64) : hprog (option ()) :=
  let record := path_join dir "quota.json" in
  let wanted := mkQuotaApplied (project_id id) (quota_bytes storage_gb) in
  text ← hdo (ReadText record);
  let current := (text : option string) ≫= quota_of_json in
  if bool_decide (current = Some wanted) then Ret (Some ())
  else
    _ ←? (if bool_decide (q_project <$> current = Some (q_project wanted)) then Ret (Some ())
          else xfs_quota fs ("project -s -p " ++ dir ++ " " ++ format_dec (q_project wanted))%string);
    _ ←? xfs_quota fs ("limit -p bhard=" ++ format_dec (q_bytes wanted) ++ " " ++ format_dec (q_project wanted))%string;
    _ ←? write_private_if_changed false record (quota_to_json wanted);
    Ret (Some ()).

Definition quota_remove (fs id : string) : hprog (option ()) :=
  xfs_quota fs ("limit -p bhard=0 " ++ format_dec (project_id id))%string.

(** ** Files *)

(** Write each of a list, in order; whether one changed. *)
Fixpoint write_all (changed : bool) (l : list (string * string)) : hprog (option bool) :=
  match l with
  | [] => Ret (Some changed)
  | (path, text) :: l => c ←? write_if_changed path text; write_all (changed || c) l
  end.

(** What running processes can load again, certificates before what reads them. *)
Definition reload_files i l (bin : string) (nodes : list IpAddr) : list (string * string) :=
  let s := i_secrets i in
  [(tls_path l "ca.crt", s_ca_cert_pem s); (tls_path l "node.key", s_key_pem s); (tls_path l "node.crt", s_cert_pem s)] ++
  match s_proxy_cert_pem s, s_proxy_key_pem s with
  | Some cert, Some key => [(tls_path l "proxy.key", key); (tls_path l "proxy.crt", cert)]
  | _, _ => []
  end ++
  [(l_agent_config l, agent_toml to_toml i l bin); (l_env_file l, env_file i); (l_pg_hba l, pg_hba_text nodes)].

Definition write_files i l (bin : string) (nodes : list IpAddr) : hprog (option FilesChanged) :=
  reload ←? write_all false (reload_files i l bin nodes);
  proxy_config ←? write_if_changed (l_pgcluster_config l) (pgcluster_toml to_toml i l);
  Ret (Some (mkChanged reload proxy_config)).

Definition write_pgpass i l : hprog (option ()) :=
  let path := path_join (l_data l) ".pgpass" in
  text ← hdo (ReadText path);
  match (text : option string) ≫= λ t, rsplit_once ":" (trim_end t) with
  | Some (entry, _) =>
      _ ←? write_if_changed path (entry ++ ":" ++ s_replication_password (i_secrets i) ++ NL)%string; Ret (Some ())
  | None => Ret (Some ())
  end.

(** ** The data directory *)

Definition initdb_args l (password_file : string) : list string :=
  ["-D"; l_data l; ("--username=" ++ SUPERUSER)%string; ("--pwfile=" ++ password_file)%string;
   "--auth=scram-sha-256"; "--data-checksums"; "--encoding=UTF8"; "--locale=C.UTF-8"].

Definition run_initdb i l (bin : string) : hprog (option bool) :=
  there ← hdo (PathExists (l_data l));
  _ ←? (if there : bool then must (hdo (RemoveTree (l_data l))) else Ret (Some ()));
  let password_file := path_join (l_dir l) "initdb.pw" in
  _ ←? write_if_changed password_file (s_superuser_password (i_secrets i));
  ok ←? hdo (RunProgram (bin ++ "/initdb")%string (initdb_args l password_file));
  _ ← hdo (RemoveOne password_file);
  if ok : bool then _ ← hdo (AdminLog (i_operation_id i) "initialized the data directory"); Ret (Some true)
  else Ret None.

Definition initialize i l (bin : string) (applied : Applied) : hprog (option bool) :=
  match (if String.eqb (i_bootstrap i) "restore" && negb (a_bootstrapped applied) then i_restore i else None) with
  | Some restore =>
      _ ← hdo (AdminLog (i_operation_id i) "restoring from backup");
      _ ←? restorer_run settings_to_json from_json parse_target_time other_user recovery_turns
             (mkRestorer i restore l bin (host_walg_path config));
      _ ←? write_applied l (mkApplied host_id 0 (scram_verifier (i_owner i)) (a_extensions applied) true);
      Ret (Some true)
  | None =>
      if negb (String.eqb (i_bootstrap i) "initdb") then Ret (Some false)
      else
        there ← hdo (PathExists (path_join (l_data l) "PG_VERSION"));
        if there : bool then Ret (Some false) else run_initdb i l bin
  end.

(** ** Postgres *)

Definition passwords i : list string :=
  s_superuser_password (i_secrets i) ::
  match s_next (i_secrets i) with Some n => [next_superuser n] | None => [] end.

(** Where this host's agent reaches the server. *)
Definition pg_server i : string := host_port_text LOCAL (postgres_port i).

Fixpoint try_passwords (server database : string) (l : list string) : hprog bool :=
  match l with
  | [] => Ret false
  | password :: l =>
      ok ← hdo (PgConnect server database password);
      if ok : bool then Ret true else try_passwords server database l
  end.

Definition connect_ready i (database : string) : hprog (option ()) :=
  start ← hdo NowMs;
  poll READY_TURNS (start + READY_TIMEOUT_MS)
    (ok ← try_passwords (pg_server i) database (passwords i); Ret (Some (if ok : bool then Some () else None))).

Definition pg_exec (database sql : string) : hprog (option ()) := must (hdo (PgExec database sql)).

Definition REWIND_FUNCTIONS : list string :=
  ["pg_ls_dir(text, boolean, boolean)"; "pg_stat_file(text, boolean)"; "pg_read_binary_file(text)";
   "pg_read_binary_file(text, bigint, bigint, boolean)"].

Definition DATABASE_EXISTS : string := "SELECT EXISTS (SELECT 1 FROM pg_database WHERE datname = $1)".

Definition apply_replication_role i : hprog (option ()) :=
  exists_ ←? hdo (PgBool "postgres" ROLE_EXISTS [REPLICATION_USER]);
  if exists_ : bool then Ret (Some ())
  else
    _ ←? pg_exec "postgres" ("CREATE ROLE " ++ REPLICATION_USER ++ " REPLICATION LOGIN PASSWORD " ++
           quote_literal (s_replication_password (i_secrets i)))%string;
    try_each (λ f, pg_exec "postgres" ("GRANT EXECUTE ON FUNCTION " ++ f ++ " TO " ++ REPLICATION_USER)%string)
      REWIND_FUNCTIONS.

Definition apply_owner i (applied : Applied) : hprog (option ()) :=
  let name := quote_ident (username (i_owner i)) in
  let verifier := quote_literal (scram_verifier (i_owner i)) in
  exists_ ←? hdo (PgBool "postgres" ROLE_EXISTS [username (i_owner i)]);
  if negb (exists_ : bool) then
    pg_exec "postgres" ("CREATE ROLE " ++ name ++ " LOGIN CREATEDB CREATEROLE PASSWORD " ++ verifier)%string
  else if negb (String.eqb (a_verifier applied) (scram_verifier (i_owner i))) then
    pg_exec "postgres" ("ALTER ROLE " ++ name ++ " PASSWORD " ++ verifier)%string
  else Ret (Some ()).

Definition apply_database i : hprog (option ()) :=
  let name := quote_ident (username (i_owner i)) in
  exists_ ←? hdo (PgBool "postgres" DATABASE_EXISTS [i_database_name i]);
  rename ←? match i_rename_from i with
            | Some from =>
                if exists_ : bool then Ret (Some None)
                else found ←? hdo (PgBool "postgres" DATABASE_EXISTS [from]);
                     Ret (Some (if found : bool then Some from else None))
            | None => Ret (Some None)
            end;
  match rename : option string with
  | Some from =>
      _ ←? pg_exec "postgres" ("ALTER DATABASE " ++ quote_ident from ++ " RENAME TO " ++ quote_ident (i_database_name i))%string;
      _ ← hdo (AdminLog (i_operation_id i) ("renamed database " ++ from ++ " to " ++ i_database_name i)%string);
      Ret (Some ())
  | None =>
      if exists_ : bool then Ret (Some ())
      else pg_exec "postgres" ("CREATE DATABASE " ++ quote_ident (i_database_name i) ++ " OWNER " ++ name)%string
  end.

Definition apply_roles i (applied : Applied) : hprog (option ()) :=
  _ ←? apply_replication_role i;
  _ ←? apply_owner i applied;
  apply_database i.

(** What the owner needs in order to use an extension. *)
Definition extension_grant (extension owner : string) : option string :=
  if String.eqb extension "pg_cron" then Some ("GRANT USAGE ON SCHEMA cron TO " ++ owner)%string
  else if String.eqb extension "pg_tle" then Some ("GRANT pgtle_admin TO " ++ owner)%string
  else if String.eqb extension "pg_stat_statements" then Some ("GRANT pg_read_all_stats TO " ++ owner)%string
  else None.

Definition install_extension i (applied : Applied) (loaded extension : string) : hprog (option ()) :=
  if needs_preload extension && negb (existsb (λ lib, String.eqb (trim lib) extension) (split "," loaded)) then Ret (Some ())
  else
    _ ←? pg_exec (i_database_name i) ("CREATE EXTENSION IF NOT EXISTS " ++ quote_ident extension)%string;
    _ ←? match extension_grant extension (quote_ident (username (i_owner i))) with
         | Some grant => pg_exec (i_database_name i) grant
         | None => Ret (Some ())
         end;
    if bool_decide (extension ∈ a_extensions applied) then Ret (Some ())
    else _ ← hdo (AdminLog (i_operation_id i) ("installed extension " ++ extension)%string); Ret (Some ()).

Definition apply_extensions i (applied : Applied) : hprog (option ()) :=
  _ ←? try_each (λ e, if bool_decide (e ∈ i_extensions i) then Ret (Some ())
                      else pg_exec (i_database_name i) ("DROP EXTENSION IF EXISTS " ++ quote_ident e)%string)
         (a_extensions applied);
  loaded ←? hdo (PgText (i_database_name i) "SELECT current_setting('shared_preload_libraries')");
  try_each (install_extension i applied loaded) (i_extensions i).

Definition AUTH_READY : string := "SELECT to_regprocedure('pgcluster.get_auth(name)') IS NOT NULL".

Definition wait_for_proxy i : hprog (option ()) :=
  let url := ("http://127.0.0.1:" ++ format_dec (proxy_health_port i) ++ "/health")%string in
  _ ←? connect_ready i "postgres";
  start ← hdo NowMs;
  poll READY_TURNS (start + READY_TIMEOUT_MS)
    (healthy ← hdo (HttpGet url);
     auth_ready ←? hdo (PgBool "postgres" AUTH_READY []);
     if (healthy : bool) && (auth_ready : bool) then _ ← hdo (PgClose "postgres"); Ret (Some (Some ()))
     else Ret (Some None)).

(** ** apply *)

Definition reload_all i (p : Processes) : hprog (option ()) :=
  _ ←? r_reload_certificates run p;
  there ← hdo (PathExists (path_join (l_data (p_layout p)) "postmaster.pid"));
  _ ←? (if there : bool then succeeds (hdo (RunProgram (p_pg_ctl p) ["reload"; "-D"; l_data (p_layout p)]))
        else Ret (Some ()));
  _ ← hdo (AdminLog (i_operation_id i) "loaded new settings with no restart");
  Ret (Some ()).

(** Mark the directory as this host's, if nothing has. *)
Definition mark_directory i l : hprog (option Applied) :=
  previous ← read_applied l;
  match previous : option Applied with
  | Some applied => Ret (Some applied)
  | None =>
      taken ← ports_in_use (i_port_base i);
      if bool_decide ((taken : list Z) = []) then
        _ ←? write_applied l (mkApplied host_id 0 EmptyString [] false);
        Ret (Some applied_default)
      else Ret None
  end.

(** Everything before the processes: the record of what was applied, what
    changed, whether the data directory is new, and whether postgresql.conf is. *)
Definition apply_prepare i l (bin : string) : hprog (option (Applied * FilesChanged * bool * bool)) :=
  _ ←? prepare_directories l;
  applied ←? mark_directory i l;
  _ ←? match quota_fs with
       | Some fs => quota_apply fs (l_dir l) (instance_id i) (storage_gb (i_resources i))
       | None => Ret (Some ())
       end;
  nodes ←? instance_addresses i;
  _ ←? apply_firewall i nodes;
  _ ←? prepare_repository i;
  changed ←? write_files i l bin nodes;
  first_start ←? initialize i l bin applied;
  conf_changed ←? write_if_changed (l_postgres_conf l) (managed_conf i l);
  Ret (Some (applied, changed, first_start, conf_changed)).

(** Start the processes, or have them take the changes. *)
Definition apply_processes i (p : Processes) (changed : FilesChanged) (conf_changed : bool) : hprog (option ()) :=
  let owed := l_reload_owed (p_layout p) in
  _ ←? r_install run p;
  was_owed ← hdo (PathExists owed);
  let reload := fc_reload changed || (was_owed : bool) in
  _ ←? (if reload || fc_proxy_config changed then write_if_changed owed EmptyString else Ret (Some false));
  running ←? r_is_running run p;
  _ ←? (if negb (running : bool) then r_start run p
        else if conf_changed && negb (is_ha i) then
          _ ← hdo (AdminLog (i_operation_id i) "restarting the instance"); r_restart run p
        else if reload then reload_all i p
        else if fc_proxy_config changed then r_reload_proxy run p
        else Ret (Some ()));
  _ ← hdo (RemoveOne owed);
  Ret (Some ()).

(** Roles, databases and extensions on a primary; the record it leaves. *)
Definition apply_postgres i (applied : Applied) : hprog (option Applied) :=
  _ ←? connect_ready i "postgres";
  in_recovery ←? hdo (PgBool "postgres" IN_RECOVERY []);
  if negb (in_recovery : bool) then
    _ ←? apply_roles i applied;
    _ ← hdo (PgClose "postgres");
    _ ←? connect_ready i (i_database_name i);
    _ ←? apply_extensions i applied;
    _ ← hdo (PgClose (i_database_name i));
    Ret (Some (mkApplied (a_host_id applied) (a_generation applied) (scram_verifier (i_owner i)) (i_extensions i)
                 (a_bootstrapped applied)))
  else
    _ ← hdo (PgClose "postgres");
    Ret (Some applied).

(** From the database being there to the instance being ready. *)
Definition apply_ready i l (applied : Applied) (first_start : bool) : hprog (option Applied) :=
  _ ←? write_pgpass i l;
  record ←? apply_postgres i applied;
  _ ←? (if is_replica i then Ret (Some ()) else wait_for_proxy i);
  _ ← (if first_start then ignore (hdo (AdminLog (i_operation_id i) "instance is ready")) else Ret ());
  Ret (Some record).

Definition apply_finish i l (applied : Applied) (first_start : bool) : hprog (option Progress) :=
  there ← hdo (PathExists (path_join (l_data l) "PG_VERSION"));
  if negb (there : bool) then Ret (Some Seeding)
  else
    record ←? apply_ready i l applied first_start;
    _ ←? write_applied l (mkApplied host_id (i_generation i) (a_verifier record) (a_extensions record) true);
    Ret (Some Running).

Definition apply i : hprog (option Progress) :=
  if negb (instance_validate (λ c, bool_decide (is_Some (parse_net c))) i) then Ret None
  else
    p ←? processes_for i;
    let l := p_layout p in
    let bin := pg_bin config (i_postgres_version i) in
    there ← hdo (PathExists (path_join bin "initdb"));
    if negb (there : bool) then Ret None
    else
      prepared ←? apply_prepare i l bin;
      let '(applied, changed, first_start, conf_changed) := prepared in
      _ ←? apply_processes i p changed conf_changed;
      apply_finish i l applied first_start.

(** ** Looking *)

Definition is_primary i : hprog bool :=
  ok ← try_passwords (pg_server i) "postgres" (passwords i);
  if negb (ok : bool) then Ret false
  else
    in_recovery ← hdo (PgBool "postgres" IN_RECOVERY []);
    _ ← hdo (PgClose "postgres");
    Ret (bool_decide ((in_recovery : option bool) = Some false)).

Definition has_work_left i l : hprog bool :=
  applied ← read_applied l;
  match applied : option Applied with
  | None => Ret false
  | Some a =>
      if String.eqb (a_verifier a) (scram_verifier (i_owner i)) && bool_decide (a_extensions a = i_extensions i) then Ret false
      else
        there ← hdo (PathExists (path_join (l_data l) "PG_VERSION"));
        if there : bool then is_primary i else Ret false
  end.

(** The release the server runs and the time the archive covers, from a row of
    pg_stat_archiver. *)
Definition observe i (samples : WalSamples) : hprog (option string * option Z * WalSamples) :=
  ok ← hdo (PgConnect (pg_server i) "postgres" (s_superuser_password (i_secrets i)));
  if negb (ok : bool) then Ret (None, None, samples)
  else
    row ← hdo (PgWalPosition "postgres");
    _ ← hdo (PgClose "postgres");
    Ret (match row : option WalRow with
         | None => (None, None, samples)
         | Some r =>
             if wr_in_recovery r then (release_of (wr_version r), None, samples)
             else
               let '(samples, until) :=
                 wal_until samples (wr_now r) (agent_parse_lsn (wr_lsn r)) (wr_archived r) (wr_segment_size r) in
               (release_of (wr_version r), until, samples)
         end).

(** ** Removal *)

Definition remove_instance (id : string) : hprog (option bool) :=
  let l := layout_new (instances_dir config) id in
  applied ← read_applied l;
  match applied : option Applied with
  | Some a =>
      if negb (String.eqb (a_host_id a) host_id) then Ret (Some false)
      else
        version ← hdo (ReadText (path_join (l_data l) "PG_VERSION"));
        p ←? processes id (match version : option string with Some v => trim v | None => "18" end);
        _ ←? r_remove run p;
        _ ←? firewall_apply (firewall_remove_script sha256_hex id);
        _ ← match quota_fs with Some fs => quota_remove fs id | None => Ret (Some ()) end;
        _ ←? must (hdo (RemoveTree (l_dir l)));
        Ret (Some true)
  | None => Ret (Some false)
  end.

(** ** What the parts touch *)

(** Calls that neither run programs nor remove directories. *)
Definition mild (e : hcall) : Prop :=
  match e with RemoveTree _ | RunProgram _ _ | RunOutput _ _ | Systemctl _ => False | _ => True end.

Definition gentle (S : string → Prop) (e : hcall) : Prop := spares S e ∧ mild e.

Section footprints.
Context (S : string → Prop).
Abbreviation sparing := (only (λ o, gentle S (obs_ev o))).

Lemma mild_not_systemctl e : mild e → ∀ args, e ≠ Systemctl args.
Proof. by intros Hm args ->. Qed.

Lemma gentle_nothing e : (∀ q, touches e q = false) → mild e → gentle S e.
Proof. intros Ht Hm. split; [|done]. split; [auto|by apply mild_not_systemctl]. Qed.

Lemma gentle_path e p : ¬ S p → (∀ q, String.eqb p q = false → touches e q = false) → mild e → gentle S e.
Proof.
  intros Hp Ht Hm. split; [|done]. split; [|by apply mild_not_systemctl].
  intros q Hq. apply Ht, String.eqb_neq. by intros ->.
Qed.

Lemma gentle_only_spares {A} (p : hprog A) : sparing p → only (λ o, spares S (obs_ev o)) p.
Proof. intros Hp. eapply only_mono; [exact Hp|]. by intros o [? _]. Qed.

Lemma write_if_changed_sparing b path text : ¬ S path → sparing (write_private_if_changed b path text).
Proof.
  intros Hp. unfold write_private_if_changed, give_to. apply only_bind; [by apply only_hdo; intros; apply gentle_nothing|].
  intros o. case_bool_decide; [done|]. apply only_try.
  - apply only_must, only_hdo. intros r. by eapply (gentle_path _ path).
  - intros _. apply only_try; [|done]. destruct b; [|done]. by apply only_must, only_hdo; intros; apply gentle_nothing.
Qed.

Lemma remove_one_sparing path : ¬ S path → sparing (hdo (RemoveOne path)).
Proof. intros Hp. apply only_hdo. intros r. by eapply (gentle_path _ path). Qed.

(** Calls that touch no file at all, and programs made of them. *)
Ltac bland :=
  repeat first
    [ progress intros
    | apply only_try | apply only_must | apply only_try_each
    | by apply only_hdo; intros; apply gentle_nothing
    | case_match; try done
    | done
    | apply only_bind ].

Lemma private_dir_sparing b path : sparing (private_dir b path).
Proof. unfold private_dir, give_to. bland. Qed.

Lemma prepare_directories_sparing l : sparing (prepare_directories l).
Proof. apply only_try_each. intros. apply private_dir_sparing. Qed.

Lemma prepare_repository_sparing i : sparing (prepare_repository i).
Proof. unfold prepare_repository. case_match; [apply private_dir_sparing|done]. Qed.

Lemma apply_firewall_sparing i nodes : sparing (apply_firewall i nodes).
Proof. unfold apply_firewall, firewall_apply. bland. Qed.

Lemma resolve_sparing names : sparing (resolve_all names).
Proof. induction names as [|n l IH]; cbn [resolve_all]; [done|]. bland. Qed.

Lemma node_addresses_sparing i : sparing (instance_addresses i).
Proof. unfold instance_addresses. case_match; [done|]. apply only_try; [apply resolve_sparing|done]. Qed.

Lemma processes_sparing id version : sparing (processes id version).
Proof. unfold processes. bland. Qed.

Lemma quota_apply_sparing fs l id gb : ¬ S (path_join (l_dir l) "quota.json") → sparing (quota_apply fs (l_dir l) id gb).
Proof.
  intros Hq. unfold quota_apply, xfs_quota. cbv zeta. apply only_bind; [bland|]. intros text.
  case_bool_decide; [done|]. apply only_try; [bland|]. intros _. apply only_try; [bland|]. intros _.
  apply only_try; [by apply write_if_changed_sparing|done].
Qed.

Lemma write_all_sparing changed fl : Forall (λ x, ¬ S x.1) fl → sparing (write_all changed fl).
Proof.
  intros Hl. revert changed. induction Hl as [|[path text] fl Hp _ IH]; intros changed; [done|].
  cbn [write_all]. apply only_try; [by apply write_if_changed_sparing|]. intros; apply IH.
Qed.

Lemma taken_ports_sparing ports : sparing (taken_ports ports).
Proof. induction ports as [|p l IH]; cbn [taken_ports]; [done|]. bland. Qed.

Lemma write_applied_sparing l a : ¬ S (l_applied l) → sparing (write_applied l a).
Proof. intros Hp. apply only_try; [by apply write_if_changed_sparing|done]. Qed.

Lemma mark_directory_sparing i l : ¬ S (l_applied l) → sparing (mark_directory i l).
Proof.
  intros Hp. unfold mark_directory, read_applied. apply only_bind; [bland|]. intros [a|]; [done|].
  apply only_bind; [apply taken_ports_sparing|]. intros taken. case_bool_decide; [|done].
  apply only_try; [by apply write_applied_sparing|done].
Qed.

Lemma poll_sparing {A} turns deadline (body : hprog (option (option A))) : sparing body → sparing (poll turns deadline body).
Proof.
  intros Hb. induction turns as [|t IH]; cbn [poll]; [done|]. apply only_try; [done|]. intros [a|]; [done|]. bland.
Qed.

Lemma try_passwords_sparing server database ps : sparing (try_passwords server database ps).
Proof. induction ps as [|p ps IH]; cbn [try_passwords]; [done|]. bland. Qed.

Lemma connect_ready_sparing i database : sparing (connect_ready i database).
Proof.
  unfold connect_ready. apply only_bind; [bland|]. intros start. apply poll_sparing.
  apply only_bind; [apply try_passwords_sparing|]. by intros [].
Qed.

Lemma apply_roles_sparing i applied : sparing (apply_roles i applied).
Proof. unfold apply_roles, apply_replication_role, apply_owner, apply_database, pg_exec. bland. Qed.

Lemma apply_extensions_sparing i applied : sparing (apply_extensions i applied).
Proof. unfold apply_extensions, install_extension, pg_exec. bland. Qed.

Lemma apply_postgres_sparing i applied : sparing (apply_postgres i applied).
Proof.
  unfold apply_postgres. apply only_try; [apply connect_ready_sparing|intros _]. apply only_try; [bland|].
  intros []; cbn [negb]; [bland|]. apply only_try; [apply apply_roles_sparing|intros _]. apply only_bind; [bland|intros _].
  apply only_try; [apply connect_ready_sparing|intros _]. apply only_try; [apply apply_extensions_sparing|]. bland.
Qed.

Lemma wait_for_proxy_sparing i : sparing (wait_for_proxy i).
Proof.
  unfold wait_for_proxy. cbv zeta. apply only_try; [apply connect_ready_sparing|intros _]. apply only_bind; [bland|].
  intros start. apply poll_sparing. bland.
Qed.

Lemma write_pgpass_sparing i l : ¬ S (path_join (l_data l) ".pgpass") → sparing (write_pgpass i l).
Proof.
  intros Hp. unfold write_pgpass. cbv zeta. apply only_bind; [bland|]. intros text. case_match; [|done].
  case_match. apply only_try; [by apply write_if_changed_sparing|done].
Qed.

Lemma apply_ready_sparing i l applied first_start : ¬ S (path_join (l_data l) ".pgpass") →
  sparing (apply_ready i l applied first_start).
Proof.
  intros Hp. unfold apply_ready. apply only_try; [by apply write_pgpass_sparing|intros _].
  apply only_try; [apply apply_postgres_sparing|intros record].
  apply only_try; [destruct (is_replica i); [done|apply wait_for_proxy_sparing]|intros _].
  apply only_bind; [|done]. destruct first_start; [|done]. by intros r; split; [apply gentle_nothing|].
Qed.

Lemma apply_finish_sparing i l applied first_start : ¬ S (path_join (l_data l) ".pgpass") → ¬ S (l_applied l) →
  sparing (apply_finish i l applied first_start).
Proof.
  intros Hp Ha. unfold apply_finish. apply only_bind; [bland|]. intros []; [|done]. cbn [negb].
  apply only_try; [by apply apply_ready_sparing|intros record]. apply only_try; [by apply write_applied_sparing|done].
Qed.
Lemma initialize_sparing i l bin applied :
  (∀ q, S q → outside_restore l q) → ¬ S (l_applied l) → ¬ S (path_join (l_dir l) "initdb.pw") →
  only (λ o, spares S (obs_ev o)) (initialize i l bin applied).
Proof.
  intros Hout Ha Hpw. assert (∀ q, S q → under (l_data l) q = false) as Hdata by (intros q Hq; apply (Hout q Hq)).
  unfold initialize. destruct (if _ && _ then i_restore i else None) as [restore|].
  - apply only_bind; [by apply only_hdo; intros; split|]. intros _. apply only_try; [by apply restorer_spares|]. intros _.
    apply only_try; [|done]. by apply gentle_only_spares, write_applied_sparing.
  - destruct (negb _); [done|]. apply only_bind; [by apply only_hdo; intros; split|]. intros []; [done|]. unfold run_initdb. cbv zeta.
    apply only_bind; [by apply only_hdo; intros; split|]. intros there. apply only_try.
    { destruct there; [|done]. apply only_must, only_hdo. intros r. split; [apply Hdata|done]. }
    intros _. apply only_try; [by apply gentle_only_spares, write_if_changed_sparing|]. intros _.
    apply only_try; [apply only_hdo; intros r; split; [|done]; intros q Hq; cbn; by rewrite Hdata|]. intros ok.
    apply only_bind; [by apply gentle_only_spares, remove_one_sparing|]. intros _.
    destruct ok; [|done]. by intros r; split; [split|].
Qed.
End footprints.

(** ** Data once applied is kept *)

(** Nothing that replaces a data directory: no tree is removed, no backup
    fetched and initdb does not run. *)
Definition harmless (e : hcall) : Prop :=
  match e with
  | RemoveTree _ | RunOutput _ _ => False
  | RunProgram _ args => head args ≠ Some "-D"
  | _ => True
  end.

Section kept.
Context (id unit_dir : string) {laws : RunnerLaws unit_dir run}.
Let L : Layout := layout_new (instances_dir config) id.
Let version_file : string := path_join (l_data L) "PG_VERSION".
Hypothesis units_apart : under unit_dir (l_applied L) = false ∧ under unit_dir version_file = false.

(** The record says the bootstrap ran to its end, and there is a database. *)
Definition kept_data (w : machine) : Prop :=
  (∃ a, files w !! l_applied L = Some (applied_to_json a) ∧ a_bootstrapped a = true) ∧ present w version_file.

Let T (q : string) : Prop := q = l_applied L ∨ q = version_file.

Ltac apart :=
  unfold T, version_file, L, tls_path, l_tls, l_data, l_applied, l_logs, l_agent_config, l_env_file, l_pg_hba,
    l_pgcluster_config, l_postgres_conf, l_reload_owed;
  let E := fresh "E" in
  intros [E|E]; rewrite ?path_join_join in E by done; apply path_join_inj in E; discriminate.

Lemma same_kept w w' :
  (∀ q, T q → files w' !! q = files w !! q ∧ (q ∈ dirs w → q ∈ dirs w')) → kept_data w → kept_data w'.
Proof.
  intros Hf [(a & Ha & Hb) Hv]. destruct (Hf (l_applied L)) as [E1 _]; [by left|].
  destruct (Hf version_file) as [E2 Hd]; [by right|]. split; [exists a; by rewrite E1|].
  destruct Hv as [Hv|Hv]; [left; by rewrite E2|right; auto].
Qed.

Lemma gentle_keeps {A} (p : hprog A) w :
  only (λ o, gentle T (obs_ev o)) p → kept_data w → safe kept_data harmless p (λ _ _, True) w.
Proof.
  intros Hp Hw. eapply safe_weaken; [apply (safe_only kept_data (gentle T)); [exact Hp| |done]|done| |done].
  - intros w1 e r w2 [Hs _] Hw1 Hst. eapply same_kept; [|done]. by eapply spares_step.
  - intros e [_ Hm]. by destruct e.
Qed.

Lemma runner_keeps {A} (p : hprog A) Q w :
  runs_within unit_dir p Q → kept_data w → safe kept_data harmless p (λ _ _, True) w.
Proof.
  intros Hp Hw. eapply safe_weaken; [apply Hp| | |done].
  - intros w' [Hf Hd]. eapply same_kept; [|exact Hw]. intros q Hq. rewrite Hd. split; [|done].
    apply Hf. by destruct units_apart, Hq as [->| ->].
  - intros e He. by destruct e.
Qed.

(** A step that may fail and keeps the data, and what follows. *)
Lemma keeps_try {A B} (p : hprog (option A)) (f : A → hprog (option B)) w :
  safe kept_data harmless p (λ _ _, True) w →
  (∀ a w, kept_data w → safe kept_data harmless (f a) (λ _ _, True) w) →
  safe kept_data harmless (try_bind p f) (λ _ _, True) w.
Proof. intros Hp Hf. eapply safe_bind_mono; [exact Hp|]. intros [a|] w' Hw _; [auto|by split]. Qed.

Lemma kept_bind {A B} (p : hprog A) (f : A → hprog B) w :
  safe kept_data harmless p (λ _ _, True) w →
  (∀ a w, kept_data w → safe kept_data harmless (f a) (λ _ _, True) w) →
  safe kept_data harmless (p ≫= f) (λ _ _, True) w.
Proof. intros Hp Hf. eapply safe_bind_mono; [exact Hp|]. auto. Qed.

Lemma keeps_call {B} e (f : hanswer e → hprog B) w :
  kept_data w → gentle T e → (∀ r w, kept_data w → safe kept_data harmless (f r) (λ _ _, True) w) →
  safe kept_data harmless (hdo e ≫= f) (λ _ _, True) w.
Proof. intros Hw He Hf. apply kept_bind; [|done]. by apply gentle_keeps; [apply only_hdo|]. Qed.

(** What is read of a record that is there. *)
Lemma mark_kept i w : kept_data w →
  safe kept_data harmless (mark_directory i L) (λ o _, ∃ a, o = Some a ∧ a_bootstrapped a = true) w.
Proof.
  intros Hw. destruct (Hw) as [(a & Ha & Hb) _]. unfold mark_directory, read_applied.
  split; [done|]. split; [done|]. intros r w' [-> ->]. rewrite Ha. cbn. rewrite applied_json_back. split; [done|eauto].
Qed.

Lemma initialize_kept i bin applied w : a_bootstrapped applied = true → kept_data w →
  safe kept_data harmless (initialize i L bin applied) (λ _ _, True) w.
Proof.
  intros Hb Hw. unfold initialize. rewrite Hb, andb_false_r. case_match; [by split|].
  split; [done|]. split; [done|]. intros r w' [-> ->]. rewrite bool_decide_true; [by split|]. apply Hw.
Qed.

Lemma write_files_keeps i bin nodes w : kept_data w → safe kept_data harmless (write_files i L bin nodes) (λ _ _, True) w.
Proof.
  intros Hw. apply gentle_keeps; [|done]. unfold write_files.
  apply only_try; [|intros; apply only_try; [|done]; apply write_if_changed_sparing; apart].
  apply write_all_sparing. unfold reload_files. cbv zeta. apply Forall_app. split.
  - repeat (apply Forall_cons; split; [apart|]). done.
  - apply Forall_app. split; [repeat case_match; repeat (apply Forall_cons; split; [apart|]); done|].
    repeat (apply Forall_cons; split; [apart|]). done.
Qed.

Lemma prepare_keeps i bin w : instance_id i = id → kept_data w →
  safe kept_data harmless (apply_prepare i L bin) (λ _ _, True) w.
Proof.
  intros Hid Hw. unfold apply_prepare.
  apply keeps_try; [apply gentle_keeps; [apply prepare_directories_sparing|done]|]. intros _ w1 Hw1.
  eapply safe_bind_mono; [by apply mark_kept|]. cbn beta. intros o w2 Hw2 (a & -> & Hb).
  apply keeps_try.
  { apply gentle_keeps; [|done]. destruct quota_fs; [|done]. apply quota_apply_sparing. apart. }
  intros _ w3 Hw3. apply keeps_try; [apply gentle_keeps; [apply node_addresses_sparing|done]|]. intros nodes w4 Hw4.
  apply keeps_try; [apply gentle_keeps; [apply apply_firewall_sparing|done]|]. intros _ w5 Hw5.
  apply keeps_try; [apply gentle_keeps; [apply prepare_repository_sparing|done]|]. intros _ w6 Hw6.
  apply keeps_try; [by apply write_files_keeps|]. intros changed w7 Hw7.
  apply keeps_try; [by apply initialize_kept|]. intros first w8 Hw8.
  apply keeps_try; [|by split]. apply gentle_keeps; [|done]. apply write_if_changed_sparing. apart.
Qed.

Lemma reload_all_keeps i p w : p_layout p = L → kept_data w → safe kept_data harmless (reload_all i p) (λ _ _, True) w.
Proof.
  intros Hl Hw. unfold reload_all. apply keeps_try; [eapply runner_keeps; [apply law_reload_certificates|done]|].
  intros _ w1 Hw1. apply keeps_call; [done|by apply gentle_nothing|]. intros there w2 Hw2. apply keeps_try.
  - destruct there; [|by split]. rewrite Hl. split; [done|]. split; [done|]. intros r w3 Hs.
    assert (kept_data w3) as Hw3; [|by destruct r as [[]|]].
    eapply same_kept; [|exact Hw2]. intros q Hq. eapply untouched; [exact Hs|]. destruct Hq as [-> | ->]; cbn.
    + unfold l_data, l_applied. by rewrite under_rel.
    + by rewrite String.eqb_refl, andb_false_r.
  - intros _ w3 Hw3. apply keeps_call; [done|by apply gentle_nothing|]. by split.
Qed.

Lemma processes_keeps i p changed conf_changed w : p_layout p = L → kept_data w →
  safe kept_data harmless (apply_processes i p changed conf_changed) (λ _ _, True) w.
Proof.
  intros Hl Hw. unfold apply_processes. rewrite Hl. cbv zeta.
  apply keeps_try; [eapply runner_keeps; [apply law_install|done]|]. intros _ w1 Hw1.
  apply keeps_call; [done|by apply gentle_nothing|]. intros owed w2 Hw2.
  apply keeps_try.
  { apply gentle_keeps; [|done]. case_match; [|done]. apply write_if_changed_sparing. apart. }
  intros _ w3 Hw3. apply keeps_try; [eapply runner_keeps; [apply law_is_running|done]|]. intros running w4 Hw4.
  apply keeps_try.
  - destruct running; cbn [negb]; [|eapply runner_keeps; [apply law_start|done]].
    case_match; [apply keeps_call; [done|by apply gentle_nothing|]; intros _ w5 Hw5; eapply runner_keeps; [apply law_restart|done]|].
    case_match; [by apply reload_all_keeps|]. case_match; [eapply runner_keeps; [apply law_reload_proxy|done]|by split].
  - intros _ w5 Hw5. apply kept_bind; [|by split]. apply gentle_keeps; [|done]. apply remove_one_sparing. apart.
Qed.

Lemma apply_ready_gentle i applied first_start : only (λ o, gentle T (obs_ev o)) (apply_ready i L applied first_start).
Proof. apply apply_ready_sparing. apart. Qed.

(** The record written last says the bootstrap is over. *)
Lemma record_kept a w : a_bootstrapped a = true → present w version_file →
  safe (λ w', present w' version_file ∧ (kept_data w → kept_data w')) harmless (write_applied L a)
    (λ o w', o = Some () → kept_data w') w.
Proof.
  intros Ha Hv. assert (∀ w', w' = set_files <[l_applied L := applied_to_json a]> w → kept_data w') as Hset.
  { intros w' ->. split; [exists a; cbn; by rewrite lookup_insert_eq|]. destruct Hv as [[t Ht]|Hv]; [|by right].
    left. cbn. rewrite lookup_insert_ne; [by exists t|]. unfold version_file, l_applied, l_data. intros E.
    rewrite path_join_join in E by done. by apply path_join_inj in E. }
  unfold write_applied, write_private_if_changed. split; [done|]. split; [done|]. intros r w' [-> ->]. cbn -[step safe].
  case_bool_decide as E; [split; [done|]; intros _; split; [by exists a|done]|].
  split; [done|]. split; [done|]. intros [] w'; cbn -[safe]; intros ->; [|by split].
  pose proof (Hset _ eq_refl) as Hw. unfold give_to. destruct other_user.
  - split; [split; [apply Hw|done]|]. split; [done|]. intros [] w' ->; (split; [split; [apply Hw|done]|]); done.
  - split; [split; [apply Hw|done]|]. done.
Qed.

Lemma finish_keeps i applied first_start w : kept_data w →
  safe kept_data harmless (apply_finish i L applied first_start) (λ _ _, True) w.
Proof.
  intros Hw. apply keeps_call; [done|by apply gentle_nothing|]. intros [] w1 Hw1; cbn [negb]; [|by split].
  apply keeps_try; [apply gentle_keeps; [apply apply_ready_gentle|done]|]. intros record w2 Hw2.
  apply keeps_try; [|by split]. eapply safe_weaken; [apply record_kept; [done|apply Hw2]|naive_solver|done|done].
Qed.

(** A running instance's data is kept, whatever happened before. *)
Lemma finish_running i applied first_start w :
  safe anything any_call (apply_finish i L applied first_start) (λ o w', o = Some Running → kept_data w') w.
Proof.
  split; [done|]. split; [done|]. intros r w1 [-> ->]. fold version_file. case_bool_decide as Hv; cbn [negb]; [|by split].
  eapply safe_try with (Q' := λ _ w', present w' version_file).
  - eapply safe_weaken; [apply (safe_only (λ w, present w version_file) (gentle T)); [apply apply_ready_gentle| |exact Hv]|done|done|].
    + intros w2 e r w3 [Hs _] Hp Hst. eapply spares_step in Hst as [Hf _]; [|done].
      destruct (Hf version_file) as [E Hd]; [by right|]. destruct Hp as [Hp|Hp]; [left; by rewrite E|right; auto].
    + by intros [record|] w2 Hp _.
  - intros record w2 _ Hp. eapply safe_try with (Q' := λ _ w', kept_data w').
    + eapply safe_weaken; [by apply record_kept|done|done|]. intros [[]|] w3 _ Ho; [by apply Ho|done].
    + intros _ w3 _ Hw3. by split.
Qed.

Lemma processes_for_layout i I (P : hcall → Prop) w : instance_id i = id → I w → P CurrentExe →
  safe I P (processes_for i) (λ o w', w' = w ∧ ∀ p, o = Some p → p_layout p = L) w.
Proof.
  intros Hid HI HP. unfold processes_for, processes. rewrite Hid. destruct (vk_agent_path config) as [path|].
  - split; [done|]. split; [done|]. by intros p [= <-].
  - split; [done|]. split; [done|]. intros [path|] w' ->; (split; [done|]); (split; [done|]); [by intros p [= <-]|done].
Qed.

Lemma apply_keeps i w : instance_id i = id → kept_data w → safe kept_data harmless (apply i) (λ _ _, True) w.
Proof.
  intros Hid Hw. unfold apply. case_match; [by split|].
  eapply safe_try with (Q' := λ p _, p_layout p = L).
  { eapply safe_mono; [by apply processes_for_layout|]. intros [p|] w1 _ [_ Hp]; [by apply Hp|done]. }
  intros p w1 Hw1 Hl. cbv zeta. rewrite Hl. apply keeps_call; [done|by apply gentle_nothing|].
  intros [] w2 Hw2; cbn [negb]; [|by split]. apply keeps_try; [by apply prepare_keeps|].
  intros [[[applied changed] first_start] conf_changed] w3 Hw3.
  apply keeps_try; [by apply processes_keeps|]. intros _ w4 Hw4. by apply finish_keeps.
Qed.

(** Programs about whose runs nothing else is asked. *)
Lemma after_try {A B} (p : hprog (option A)) (f : A → hprog (option B)) (Q : option B → machine → Prop) w :
  (∀ w, Q None w) → (∀ a w, safe anything any_call (f a) Q w) → safe anything any_call (try_bind p f) Q w.
Proof.
  intros Hn Hf. eapply safe_bind_mono; [apply safe_True|]. intros [a|] w' _ _; [auto|by split].
Qed.

Lemma apply_running i w : instance_id i = id →
  safe anything any_call (apply i) (λ o w', o = Some Running →
    kept_data w' ∧ instance_validate (λ c, bool_decide (is_Some (parse_net c))) i = true) w.
Proof.
  intros Hid. unfold apply. destruct (instance_validate _ i) eqn:Ev; [cbn [negb]|by split].
  eapply safe_try with (Q' := λ p _, p_layout p = L).
  { eapply safe_mono; [by apply processes_for_layout|]. intros [p|] w1 _ [_ Hp]; [by apply Hp|done]. }
  intros p w1 _ Hl. cbv zeta. rewrite Hl. apply safe_do; [done|done|]. intros [] w2 _; cbn [negb]; [|by split].
  apply after_try; [done|]. intros [[[applied changed] first_start] conf_changed] w3.
  apply after_try; [done|]. intros _ w4. eapply safe_mono; [apply finish_running|]. auto.
Qed.

End kept.

(** ** Removal *)

(** The host whose record a directory carries. *)
Definition owner_of (w : machine) (id : string) : option string :=
  a_host_id <$> (files w !! l_applied (layout_new (instances_dir config) id) ≫= applied_of_json).

Section removal.
Context (unit_dir : string) {laws : RunnerLaws unit_dir run}.

(** Calls that touch no file keep what is said of files. *)
Lemma safe_untouched {A B} (I : machine → Prop) (p : hprog A) (f : A → hprog B) Q w :
  (∀ w1 w2, (∀ q, files w2 !! q = files w1 !! q) → I w1 → I w2) →
  only (λ o, ∀ q, touches (obs_ev o) q = false) p → I w → (∀ a w, I w → safe I any_call (f a) Q w) →
  safe I any_call (p ≫= f) Q w.
Proof.
  intros HI Hp Hw Hf. eapply safe_bind_mono; [|intros a w' Hw' _; by apply Hf].
  eapply safe_weaken; [apply (safe_only I (λ e, ∀ q, touches e q = false)); [exact Hp| |done]|done|done|done].
  intros w1 e r w2 Ht Hw1 Hs. apply (HI w1); [|done]. intros q. by eapply untouched.
Qed.

End removal.

(** ** Work on one instance leaves the others alone *)

Section elsewhere.
Context (unit_dir : string) {laws : RunnerLaws unit_dir run}.
Context (S : string → Prop) (S_units : ∀ q, S q → under unit_dir q = false).

(** What is in [S] is as it was. *)
Definition left_alone (w w' : machine) : Prop :=
  ∀ q, S q → files w' !! q = files w !! q ∧ (q ∈ dirs w → q ∈ dirs w').

Abbreviation leaving p := (∀ w, safe (left_alone w) any_call p (λ _ _, True) w).

Lemma left_alone_trans w1 w2 w3 : left_alone w1 w2 → left_alone w2 w3 → left_alone w1 w3.
Proof. intros Hl Hr q Hq. destruct (Hl q Hq) as [<- ?], (Hr q Hq) as [<- ?]. auto. Qed.

Lemma leaving_bind {A B} (p : hprog A) (f : A → hprog B) : leaving p → (∀ a, leaving (f a)) → leaving (p ≫= f).
Proof.
  intros Hp Hf w. eapply safe_bind_mono; [apply Hp|]. intros a w' Hw _.
  eapply safe_weaken; [apply Hf| |done|done]. intros w''. by apply left_alone_trans.
Qed.

Lemma leaving_try {A B} (p : hprog (option A)) (f : A → hprog (option B)) :
  leaving p → (∀ a, leaving (f a)) → leaving (try_bind p f).
Proof. intros Hp Hf. apply leaving_bind; [done|]. intros [a|]; [done|]. by split. Qed.

Lemma leaving_ret {A} (a : A) : leaving (Ret a : hprog A).
Proof. by split. Qed.

Lemma leaving_spares {A} (p : hprog A) : only (λ o, spares S (obs_ev o)) p → leaving p.
Proof. intros Hp w. eapply safe_weaken; [by apply safe_spares|by intros w' [? _]|done|done]. Qed.

Lemma leaving_gentle {A} (p : hprog A) : only (λ o, gentle S (obs_ev o)) p → leaving p.
Proof. intros Hp. by apply leaving_spares, gentle_only_spares. Qed.

Lemma leaving_runner {A} (p : hprog A) Q : runs_within unit_dir p Q → leaving p.
Proof.
  intros Hp w. eapply safe_weaken; [apply Hp| |done|done]. intros w' [Hf Hd] q Hq. rewrite Hd, Hf by auto. done.
Qed.

Lemma leaving_call e : (∀ q, touches e q = false) → mild e → leaving (hdo e).
Proof. intros Ht Hm. apply leaving_gentle, only_hdo. intros. by apply gentle_nothing. Qed.

Section one.
Context (id : string).
Let L : Layout := layout_new (instances_dir config) id.
Hypothesis S_apart : ∀ q, S q → under (l_dir L) q = false.

Ltac inside :=
  let E := fresh "E" in intros E; apply S_apart in E; revert E; cbn [fst];
  unfold tls_path, l_tls, l_data, l_applied, l_logs, l_agent_config, l_env_file, l_pg_hba, l_pgcluster_config,
    l_postgres_conf, l_reload_owed; rewrite ?path_join_join by done; by rewrite under_join.

Lemma data_apart q : S q → under (l_data L) q = false.
Proof. intros Hq. apply not_true_iff_false. intros E%under_sub. by rewrite S_apart in E. Qed.

Lemma initialize_leaving i bin applied : leaving (initialize i L bin applied).
Proof.
  assert (∀ q, S q → outside_restore L q) as Hout.
  { intros q Hq. split; [by apply data_apart|]. intros Hin. apply S_apart in Hq. revert Hin.
    unfold l_walg_restore_config. rewrite (with_tmp_join _ "walg-restore.json" "walg-restore" "json") by done.
    unfold l_logs. rewrite path_join_join by done. rewrite !elem_of_cons, elem_of_nil.
    intros Hin. repeat destruct Hin as [Hin|Hin]; try done; subst q; by rewrite under_join in Hq. }
  apply leaving_spares, initialize_sparing; [done|inside|inside].
Qed.

Lemma prepare_leaving i bin : leaving (apply_prepare i L bin).
Proof.
  unfold apply_prepare. apply leaving_try; [apply leaving_gentle, prepare_directories_sparing|intros _].
  apply leaving_try; [apply leaving_gentle, mark_directory_sparing; inside|intros applied].
  apply leaving_try; [destruct quota_fs; [apply leaving_gentle, quota_apply_sparing; inside|apply leaving_ret]|intros _].
  apply leaving_try; [apply leaving_gentle, node_addresses_sparing|intros nodes].
  apply leaving_try; [apply leaving_gentle, apply_firewall_sparing|intros _].
  apply leaving_try; [apply leaving_gentle, prepare_repository_sparing|intros _].
  apply leaving_try; [|intros changed; apply leaving_try; [apply initialize_leaving|intros first];
    apply leaving_try; [apply leaving_gentle, write_if_changed_sparing; inside|intros conf; apply leaving_ret]].
  apply leaving_gentle. unfold write_files.
  apply only_try; [|intros; apply only_try; [|done]; apply write_if_changed_sparing; inside].
  apply write_all_sparing. unfold reload_files. cbv zeta. rewrite !Forall_app.
  split; [repeat (apply Forall_cons; split; [inside|]); done|].
  split; [repeat case_match; repeat (apply Forall_cons; split; [inside|]); done|].
  repeat (apply Forall_cons; split; [inside|]). done.
Qed.

Lemma processes_leaving i p changed conf_changed : p_layout p = L → leaving (apply_processes i p changed conf_changed).
Proof.
  intros Hl. unfold apply_processes. rewrite Hl. cbv zeta.
  apply leaving_try; [eapply leaving_runner, law_install|intros _].
  apply leaving_bind; [by apply leaving_call|intros owed].
  apply leaving_try; [case_match; [apply leaving_gentle, write_if_changed_sparing; inside|apply leaving_ret]|intros _].
  apply leaving_try; [eapply leaving_runner, law_is_running|intros running].
  apply leaving_try; [|intros _; apply leaving_bind; [apply leaving_gentle, remove_one_sparing; inside|intros _; apply leaving_ret]].
  destruct running; cbn [negb]; [|eapply leaving_runner, law_start].
  case_match; [apply leaving_bind; [by apply leaving_call|intros _]; eapply leaving_runner, law_restart|].
  case_match; [|case_match; [eapply leaving_runner, law_reload_proxy|apply leaving_ret]].
  unfold reload_all. rewrite Hl. apply leaving_try; [eapply leaving_runner, law_reload_certificates|intros _].
  apply leaving_bind; [by apply leaving_call|intros there].
  apply leaving_try; [|intros _; apply leaving_bind; [by apply leaving_call|intros _; apply leaving_ret]].
  destruct there; [|apply leaving_ret]. apply leaving_spares, only_bind; [|by intros []].
  apply only_hdo. intros r. split; [|done]. intros q Hq. cbn. by rewrite data_apart.
Qed.

(** Applying an instance changes nothing outside its directory and the units'. *)
Lemma apply_leaving i : instance_id i = id → leaving (apply i).
Proof.
  intros Hid. unfold apply. case_match; [apply leaving_ret|]. intros w.
  eapply safe_try with (Q' := λ p _, p_layout p = L).
  { eapply safe_weaken; [apply (processes_for_layout id i (left_alone w) any_call)| | |]; try done.
    intros [p|] w1 _ [_ Hp]; [by apply Hp|done]. }
  intros p w1 Hw1 Hl. cbv zeta. rewrite Hl. eapply safe_weaken; [|intros w'; by apply left_alone_trans|done|done].
  revert w1 Hw1. enough (leaving (there ← hdo (PathExists (path_join (pg_bin config (i_postgres_version i)) "initdb"));
    if negb there then Ret None else
      prepared ←? apply_prepare i L (pg_bin config (i_postgres_version i));
      let '(applied, changed, first_start, conf_changed) := prepared in
      _ ←? apply_processes i p changed conf_changed; apply_finish i L applied first_start)) by auto.
  apply leaving_bind; [by apply leaving_call|]. intros []; cbn [negb]; [|apply leaving_ret].
  apply leaving_try; [apply prepare_leaving|]. intros [[[applied changed] first] conf].
  apply leaving_try; [by apply processes_leaving|intros _]. apply leaving_gentle, apply_finish_sparing; inside.
Qed.

(** So does removing one. *)
Lemma remove_leaving : leaving (remove_instance id).
Proof.
  unfold remove_instance. fold L. apply leaving_bind; [apply leaving_try; [by apply leaving_call|intros; apply leaving_ret]|].
  intros [a|]; [|apply leaving_ret]. case_match; [apply leaving_ret|]. apply leaving_bind; [by apply leaving_call|intros version].
  apply leaving_try; [apply leaving_gentle, processes_sparing|intros p].
  apply leaving_try; [eapply leaving_runner, law_remove|intros _].
  apply leaving_try; [apply leaving_gentle; unfold firewall_apply; destruct (firewall config); [|done]|intros _].
  { apply only_must, only_hdo. intros. by apply gentle_nothing. }
  apply leaving_bind; [apply leaving_gentle; destruct quota_fs; [|done]|intros _].
  { apply only_must, only_hdo. intros. by apply gentle_nothing. }
  apply leaving_try; [|intros _; apply leaving_ret]. apply leaving_spares, only_must, only_hdo. by intros r.
Qed.
End one.
End elsewhere.

(** ** Several instances on a host *)

Lemma validate_entry (valid_net : string → bool) i : instance_validate valid_net i = true → entry_name (instance_id i) = true.
Proof.
  unfold instance_validate, plain_id, entry_name, instance_id. intros Hv. bool_prop. apply andb_true_iff. split.
  - by destruct (i_database_id i).
  - apply negb_true_iff. eapply every_no_char with (P := λ c, id_char c = true); [|by intros x Hx ->].
    rewrite every_app. split; [by apply str_all_true|]. change ("-" ++ i_node i)%string with (String "-" (i_node i)).
    constructor; [done|]. by apply str_all_true.
Qed.

Section several.
Context (unit_dir : string) {laws : RunnerLaws unit_dir run}.
Hypothesis units_elsewhere : ∀ id rel, under unit_dir (path_join (l_dir (layout_new (instances_dir config) id)) rel) = false.
Abbreviation dir_of id := (l_dir (layout_new (instances_dir config) id)).

(** The files of an instance's directory. *)
Definition files_of (id q : string) : Prop := ∃ rel, q = path_join (dir_of id) rel.

Lemma files_of_units id q : files_of id q → under unit_dir q = false.
Proof. intros [rel ->]. apply units_elsewhere. Qed.

Lemma files_of_apart id id' q : entry_name id = true → entry_name id' = true → id ≠ id' → files_of id' q → under (dir_of id) q = false.
Proof. intros He He' Hne [rel ->]. by apply entries_apart. Qed.

Lemma kept_apart id : under unit_dir (l_applied (layout_new (instances_dir config) id)) = false ∧
  under unit_dir (path_join (l_data (layout_new (instances_dir config) id)) "PG_VERSION") = false.
Proof. unfold l_applied, l_data. rewrite path_join_join by done. by split. Qed.

(** The instance's record and database are files of its directory. *)
Lemma kept_left_alone id w w' : left_alone (files_of id) w w' → kept_data id w → kept_data id w'.
Proof.
  intros Hl. apply same_kept. intros q [->| ->]; apply Hl; [by eexists|].
  unfold l_data. rewrite path_join_join by done. by eexists.
Qed.

Lemma apply_keeps_other i id w : entry_name id = true → id ≠ instance_id i → kept_data id w →
  safe (kept_data id) any_call (apply i) (λ _ _, True) w.
Proof.
  intros He Hne Hk. destruct (instance_validate (λ c, bool_decide (is_Some (parse_net c))) i) eqn:Ev.
  - eapply safe_weaken; [apply (apply_leaving unit_dir (files_of id) (files_of_units id) (instance_id i))|by intros w' Hl; eapply kept_left_alone|done|done].
    + intros q. apply files_of_apart; [by eapply validate_entry|done|done].
    + done.
  - unfold apply. rewrite Ev. by split.
Qed.

Lemma apply_keeps_own i w : kept_data (instance_id i) w → safe (kept_data (instance_id i)) any_call (apply i) (λ _ _, True) w.
Proof. intros Hk. eapply safe_weaken; [by apply (apply_keeps _ unit_dir (kept_apart (instance_id i)))|done|done|done]. Qed.

Lemma remove_keeps_other id' id w : entry_name id = true → entry_name id' = true → id ≠ id' → kept_data id w →
  safe (kept_data id) any_call (remove_instance id') (λ _ _, True) w.
Proof.
  intros He He' Hne Hk.
  eapply safe_weaken; [apply (remove_leaving unit_dir (files_of id) (files_of_units id) id')|by intros w' Hl; eapply kept_left_alone|done|done].
  intros q. by apply files_of_apart.
Qed.

(** Removing one makes no directory another host's or this one's. *)
Lemma remove_leaves_other id' id w : entry_name id = true → entry_name id' = true → id ≠ id' → owner_of w id ≠ Some host_id →
  safe (λ w', owner_of w' id ≠ Some host_id) any_call (remove_instance id') (λ _ _, True) w.
Proof.
  intros He He' Hne Ho.
  eapply safe_weaken; [apply (remove_leaving unit_dir (files_of id) (files_of_units id) id')| |done|done].
  - intros q. by apply files_of_apart.
  - intros w' Hl. unfold owner_of in *. destruct (Hl (l_applied (layout_new (instances_dir config) id))) as [-> _]; [by eexists|done].
Qed.

(** A removal that succeeds leaves no record of this host, and makes no directory. *)
Lemma remove_gone id w :
  safe (λ w', dirs w' ⊆ dirs w) any_call (remove_instance id) (λ o w', is_Some o → owner_of w' id ≠ Some host_id) w.
Proof.
  set (I := λ w' : machine, dirs w' ⊆ dirs w).
  assert (∀ {A B} (p : hprog A) (f : A → hprog B) Q w1, only (λ o, ∀ w r w', step w (obs_ev o) r w' → w' = w) p → I w1 →
    (∀ a, safe I any_call (f a) Q w1) → safe I any_call (p ≫= f) Q w1) as Hlook.
  { intros A B p f Q w1 Hp Hw1 Hf. eapply safe_bind_mono with (Q' := λ _ w', w' = w1); [|by intros a w' _ ->].
    unfold mbind. clear Hf. induction p as [a|e k IH]; cbn in Hp |- *; (split; [done|]); [done|]. split; [done|].
    intros r w' Hs. rewrite (proj1 (Hp r) _ _ _ Hs). by apply IH, Hp. }
  unfold remove_instance, owner_of. set (L := layout_new (instances_dir config) id). cbv zeta.
  eapply safe_bind_mono with (Q' := λ o w', w' = w ∧ o = files w !! l_applied L ≫= applied_of_json).
  { split; [by unfold I|]. split; [done|]. intros r w' [-> ->].
    destruct (files w !! l_applied L); (split; [by unfold I|done]). }
  intros o w' _ [-> ->]. destruct (files w !! l_applied L ≫= applied_of_json) as [a|] eqn:Ea; [|split; [by unfold I|]; by rewrite Ea].
  destruct (String.eqb_spec (a_host_id a) host_id) as [Eh|Eh]; cbn [negb];
    [|split; [by unfold I|]; rewrite Ea; cbn; congruence].
  apply Hlook; [intros r; split; [by intros w1 r1 w2 [_ ->]|done]|by unfold I|]. intros version.
  apply (Hlook _ _ (processes _ _)); [unfold processes; destruct (vk_agent_path config); [done|by intros r; split; [by intros|destruct r]]|by unfold I|].
  intros [p|]; [|by split; [unfold I|intros []]].
  eapply safe_try with (Q' := λ _ w', I w').
  { eapply safe_weaken; [apply law_remove|by intros w1 [_ Hd]; unfold I; rewrite Hd|done|].
    intros [[]|] w1 [_ Hd] _; [unfold I; by rewrite Hd|by intros []]. }
  intros _ w1 Hw1 _. apply (Hlook _ _ (firewall_apply _)); [unfold firewall_apply; destruct (firewall config); [|done]; by intros []|done|].
  intros [[]|]; [|by split; [|intros []]]. apply Hlook; [destruct quota_fs; [by intros []|done]|done|]. intros _.
  split; [done|]. split; [done|]. intros r w2 [[Hc _] Hr].
  assert (I w2) as Hw2.
  { intros q Hq. destruct r; [|by apply Hw1, Hr]. destruct (under (l_dir L) q) eqn:E; [by destruct (Hr q E)|].
    apply Hw1. by apply Hc. }
  destruct r; cbn; (split; [done|]); [|by intros []]. intros _. destruct (Hr (l_applied L)) as [-> _]; [apply under_join|done].
Qed.
End several.

(** ** Changes reach the processes *)

Section reach.
Context (i : Instance) (unit_dir : string) {laws : RunnerLaws unit_dir run}.
Let id : string := instance_id i.
Let L : Layout := layout_new (instances_dir config) id.
Hypothesis units_elsewhere : ∀ rel, under unit_dir (path_join (l_dir L) rel) = false.

(** What both processes read, and what the proxy reads besides. *)
Definition shared_files : list string :=
  [tls_path L "ca.crt"; tls_path L "node.key"; tls_path L "node.crt"; tls_path L "proxy.key"; tls_path L "proxy.crt";
   l_agent_config L; l_env_file L; l_pg_hba L].

Definition reads (unit q : string) : Prop :=
  q ∈ shared_files ∨ unit = proxy_unit_name id ∧ q = l_pgcluster_config L.

Definition instance_units : list string :=
  agent_unit_name id :: if is_replica i then [] else [proxy_unit_name id].

(** The unit, if it runs, has read a file as it is now. *)
Definition has_read (w : machine) (unit q : string) : Prop :=
  ∀ s, active w !! unit = Some s → s !! q = files w !! q.

Definition fresh (w : machine) : Prop := ∀ u q, u ∈ instance_units → reads u q → has_read w u q.

(** Every process runs and has read its files as they are now. *)
Definition up_to_date (w : machine) : Prop :=
  ∀ u, u ∈ instance_units → ∃ s, active w !! u = Some s ∧ ∀ q, reads u q → s !! q = files w !! q.

(** All of the processes run, or none does. *)
Definition all_or_none (w : machine) : Prop :=
  (∀ u, u ∈ instance_units → is_Some (active w !! u)) ∨ (∀ u, u ∈ instance_units → active w !! u = None).

Let F (q : string) : Prop := q ∈ shared_files ∨ q = l_pgcluster_config L.
Let owed : string := l_reload_owed L.
Let G (q : string) : Prop := F q ∨ q = owed.

Lemma reads_F u q : reads u q → F q.
Proof. intros [?|[_ ?]]; [by left|by right]. Qed.

(** All of these are files of the instance. *)
Lemma G_inside q : G q → ∃ rel, q = path_join (l_dir L) rel.
Proof.
  unfold G, F, shared_files, owed, tls_path, l_tls, l_agent_config, l_env_file, l_pg_hba, l_pgcluster_config, l_reload_owed.
  rewrite !elem_of_cons, elem_of_nil. rewrite !path_join_join by done. naive_solver.
Qed.

Lemma up_to_date_agree w w' : agree F w w' → up_to_date w → up_to_date w'.
Proof.
  intros [Hf Ha] Hu u Hin. destruct (Hu u Hin) as (s & Hs & Hq). exists s. rewrite Ha. split; [done|].
  intros q Hr. destruct (Hf q) as [-> _]; [by eapply reads_F|]. auto.
Qed.

Ltac apart :=
  unfold G, F, owed, shared_files, L, tls_path, l_tls, l_data, l_applied, l_logs, l_agent_config, l_env_file, l_pg_hba,
    l_pgcluster_config, l_postgres_conf, l_reload_owed;
  rewrite ?elem_of_cons, ?elem_of_nil;
  let E := fresh "E" in
  intros E; repeat destruct E as [E|E]; try done; rewrite ?path_join_join in E by done; apply path_join_inj in E; discriminate.

Lemma G_outside_data q : G q → under (l_data L) q = false.
Proof.
  unfold G, F, shared_files, owed, tls_path, l_tls, l_agent_config, l_env_file, l_pg_hba, l_pgcluster_config, l_reload_owed.
  rewrite !elem_of_cons, elem_of_nil. unfold l_data. rewrite !path_join_join by done.
  intros E. repeat destruct E as [E|E]; try done; subst q; by rewrite under_rel.
Qed.

(** The parts before the processes that write none of them. *)
Lemma initialize_agrees bin applied : only (λ o, spares G (obs_ev o)) (initialize i L bin applied).
Proof.
  assert (∀ q, G q → outside_restore L q) as Hout.
  { intros q Hq. split; [by apply G_outside_data|]. revert q Hq. unfold l_walg_restore_config.
    rewrite (with_tmp_join _ "walg-restore.json" "walg-restore" "json") by done. unfold l_logs. rewrite path_join_join by done. intros q Hq Hin. revert Hq.
    rewrite !elem_of_cons, elem_of_nil in Hin. repeat destruct Hin as [Hin|Hin]; try done; subst q; apart. }
  apply initialize_sparing; [done|apart|apart].
Qed.

Abbreviation after := (safe anything any_call).

Lemma after_spares {A} (p : hprog A) w : only (λ o, spares G (obs_ev o)) p → after p (λ _ w', agree G w w') w.
Proof. intros Hp. eapply safe_weaken; [by apply safe_spares|done|done|]. by intros a w' Hw _. Qed.

Lemma write_if_changed_after b path text w :
  after (write_private_if_changed b path text) (λ o w', active w' = active w ∧ dirs w' = dirs w ∧
    (∀ q, q ≠ path → files w' !! q = files w !! q) ∧ (o = Some false → w' = w)) w.
Proof.
  unfold write_private_if_changed, give_to. split; [done|]. split; [done|]. intros r w' [-> ->]. cbn -[step safe].
  case_bool_decide; [by split|]. split; [done|]. split; [done|].
  intros [] w'; cbn -[safe]; intros ->; [|by split].
  assert (∀ q, q ≠ path → (<[path := text]> (files w)) !! q = files w !! q) as Hq
    by (intros q Hne; by rewrite lookup_insert_ne).
  destruct b; [|by split]. split; [done|]. split; [done|]. by intros [] w' ->.
Qed.

Lemma write_all_after changed fl w :
  after (write_all changed fl) (λ o w', active w' = active w ∧ dirs w' = dirs w ∧
    (∀ q, q ∉ fl.*1 → files w' !! q = files w !! q) ∧ (o = Some false → changed = false ∧ w' = w)) w.
Proof.
  revert changed w. induction fl as [|[path text] fl IH]; intros changed w; [split; [done|]; naive_solver|]. cbn [write_all].
  eapply safe_bind_mono; [apply write_if_changed_after|]. cbn beta. intros [c|] w1 _ (Ha & Hd & Hq & Hs).
  - eapply safe_mono; [apply IH|]. cbn beta. intros o w2 _ (Ha2 & Hd2 & Hq2 & Hs2).
    split; [congruence|]. split; [congruence|]. split.
    + cbn. intros q [Hp Hin]%not_elem_of_cons. by rewrite Hq2, Hq.
    + intros Ho. destruct (Hs2 Ho) as [[-> ->]%orb_false_iff ->]. split; [done|]. by apply Hs.
  - split; [done|]. split; [done|]. split; [done|]. split; [|done]. cbn. intros q [Hp _]%not_elem_of_cons. auto.
Qed.

(** What is known of the files before the processes hear of it. *)
Definition told (w w' : machine) (c : FilesChanged) : Prop :=
  active w' = active w ∧ (present w owed → present w' owed) ∧
  (fc_reload c = false → ∀ q, q ∈ shared_files → files w' !! q = files w !! q) ∧
  (fc_proxy_config c = false → files w' !! l_pgcluster_config L = files w !! l_pgcluster_config L).

Lemma reload_paths bin nodes q : q ∈ (reload_files i L bin nodes).*1 → q ∈ shared_files.
Proof.
  unfold reload_files, shared_files. cbv zeta. rewrite !fmap_app. rewrite !elem_of_app. intros [Hq|[Hq|Hq]].
  - set_solver.
  - repeat case_match; set_solver.
  - set_solver.
Qed.

Lemma shared_ne q : q ∈ shared_files → q ≠ l_pgcluster_config L ∧ q ≠ owed.
Proof. intros Hq. split; intros ->; revert Hq; apart. Qed.

Lemma write_files_after bin nodes w :
  after (write_files i L bin nodes) (λ o w', ∀ c, o = Some c → told w w' c) w.
Proof.
  unfold write_files. eapply safe_bind_mono; [apply write_all_after|]. cbn beta.
  intros [reload|] w1 _ (Ha & Hd & Hq & Hs); [|by split].
  eapply safe_bind_mono; [apply write_if_changed_after|]. cbn beta.
  intros [proxy|] w2 _ (Ha2 & Hd2 & Hq2 & Hs2); [|by split]. split; [done|]. intros c [= <-]. split; [congruence|].
  assert (files w2 !! owed = files w !! owed) as Eo.
  { rewrite Hq2, Hq; [done| |apart]. intros Hin%reload_paths. by destruct (shared_ne _ Hin). }
  split; [unfold present; by rewrite Eo, Hd2, Hd|]. cbn. split.
  - intros -> q Hin. destruct (shared_ne _ Hin) as [Hne _]. rewrite Hq2 by done. by destruct (Hs eq_refl) as [_ ->].
  - intros ->. rewrite (Hs2 eq_refl). apply Hq. intros Hin%reload_paths. by destruct (shared_ne _ Hin).
Qed.

(** Changes elsewhere, before or after, leave it so. *)
Lemma told_agree w0 w1 w2 w3 c : agree G w0 w1 → told w1 w2 c → agree G w2 w3 → told w0 w3 c.
Proof.
  intros [Hf1 Ha1] (Ha & Ho & Hr & Hp) [Hf3 Ha3]. destruct (Hf1 owed) as [E1 D1]; [by right|].
  destruct (Hf3 owed) as [E3 D3]; [by right|]. split; [congruence|]. split.
  { intros Hw. assert (present w1 owed) as Hw1 by (destruct Hw as [Hw|Hw]; [left; by rewrite E1|right; auto]).
    destruct (Ho Hw1) as [Hw2|Hw2]; [left; by rewrite E3|right; auto]. }
  assert (∀ q, F q → files w1 !! q = files w0 !! q ∧ files w3 !! q = files w2 !! q) as HF.
  { intros q Hq. split; [apply Hf1|apply Hf3]; by left. }
  split; [intros Hc q Hq|intros Hc].
  - destruct (HF q) as [E1' ->]; [by left|]. rewrite <- E1'. auto.
  - destruct (HF (l_pgcluster_config L)) as [E1' ->]; [by right|]. rewrite <- E1'. auto.
Qed.

(** The steps before and after the files, in one. *)
Lemma told_before {A B} (p : hprog A) (f : A → hprog (option (B * FilesChanged * bool * bool))) w :
  only (λ o, spares G (obs_ev o)) p →
  (∀ a w1, after (f a) (λ o w', ∀ x c y z, o = Some (x, c, y, z) → told w1 w' c) w1) →
  after (p ≫= f) (λ o w', ∀ x c y z, o = Some (x, c, y, z) → told w w' c) w.
Proof.
  intros Hp Hf. eapply safe_bind_mono; [by apply after_spares|]. cbn beta. intros a w1 _ Hw1.
  eapply safe_mono; [apply Hf|]. cbn beta. intros o w2 _ Ho x c y z E.
  eapply told_agree; [exact Hw1|by eapply Ho|apply agree_refl].
Qed.

Lemma told_try {A B} (p : hprog (option A)) (f : A → hprog (option (B * FilesChanged * bool * bool))) w :
  only (λ o, spares G (obs_ev o)) p →
  (∀ a w1, after (f a) (λ o w', ∀ x c y z, o = Some (x, c, y, z) → told w1 w' c) w1) →
  after (try_bind p f) (λ o w', ∀ x c y z, o = Some (x, c, y, z) → told w w' c) w.
Proof. intros Hp Hf. apply told_before; [done|]. intros [a|] w1; [auto|by split]. Qed.

Lemma prepare_after bin w :
  after (apply_prepare i L bin) (λ o w', ∀ x c y z, o = Some (x, c, y, z) → told w w' c) w.
Proof.
  unfold apply_prepare. apply told_try; [apply gentle_only_spares, prepare_directories_sparing|intros _ w1].
  apply told_try; [apply gentle_only_spares, mark_directory_sparing; apart|intros applied w2].
  apply told_try; [apply gentle_only_spares; destruct quota_fs; [apply quota_apply_sparing; apart|done]|intros _ w3].
  apply told_try; [apply gentle_only_spares, node_addresses_sparing|intros nodes w4].
  apply told_try; [apply gentle_only_spares, apply_firewall_sparing|intros _ w5].
  apply told_try; [apply gentle_only_spares, prepare_repository_sparing|intros _ w6].
  eapply safe_try with (Q' := λ c w', told w6 w' c).
  { eapply safe_mono; [apply write_files_after|]. intros [c|] w7 _ Hc; [by apply Hc|done]. }
  intros changed w7 _ Htold.
  eapply safe_try with (Q' := λ _ w', agree G w7 w').
  { eapply safe_mono; [apply after_spares, initialize_agrees|]. by intros [first|] w8 _ Hw8. }
  intros first w8 _ Hw8. eapply safe_try with (Q' := λ _ w', agree G w7 w').
  { eapply safe_mono; [apply after_spares, gentle_only_spares, write_if_changed_sparing; apart|].
    intros [conf|] w9 _ Hw9; [by eapply agree_trans|done]. }
  intros conf w9 _ Hw9. split; [done|]. intros x c y z [= <- <- <- <-].
  eapply told_agree; [apply agree_refl|done|done].
Qed.

(** Before the processes hear of changes: either they will be told, or what
    they have read is what the files say. *)
Definition tellable (w : machine) (c : FilesChanged) : Prop :=
  all_or_none w ∧
  (present w owed ∨ fc_reload c = true ∨
   (∀ u q, u ∈ instance_units → q ∈ shared_files → has_read w u q) ∧ (fc_proxy_config c = true ∨ fresh w)).

Lemma told_tellable w w' c : all_or_none w → present w owed ∨ fresh w → told w w' c → tellable w' c.
Proof.
  intros Hall Hw (Ha & Ho & Hr & Hp). split; [unfold all_or_none; by rewrite Ha|].
  destruct Hw as [Hw|Hw]; [by left; auto|]. right. destruct (fc_reload c); [by left|right]. specialize (Hr eq_refl).
  split; [|destruct (fc_proxy_config c); [by left|right]; specialize (Hp eq_refl)].
  - intros u q Hu Hq s. rewrite Ha, (Hr q) by done. by apply (Hw u q); [|left].
  - intros u q Hu Hq s. rewrite Ha. assert (files w' !! q = files w !! q) as -> by (destruct Hq as [Hq|[_ ->]]; auto).
    by apply (Hw u q).
Qed.

(** The runner's own files are none of these. *)
Lemma kept_files w w' q : kept unit_dir w w' → G q → files w' !! q = files w !! q.
Proof. intros [Hf _] Hq. destruct (G_inside q Hq) as [rel ->]. by apply Hf. Qed.

(** Loaded as the files were when a runner's call began is loaded as they are. *)
Lemma loaded_up_to_date w w' : kept unit_dir w w' →
  (∀ u, u ∈ instance_units → active w' !! u = Some (files w)) → up_to_date w'.
Proof.
  intros Hk Hu u Hin. exists (files w). split; [by apply Hu|]. intros q Hr. symmetry. apply kept_files; [done|].
  left. by eapply reads_F.
Qed.

(** What a runner's call did, with what it kept. *)
Lemma runs_after {A} (p : hprog A) Q w :
  runs_within unit_dir p Q → after p (λ a w', kept unit_dir w w' ∧ Q a w w') w.
Proof. intros Hp. eapply safe_weaken; [apply Hp|done|done|]. by intros a w' Hk HQ. Qed.

Lemma fresh_running w : fresh w → (∀ u, u ∈ instance_units → is_Some (active w !! u)) → up_to_date w.
Proof. intros Hf Ha u Hu. destruct (Ha u Hu) as [s Hs]. exists s. split; [done|]. intros q Hq. by apply (Hf u q). Qed.

Section told_processes.
Context (p : Processes) (p_id_eq : p_id p = id) (p_layout_eq : p_layout p = L)
  (p_proxy_eq : p_proxy p = negb (is_replica i)).

Lemma units_eq : units p = instance_units.
Proof. unfold units, instance_units. rewrite p_id_eq, p_proxy_eq. by destruct (is_replica i). Qed.

Lemma start_after w : (∀ u, u ∈ instance_units → active w !! u = None) →
  after (r_start run p) (λ o w', o = Some () → up_to_date w') w.
Proof.
  intros Hn. eapply safe_mono; [apply runs_after, law_start|]. cbn beta. rewrite units_eq.
  intros o w' _ [Hk Hs] Ho. eapply loaded_up_to_date; [done|]. intros u Hu. by rewrite (Hs Ho u Hu), Hn.
Qed.

Lemma restarted_after w : after (r_restart run p) (λ o w', o = Some () → up_to_date w') w.
Proof.
  eapply safe_mono; [apply runs_after, law_restart|]. cbn beta. rewrite units_eq.
  intros o w' _ [Hk Hs] Ho. eapply loaded_up_to_date; [done|]. auto.
Qed.

Lemma reload_all_after w : (∀ u, u ∈ instance_units → is_Some (active w !! u)) →
  after (reload_all i p) (λ o w', o = Some () → up_to_date w') w.
Proof.
  intros Hr. unfold reload_all. rewrite p_layout_eq. eapply safe_try with (Q' := λ _ w', up_to_date w').
  { eapply safe_mono; [apply runs_after, law_reload_certificates|]. cbn beta. rewrite units_eq.
    intros [[]|] w' _ [Hk Hs]; [|done]. eapply loaded_up_to_date; [done|]. intros u Hu. rewrite (Hs eq_refl u Hu).
    by destruct (Hr u Hu) as [s ->]. }
  intros _ w1 _ Hw1. apply safe_do; [done|done|]. intros there w2 [_ ->]. eapply safe_try with (Q' := λ _ w', up_to_date w').
  { destruct there; [|by split]. split; [done|]. split; [done|]. intros r w2 Hs.
    assert (up_to_date w2) as Hw2; [|by destruct r as [[]|]].
    eapply up_to_date_agree; [|exact Hw1]. split; [|by eapply same_active]. intros q Hq. eapply untouched; [exact Hs|].
    cbn. by rewrite G_outside_data by (by left). }
  intros _ w2 _ Hw2. apply safe_do; [done|done|]. intros [] w3 ->. by split.
Qed.

Lemma reload_proxy_after w : (∀ u, u ∈ instance_units → is_Some (active w !! u)) →
  (∀ u q, u ∈ instance_units → q ∈ shared_files → has_read w u q) →
  after (r_reload_proxy run p) (λ o w', o = Some () → up_to_date w') w.
Proof.
  intros Hr Hs. eapply safe_mono; [apply runs_after, law_reload_proxy|]. cbn beta. rewrite p_id_eq.
  intros o w' _ [Hk Ho] E u Hu. destruct (Ho E) as [Hne Hpr]. destruct (Hr u Hu) as [s Ea].
  destruct (decide (u = proxy_unit_name id)) as [->|Hu'].
  - rewrite Hpr, Ea. cbn. eexists. split; [done|]. intros q Hq. symmetry. apply kept_files; [done|]. left. by eapply reads_F.
  - rewrite (Hne u Hu'), Ea. exists s. split; [done|]. intros q [Hq|[? _]]; [|done].
    rewrite (kept_files w w') by (done || by left; left). by apply (Hs u q).
Qed.

(** What is left to decide once the mark was looked at. *)
Definition telling (w : machine) (reload proxy : bool) : Prop :=
  all_or_none w ∧
  (reload = true ∨
   (∀ u q, u ∈ instance_units → q ∈ shared_files → has_read w u q) ∧ (proxy = true ∨ fresh w)).

Lemma telling_same w w' reload proxy :
  active w' = active w → (∀ q, F q → files w' !! q = files w !! q) → telling w reload proxy → telling w' reload proxy.
Proof.
  intros Ha Hf [Hall Ht]. split; [unfold all_or_none; by rewrite Ha|]. destruct Ht as [Ht|[Hs Hp]]; [by left|right].
  split; [|destruct Hp as [Hp|Hp]; [by left|right]].
  - intros u q Hu Hq s. rewrite Ha, Hf by (by left). by apply (Hs u q).
  - intros u q Hu Hq s. rewrite Ha, Hf by (by eapply reads_F). by apply (Hp u q).
Qed.

(** The branch taken leaves every process up to date. *)
Lemma tell_after reload proxy conf_changed running w :
  telling w reload proxy → (running = true ↔ ∀ u, u ∈ instance_units → is_Some (active w !! u)) →
  after (if negb running then r_start run p
         else if conf_changed && negb (is_ha i) then
           _ ← hdo (AdminLog (i_operation_id i) "restarting the instance"); r_restart run p
         else if reload then reload_all i p
         else if proxy then r_reload_proxy run p
         else Ret (Some ())) (λ o w', o = Some () → up_to_date w') w.
Proof.
  intros [Hall Ht] Hrun. destruct running; cbn [negb].
  - assert (∀ u, u ∈ instance_units → is_Some (active w !! u)) as Hr by (by apply Hrun).
    destruct (conf_changed && negb (is_ha i)); [apply safe_do; [done|done|]; intros [] w1 ->; apply restarted_after|].
    destruct reload; [by apply reload_all_after|]. destruct Ht as [Ht|[Hs Hp]]; [done|].
    destruct proxy; [by apply reload_proxy_after|]. destruct Hp as [Hp|Hp]; [done|]. split; [done|].
    intros _. by apply fresh_running.
  - apply start_after. destruct Hall as [Hall|Hall]; [|done]. by apply Hrun in Hall.
Qed.

Lemma processes_after c conf_changed w : tellable w c →
  after (apply_processes i p c conf_changed) (λ o w', o = Some () → up_to_date w') w.
Proof.
  intros Hw. unfold apply_processes. rewrite p_layout_eq. cbv zeta. fold owed.
  eapply safe_try with (Q' := λ _ w', tellable w' c).
  { eapply safe_mono; [apply runs_after, law_install|]. cbn beta. intros [[]|] w1 _ [Hk Ha]; [|done]. specialize (Ha eq_refl).
    destruct Hw as [Hall Hw]. destruct (Hk) as [_ Hd].
    assert (∀ q, G q → files w1 !! q = files w !! q) as Hf by (intros; by apply kept_files).
    split; [unfold all_or_none; by rewrite Ha|]. destruct Hw as [Hw|Hw]; [left; unfold present; by rewrite Hf, Hd by (by right)|].
    right. destruct Hw as [Hw|[Hs Hp]]; [by left|right]. destruct (telling_same w w1 false (fc_proxy_config c)) as [_ [?|?]];
      [done|intros; apply Hf; by left|by split; [|right]|done|done]. }
  intros _ w1 _ Hw1. apply safe_do; [done|done|]. intros was_owed w2 [-> ->].
  assert (telling w1 (fc_reload c || bool_decide (is_Some (files w1 !! owed) ∨ owed ∈ dirs w1)) (fc_proxy_config c)) as Hw2.
  { destruct Hw1 as [Hall Hw1]. split; [done|]. destruct Hw1 as [Hw1|[-> |Hw1]]; [left|by left|by right].
    rewrite bool_decide_true by done. apply orb_true_r. }
  generalize dependent (fc_reload c || bool_decide (is_Some (files w1 !! owed) ∨ owed ∈ dirs w1)). intros reload Hw2.
  eapply safe_try with (Q' := λ _ w', telling w' reload (fc_proxy_config c)).
  { destruct (reload || fc_proxy_config c); [|by split]. eapply safe_mono; [apply write_if_changed_after|]. cbn beta.
    intros [b|] w3 _ (Ha & _ & Hq & _); [|done]. eapply telling_same; [exact Ha| |exact Hw2]. intros q Hin. apply Hq.
    intros ->. revert Hin. apart. }
  intros _ w3 _ Hw3. eapply safe_try with (Q' := λ b w', telling w' reload (fc_proxy_config c) ∧
    (b = true ↔ ∀ u, u ∈ instance_units → is_Some (active w' !! u))).
  { eapply safe_mono; [apply runs_after, law_is_running|]. cbn beta. rewrite units_eq.
    intros [b|] w4 _ [_ [-> Hb]]; [|done]. by split; [|apply Hb]. }
  intros running w4 _ [Hw4 Hrun]. eapply safe_try with (Q' := λ _ w', up_to_date w').
  { eapply safe_mono; [by apply tell_after|]. cbn beta. intros [[]|] w5 _ Ho; [by apply Ho|done]. }
  intros _ w5 _ Hw5. apply safe_do; [done|done|]. intros r w6 Hs. split; [done|]. intros _.
  eapply up_to_date_agree; [|exact Hw5]. split; [|by eapply same_active]. intros q Hq. eapply untouched; [exact Hs|].
  cbn. apply String.eqb_neq. intros <-. revert Hq. apart.
Qed.
End told_processes.

(** What [processes_for] gives. *)
Lemma processes_for_after w :
  after (processes_for i) (λ o w', w' = w ∧ ∀ p, o = Some p →
    p_id p = id ∧ p_layout p = L ∧ p_proxy p = negb (is_replica i)) w.
Proof.
  unfold processes_for, processes. destruct (vk_agent_path config) as [path|].
  - split; [done|]. split; [done|]. by intros p [= <-].
  - split; [done|]. split; [done|]. intros [path|] w' ->; (split; [done|]); (split; [done|]); [by intros p [= <-]|done].
Qed.

Lemma apply_reaches w :
  all_or_none w → present w (l_reload_owed L) ∨ fresh w → after (apply i) (λ o w', is_Some o → up_to_date w') w.
Proof.
  intros Hall Hw. unfold apply. case_match; [split; [done|]; by intros [? ?]|].
  eapply safe_try with (Q' := λ p w', w' = w ∧ p_id p = id ∧ p_layout p = L ∧ p_proxy p = negb (is_replica i)).
  { eapply safe_mono; [apply processes_for_after|]. cbn beta. intros [p|] w1 _ [-> Hp]; [|by intros [? ?]].
    split; [done|]. by apply Hp. }
  intros p w1 _ (-> & Hid & Hl & Hproxy). cbv zeta. rewrite Hl. apply safe_do; [done|done|].
  intros there w1 [_ ->]. destruct there; cbn [negb]; [|split; [done|]; by intros [? ?]].
  eapply safe_try with (Q' := λ x w', tellable w' x.1.1.2).
  { eapply safe_mono; [apply prepare_after|]. cbn beta. intros [[[[a c] y] z]|] w1 _ Ht; [|by intros [? ?]].
    eapply told_tellable; [done|done|]. by eapply Ht. }
  intros [[[applied changed] first] conf] w1 _ Hw1. cbn in Hw1. eapply safe_try with (Q' := λ _ w', up_to_date w').
  { eapply safe_mono; [by apply processes_after|]. cbn beta. intros [[]|] w2 _ Ho; [by apply Ho|by intros [? ?]]. }
  intros _ w2 _ Hw2. eapply safe_weaken; [apply (safe_spares G)|done|done|].
  - apply gentle_only_spares, apply_finish_sparing; apart.
  - intros o w3 [Hf Ha] _ _. eapply up_to_date_agree; [|exact Hw2]. split; [|done]. intros q Hq. apply Hf. by left.
Qed.

End reach.
End manager.
