(* ===== verification/HostMachine.v ===== *)
(** A machine the host's programs run on, for concrete runs: every call
    succeeds, or systemd cannot be asked. [perform_steps] says that it is one of
    the machines of HostCalls.

    - [reload_lost]: a concrete run in which a failed apply, repeated with
      success, leaves processes with old certificates. *)
From S2P Require Import Prelude Effects Admission Placement Metadata Requests Standby Agent HostModel Firewall ConfigFile HostRender HostCalls HostRunner HostRestore HostInstance.

Local Open Scope Z_scope.

(** ** A machine that runs *)

(** Records as text, for examples. *)
Fixpoint pos_text (p : positive) : string :=
  match p with
  | xH => EmptyString
  | xO p => String "0" (pos_text p)
  | xI p => String "1" (pos_text p)
  end.

Fixpoint text_pos (s : string) : positive :=
  match s with
  | EmptyString => xH
  | String c s => if Ascii.eqb c "0" then xO (text_pos s) else xI (text_pos s)
  end.

Lemma text_pos_text p : text_pos (pos_text p) = p.
Proof. induction p as [p IH|p IH|]; cbn; by rewrite ?IH. Qed.

#[local] Instance Applied_eq_dec : EqDecision Applied.
Proof. solve_decision. Defined.

#[local] Instance Applied_countable : Countable Applied :=
  inj_countable' (λ a, (a_host_id a, a_generation a, a_verifier a, a_extensions a, a_bootstrapped a))
    (λ '(h, g, v, e, b), mkApplied h g v e b) (λ a, match a with mkApplied _ _ _ _ _ => eq_refl end).

#[local] Instance QuotaApplied_countable : Countable QuotaApplied :=
  inj_countable' (λ a, (q_project a, q_bytes a)) (λ '(p, b), mkQuotaApplied p b)
    (λ a, match a with mkQuotaApplied _ _ => eq_refl end).

Lemma applied_text_back (a : Applied) : decode (text_pos (pos_text (encode a))) = Some a.
Proof. rewrite text_pos_text. apply decode_encode. Qed.

#[local] Instance binary_json : RecordJson := {|
  applied_to_json := λ a, pos_text (encode a);
  applied_of_json := λ s, decode (text_pos s);
  quota_to_json := λ a, pos_text (encode a);
  quota_of_json := λ s, decode (text_pos s);
  applied_json_back := applied_text_back
|}.

(** A machine on which systemd cannot be asked, or everything works: a server
    in recovery, and a proxy that is healthy. *)
Definition perform (systemd : bool) (e : hcall) (w : machine) : hanswer e * machine :=
  match e return hanswer e * machine with
  | ReadText p => (files w !! p, w)
  | TryRead p => (Some (files w !! p), w)
  | PathExists p => (bool_decide (is_Some (files w !! p) ∨ p ∈ dirs w), w)
  | WritePrivate p text | WriteText p text => (true, set_files <[p := text]> w)
  | CreateDirs p => (true, set_dirs (λ d, {[p]} ∪ d) w)
  | RemoveOne p => (true, set_files (delete p) w)
  | Rename _ _ => (false, w)
  | RemoveTree _ => (false, w)
  | GiveTo _ | SetMode _ _ | PortFree _ | XfsQuota _ _ | Nft _ | Kill _ _ | PgConnect _ _ _ | PgExec _ _ | HttpGet _ => (true, w)
  | ListDirs _ => (None, w)
  | LookupHost _ => (Some [], w)
  | RunProgram _ _ => (Some true, w)
  | PgBool _ _ _ => (Some true, w)
  | RunOutput _ _ | RunStdout _ _ | CurrentExe | PgText _ _ | RouteTo _ => (Some EmptyString, w)
  | PgWalPosition _ => (None, w)
  | EnvironmentVar _ => (None, w)
  | Http _ _ _ _ _ => (Some (200, Some EmptyString), w)
  | NewKey => (Some (EmptyString, EmptyString), w)
  | ModifiedMs _ | Parallelism => (Some 0, w)
  | FilesystemSize _ => (Some (0, 0), w)
  | Systemctl args =>
      if systemd then
        match after_words ["is-active"; "--quiet"] args with
        | Some [u] => (Some (bool_decide (is_Some (active w !! u))), w)
        | Some _ => (None, w)
        | None => (Some true, systemctl_effect args w)
        end
      else (None, w)
  | Spawn _ _ _ _ => (None, w)
  | NowMs | WallClockMs | ProcessId => (0, w)
  | PgClose _ | AdminLog _ _ | SleepMs _ => ((), w)
  end.

Lemma after_words_inv p ws rest : after_words p ws = Some rest → ws = p ++ rest.
Proof.
  revert ws. induction p as [|a p IH]; intros ws; cbn; [by intros [= ->]|]. destruct ws as [|b ws]; [done|].
  destruct (String.eqb_spec a b) as [->|]; [|done]. intros E. by rewrite (IH _ E).
Qed.

Lemma perform_steps systemd e w : step w e (perform systemd e w).1 (perform systemd e w).2.
Proof.
  destruct e; cbn -[after_words systemctl_effect]; try done.
  - split; [by right|done].
  - exists text. by left.
  - by case_match.
  - by case_match.
  - destruct systemd; [|done]. destruct (after_words ["is-active"; "--quiet"] args) as [l|] eqn:E.
    + apply after_words_inv in E as E'. destruct l as [|u [|]]; [done| |done]. cbn -[after_words systemctl_effect].
      unfold systemctl_answers. rewrite E. case_bool_decide; [|done]. split; [|done]. by rewrite E'.
    + cbn -[after_words systemctl_effect]. split; [done|]. unfold systemctl_answers. by rewrite E.
Qed.

(** ** A host with one instance *)

#[local] Existing Instance milli.
#[local] Existing Instance milli_cast.

Definition example_config : HostConfig :=
  mkHostConfig "https://admin" "/state" "/instances" None None SystemdRunner None "/pg/{version}/bin" "/bin/pgcluster"
    (Some "/bin/vk-agent") "/units" 30 Nftables "/bin/wal-g" QuotaNone.

Definition example_apply (i : Instance) : hprog (option Progress) :=
  apply (λ _, "toml") (λ c, Some c) id (λ _, true) id (λ _, EmptyString) (λ _, None) (λ _, None)
    example_config (Systemd "/units") "h1" false None 0 i.

(** The same instance with a new certificate authority and more memory. *)
Definition changed_instance : Instance :=
  let i := example_instance "db-1" "n1" 20000 in
  let s := i_secrets i in
  mkInstance (i_database_id i) (i_database_name i) (i_node i) 2 (i_operation_id i) (i_postgres_version i)
    (mkResources (2000 : f64) (16000 : f64) (100000 : f64)) (i_port_base i) (i_address i) (i_peers i) (i_bootstrap i)
    (i_restore i) (i_backup i) (i_tasks i) (i_replication_mode i) (i_allowed_cidrs i) (i_extensions i) (i_owner i)
    (mkInstanceSecrets "new ca" (s_cert_pem s) (s_key_pem s) (s_superuser_password s) (s_replication_password s)
       (s_auth_password s) (s_api_key s) (s_next s) (s_proxy_cert_pem s) (s_proxy_key_pem s))
    (i_role i) (i_rename_from i) (i_replicas i).

Definition seeded_machine : machine :=
  mkMachine (list_to_map [("/pg/18/bin/initdb", EmptyString); ("/instances/db-1-n1/pgdata/PG_VERSION", "18")]) ∅ ∅.

(** After a first apply, after one during which systemd could not be asked, and
    after the same again with systemd back. *)
Definition running_machine : machine :=
  (run (perform true) (example_apply (example_instance "db-1" "n1" 20000)) seeded_machine).2.
Definition failed_machine : machine := (run (perform false) (example_apply changed_instance) running_machine).2.
Definition retried_machine : machine := (run (perform true) (example_apply changed_instance) failed_machine).2.

Lemma first_result :
  (run (perform true) (example_apply (example_instance "db-1" "n1" 20000)) seeded_machine).1.1 = Some Running.
Proof. vm_compute. reflexivity. Qed.

Lemma first_ends :
  ends (example_apply (example_instance "db-1" "n1" 20000)) seeded_machine (Some Running) running_machine.
Proof. exact (run_ends_with _ _ _ _ (perform_steps true) first_result). Qed.

Lemma failed_result : (run (perform false) (example_apply changed_instance) running_machine).1.1 = None.
Proof. vm_compute. reflexivity. Qed.

Lemma failed_ends : ends (example_apply changed_instance) running_machine None failed_machine.
Proof. exact (run_ends_with _ _ _ _ (perform_steps false) failed_result). Qed.

Lemma retried_result : (run (perform true) (example_apply changed_instance) failed_machine).1.1 = Some Running.
Proof. vm_compute. reflexivity. Qed.

Lemma retried_ends : ends (example_apply changed_instance) failed_machine (Some Running) retried_machine.
Proof. exact (run_ends_with _ _ _ _ (perform_steps true) retried_result). Qed.

(** Both processes have read the first files. *)
Lemma running_up_to_date : up_to_date example_config (example_instance "db-1" "n1" 20000) running_machine.
Proof.
  assert (safe anything any_call (example_apply (example_instance "db-1" "n1" 20000))
    (λ o w', is_Some o → up_to_date example_config (example_instance "db-1" "n1" 20000) w') seeded_machine) as Hs.
  { unfold example_apply. eapply apply_reaches with (unit_dir := "/units").
    - apply _.
    - intros rel. reflexivity.
    - right. intros u Hu. apply lookup_empty.
    - right. intros u q _ _ s Hs. unfold seeded_machine in Hs. cbn [active] in Hs. by rewrite lookup_empty in Hs. }
  exact (safe_ends _ _ _ _ _ _ _ Hs first_ends (ex_intro _ Running eq_refl)).
Qed.

Lemma old_authority :
  (λ s : gmap string string, s !! "/instances/db-1-n1/tls/ca.crt") <$>
    active retried_machine !! "vk-instance-db-1-n1-agent.service" = Some (Some "ca") ∧
  files retried_machine !! "/instances/db-1-n1/tls/ca.crt" = Some "new ca".
Proof. split; vm_compute; reflexivity. Qed.

Lemma retried_stale : ¬ up_to_date example_config changed_instance retried_machine.
Proof.
  intros Hu. destruct (Hu "vk-instance-db-1-n1-agent.service") as (s & Hs & Hq); [by left|].
  destruct old_authority as [E1 E2]. rewrite Hs in E1. injection E1 as E1.
  specialize (Hq "/instances/db-1-n1/tls/ca.crt"). rewrite E1, E2 in Hq. discriminate Hq. left. by left.
Qed.

(** An apply that fails when systemd does not load the new units again, between
    writing the files and marking that a reload is owed, loses the reload: the
    same apply then succeeds, though a process still has the old certificate
    authority. Before the failure every process was up to date. *)
Theorem reload_lost :
  up_to_date example_config (example_instance "db-1" "n1" 20000) running_machine ∧
  ends (example_apply changed_instance) running_machine None failed_machine ∧
  ends (example_apply changed_instance) failed_machine (Some Running) retried_machine ∧
  ¬ up_to_date example_config changed_instance retried_machine.
Proof. exact (conj running_up_to_date (conj failed_ends (conj retried_ends retried_stale))). Qed.



