(* ===== verification/HostAgent.v ===== *)
(** The host agent's loops: src/vk-agent/src/host/mod.rs.

    Its programs call the machine and change the status the next report is made
    of. The watcher may change the archive position and the version of any
    report meanwhile ([drifts]). What applies, removes and looks at an instance
    is a record [InstanceManager] with the laws the loop relies on; [host_manager]
    is HostInstance's. An error's text is a parameter.

    - [agent_keeps_data]: from its start to any of its turns, wherever it is cut
      short, the agent keeps the data of an instance every state it is sent wants.
    - [reconcile_reports]: a host says it observed a generation only if every
      instance of it runs and everything else was removed.
    - [agent_keeps_trying]: until that is so, the loop does not rest.
    - [resume_rests]: except after a restart, where a failure is forgotten. *)
From S2P Require Import Prelude Effects Admission Placement Metadata Requests Standby Agent HostModel Firewall ConfigFile HostRender HostCalls HostRunner HostClient HostRestore HostInstance HostMachine.

Local Open Scope Z_scope.

(** ** Shared state *)

Record HostReport := mkHostReport {
  hr_database_id : string;
  hr_node : string;
  hr_observed_generation : Z;
  hr_state : string;
  hr_error : option string;
  hr_archived_until : option string;
  hr_server_version : option string
}.

#[export] Instance HostReport_eq_dec : EqDecision HostReport.
Proof. solve_decision. Defined.

Record Status := mkStatus { observed_generation : Z; reports : gmap string HostReport }.

Definition status_default : Status := mkStatus 0 ∅.

(** What a task does while it holds the lock. *)
Inductive update :=
| Begin (id : string) (report : HostReport)
| Finish (all : gmap string HostReport) (generation : option Z).

Definition updated (u : update) (s : Status) : Status :=
  match u with
  | Begin id r => mkStatus (observed_generation s) (<[id := default r (reports s !! id)]> (reports s))
  | Finish all generation => mkStatus (default (observed_generation s) generation) all
  end.

(** What the watcher writes into a report. *)
Definition watched (until version : option string) (r : HostReport) : HostReport :=
  mkHostReport (hr_database_id r) (hr_node r) (hr_observed_generation r) (hr_state r) (hr_error r) until
    (match version with Some _ => version | None => hr_server_version r end).

Definition drifts (s s' : Status) : Prop :=
  observed_generation s' = observed_generation s ∧
  ∀ id, match reports s !! id with
        | Some r => ∃ until version, reports s' !! id = Some (mkHostReport (hr_database_id r) (hr_node r)
                      (hr_observed_generation r) (hr_state r) (hr_error r) until version)
        | None => reports s' !! id = None
        end.

(** ** Calls *)

Inductive acall := OnMachine (e : hcall) | Share (u : update).

Definition aanswer (e : acall) : Type :=
  match e with OnMachine e => hanswer e | Share _ => () end.

Abbreviation aprog := (prog aanswer).
Definition share (u : update) : aprog () := Effects.call (R := aanswer) (Share u).

Fixpoint on_machine {A} (p : hprog A) : aprog A :=
  match p with
  | Ret a => Ret a
  | Vis e k => Vis (R := aanswer) (OnMachine e) (λ r, on_machine (k r))
  end.

Record agent_world := mkWorld { on_disk : machine; shared : Status }.

Definition astep (w : agent_world) (e : acall) : aanswer e → agent_world → Prop :=
  match e return aanswer e → agent_world → Prop with
  | OnMachine e => λ r w', step (on_disk w) e r (on_disk w') ∧ drifts (shared w) (shared w')
  | Share u => λ _ w', on_disk w' = on_disk w ∧ ∃ s, drifts (shared w) s ∧ shared w' = updated u s
  end.

Abbreviation asafe := (safe_on astep).
Abbreviation any_acall := (λ _ : acall, True).

(** ** What the loop uses *)

Record InstanceManager `{!F64} := mkManager {
  im_apply : Instance → hprog (option Progress);
  im_remove : string → hprog (option bool);
  im_record : string → hprog (option Applied);
  im_is_running : Instance → hprog bool;
  im_work_left : Instance → hprog bool
}.

(** [kept id]: the data of an instance is there, and known to be. [owned id]: its
    directory carries this host's record. *)
Class ManagerLaws `{!F64} (M : InstanceManager) (kept owned : string → machine → Prop) : Prop := {
  law_apply_keeps i w :
    kept (instance_id i) w → safe (kept (instance_id i)) any_call (im_apply M i) (λ _ _, True) w;
  law_apply_running i w :
    safe anything any_call (im_apply M i) (λ o w', o = Some Running →
      kept (instance_id i) w' ∧ entry_name (instance_id i) = true) w;
  law_apply_other i id w :
    entry_name id = true → id ≠ instance_id i → kept id w → safe (kept id) any_call (im_apply M i) (λ _ _, True) w;
  law_remove_other id' id w :
    entry_name id = true → entry_name id' = true → id ≠ id' → kept id w →
    safe (kept id) any_call (im_remove M id') (λ _ _, True) w;
  law_removed id w :
    safe (λ w', dirs w' ⊆ dirs w) any_call (im_remove M id) (λ o w', is_Some o → ¬ owned id w') w;
  law_remove_leaves id' id w :
    entry_name id = true → entry_name id' = true → id ≠ id' → ¬ owned id w →
    safe (λ w', ¬ owned id w') any_call (im_remove M id') (λ _ _, True) w;
  law_record i id w : kept id w → safe (kept id) any_call (im_record M (instance_id i)) (λ _ _, True) w;
  law_looks_running i id w : kept id w → safe (kept id) any_call (im_is_running M i) (λ _ _, True) w;
  law_work_left i id w : kept id w → safe (kept id) any_call (im_work_left M i) (λ _ _, True) w
}.

Section agent.
Context `{!F64}.
Context (sha256_hex : string → string) (client_ok : string → option (string * string) → bool).
Context (parse_rotated : string → option string).
Context (parse_desired : string → option DesiredState) (desired_json : DesiredState → string).
(** What an error of an instance says. *)
Context (error_text : Instance → string).
Context (config : HostConfig) (M : InstanceManager).

(** ** Making the machine match *)

Definition report_of_instance (i : Instance) (observed : Z) (state : string) (error : option string) : HostReport :=
  mkHostReport (i_database_id i) (i_node i) observed state error None None.

Definition instances_on_disk : hprog (option (list string)) := hdo (ListDirs (instances_dir config)).

Fixpoint apply_each (l : list Instance) (all_ok : bool) (found : gmap string HostReport)
    : aprog (bool * gmap string HostReport) :=
  match l with
  | [] => Ret (all_ok, found)
  | i :: l =>
      let id := instance_id i in
      record ← on_machine (im_record M id);
      let observed := match record : option Applied with Some a => a_generation a | None => 0 end in
      _ ← share (Begin id (report_of_instance i observed "starting" None));
      outcome ← on_machine (im_apply M i);
      match outcome : option Progress with
      | Some Running => apply_each l all_ok (<[id := report_of_instance i (i_generation i) "running" None]> found)
      | Some Seeding => apply_each l false (<[id := report_of_instance i observed "seeding" None]> found)
      | None =>
          _ ← on_machine (hdo (AdminLog (i_operation_id i) (error_text i)));
          apply_each l false (<[id := report_of_instance i observed "failed" (Some (error_text i))]> found)
      end
  end.

Fixpoint remove_each (d : DesiredState) (ids : list string) (all_ok : bool) : aprog bool :=
  match ids with
  | [] => Ret all_ok
  | id :: ids =>
      if existsb (λ i, String.eqb (instance_id i) id) (d_instances d) then remove_each d ids all_ok
      else
        removed ← on_machine (im_remove M id);
        remove_each d ids (all_ok && match removed : option bool with Some _ => true | None => false end)
  end.

Definition reconcile (d : DesiredState) : aprog bool :=
  applied ← apply_each (d_instances d) true ∅;
  let '(all_ok, found) := applied in
  ids ← on_machine instances_on_disk;
  all_ok ← match ids : option (list string) with
           | Some ids => remove_each d ids all_ok
           | None => Ret false
           end;
  _ ← share (Finish found (if all_ok : bool then Some (d_generation d) else None));
  Ret all_ok.

Fixpoint health_check (l : list Instance) : aprog bool :=
  match l with
  | [] => Ret true
  | i :: l =>
      running ← on_machine (im_is_running M i);
      if negb (running : bool) then Ret false
      else
        left ← on_machine (im_work_left M i);
        if left : bool then Ret false else health_check l
  end.

(** ** The loop *)

Definition desired_path : string := path_join (state_dir config) "desired.json".

(** A file that cannot be read or parsed stops the agent. *)
Definition load_desired : hprog (option (option DesiredState)) :=
  text ←? hdo (TryRead desired_path);
  Ret (match text : option string with Some t => Some <$> parse_desired t | None => Some None end).

Definition save_desired (d : DesiredState) : hprog (option ()) :=
  must (hdo (WritePrivate desired_path (desired_json d))).

(** What the loop keeps between turns. *)
Record AgentState := mkAgent { ag_client : AdminClient; ag_desired : option DesiredState; ag_needs_retry : bool }.

(** A CA that could not be put in place leaves the client as it was. *)
Definition publish (c : AdminClient) (d : DesiredState) : aprog AdminClient :=
  match d_admin_ca d with
  | Some ca => r ← on_machine (trust sha256_hex client_ok c (bundle_pem ca)); Ret (default c (r : option AdminClient))
  | None => Ret c
  end.

Definition agent_start (c : AdminClient) : aprog (option AgentState) :=
  saved ← on_machine load_desired;
  match saved : option (option DesiredState) with
  | None => Ret None
  | Some None => Ret (Some (mkAgent c None false))
  | Some (Some d) =>
      c ← publish c d;
      _ ← reconcile d;
      Ret (Some (mkAgent c (Some d) false))
  end.

Definition rotate (c : AdminClient) (d : option DesiredState) : aprog AdminClient :=
  let renew := match d ≫= d_admin_ca with Some ca => renew_client_certificate ca | None => false end in
  r ← on_machine (if renew then renew_certificate client_ok parse_rotated c else rotate_if_due client_ok parse_rotated c);
  Ret (default c (r : option AdminClient)).

Definition ERROR_RETRY_MS : Z := 2000.

Definition agent_poll (st : AgentState) : aprog AgentState :=
  let c := ag_client st in
  polled ← on_machine (poll_desired parse_desired c
             (match ag_desired st with Some d => d_generation d | None => 0 end) (report_interval_seconds config));
  match polled : option Poll with
  | Some (Changed d) =>
      _ ← on_machine (save_desired d);
      c ← publish c d;
      ok ← reconcile d;
      Ret (mkAgent c (Some d) (negb ok))
  | Some Unchanged =>
      match ag_desired st with
      | Some d =>
          healthy ← (if ag_needs_retry st then Ret false else health_check (d_instances d));
          if healthy : bool then Ret st
          else ok ← reconcile d; Ret (mkAgent c (Some d) (negb ok))
      | None => Ret st
      end
  | None => _ ← on_machine (hdo (SleepMs ERROR_RETRY_MS)); Ret st
  end.

Definition agent_turn (st : AgentState) : aprog AgentState :=
  st ← agent_poll st;
  c ← rotate (ag_client st) (ag_desired st);
  Ret (mkAgent c (ag_desired st) (ag_needs_retry st)).

(** Any number of turns. *)
Fixpoint agent_turns (n : nat) (st : AgentState) : aprog AgentState :=
  match n with O => Ret st | S n => st ← agent_turn st; agent_turns n st end.

(** The agent from its start, to any of its turns. *)
Definition agent_run (n : nat) (c : AdminClient) : aprog (option AgentState) :=
  started ← agent_start c;
  match started : option AgentState with
  | Some st => st ← agent_turns n st; Ret (Some st)
  | None => Ret None
  end.

(** ** Lifting *)

(** A program on the machine, under what the watcher leaves alone. *)
Lemma asafe_machine {A} (I : machine → Prop) (J : Status → Prop) (p : hprog A) (Q : A → machine → Prop) w :
  (∀ s s', drifts s s' → J s → J s') → safe I any_call p Q (on_disk w) → J (shared w) →
  asafe (λ w, I (on_disk w) ∧ J (shared w)) any_acall (on_machine p) (λ a w, Q a (on_disk w)) w.
Proof.
  intros HJ. revert w. induction p as [a|e k IH]; cbn; intros w [HI Hp] Hs; (split; [done|]); [done|].
  split; [done|]. intros r w' [Hst Hd]. apply IH; [by apply Hp|by eapply HJ].
Qed.

(** Where only the machine matters. *)
Lemma asafe_disk {A} (I : machine → Prop) (p : hprog A) Q w :
  safe I any_call p Q (on_disk w) → asafe (λ w, I (on_disk w)) any_acall (on_machine p) (λ a w, Q a (on_disk w)) w.
Proof.
  intros Hp. eapply safe_weaken; [by apply (asafe_machine I (λ _, True))|by intros w' [? _]|done|done].
Qed.

Lemma asafe_share {B} (I : agent_world → Prop) u (f : () → aprog B) Q w :
  I w → (∀ w' s, on_disk w' = on_disk w → drifts (shared w) s → shared w' = updated u s → asafe I any_acall (f ()) Q w') →
  asafe I any_acall (share u ≫= f) Q w.
Proof. intros Hw Hf. split; [done|]. split; [done|]. intros [] w' (Hd & s & Hs & Hu). by eapply Hf. Qed.

Section laws.
Context (kept owned : string → machine → Prop) {laws : ManagerLaws M kept owned}.

(** ** Data is kept *)

Definition wanted (id : string) (d : DesiredState) : Prop := ∃ i, i ∈ d_instances d ∧ instance_id i = id.

Section one.
Context (id : string) (id_entry : entry_name id = true).
Abbreviation keeping p := (∀ w, kept id (on_disk w) → asafe (λ w, kept id (on_disk w)) any_acall p (λ _ _, True) w).

Lemma keeping_bind {A B} (p : aprog A) (f : A → aprog B) : keeping p → (∀ a, keeping (f a)) → keeping (p ≫= f).
Proof. intros Hp Hf w Hw. eapply safe_bind_mono; [by apply Hp|]. intros a w' Hw' _. by apply Hf. Qed.

Lemma keeping_machine {A} (p : hprog A) : (∀ w, kept id w → safe (kept id) any_call p (λ _ _, True) w) → keeping (on_machine p).
Proof. intros Hp w Hw. apply (asafe_disk (kept id) p (λ _ _, True)). by apply Hp. Qed.

Lemma keeping_look {A} (p : hprog A) : only (λ o, ∀ w r w', step w (obs_ev o) r w' → w' = w) p → keeping (on_machine p).
Proof.
  intros Hp. apply keeping_machine. intros w Hw.
  eapply safe_weaken; [apply (safe_only (kept id) (λ e, ∀ w r w', step w e r w' → w' = w)); [exact Hp| |done]|done|done|done].
  intros w1 e r w2 He Hw1 Hs. by rewrite (He _ _ _ Hs).
Qed.

Lemma keeping_share u : keeping (share u).
Proof. intros w Hw. split; [done|]. split; [done|]. intros [] w' (Hd & _). cbn. by rewrite Hd. Qed.

Lemma keeping_apply i : keeping (on_machine (im_apply M i)).
Proof.
  apply keeping_machine. intros w Hw. destruct (decide (id = instance_id i)) as [->|]; [by apply law_apply_keeps|].
  by apply law_apply_other.
Qed.

Lemma apply_each_keeps l ok found : keeping (apply_each l ok found).
Proof.
  revert ok found. induction l as [|i l IH]; intros ok found; [by split|]. cbn [apply_each].
  apply keeping_bind; [apply keeping_machine; intros; by apply law_record|intros record].
  apply keeping_bind; [apply keeping_share|intros _]. apply keeping_bind; [apply keeping_apply|].
  intros [[]|]; [apply IH|apply IH|]. apply keeping_bind; [|intros _; apply IH]. by apply keeping_look; intros r.
Qed.

Lemma remove_each_keeps d ids ok : wanted id d → (∀ x, x ∈ ids → entry_name x = true) → keeping (remove_each d ids ok).
Proof.
  intros (i & Hi & Hid). revert ok. induction ids as [|x ids IH]; intros ok Hn; [by split|]. cbn [remove_each].
  destruct (existsb _ _) eqn:E; [apply IH; set_solver|]. apply keeping_bind; [|intros removed; apply IH; set_solver].
  apply keeping_machine. intros w Hw. apply law_remove_other; [done|apply Hn; set_solver| |done].
  intros ->. apply not_true_iff_false in E. apply E, existsb_exists. exists i. split; [by apply list_elem_of_In|].
  by apply String.eqb_eq.
Qed.

Lemma reconcile_keeps d : wanted id d → keeping (reconcile d).
Proof.
  intros Hd. unfold reconcile. apply keeping_bind; [apply apply_each_keeps|]. intros [ok found].
  intros w Hw. eapply safe_bind_mono with (Q' := λ ids w', ∀ l, ids = Some l → ∀ x, x ∈ l → entry_name x = true).
  { eapply safe_weaken; [apply (asafe_disk (kept id) _ (λ ids _, ∀ l, ids = Some l → ∀ x, x ∈ l → entry_name x = true))|done|done|done].
    split; [done|]. split; [done|]. intros r w' [-> Hl]. split; [done|]. intros l -> x Hx. by apply (Hl l eq_refl x). }
  intros ids w1 Hw1 Hids. revert w1 Hw1.
  apply keeping_bind; [destruct ids as [l|]; [apply remove_each_keeps; [done|by apply Hids]|by split]|intros all_ok].
  apply keeping_bind; [apply keeping_share|]. by split.
Qed.

Lemma health_keeps l : keeping (health_check l).
Proof.
  induction l as [|i l IH]; [by split|]. cbn [health_check].
  apply keeping_bind; [apply keeping_machine; intros; by apply law_looks_running|]. intros []; [|by split]. cbn [negb].
  apply keeping_bind; [apply keeping_machine; intros; by apply law_work_left|]. intros []; [by split|done].
Qed.

(** What the loop does besides: it reads, asks, and writes files of its own. *)
Definition state_call (e : hcall) : Prop :=
  (∀ w r w', step w e r w' → w' = w) ∨ ∃ name text, e = WritePrivate (path_join (state_dir config) name) text.

Hypothesis state_apart : ∀ name text w,
  kept id w → kept id (set_files <[path_join (state_dir config) name := text]> w).

Lemma keeping_state {A} (p : hprog A) : only (λ o, state_call (obs_ev o)) p → keeping (on_machine p).
Proof.
  intros Hp. apply keeping_machine. intros w Hw.
  eapply safe_weaken; [apply (safe_only (kept id) state_call); [exact Hp| |done]|done|done|done].
  intros w1 e r w2 [He|(name & text & ->)] Hw1 Hs; [by rewrite (He _ _ _ Hs)|]. cbn in Hs. subst. destruct r; [|done].
  by apply state_apart.
Qed.

Ltac state_calls :=
  repeat first
    [ progress intros
    | match goal with |- only _ (hdo _) => idtac end; apply only_hdo; intros ?;
      first [right; by do 2 eexists | left; cbn; intros ? ? ?; first [by intros -> | by intros [_ ->] | by intros [-> _]]]
    | apply only_try | apply only_must
    | progress case_match
    | done
    | apply only_bind ].

(** Clients whose files are the agent's own. *)
Definition own_dir (c : AdminClient) : Prop := ac_dir c = state_dir config.
Definition own_dirs (o : option AdminClient) : Prop := ∀ c, o = Some c → own_dir c.

Lemma on_machine_returns {A} (T : A → Prop) (p : hprog A) : returns T p → returns T (on_machine p).
Proof. unfold returns. induction p as [a|e k IH]; cbn; [done|]. intros Hp r. apply IH, Hp. Qed.

Lemma keeping_then {A B} (T : A → Prop) (p : aprog A) (f : A → aprog B) :
  keeping p → returns T p → (∀ a, T a → keeping (f a)) → keeping (p ≫= f).
Proof.
  intros Hp Ht Hf w Hw. eapply safe_bind_mono; [apply safe_returns; [by apply Hp|exact Ht]|].
  intros a w' Hw' [_ Ha]. by apply Hf.
Qed.

Lemma replaced_returns c (p : hprog (option AdminClient)) : own_dir c → returns own_dirs p →
  returns own_dir (r ← on_machine p; Ret (default c r)).
Proof.
  intros Hc Hp. eapply returns_then; [apply on_machine_returns, Hp|]. intros [c'|] Hr; [by apply Hr|done].
Qed.

Ltac own_returns :=
  repeat first
    [ progress intros | apply returns_try | progress case_match | done | apply returns_bind
    | match goal with |- returns _ (Ret _) => intros ? [= <-]; done end ].

Lemma publish_keeps c d : own_dir c → keeping (publish c d) ∧ returns own_dir (publish c d).
Proof.
  intros Hc. unfold publish. destruct (d_admin_ca d) as [ca|]; [|by split].
  split; [|apply replaced_returns; [done|]; unfold trust; own_returns]. apply keeping_bind; [|by split].
  apply keeping_state. unfold trust, ca_fingerprint, ca_file, cert_file, key_file. rewrite Hc. state_calls.
Qed.

Lemma rotate_keeps c d : own_dir c → keeping (rotate c d) ∧ returns own_dir (rotate c d).
Proof.
  intros Hc. unfold rotate. split.
  - apply keeping_bind; [|by split]. apply keeping_state.
    unfold rotate_if_due, renew_certificate, request, ca_file, cert_file, key_file. rewrite Hc.
    destruct (match d ≫= d_admin_ca with _ => _ end); state_calls.
  - apply replaced_returns; [done|]. destruct (match d ≫= d_admin_ca with _ => _ end); unfold rotate_if_due, renew_certificate; own_returns.
Qed.

(** Every document asks for the instance. *)
Hypothesis always_wanted : ∀ text d, parse_desired text = Some d → wanted id d.

Definition wanting (st : AgentState) : Prop :=
  own_dir (ag_client st) ∧ ∀ d, ag_desired st = Some d → wanted id d.

Lemma changed_keeps c d needs : own_dir c → wanted id d →
  keeping (c ← publish c d; ok ← reconcile d; Ret (mkAgent c (Some d) (needs ok))) ∧
  returns wanting (c ← publish c d; ok ← reconcile d; Ret (mkAgent c (Some d) (needs ok))).
Proof.
  intros Hc Hd. destruct (publish_keeps c d Hc) as [Hk Hr]. split.
  - eapply keeping_bind; [done|]. intros c'. apply keeping_bind; [by apply reconcile_keeps|]. by split.
  - eapply returns_then; [exact Hr|]. intros c' Hc'. apply returns_bind. intros ok. split; [done|]. by intros ? [= <-].
Qed.

Lemma polled_wanted c generation wait :
  returns (λ p, ∀ d, p = Some (Changed d) → wanted id d) (on_machine (poll_desired parse_desired c generation wait)).
Proof.
  apply on_machine_returns. apply returns_bind. intros [[status text]|]; [|done]. cbn. repeat case_match; try done.
  destruct text as [t|]; [cbn|done]. destruct (parse_desired t) as [d|] eqn:E; [cbn|done]. intros ? [= <-]. by eapply always_wanted.
Qed.

Lemma poll_keeps st : wanting st → keeping (agent_poll st) ∧ returns wanting (agent_poll st).
Proof.
  intros [Hc Hd]. unfold agent_poll. cbv zeta.
  assert (∀ d, wanted id d → keeping (ok ← reconcile d; Ret (mkAgent (ag_client st) (Some d) (negb ok))) ∧
    returns wanting (ok ← reconcile d; Ret (mkAgent (ag_client st) (Some d) (negb ok)))) as Hrec.
  { intros d Hw. split; [apply keeping_bind; [by apply reconcile_keeps|by split]|].
    apply returns_bind. intros ok. split; [done|]. by intros ? [= <-]. }
  split.
  - eapply keeping_then; [|apply polled_wanted|]; [apply keeping_state; unfold poll_desired; state_calls|].
    intros [[d|]|] Hp.
    + apply keeping_bind; [apply keeping_state; unfold save_desired; state_calls|intros _]. by apply changed_keeps; [|apply Hp].
    + destruct (ag_desired st) as [d|]; [|by split]. specialize (Hrec d (Hd d eq_refl)) as [Hk _].
      apply keeping_bind; [destruct (ag_needs_retry st); [by split|apply health_keeps]|]. intros []; [by split|done].
    + apply keeping_bind; [apply keeping_state; state_calls|by split].
  - eapply returns_then; [apply polled_wanted|]. intros [[d|]|] Hp.
    + apply returns_bind. intros _. by apply changed_keeps; [|apply Hp].
    + destruct (ag_desired st) as [d|] eqn:E; [|by split; [|rewrite E]]. specialize (Hrec d (Hd d eq_refl)) as [_ Hr].
      apply returns_bind. intros []; [|done]. by split; [|rewrite E].
    + apply returns_bind. by split.
Qed.

Lemma turns_keep n st : wanting st → keeping (agent_turns n st).
Proof.
  revert st. induction n as [|n IH]; intros st Hst; [by split|]. cbn [agent_turns]. destruct (poll_keeps st Hst) as [Hk Hr].
  assert (∀ st', wanting st' →
    keeping (c ← rotate (ag_client st') (ag_desired st'); Ret (mkAgent c (ag_desired st') (ag_needs_retry st'))) ∧
    returns wanting (c ← rotate (ag_client st') (ag_desired st'); Ret (mkAgent c (ag_desired st') (ag_needs_retry st')))) as Hrot.
  { intros st' [Hc Hd]. destruct (rotate_keeps (ag_client st') (ag_desired st') Hc) as [Hk' Hr']. split.
    - apply keeping_bind; [done|]. by split.
    - eapply returns_then; [exact Hr'|]. by split. }
  eapply keeping_then; [| |exact IH].
  - eapply keeping_then; [exact Hk|exact Hr|]. intros st' Hst'. by apply Hrot.
  - eapply returns_then; [exact Hr|]. intros st' Hst'. by apply Hrot.
Qed.

Lemma agent_start_keeps c : own_dir c →
  keeping (agent_start c) ∧ returns (λ o, ∀ st, o = Some st → wanting st) (agent_start c).
Proof.
  intros Hc. assert (returns (λ o, ∀ d, o = Some (Some d) → wanted id d) (on_machine load_desired)) as Hl.
  { apply on_machine_returns. apply returns_try; [done|]. intros [t|]; [|done]. cbn.
    destruct (parse_desired t) as [d|] eqn:E; [|done]. intros ? [= <-]. by eapply always_wanted. }
  unfold agent_start. split.
  - eapply keeping_then; [apply keeping_state; unfold load_desired; state_calls|exact Hl|].
    intros [[d|]|] Hd; [|by split..]. apply keeping_bind; [by apply publish_keeps|intros c'].
    apply keeping_bind; [apply reconcile_keeps; by apply Hd|]. by split.
  - eapply returns_then; [exact Hl|]. intros [[d|]|] Hd; [|by intros ? [= <-]|done].
    eapply returns_then; [by apply publish_keeps|]. intros c' Hc'. apply returns_bind. intros ok ? [= <-].
    split; [done|]. intros ? [= <-]. by apply Hd.
Qed.

End one.

(** ** What a host says *)

(** Any number of instances at once. *)
Lemma keeps_all {A} (G : string → machine → Prop) (K : string → Prop) (p : hprog A) w :
  (∀ id, K id → safe (G id) any_call p (λ _ _, True) w) →
  safe (λ w, ∀ id, K id → G id w) any_call p (λ _ _, True) w.
Proof.
  intros Hp. apply safe_weaken with (I := λ w, ∀ x : {id | K id}, G (`x) w) (P := any_call)
    (Q := λ _ _, ∀ _ : {id | K id}, True); [|by intros w' Hw id Hid; apply (Hw (id ↾ Hid))|done|done].
  apply safe_forall. intros [id Hid]. by apply Hp.
Qed.

Section report.
Context (d : DesiredState) (g0 : Z).

(** A report on an instance of [d], and what it means. *)
Definition meant (ok : bool) (m : machine) (id : string) (r : HostReport) : Prop :=
  ∃ i, i ∈ d_instances d ∧ instance_id i = id ∧ hr_database_id r = i_database_id i ∧ hr_node r = i_node i ∧
    (hr_state r = "running" → hr_observed_generation r = i_generation i ∧ entry_name id = true ∧ kept id m) ∧
    (ok = true → hr_state r = "running").

Definition all_meant (ok : bool) (m : machine) (found : gmap string HostReport) : Prop :=
  ∀ id r, found !! id = Some r → meant ok m id r.

(** The instances reported running. *)
Definition running (found : gmap string HostReport) (id : string) : Prop :=
  entry_name id = true ∧ ∃ r, found !! id = Some r ∧ hr_state r = "running".

Lemma all_meant_later ok m m' found :
  all_meant ok m found → (∀ id, running found id → kept id m') → all_meant ok m' found.
Proof.
  intros Hm Hk id r Hr. destruct (Hm id r Hr) as (i & Hi & Hid & Hdb & Hn & Hrun & Hok).
  exists i. split_and!; try done. intros Hs. destruct (Hrun Hs) as (Hg & He & _). split_and!; [done|done|].
  apply Hk. split; [done|]. by exists r.
Qed.

Lemma running_kept ok m found id : all_meant ok m found → running found id → kept id m.
Proof. intros Hm (_ & r & Hr & Hs). destruct (Hm id r Hr) as (i & _ & _ & _ & _ & Hrun & _). by apply Hrun. Qed.

Abbreviation saying := (λ w, observed_generation (shared w) = g0).

(** A program on the machine while [K] is kept. *)
Lemma keeps_while {A} (K : string → Prop) (p : hprog A) (Q : A → machine → Prop) w :
  saying w → (∀ id, K id → safe (kept id) any_call p (λ _ _, True) (on_disk w)) → safe anything any_call p Q (on_disk w) →
  asafe saying any_acall (on_machine p) (λ a w', (∀ id, K id → kept id (on_disk w')) ∧ Q a (on_disk w')) w.
Proof.
  intros Hw Hk Hq. eapply safe_weaken;
    [apply (asafe_machine (λ m, (∀ id, K id → kept id m) ∧ True) (λ s, observed_generation s = g0) p (λ a m, True ∧ Q a m))| | |].
  - intros s s' [-> _]. done.
  - apply safe_and; [by apply (keeps_all kept)|done].
  - done.
  - by intros w' [_ ?].
  - done.
  - cbn. intros a w' [[? _] _] [_ ?]. done.
Qed.

Lemma insert_meant ok m id found r :
  all_meant ok m found → meant ok m id r → all_meant ok m (<[id := r]> found).
Proof. intros Hm Hr id' r'. rewrite lookup_insert_Some. intros [[<- <-]|[_ ?]]; auto. Qed.

Lemma not_ok m found ok : all_meant ok m found → all_meant false m found.
Proof. intros Hm id r Hr. destruct (Hm id r Hr) as (i & ? & ? & ? & ? & ? & _). by exists i. Qed.

Lemma apply_each_meant l ok found w : (∀ i, i ∈ l → i ∈ d_instances d) → saying w → all_meant ok (on_disk w) found →
  asafe saying any_acall (apply_each l ok found) (λ o w', all_meant o.1 (on_disk w') o.2 ∧
    ∀ id, is_Some (found !! id) ∨ (∃ i, i ∈ l ∧ instance_id i = id) → is_Some (o.2 !! id)) w.
Proof.
  revert ok found w. induction l as [|i l IH]; intros ok found w Hl Hw Hm.
  { split; [done|]. split; [done|]. intros id [?|(i & Hi & _)]; [done|]. by apply elem_of_nil in Hi. }
  cbn [apply_each]. assert (∀ id, running found id → kept id (on_disk w)) as Hk by (intros id; by apply (running_kept ok)).
  eapply safe_bind_mono; [apply (keeps_while (running found) _ (λ _ _, True)); [done| |apply safe_True]|].
  { intros id Hid. by apply law_record, Hk. }
  clear Hk. intros record w1 Hw1 [Hk _]. apply asafe_share; [done|]. intros w2 s Ed [Es _] Eu.
  assert (saying w2) as Hw2 by (rewrite Eu; cbn; by rewrite Es). rewrite <- Ed in Hk.
  eapply safe_bind_mono; [apply (keeps_while (running found)); [done| |apply (law_apply_running i)]|].
  { intros id Hid. destruct (decide (id = instance_id i)) as [->|]; [by apply law_apply_keeps, Hk|].
    apply law_apply_other; [by destruct Hid|done|by apply Hk]. }
  intros outcome w3 Hw3 [Hk3 Ho]. assert (all_meant ok (on_disk w3) found) as Hm3 by (by eapply all_meant_later).
  assert (i ∈ d_instances d) as Hi by (apply Hl, elem_of_cons; by left).
  assert (∀ ok' r w', saying w' → all_meant ok' (on_disk w') found → meant ok' (on_disk w') (instance_id i) r →
    asafe saying any_acall (apply_each l ok' (<[instance_id i := r]> found)) (λ o w', all_meant o.1 (on_disk w') o.2 ∧
      ∀ id, is_Some (found !! id) ∨ (∃ j, j ∈ i :: l ∧ instance_id j = id) → is_Some (o.2 !! id)) w') as Hnext.
  { intros ok' r w' Hw' Hf Hr. eapply safe_mono; [apply IH; [by intros j Hj; apply Hl, elem_of_cons; right|done|by apply insert_meant]|].
    intros o w'' _ [Ha Hs]. split; [done|]. intros id [Hid|(j & [->|Hj]%elem_of_cons & Hid)]; apply Hs.
    - left. destruct (decide (id = instance_id i)) as [->|]; [by rewrite lookup_insert_eq|by rewrite lookup_insert_ne].
    - left. rewrite <- Hid, lookup_insert_eq. done.
    - right. by exists j. }
  destruct outcome as [[]|].
  - apply Hnext; [done|done|]. exists i. destruct (Ho eq_refl). by split_and!.
  - apply Hnext; [done|by eapply not_ok|]. exists i. by split_and!.
  - split; [done|]. split; [done|]. intros [] w4 [Ed4 Es4]. cbn in Ed4. destruct Es4 as [Es4 _].
    apply Hnext; [by rewrite Es4|rewrite Ed4; by eapply not_ok|]. exists i. by split_and!.
Qed.

Lemma remove_each_done ids ok w (K N : string → Prop) :
  (∀ x, x ∈ ids → entry_name x = true) → saying w →
  (∀ id, K id → entry_name id = true ∧ wanted id d ∧ kept id (on_disk w)) →
  (∀ id, N id → entry_name id = true ∧ ¬ owned id (on_disk w)) →
  asafe saying any_acall (remove_each d ids ok) (λ ok' w', dirs (on_disk w') ⊆ dirs (on_disk w) ∧
    (∀ id, K id → kept id (on_disk w')) ∧
    (ok' = true → ok = true ∧ ∀ id, N id ∨ (id ∈ ids ∧ ¬ wanted id d) → ¬ owned id (on_disk w'))) w.
Proof.
  revert ok w N. induction ids as [|x ids IH]; intros ok w N Hn Hw HK HN; cbn [remove_each].
  { split; [done|]. split; [done|]. split; [intros id Hid; by apply HK|]. intros ->. split; [done|].
    intros id [Hid|[Hid _]]; [by apply HN|by apply elem_of_nil in Hid]. }
  destruct (existsb _ _) eqn:E.
  { eapply safe_mono; [by apply IH; [by intros y Hy; apply Hn, elem_of_cons; right|..]|]. cbn. intros ok' w' _ (Hd & HK' & Ho). split; [done|]. split; [done|].
    intros Hok. destruct (Ho Hok) as [-> Hno]. split; [done|]. intros id [Hid|[[->|Hid]%elem_of_cons Hnw]]; [auto| |auto].
    apply existsb_exists in E as (i & Hi & Ei%String.eqb_eq). destruct Hnw. exists i. split; [by apply list_elem_of_In|done]. }
  assert (¬ wanted x d) as Hx.
  { intros (i & Hi & Hid). apply not_true_iff_false in E. apply E, existsb_exists. exists i.
    split; [by apply list_elem_of_In|by apply String.eqb_eq]. }
  eapply safe_bind_mono with (Q' := λ o w', dirs (on_disk w') ⊆ dirs (on_disk w) ∧ (∀ id, K id → kept id (on_disk w')) ∧
    (∀ id, N id ∧ id ≠ x → ¬ owned id (on_disk w')) ∧ (is_Some o → ¬ owned x (on_disk w'))).
  - eapply safe_weaken; [apply (asafe_machine (λ m, dirs m ⊆ dirs (on_disk w) ∧ (∀ id, K id → kept id m) ∧
      (∀ id, N id ∧ id ≠ x → ¬ owned id m)) (λ s, observed_generation s = g0) (im_remove M x)
      (λ o m, (is_Some o → ¬ owned x m) ∧ True ∧ True))| | |].
    + by intros s s' [-> _].
    + apply safe_and; [apply law_removed|]. apply safe_and; [apply (keeps_all kept)|apply (keeps_all (λ id m, ¬ owned id m))]; intros id Hid.
      * destruct (HK id Hid) as (He & Hwant & Hk). apply law_remove_other; [done|apply Hn, elem_of_cons; by left|by intros ->|done].
      * destruct Hid as [Hid Hne], (HN id Hid). apply law_remove_leaves; [done|apply Hn, elem_of_cons; by left|done|done].
    + done.
    + by intros w' [_ ?].
    + done.
    + cbn. intros o w' [(? & ? & ?) _] [? _]. done.
  - intros removed w1 Hw1 (Hd & HK1 & HN1 & Hx1). eapply safe_mono.
    + apply (IH (ok && match removed with Some _ => true | None => false end) w1
        (λ id, match removed with Some _ => N id ∨ id = x | None => False end)); [by intros y Hy; apply Hn, elem_of_cons; right|done| |].
      * intros id Hid. destruct (HK id Hid) as (? & ? & _). auto.
      * intros id Hid. destruct removed as [b|]; [|done].
        destruct (decide (id = x)) as [->|Hne]; [split; [apply Hn, elem_of_cons; by left|by apply Hx1]|].
        destruct Hid as [Hid|]; [|done]. split; [by apply HN|by apply HN1].
    + cbn. intros ok' w' _ (Hd' & HK' & Ho). split; [by etrans|]. split; [done|]. intros Hok.
      destruct (Ho Hok) as [[-> Hr]%andb_true_iff Hno]. split; [done|]. destruct removed as [b|]; [|done].
      intros id [Hid|[[->|Hid]%elem_of_cons Hnw]]; apply Hno; auto.
Qed.

(** What a reconcile leaves. *)
Lemma reconcile_done w : saying w →
  asafe (λ _, True) any_acall (reconcile d) (λ ok w',
    observed_generation (shared w') = (if ok : bool then d_generation d else g0) ∧
    (∀ id, is_Some (reports (shared w') !! id) ↔ wanted id d) ∧
    all_meant ok (on_disk w') (reports (shared w')) ∧
    (ok = true → ∀ id, entry_name id = true → path_join (instances_dir config) id ∈ dirs (on_disk w') →
      ¬ wanted id d → ¬ owned id (on_disk w'))) w.
Proof.
  intros Hw. unfold reconcile. eapply safe_bind_mono.
  { eapply safe_weaken; [apply (apply_each_meant _ true ∅); [done|done|]|done|done|intros o w' Hw' Ho; exact (conj Hw' Ho)].
    intros id r Hr. by rewrite lookup_empty in Hr. }
  cbn beta. intros [ok found] w1 _ (Hw1 & Hm & Hall). cbn in Hm, Hall.
  assert (∀ id, is_Some (found !! id) ↔ wanted id d) as Hids.
  { intros id. split; [intros [r Hr]; destruct (Hm id r Hr) as (i & Hi & Hid & _); by exists i|].
    intros (i & Hi & Hid). apply Hall. right. by exists i. }
  split; [done|]. split; [done|]. intros ids w2 [[Ed Hl] [Es _]]. apply safe_bind_mono with
    (Q' := λ all_ok w3, saying w3 ∧ all_meant all_ok (on_disk w3) found ∧ (all_ok = true → ∀ id, entry_name id = true →
      path_join (instances_dir config) id ∈ dirs (on_disk w3) → ¬ wanted id d → ¬ owned id (on_disk w3))).
  - rewrite <- Ed in Hm. destruct ids as [ids|]; [|split; [done|]; split; [by rewrite Es|]; split; [by eapply not_ok|done]].
    specialize (Hl ids eq_refl). eapply safe_weaken; [apply (remove_each_done ids ok w2 (running found) (λ _, False))|done|done|].
    + intros x Hx. by apply Hl.
    + by rewrite Es.
    + intros id Hid. split; [apply Hid|]. split; [|by eapply running_kept]. apply Hids. destruct Hid as (_ & r & -> & _). done.
    + done.
    + intros all_ok w3 Hw3 (Hd & HK & Ho). split; [done|]. assert (all_meant ok (on_disk w3) found) as Hm3 by (by eapply all_meant_later).
      split; [destruct all_ok; [by destruct (Ho eq_refl) as [-> _]|by eapply not_ok]|].
      intros Hok id He Hin Hnw. destruct (Ho Hok) as [_ Hno]. apply Hno. right. split; [|done]. apply Hl. rewrite <- Ed. auto.
  - intros all_ok w3 _ (Hw3 & Hm3 & Hgone). apply asafe_share; [done|]. intros w4 s Ed4 [Es4 _] Eu. split; [done|].
    rewrite Eu, Ed4. cbn. split; [destruct all_ok; cbn; congruence|]. done.
Qed.

End report.

(** ** The loop does not rest early *)

(** At rest, the host has said that it observed what it was asked for. *)
Definition settled (st : AgentState) (w : agent_world) : Prop :=
  ∀ d, ag_desired st = Some d → ag_needs_retry st = false → observed_generation (shared w) = d_generation d.

(** Work on the machine, and what follows. *)
Lemma still_saying {A B} (p : hprog A) (f : A → aprog B) Q w :
  (∀ a w', observed_generation (shared w') = observed_generation (shared w) → asafe (λ _, True) any_acall (f a) Q w') →
  asafe (λ _, True) any_acall (on_machine p ≫= f) Q w.
Proof.
  intros Hf. eapply safe_bind_mono with (Q' := λ _ w', observed_generation (shared w') = observed_generation (shared w));
    [|intros a w' _; apply Hf].
  eapply safe_weaken; [apply (asafe_machine anything (λ s, observed_generation s = observed_generation (shared w)) p (λ _ _, True))| | |].
  - by intros s s' [-> _].
  - apply safe_True.
  - done.
  - done.
  - done.
  - by intros a w' [_ ?].
Qed.

Lemma publish_says {B} c d (f : AdminClient → aprog B) Q w :
  (∀ c' w', asafe (λ _, True) any_acall (f c') Q w') → asafe (λ _, True) any_acall (publish c d ≫= f) Q w.
Proof.
  intros Hf. unfold publish. destruct (d_admin_ca d) as [ca|]; [|apply Hf].
  eapply safe_bind_mono; [apply safe_True|]. intros a w' _ _. apply Hf.
Qed.

Lemma reconcile_settles c d w :
  asafe (λ _, True) any_acall (ok ← reconcile d; Ret (mkAgent c (Some d) (negb ok))) settled w.
Proof.
  eapply safe_bind_mono; [by apply (reconcile_done d (observed_generation (shared w)))|].
  cbn beta. intros ok w' _ [Ho _]. split; [done|]. intros ? [= <-]. destruct ok; [by intros _|done].
Qed.

Lemma health_says l g w : observed_generation (shared w) = g →
  asafe (λ _, True) any_acall (health_check l) (λ _ w', observed_generation (shared w') = g) w.
Proof.
  revert w. induction l as [|i l IH]; intros w Hw; [by split|]. cbn [health_check].
  apply still_saying. intros [] w1 Hw1; cbn [negb]; [|split; [done|congruence]].
  apply still_saying. intros [] w2 Hw2; [split; [done|congruence]|]. apply IH. congruence.
Qed.

Lemma poll_settles st w : settled st w → asafe (λ _, True) any_acall (agent_poll st) settled w.
Proof.
  intros Hs. unfold agent_poll. cbv zeta. apply still_saying. intros [[d|]|] w1 Hw1.
  - apply still_saying. intros _ w2 _. apply publish_says. intros c w3. apply reconcile_settles.
  - assert (settled st w1) as Hs1 by (intros d Hd Hr; rewrite Hw1; auto).
    destruct (ag_desired st) as [d|] eqn:E; [|by split].
    eapply safe_bind_mono with (Q' := λ healthy w2, healthy = true →
      observed_generation (shared w2) = observed_generation (shared w1)).
    + destruct (ag_needs_retry st); [by split|]. eapply safe_mono; [by apply (health_says _ (observed_generation (shared w1)))|]. by intros a w2 _ Ho _.
    + intros [] w2 _ Ho; [|apply reconcile_settles]. split; [done|]. intros d' Hd Hr. rewrite Ho by done. auto.
  - apply still_saying. intros _ w2 Hw2. split; [done|]. intros d Hd Hr. rewrite Hw2, Hw1. auto.
Qed.

(** However the service and the machine answer, an agent that started with
    nothing saved is at rest only while it has said that it observed the
    generation of its desired state: a turn that did not finish the work leaves
    [needs_retry], and with it the next poll without news reconciles again. *)
Theorem agent_keeps_trying n st w :
  settled st w → asafe (λ _, True) any_acall (agent_turns n st) settled w.
Proof.
  revert st w. induction n as [|n IH]; intros st w Hs; [by split|]. cbn [agent_turns].
  eapply safe_bind_mono with (Q' := settled); [|intros st' w' _; apply IH].
  eapply safe_bind_mono; [by apply poll_settles|]. intros st' w' _ Hs'. unfold rotate. apply safe_bind.
  apply still_saying. intros r w2 Hw2. split; [done|]. split; [done|]. intros d Hd Hr. cbn in *. rewrite Hw2. auto.
Qed.
End laws.

(** ** After a restart *)

Lemma drifts_refl s : drifts s s.
Proof. split; [done|]. intros id. destruct (reports s !! id) as [[]|]; [eauto|done]. Qed.

Lemma ends_machine {A} (p : hprog A) m a m' s :
  ends p m a m' → ends_on astep (on_machine p) (mkWorld m s) a (mkWorld m' s).
Proof.
  intros Hp. induction Hp as [A a m|A e k m r m1 a m2 Hs _ IH]; [constructor|]. cbn.
  eapply (ends_step _ (OnMachine e)) with (w' := mkWorld m1 s); [|exact IH]. split; [done|apply drifts_refl].
Qed.

Lemma ends_share u m s : ends_on astep (share u) (mkWorld m s) () (mkWorld m (updated u s)).
Proof. econstructor; [|constructor]. split; [done|]. exists s. split; [apply drifts_refl|done]. Qed.

Section resumed.
Context (c : AdminClient) (d : DesiredState) (i : Instance) (r : option Applied) (m : machine).
Hypothesis saved : files m !! desired_path ≫= parse_desired = Some d.
Hypothesis one_instance : d_instances d = [i].
Hypothesis no_ca : d_admin_ca d = None.
(** The instance cannot be applied, while its processes run and nothing of it is
    left to do on a primary. *)
Hypothesis record_read : ends (im_record M (instance_id i)) m r m.
Hypothesis apply_fails : ends (im_apply M i) m None m.
Hypothesis runs : ends (im_is_running M i) m true m.
Hypothesis nothing_left : ends (im_work_left M i) m false m.

Definition failed_status : Status :=
  mkStatus 0 {[instance_id i :=
    report_of_instance i (match r with Some a => a_generation a | None => 0 end) "failed" (Some (error_text i))]}.

Lemma reconcile_fails s : observed_generation s = 0 →
  ends_on astep (reconcile d) (mkWorld m s) false (mkWorld m failed_status).
Proof.
  intros Hs. unfold reconcile. rewrite one_instance. eapply ends_bind.
  - cbn [apply_each]. eapply ends_bind; [by apply ends_machine|]. eapply ends_bind; [apply ends_share|].
    eapply ends_bind; [by apply ends_machine|]. eapply ends_bind; [apply ends_machine|constructor].
    by apply (ends_step _ (AdminLog _ _)) with (r := ()) (w' := m); [|constructor].
  - eapply ends_bind; [apply (ends_machine _ m None m)|].
    { by apply (ends_step _ (ListDirs _)) with (r := None) (w' := m); [|constructor]. }
    eapply ends_bind; [constructor|]. eapply ends_bind; [apply ends_share|]. cbn. rewrite Hs. constructor.
Qed.

Lemma turn_rests : ends_on astep (agent_turn (mkAgent c (Some d) false)) (mkWorld m failed_status)
  (mkAgent c (Some d) false) (mkWorld m failed_status).
Proof.
  eapply ends_bind.
  - eapply ends_bind; [apply (ends_machine _ m (Some Unchanged) m)|].
    { by eapply (ends_step _ (Http _ _ _ _ _)) with (r := Some (304, None)) (w' := m); [|constructor]. }
    cbn [ag_desired ag_needs_retry]. eapply (ends_bind _ _ _ true); [|constructor]. rewrite one_instance. cbn [health_check].
    eapply ends_bind; [by apply ends_machine|]. eapply ends_bind; [by apply ends_machine|]. constructor.
  - eapply ends_bind; [|constructor]. cbn [ag_desired ag_client]. unfold rotate. cbn [mbind option_bind]. rewrite no_ca.
    eapply ends_bind; [apply (ends_machine _ m (Some c) m)|constructor].
    apply (ends_step _ (ModifiedMs _)) with (r := Some 0) (w' := m); [done|].
    by apply (ends_step _ WallClockMs) with (r := 0) (w' := m); [|constructor].
Qed.

(** An agent that starts with a saved state and cannot apply it rests: the
    failure of its first attempt is not remembered, and while the processes run
    and the service has no news, it never tries again, for any number of turns,
    with its generation not observed and the instance reported failed. *)
Theorem resume_rests n : ends_on astep (agent_run n c) (mkWorld m status_default)
  (Some (mkAgent c (Some d) false)) (mkWorld m failed_status).
Proof.
  unfold agent_run, agent_start. eapply ends_bind.
  - eapply ends_bind; [apply (ends_machine _ m (Some (Some d)) m)|].
    + destruct (files m !! desired_path) as [t|] eqn:E; [|done]. cbn in saved.
      apply (ends_step _ (TryRead _)) with (r := Some (Some t)) (w' := m); [rewrite <- E; split; [by right|done]|].
      cbn. rewrite saved. constructor.
    + unfold publish. rewrite no_ca. eapply ends_bind; [constructor|]. eapply ends_bind; [by apply reconcile_fails|constructor].
  - eapply ends_bind; [|constructor]. induction n as [|n IH]; [constructor|]. eapply ends_bind; [apply turn_rests|done].
Qed.
End resumed.
End agent.

(** ** Instances on this machine *)

Section hosted.
Context `{!F64, !F64Cast, !RecordJson}.
Context (to_toml : value → string).
Context {IpNet : Type} (parse_net : string → option IpNet) (show_net : IpNet → string) (net_is_v4 : IpNet → bool).
Context (sha256_hex : string → string).
Context (settings_to_json : gmap string string → string)
  (from_json : string → option (list ListedBackup)) (parse_target_time : string → option Z).
Context (config : HostConfig) (run : Runner) (host_id : string) (other_user : bool) (quota_fs : option string).
Context (recovery_turns : nat).

Definition is_running_now (i : Instance) : hprog bool :=
  p ← processes_for config i;
  match p : option Processes with
  | Some p => r ← r_is_running run p; Ret (default false (r : option bool))
  | None => Ret false
  end.

Definition host_manager : InstanceManager := {|
  im_apply := apply to_toml parse_net show_net net_is_v4 sha256_hex settings_to_json from_json parse_target_time
    config run host_id other_user quota_fs recovery_turns;
  im_remove := remove_instance sha256_hex config run host_id quota_fs;
  im_record := λ id, read_applied (layout_new (instances_dir config) id);
  im_is_running := is_running_now;
  im_work_left := λ i, has_work_left i (layout_new (instances_dir config) (instance_id i))
|}.

Context (unit_dir : string) {laws : RunnerLaws unit_dir run}.
Hypothesis units_elsewhere : ∀ id rel, under unit_dir (path_join (l_dir (layout_new (instances_dir config) id)) rel) = false.

(** What HostInstance proves is what the agent relies on. *)
Lemma host_manager_laws :
  ManagerLaws host_manager (kept_data config) (λ id w, owner_of config w id = Some host_id).
Proof.
  assert (∀ {A} (p : hprog A) id w, only (λ o, gentle (files_of config id) (obs_ev o)) p → kept_data config id w →
    safe (kept_data config id) any_call p (λ _ _, True) w) as Hlook.
  { intros A p id w Hp Hw. eapply safe_weaken; [by apply safe_spares; eapply gentle_only_spares| |done|done].
    intros w' [Hl _]. by apply (kept_left_alone config id w). }
  split; cbn [im_apply im_remove im_record im_is_running im_work_left host_manager].
  - intros i w Hw. eapply apply_keeps_own; done.
  - intros i w. eapply safe_mono; [by apply apply_running|]. cbn. intros o w' _ Ho Hr. destruct (Ho Hr).
    split; [done|]. by eapply validate_entry.
  - intros i id w He Hne Hw. eapply apply_keeps_other; done.
  - intros id' id w He He' Hne Hw. eapply remove_keeps_other; done.
  - intros id w. eapply remove_gone; done.
  - intros id' id w He He' Hne Hw. eapply remove_leaves_other; done.
  - intros i id w. apply Hlook. apply only_try; [|done]. apply only_hdo. intros. by apply gentle_nothing.
  - intros i id w Hw. unfold is_running_now.
    eapply safe_bind_mono; [apply Hlook; [|done]; unfold processes_for; apply only_try; [apply processes_sparing|done]|].
    intros [p|] w1 Hw1 _; [|by split]. eapply safe_bind_mono; [|by intros r w2 Hw2 _; split].
    eapply safe_weaken; [apply law_is_running| |done|done]. intros w' [Hf Hd].
    eapply kept_left_alone; [|exact Hw1]. intros q Hq. rewrite Hf, Hd by (by eapply files_of_units). done.
  - intros i id w. apply Hlook. unfold has_work_left, is_primary, read_applied.
    apply only_bind; [apply only_try; [|done]; apply only_hdo; intros; by apply gentle_nothing|].
    intros [a|]; [|done]. case_match; [done|]. apply only_bind; [apply only_hdo; intros; by apply gentle_nothing|].
    intros []; [|done]. apply only_bind; [apply try_passwords_sparing|]. intros []; [|done].
    apply only_bind; [apply only_hdo; intros; by apply gentle_nothing|intros r].
    apply only_bind; [apply only_hdo; intros; by apply gentle_nothing|done].
Qed.
End hosted.

(** ** Examples *)

#[local] Existing Instance milli.
#[local] Existing Instance milli_cast.
#[local] Existing Instance binary_json.

Definition example_manager : InstanceManager :=
  host_manager (λ _, "toml") (λ c, Some c) id (λ _, true) id (λ _, EmptyString) (λ _, None) (λ _, None)
    example_config (Systemd "/units") "h1" false None 0.

Definition example_desired : DesiredState := mkDesired 1 [example_instance "db-1" "n1" 20000] [] None.

Lemma example_units id rel : under "/units" (path_join (l_dir (layout_new (instances_dir example_config) id)) rel) = false.
Proof. unfold path_join. case_match; reflexivity. Qed.

#[local] Instance example_laws :
  ManagerLaws example_manager (kept_data example_config) (λ id w, owner_of example_config w id = Some "h1").
Proof. apply (host_manager_laws _ _ _ _ _ _ _ _ _ _ _ _ _ _ "/units"), example_units. Qed.

Lemma example_kept : kept_data example_config "db-1-n1" running_machine.
Proof.
  assert (safe anything any_call (example_apply (example_instance "db-1" "n1" 20000)) (λ o w', o = Some Running →
    kept_data example_config "db-1-n1" w' ∧
    instance_validate (λ c, bool_decide (is_Some (Some c))) (example_instance "db-1" "n1" 20000) = true) seeded_machine) as Hs.
  { unfold example_apply. by eapply apply_running. }
  exact (proj1 (safe_ends _ _ _ _ _ _ _ Hs first_ends eq_refl)).
Qed.


(** The example's instance, asked for with ports it cannot have. *)
Definition refused_instance : Instance :=
  let i := example_instance "db-1" "n1" 20000 in
  mkInstance (i_database_id i) (i_database_name i) (i_node i) 2 (i_operation_id i) (i_postgres_version i)
    (i_resources i) 65530 (i_address i) (i_peers i) (i_bootstrap i) (i_restore i) (i_backup i) (i_tasks i)
    (i_replication_mode i) (i_allowed_cidrs i) (i_extensions i) (i_owner i) (i_secrets i) (i_role i) (i_rename_from i)
    (i_replicas i).

Definition refused_desired : DesiredState := mkDesired 2 [refused_instance] [] None.
Definition resumed_machine : machine := set_files <["/state/desired.json" := "state"]> running_machine.
Definition resumed_record : option Applied := Some (mkApplied "h1" 1 EmptyString [] true).

#[local] Instance machine_eq_dec : EqDecision machine.
Proof. solve_decision. Defined.

Lemma run_ends_at {A} (p : hprog A) m a : (Effects.run (perform true) p m).1.1 = a → (Effects.run (perform true) p m).2 = m → ends p m a m.
Proof. intros Ha Hm. rewrite <- Hm at 2. by apply run_ends_with; [apply perform_steps|]. Qed.

Ltac by_running := apply run_ends_at; [vm_compute; reflexivity|apply (bool_decide_unpack _); vm_compute; exact I].

Lemma record_ends : ends (im_record example_manager (instance_id refused_instance)) resumed_machine resumed_record resumed_machine.
Proof. by_running. Qed.

Lemma refused_ends : ends (im_apply example_manager refused_instance) resumed_machine None resumed_machine.
Proof. by_running. Qed.

Lemma running_ends : ends (im_is_running example_manager refused_instance) resumed_machine true resumed_machine.
Proof. by_running. Qed.

Lemma no_work_ends : ends (im_work_left example_manager refused_instance) resumed_machine false resumed_machine.
Proof. by_running. Qed.

Lemma saved_state : files resumed_machine !! desired_path example_config ≫= (λ _, Some refused_desired) = Some refused_desired.
Proof.
  change (desired_path example_config) with "/state/desired.json". unfold resumed_machine, set_files. cbn [files].
  by rewrite lookup_insert_eq.
Qed.

Lemma resume_rests_witness :
  ends_on astep
    (agent_run id (λ _ _, true) (λ _, None) (λ _, Some refused_desired) (λ _, "state") (λ _, "failed")
       example_config example_manager 3 example_client)
    (mkWorld resumed_machine status_default) (Some (mkAgent example_client (Some refused_desired) false))
    (mkWorld resumed_machine (failed_status (λ _, "failed") refused_instance resumed_record)).
Proof.
  apply (resume_rests id (λ _ _, true) (λ _, None) (λ _, Some refused_desired) (λ _, "state") (λ _, "failed")
           example_config example_manager example_client refused_desired refused_instance resumed_record resumed_machine).
  - exact saved_state.
  - reflexivity.
  - reflexivity.
  - exact record_ends.
  - exact refused_ends.
  - exact running_ends.
  - exact no_work_ends.
Defined.


Lemma agent_keeps_trying_witness :
  asafe (λ _, True) any_acall
    (agent_turns id (λ _ _, true) (λ _, None) (λ _, Some example_desired) (λ _, "state") (λ _, "failed")
       example_config example_manager 3 (mkAgent example_client None false)) settled
    (mkWorld running_machine status_default).
Proof.
  by apply (agent_keeps_trying id (λ _ _, true) (λ _, None) (λ _, Some example_desired) (λ _, "state") (λ _, "failed")
    example_config example_manager (kept_data example_config) (λ id w, owner_of example_config w id = Some "h1")
    3 (mkAgent example_client None false) (mkWorld running_machine status_default)).
Defined.
