(* ===== verification/HostTasks.v ===== *)
(** Work on a database through its own REST API: src/vk-agent/src/host/tasks.rs.

    Requests go to the local pgcluster ([Loopback]); serde_json's parsers of its
    answers are the class [ApiJson]. Waiting loops have fuel for their timeout at
    their pace; running out of it counts as the timeout. A result's JSON is
    reduced to the fields the admin service reads.

    The second half runs [replace_member] against the membership of Lease, behind
    the handlers of src/pgcluster/src/api/members.rs:

    - [replacement_keeps_voters]: wherever the replacement of a member is cut
      short, and however often it is repeated, the cluster has no fewer voters
      than before, the old member goes only after the new one was seen caught up,
      and a run that succeeds leaves exactly the exchange asked for. *)
From S2P Require Import Prelude Lease Effects Admission Placement Metadata Requests Standby HostModel Firewall HostRender HostCalls HostRunner HostClient HostRestore HostInstance.

Local Open Scope Z_scope.

(** ** Answers *)

Record Health := mkHealth { he_raft_leader : bool; he_primary : option string }.
Record ApiMember := mkApiMember { am_id : Z; am_voter : bool }.
Record ApiNode := mkApiNode { an_node_id : string; an_role : string; an_lag_bytes : Z }.
Record ReplicationStatus := mkReplicationStatus { rs_degraded : bool; rs_needs_reseed : list string }.
Record Manifest := mkManifest { mf_backup_id : string; mf_label : string; mf_completed_at : Z; mf_size_bytes : Z }.
Record BackupStatus := mkBackupStatus { bs_failed_label : option string; bs_error : option string }.
Record RunStatus := mkRunStatus { rn_running : bool; rn_error : option string }.

Class ApiJson := {
  parse_health : string → option Health;
  parse_members : string → option (list ApiMember);
  parse_nodes : string → option (list ApiNode);
  parse_replication : string → option ReplicationStatus;
  parse_failovers : string → option (list string);
  parse_backups : string → option (list Manifest);
  parse_backup_status : string → option BackupStatus;
  parse_run_status : string → option RunStatus
}.

(** What a task leaves for the admin service. *)
Inductive TaskOutput := NoOutput | NowPrimary (node : string) | BackupTaken (id : string).

Definition MEMBERSHIP_TIMEOUT_MS : Z := 120000.
Definition POLL_MS : Z := 1000.
Definition SWITCHOVER_TIMEOUT_MS : Z := 120000.
Definition RESTART_TIMEOUT_MS : Z := 1800 * 1000.
Definition BACKUP_TIMEOUT_MS : Z := 6 * 3600 * 1000.
Definition SEED_TIMEOUT_MS : Z := 6 * 3600 * 1000.
Definition CAUGHT_UP_BYTES : Z := 16 * 1024 * 1024.
Definition AUTH_USER : string := "pgcluster_auth".

Definition is_success (status : Z) : bool := (200 <=? status) && (status <? 300).

Definition eq_ignore_ascii_case (a b : string) : bool := String.eqb (str_map lower a) (str_map lower b).

(** As many turns as a timeout has at the pace of a second, and two more. *)
Definition turns_of (timeout_ms : Z) : nat := Z.to_nat (timeout_ms / POLL_MS) + 2.

(** [body] until it has an answer, an error, or the time is up. *)
Fixpoint each_second {A} (turns : nat) (deadline : Z) (body : hprog (option (option A))) : hprog (option A) :=
  match turns with
  | O => Ret None
  | S turns =>
      r ←? body;
      match r : option A with
      | Some a => Ret (Some a)
      | None =>
          now ← hdo NowMs;
          if deadline <=? now then Ret None
          else _ ← hdo (SleepMs POLL_MS); each_second turns deadline body
      end
  end.

Definition until {A} (timeout_ms : Z) (body : hprog (option (option A))) : hprog (option A) :=
  start ← hdo NowMs; each_second (turns_of timeout_ms) (start + timeout_ms) body.

(** ** LocalApi *)

Record LocalApi := mkLocalApi { la_base : string; la_key : string }.

Section tasks.
Context `{!F64, !ApiJson}.

Definition local_api (i : Instance) : LocalApi :=
  mkLocalApi ("http://127.0.0.1:" ++ format_dec (rest_api_port i)) (s_api_key (i_secrets i)).

Section calls.
Context (api : LocalApi).

(** The status and the body, which is empty if it does not arrive. *)
Definition api_call (method path : string) (body : payload) (timeout_ms : Z) : hprog (option (Z * string)) :=
  r ← hdo (Http (Loopback (la_key api)) method (la_base api ++ path) body timeout_ms);
  Ret ((λ x : Z * option string, (x.1, default EmptyString x.2)) <$> (r : option (Z * option string))).

Definition api_get {A} (parse : string → option A) (path : string) : hprog (option A) :=
  r ←? api_call "GET" path NoPayload HTTP_TIMEOUT_MS;
  Ret (if negb (is_success r.1) && negb (r.1 =? 503) then None else parse r.2).

Definition api_post (path : string) (body : list (string * arg)) : hprog (option ()) :=
  r ←? api_call "POST" path (Object body) MEMBERSHIP_TIMEOUT_MS;
  Ret (if is_success r.1 then Some () else None).

Definition api_delete (path : string) : hprog (option ()) :=
  r ←? api_call "DELETE" path NoPayload MEMBERSHIP_TIMEOUT_MS;
  Ret (if is_success r.1 || (r.1 =? 404) then Some () else None).

Definition health : hprog (option Health) := api_get parse_health "/health".

Definition is_leader : hprog bool :=
  h ← health; Ret (match h : option Health with Some h => he_raft_leader h | None => false end).

Definition api_primary : hprog (option (option string)) := h ←? health; Ret (Some (he_primary h)).

Definition api_nodes : hprog (option (list ApiNode)) := api_get parse_nodes "/api/nodes".

Definition is_standby (n : ApiNode) : bool := eq_ignore_ascii_case (an_role n) "replica".

(** [min_by_key]: the first of the least. *)
Definition best_standby : hprog (option string) :=
  l ←? api_nodes;
  Ret (an_node_id <$> max_by_key (λ a b, an_lag_bytes b <=? an_lag_bytes a) (reverse (List.filter is_standby l))).

Definition api_switchover (target : option string) : hprog (option TaskOutput) :=
  primary ←? api_primary;
  match (if bool_decide (primary = target) then target else None) with
  | Some node => Ret (Some (NowPrimary node))
  | None =>
      target ←? match target with Some t => Ret (Some t) | None => best_standby end;
      _ ←? api_post "/api/switchover" [("target_node_id", AText target)];
      until SWITCHOVER_TIMEOUT_MS (
        p ← api_primary;
        Ret (Some (if bool_decide ((p : option (option string)) = Some (Some target)) then Some (NowPrimary target) else None)))
  end.

Definition rolling_restart : hprog (option TaskOutput) :=
  _ ←? api_post "/api/restart" [];
  r ←? until RESTART_TIMEOUT_MS (
    status ←? api_get parse_run_status "/api/restart";
    Ret (Some (if rn_running status then None else Some (rn_error status))));
  Ret (match r : option string with Some _ => None | None => Some NoOutput end).

(** The error of a backup ends the wait. *)
Definition backup_done (label : string) : hprog (option (option (option string))) :=
  backups ←? api_get parse_backups "/api/backups";
  match List.find (λ b, String.eqb (mf_label b) label) backups with
  | Some found => Ret (Some (Some (Some (mf_backup_id found))))
  | None =>
      status ←? api_get parse_backup_status "/api/backups/status";
      Ret (Some (if bool_decide (bs_failed_label status = Some label) then Some None else None))
  end.

Definition take_backup (label : string) : hprog (option TaskOutput) :=
  _ ←? api_post "/api/backups" [("label", AText label)];
  r ←? until BACKUP_TIMEOUT_MS (backup_done label);
  Ret (BackupTaken <$> r).

Definition caught_up (node : string) (l : list ApiNode) : bool :=
  existsb (λ n, String.eqb (an_node_id n) node && is_standby n && (an_lag_bytes n <=? CAUGHT_UP_BYTES)) l.

Definition wait_for_standby (node : string) : hprog (option ()) :=
  until SEED_TIMEOUT_MS (
    l ←? api_nodes;
    Ret (Some (if caught_up node l then Some () else None))).

Definition knows (node : string) (l : list ApiNode) : bool := existsb (λ n, String.eqb (an_node_id n) node) l.

Definition member_path (id : Z) : string := ("/api/members/" ++ format_dec id)%string.
Definition promote_path (id : Z) : string := ("/api/members/" ++ format_dec id ++ "/promote")%string.

(** A parameter that has to be there. *)
Definition text_of (params : json) (key : string) : hprog (option string) := Ret (as_str (field params key)).

(** Bring in the new node, as a learner and then as a standby. *)
Definition bring_in (params : json) (new : string) : hprog (option ()) :=
  let new_id := raft_id new in
  members ←? api_get parse_members "/api/members";
  _ ←? (if existsb (λ m, am_id m =? new_id) members then Ret (Some ())
        else addr ←? text_of params "raft_addr";
             api_post "/api/members" [("id", ANumber new_id); ("addr", AText addr)]);
  l ←? api_nodes;
  _ ←? (if knows new l then Ret (Some ())
        else agent ←? text_of params "agent_addr";
             postgres ←? text_of params "postgres_addr";
             api_post "/api/nodes/add" [("node_id", AText new); ("agent_addr", AText agent);
               ("postgres_addr", AText postgres); ("priority", ANumber 90)]);
  wait_for_standby new.

Definition replace_member (params : json) : hprog (option TaskOutput) :=
  old ←? text_of params "old_node";
  new ←? text_of params "new_node";
  let new_id := raft_id new in
  _ ←? bring_in params new;
  members ←? api_get parse_members "/api/members";
  _ ←? (if existsb (λ m, (am_id m =? new_id) && negb (am_voter m)) members
        then api_post (promote_path new_id) [] else Ret (Some ()));
  primary ←? api_primary;
  _ ←? (if bool_decide (primary = Some old) then _ ←? api_switchover (Some new); Ret (Some ()) else Ret (Some ()));
  _ ←? api_delete ("/api/nodes/" ++ old);
  _ ←? api_delete (member_path (raft_id old));
  Ret (Some NoOutput).

Definition add_replica (params : json) : hprog (option TaskOutput) :=
  node ←? text_of params "node_id";
  l ←? api_nodes;
  _ ←? (if knows node l then Ret (Some ())
        else agent ←? text_of params "agent_addr";
             postgres ←? text_of params "postgres_addr";
             api_post "/api/nodes/add" [("node_id", AText node); ("agent_addr", AText agent);
               ("postgres_addr", AText postgres); ("priority", ANumber 0); ("external", AFlag true)]);
  _ ←? wait_for_standby node;
  Ret (Some NoOutput).

Definition detach_replica (params : json) : hprog (option TaskOutput) :=
  node ←? text_of params "node_id";
  l ←? api_nodes;
  _ ←? (if knows node l then api_post ("/api/nodes/" ++ node ++ "/detach") [] else Ret (Some ()));
  Ret (Some NoOutput).

Definition remove_replica (params : json) : hprog (option TaskOutput) :=
  node ←? text_of params "node_id";
  _ ←? api_delete ("/api/nodes/" ++ node);
  Ret (Some NoOutput).

Record ClusterStatus := mkClusterStatus {
  cs_database_id : string;
  cs_primary : option string;
  cs_sync_degraded : bool;
  cs_needs_reseed : list string;
  cs_failovers : list string;
  cs_backups : list Manifest;
  cs_backup_error : option string
}.

Definition cluster_status (database_id : string) : hprog (option ClusterStatus) :=
  replication ←? api_get parse_replication "/api/replication";
  failovers ←? api_get parse_failovers "/api/failover/history";
  backups ←? api_get parse_backups "/api/backups";
  status ←? api_get parse_backup_status "/api/backups/status";
  primary ←? api_primary;
  Ret (Some (mkClusterStatus database_id primary (rs_degraded replication) (rs_needs_reseed replication) failovers
               backups (bs_error status))).
End calls.

(** ** Running a task *)

Definition is_ours (i : Instance) (t : Task) : hprog bool :=
  if String.eqb (task_on t) "leader" then is_leader (local_api i)
  else if String.eqb (task_on t) "primary" then is_primary i
  else Ret false.

Definition password_statement (role password : string) : string :=
  ("ALTER ROLE " ++ role ++ " PASSWORD " ++ quote_literal password)%string.

Definition alter_passwords (i : Instance) : hprog (option TaskOutput) :=
  next ←? Ret (s_next (i_secrets i));
  _ ←? connect_ready i "postgres";
  _ ←? try_each (λ rp, must (hdo (PgExec "postgres" (password_statement rp.1 rp.2))))
         [(REPLICATION_USER, next_replication next); (AUTH_USER, next_auth next);
          (SUPERUSER, next_superuser next)];
  _ ← hdo (PgClose "postgres");
  Ret (Some NoOutput).

Definition run_task_kind (i : Instance) (t : Task) : hprog (option TaskOutput) :=
  let api := local_api i in
  let params := task_params t in
  let kind k := String.eqb (task_kind t) k in
  if kind "switchover" then api_switchover api (as_str (field params "target"))
  else if kind "rolling_restart" then rolling_restart api
  else if kind "replication_mode" then
    mode ←? text_of params "mode"; _ ←? api_post api "/api/replication/mode" [("mode", AText mode)]; Ret (Some NoOutput)
  else if kind "backup" then label ←? text_of params "label"; take_backup api label
  else if kind "replace_member" then replace_member api params
  else if kind "add_replica" then add_replica api params
  else if kind "detach_replica" then detach_replica api params
  else if kind "remove_replica" then remove_replica api params
  else if kind "alter_passwords" then alter_passwords i
  else Ret None.
End tasks.

(** ** The membership behind the API *)

(** src/pgcluster/src/api/members.rs. *)
Inductive member_request := AddMember (id : Z) (addr : string) | PromoteMember (id : Z) | RemoveMember (id : Z).

Definition error_status (e : MembershipError) : Z :=
  match e with NotFound _ => 404 | Conflict _ => 409 | NotLeader _ => 503 | FailedWith _ => 500 end.

(** The routes of src/pgcluster/src/api/mod.rs that change members. *)
Definition member_route (method path : string) (body : payload) : option member_request :=
  if String.eqb method "POST" && String.eqb path "/api/members" then
    match body with Object [("id", ANumber id); ("addr", AText addr)] => Some (AddMember id addr) | _ => None end
  else
    match strip_prefix "/api/members/" path with
    | Some rest =>
        if String.eqb method "DELETE" then RemoveMember <$> parse_u64 rest
        else if String.eqb method "POST" then
          match rsplit_once "/" rest with
          | Some (id, "promote") => PromoteMember <$> parse_u64 id
          | _ => None
          end
        else None
    | None => None
    end.

Section server.
Context `{!RaftWrites}.

Definition answered (created : Z) (res : result MembershipError RaftMembership) (m : RaftMembership) : Z * RaftMembership :=
  match res with Ok m' => (created, m') | Err e => (error_status e, m) end.

Definition serve_member (q : member_request) (m : RaftMembership) : Z * RaftMembership :=
  match q with
  | AddMember id addr => answered 201 (add_learner id addr m) m
  | PromoteMember id => answered 204 (Lease.promote id m) m
  | RemoveMember id => answered 204 (Lease.remove id m) m
  end.
End server.

(** A cluster as one replacement sees it: its members, whether the new node was
    seen caught up, and whether the old one was told to go. *)
Record cluster := mkCluster { cl_members : RaftMembership; cl_seen : bool; cl_dropped : bool }.

Section replacement.
Context `{!F64, !ApiJson, !RaftWrites}.
Context (api : LocalApi) (old new : string).

Definition listing (m : RaftMembership) : list ApiMember := (λ x, mkApiMember (m_id x) (voter x)) <$> members_of m.

(** What a request does to the members: it is served, or its answer is lost,
    before or after, or it is refused on the way. Nothing else changes members
    meanwhile. *)
Definition members_after (path : string) (method : string) (body : payload) (m : RaftMembership)
    (r : option (Z * option string)) (m' : RaftMembership) : Prop :=
  match member_route method path body with
  | Some q =>
      (∃ text, r = Some ((serve_member q m).1, text) ∧ m' = (serve_member q m).2) ∨
      (r = None ∧ (m' = m ∨ m' = (serve_member q m).2)) ∨
      (∃ status text, r = Some (status, text) ∧ is_error_status status = true ∧ status ≠ 404 ∧ m' = m)
  | None => m' = m
  end.

(** Members are listed as they are; nodes and health are as the cluster sees fit. *)
Definition cluster_step (c : cluster) (e : hcall) : hanswer e → cluster → Prop :=
  match e return hanswer e → cluster → Prop with
  | Http (Loopback _) method url body _ => λ r c',
      match strip_prefix (la_base api) url with
      | Some path =>
          members_after path method body (cl_members c) r (cl_members c') ∧
          (method = "GET" → path = "/api/members" → ∀ status text l, r = Some (status, text) →
             parse_members (default EmptyString text) = Some l → l = listing (cl_members c)) ∧
          cl_seen c' = cl_seen c ||
            (String.eqb method "GET" && String.eqb path "/api/nodes" &&
             match r with
             | Some (_, text) => match parse_nodes (default EmptyString text) with Some l => caught_up new l | None => false end
             | None => false
             end) ∧
          cl_dropped c' = cl_dropped c || (String.eqb method "DELETE" && String.eqb path ("/api/nodes/" ++ old))
      | None => c' = c
      end
  | _ => λ _ c', c' = c
  end.

Abbreviation csafe := (safe_on cluster_step).

Context (voters : gset Z).
Let old_id : Z := raft_id old.
Let new_id : Z := raft_id new.
Hypothesis old_votes : old_id ∈ voters.
Hypothesis new_votes_not : new_id ∉ voters.

Definition exchanged : gset Z := (voters ∪ {[new_id]}) ∖ {[old_id]}.

(** How far the exchange has come. *)
Definition underway (c : cluster) : Prop :=
  membership_wf (cl_members c) ∧
  (voter_ids (cl_members c) = voters ∨ voter_ids (cl_members c) = voters ∪ {[new_id]} ∨ voter_ids (cl_members c) = exchanged) ∧
  (voter_ids (cl_members c) = exchanged → cl_seen c = true) ∧ (cl_dropped c = true → cl_seen c = true).

(** Requests that concern neither members nor the old node. *)
Definition aside (e : hcall) : Prop :=
  match e with
  | Http (Loopback _) method url body _ => ∃ path, url = (la_base api ++ path)%string ∧ member_route method path body = None ∧
      (method = "DELETE" → path ≠ ("/api/nodes/" ++ old)%string)
  | Http _ _ _ _ _ => False
  | _ => True
  end.

(** They leave all but what was seen. *)
Definition beside (c c' : cluster) : Prop :=
  cl_members c' = cl_members c ∧ cl_dropped c' = cl_dropped c ∧ (cl_seen c = true → cl_seen c' = true).

Lemma http_step c key method path body ms r c' :
  cluster_step c (Http (Loopback key) method (la_base api ++ path) body ms) r c' →
  members_after path method body (cl_members c) r (cl_members c') ∧
  (method = "GET" → path = "/api/members" → ∀ status text l, r = Some (status, text) →
     parse_members (default EmptyString text) = Some l → l = listing (cl_members c)) ∧
  cl_seen c' = cl_seen c ||
    (String.eqb method "GET" && String.eqb path "/api/nodes" &&
     match r with
     | Some (_, text) => match parse_nodes (default EmptyString text) with Some l => caught_up new l | None => false end
     | None => false
     end) ∧
  cl_dropped c' = cl_dropped c || (String.eqb method "DELETE" && String.eqb path ("/api/nodes/" ++ old)).
Proof. unfold cluster_step. by rewrite strip_prefix_app. Qed.

Lemma aside_step c e r c' : aside e → cluster_step c e r c' → beside c c'.
Proof.
  destruct e; try (by intros _ ->). destruct via; try done. intros (path & -> & Hr & Hd) Hs.
  apply http_step in Hs as (Hm & _ & Hs & Hp). unfold members_after in Hm. rewrite Hr in Hm. split; [done|].
  split; [|by rewrite Hs; intros ->]. rewrite Hp.
  destruct (String.eqb_spec method "DELETE") as [E|]; [|by rewrite orb_false_r].
  destruct (String.eqb_spec path ("/api/nodes/" ++ old)) as [->|]; [by destruct (Hd E)|by rewrite orb_false_r].
Qed.

Lemma beside_underway c c' : beside c c' → underway c → underway c'.
Proof. intros (Em & Ed & Es) (Hw & Hs & Hx & Hd). unfold underway. rewrite Em, Ed. split_and!; auto. Qed.

Abbreviation any := (λ _ : hcall, True).

(** One request. *)
Lemma api_step {B} method path body ms (f : option (Z * string) → hprog B) I Q c :
  I c →
  (∀ r c', cluster_step c (Http (Loopback (la_key api)) method (la_base api ++ path) body ms) r c' →
     csafe I any (f ((λ x : Z * option string, (x.1, default EmptyString x.2)) <$> r)) Q c') →
  csafe I any (api_call api method path body ms ≫= f) Q c.
Proof. intros Hc Hf. split; [done|]. split; [done|]. intros r c' Hs. by apply Hf. Qed.

Lemma beside_trans c1 c2 c3 : beside c1 c2 → beside c2 c3 → beside c1 c3.
Proof. intros (? & ? & ?) (? & ? & ?). split_and!; [congruence|congruence|auto]. Qed.

Lemma aside_safe {A} (p : hprog A) c0 c : only (λ o, aside (obs_ev o)) p → underway c → beside c0 c →
  csafe (λ c', underway c' ∧ beside c0 c') any p (λ _ _, True) c.
Proof.
  intros Hp Hc Hb. eapply safe_weaken; [apply (safe_only_on (λ c', underway c' ∧ beside c0 c') aside); [apply answers|exact Hp| |done]|done|done|done].
  intros c1 e r c2 He [Hu1 Hb1] Hs. pose proof (aside_step _ _ _ _ He Hs) as Hb2.
  split; [by eapply beside_underway|by eapply beside_trans].
Qed.

(** Requests to a path that is known. *)
Lemma aside_call method path body ms : member_route method path body = None →
  (method = "DELETE" → path ≠ ("/api/nodes/" ++ old)%string) → only (λ o, aside (obs_ev o)) (api_call api method path body ms).
Proof. intros Hr Hd. apply only_bind; [|done]. apply only_hdo. intros r. by exists path. Qed.

(** Members as they are. *)
Lemma get_members_safe c : underway c →
  csafe underway any (api_get api parse_members "/api/members")
    (λ o c', beside c c' ∧ ∀ l, o = Some l → l = listing (cl_members c')) c.
Proof.
  intros Hc. apply api_step; [done|]. intros r c' Hs.
  assert (beside c c') as Hb by (eapply aside_step; [|exact Hs]; by exists "/api/members").
  assert (underway c') as Hc' by (by eapply beside_underway). cbn -[strip_prefix member_route String.append String.eqb] in Hs. rewrite strip_prefix_app in Hs.
  destruct Hs as (_ & Hl & _). destruct r as [[status text]|]; cbn; [|by split]. split; [done|]. split; [done|].
  case_match; [done|]. intros l Ht. destruct Hb as [-> _]. by eapply Hl.
Qed.

Definition is_member (m : RaftMembership) (id : Z) : Prop := is_Some (Lease.nodes m !! id).

Lemma listed m id : existsb (λ x, am_id x =? id) (listing m) = true → is_member m id.
Proof.
  intros (x & (y & -> & Hy%elem_of_members)%list_elem_of_In%list_elem_of_fmap & E%Z.eqb_eq)%existsb_exists.
  cbn in E. destruct Hy as [Hn _]. rewrite <- E. by eexists.
Qed.

Lemma listed_voter m id : existsb (λ x, (am_id x =? id) && negb (am_voter x)) (listing m) = false → is_member m id →
  id ∈ voter_ids m.
Proof.
  intros E [a Ha]. destruct (decide (id ∈ voter_ids m)) as [|Hn]; [done|]. exfalso. apply not_true_iff_false in E.
  apply E, existsb_exists. exists (mkApiMember id false). split; [|cbn; by rewrite Z.eqb_refl].
  apply list_elem_of_In, list_elem_of_fmap. exists (mkMember id a false). split; [done|]. apply elem_of_members. cbn.
  split; [done|]. by rewrite bool_decide_false.
Qed.

(** A request that changes members: whatever its answer, it had its effect or
    none, and an answer the task accepts tells which. *)
Lemma member_request_step method path body ms q c r c' :
  member_route method path body = Some q → method = "POST" ∨ (method = "DELETE" ∧ path ≠ ("/api/nodes/" ++ old)%string) →
  cluster_step c (Http (Loopback (la_key api)) method (la_base api ++ path) body ms) r c' →
  (cl_members c' = cl_members c ∨ cl_members c' = (serve_member q (cl_members c)).2) ∧
  cl_seen c' = cl_seen c ∧ cl_dropped c' = cl_dropped c ∧
  ∀ status text, r = Some (status, text) → is_success status = true ∨ status = 404 →
    status = (serve_member q (cl_members c)).1 ∧ cl_members c' = (serve_member q (cl_members c)).2.
Proof.
  intros Hr Hmeth (Hm & _ & Hs & Hd)%http_step. unfold members_after in Hm. rewrite Hr in Hm.
  assert (String.eqb method "GET" = false ∧ String.eqb method "DELETE" && String.eqb path ("/api/nodes/" ++ old) = false) as [E1 E2].
  { destruct Hmeth as [->|[-> Hne%String.eqb_neq]]; [done|]. by rewrite Hne. }
  rewrite E1, orb_false_r in Hs. rewrite E2, orb_false_r in Hd. split; [|split; [done|split; [done|]]].
  - destruct Hm as [(text & _ & ->)|[[_ Hm]|(status & text & _ & _ & _ & ->)]]; auto.
  - intros status text -> Hok. destruct Hm as [(t & [= -> ->] & ->)|[[? _]|(status' & t & [= <- <-] & He & Hne & _)]]; [done|done|].
    destruct Hok as [Hok|]; [|done]. unfold is_success, is_error_status in *. lia.
Qed.

Lemma new_not_old : new_id ≠ old_id.
Proof. intros E. apply new_votes_not. by rewrite E. Qed.

(** What the requests mean for the voters. *)
Lemma serve_add id addr m :
  voter_ids (serve_member (AddMember id addr) m).2 = voter_ids m ∧
  (membership_wf m → membership_wf (serve_member (AddMember id addr) m).2) ∧
  (is_success (serve_member (AddMember id addr) m).1 = true → is_member (serve_member (AddMember id addr) m).2 id).
Proof.
  unfold serve_member, answered. destruct (add_learner id addr m) as [m'|e] eqn:E; cbn.
  - apply add_learner_Ok in E as (_ & En & Ev). rewrite Ev. split; [done|]. unfold membership_wf, is_member.
    rewrite En, Ev, dom_insert, lookup_insert_eq. split; [set_solver|done].
  - split; [done|]. split; [done|]. by destruct e.
Qed.

Lemma serve_promote id m : let served := serve_member (PromoteMember id) m in
  served.2 = m ∧ is_success served.1 = false ∨
  id ∉ voter_ids m ∧ is_member m id ∧ voter_ids served.2 = voter_ids m ∪ {[id]} ∧ Lease.nodes served.2 = Lease.nodes m.
Proof.
  unfold serve_member, answered. destruct (Lease.promote id m) as [m'|e] eqn:E; cbn; [|left; by destruct e].
  right. by apply promote_Ok in E.
Qed.

Lemma serve_remove id m : let served := serve_member (RemoveMember id) m in
  (voter_ids served.2 = voter_ids m ∖ {[id]} ∧ ∀ x, x ≠ id → Lease.nodes served.2 !! x = Lease.nodes m !! x) ∨
  served.2 = m ∧ is_success served.1 = false ∧ (served.1 = 404 → ¬ is_member m id).
Proof.
  unfold serve_member, answered. destruct (Lease.remove id m) as [m'|e] eqn:E; cbn; [left; by apply remove_Ok in E|].
  right. split; [done|]. split; [by destruct e|]. destruct e; try done. intros _. apply remove_not_found in E.
  unfold is_member. rewrite E. by intros [].
Qed.

(** ** The steps of a replacement *)

Lemma calm {B} e (f : hanswer e → hprog B) (J : cluster → Prop) Q c :
  (∀ r c', cluster_step c e r c' → c' = c) → J c → (∀ r, csafe J any (f r) Q c) → csafe J any (hdo e ≫= f) Q c.
Proof. intros He Hc Hf. split; [done|]. split; [done|]. intros r c' Hs. rewrite (He _ _ Hs). apply Hf. Qed.

Lemma each_second_safe {A} (J R : cluster → Prop) (body : hprog (option (option A))) turns deadline :
  (∀ c, J c → csafe J any body (λ r c', ∀ a, r = Some (Some a) → R c') c) →
  ∀ c, J c → csafe J any (each_second turns deadline body) (λ o c', ∀ a, o = Some a → R c') c.
Proof.
  intros Hbody. induction turns as [|turns IH]; intros c Hc; [by split|]. cbn [each_second].
  eapply safe_bind_mono; [by apply Hbody|]. intros [[a|]|] c1 Hc1 HR; [| |by split].
  - split; [done|]. intros a' _. by eapply HR.
  - apply calm; [done|done|]. intros now. destruct (deadline <=? now); [by split|].
    apply calm; [done|done|]. intros _. by apply IH.
Qed.

(** What was seen of the nodes. *)
Lemma nodes_safe c0 c : underway c → beside c0 c →
  csafe (λ c', underway c' ∧ beside c0 c') any (api_nodes api)
    (λ o c', ∀ l, o = Some l → caught_up new l = true → cl_seen c' = true) c.
Proof.
  intros Hu Hb. apply api_step; [done|]. intros r c2 Hs.
  assert (beside c c2) as Hb2 by (eapply aside_step; [|exact Hs]; by exists "/api/nodes").
  assert (underway c2 ∧ beside c0 c2) as Hc2 by (split; [by eapply beside_underway|by eapply beside_trans]).
  apply http_step in Hs as (_ & _ & Hseen & _). destruct r as [[status text]|]; cbn [fmap option_fmap option_map]; [|by split].
  split; [done|]. cbn. destruct (negb _ && negb _); [done|]. intros l El Ec. rewrite Hseen. cbn. rewrite El, Ec. apply orb_true_r.
Qed.

(** A wait for the new node ends well only if it was seen caught up. *)
Lemma wait_safe c0 c : underway c → beside c0 c →
  csafe (λ c', underway c' ∧ beside c0 c') any (wait_for_standby api new) (λ o c', o = Some () → cl_seen c' = true) c.
Proof.
  intros Hu Hb. apply calm; [done|done|]. intros start.
  eapply safe_mono; [apply (each_second_safe (λ c', underway c' ∧ beside c0 c') (λ c', cl_seen c' = true)); [|done]|].
  2: { intros o c' _ Ho ->. by eapply Ho. }
  intros c1 [Hu1 Hb1]. eapply safe_try with (Q' := λ l c', caught_up new l = true → cl_seen c' = true).
  - eapply safe_mono; [by apply nodes_safe|]. intros [l|] c2 _ Hl; [by apply Hl|done].
  - intros l c2 Hc2 Hl. split; [done|]. destruct (caught_up new l); [|done]. intros _ _. by apply Hl.
Qed.

(** Adding the new member leaves the voters. *)
Lemma add_member_safe addr c : underway c →
  csafe underway any (api_post api "/api/members" [("id", ANumber new_id); ("addr", AText addr)])
    (λ o c', o = Some () → is_member (cl_members c') new_id) c.
Proof.
  intros Hc. apply api_step; [done|]. intros r c' Hs.
  apply (member_request_step _ _ _ _ (AddMember new_id addr)) in Hs as (Hm & Hseen & Hd & Hok); [|done|by left].
  destruct (serve_add new_id addr (cl_members c)) as (Hv & Hwf & Hin).
  assert (underway c') as Hc'.
  { destruct Hc as (Hw & Hs & Hx & Hp). unfold underway. rewrite Hseen, Hd.
    assert (voter_ids (cl_members c') = voter_ids (cl_members c)) as -> by (by destruct Hm as [->| ->]).
    split; [|done]. destruct Hm as [->| ->]; auto. }
  destruct r as [[status text]|]; cbn; [|by split]. split; [done|]. destruct (is_success status) eqn:E; [|done]. intros _.
  destruct (Hok status text eq_refl (or_introl E)) as [-> ->]. auto.
Qed.

(** Once the new node is brought in, it is a member and was seen caught up. *)
Lemma bring_in_safe params c : underway c →
  csafe underway any (bring_in api params new) (λ o c', o = Some () → is_member (cl_members c') new_id ∧ cl_seen c' = true) c.
Proof.
  intros Hc. unfold bring_in. cbv zeta.
  eapply safe_try with (Q' := λ l c', l = listing (cl_members c')).
  { eapply safe_mono; [by apply get_members_safe|]. intros [l|] c1 _ [_ Hl]; [by apply Hl|done]. }
  intros l c1 Hc1 ->. eapply safe_try with (Q' := λ _ c', is_member (cl_members c') new_id).
  { destruct (existsb _ _) eqn:E; [by split; [|apply listed]|].
    eapply safe_try with (Q' := λ _ c', True); [unfold text_of; split; [done|]; by case_match|]. intros addr c2 Hc2 _.
    eapply safe_mono; [by apply add_member_safe|]. intros [[]|] c3 _ Ho; [by apply Ho|done]. }
  clear c c1 Hc Hc1. intros _ c Hc Hin.
  eapply safe_weaken with (I := λ c', underway c' ∧ beside c c') (Q := λ o c', o = Some () → cl_seen c' = true);
    [|by intros c' []|done|].
  2: { intros o c' [_ (E & _)] Ho Hs. rewrite E. auto. }
  eapply safe_try with (Q' := λ _ _, True).
  { eapply safe_mono; [by apply nodes_safe|]. by intros [l|] c1. }
  intros l c1 [Hc1 Hb1] _. eapply safe_try with (Q' := λ _ _, True).
  { eapply safe_mono; [apply (aside_safe _ c); [|done|done]|by intros [[]|]].
    destruct (knows new l); [done|]. unfold text_of. do 2 (apply only_try; [done|intros ?]).
    apply only_try; [by apply aside_call|]. intros. done. }
  intros _ c2 [Hc2 Hb2] _. by apply wait_safe.
Qed.

(** The paths the task makes are the ones the server reads. *)
Lemma raft_id_bounds node : 0 ≤ raft_id node < 2 ^ 64.
Proof.
  unfold raft_id. destruct (strip_prefix "n" node ≫= parse_u64) as [v|] eqn:E; cbn; [|lia].
  apply bind_Some in E as (rest & _ & E). apply from_str_radix_bounds in E; lia.
Qed.

Lemma parse_id id : 0 ≤ id < 2 ^ 64 → parse_u64 (format_dec id) = Some id.
Proof. intros Hid. apply from_str_radix_format; lia. Qed.

Lemma promote_route id body : 0 ≤ id < 2 ^ 64 → member_route "POST" (promote_path id) body = Some (PromoteMember id).
Proof.
  intros Hid. unfold member_route, promote_path. rewrite strip_prefix_app.
  change (format_dec id ++ "/promote")%string with (format_dec id ++ String "/" "promote")%string.
  rewrite rsplit_once_app, parse_id by done. done.
Qed.

Lemma remove_route id body : 0 ≤ id < 2 ^ 64 → member_route "DELETE" (member_path id) body = Some (RemoveMember id).
Proof. intros Hid. unfold member_route, member_path. rewrite strip_prefix_app, parse_id by done. done. Qed.

(** Promoting makes the new member vote, and no one else. *)
Lemma promote_safe c : underway c →
  csafe underway any (api_post api (promote_path new_id) [])
    (λ o c', cl_seen c' = cl_seen c ∧ (o = Some () → new_id ∈ voter_ids (cl_members c'))) c.
Proof.
  intros Hc. apply api_step; [done|]. intros r c' Hs.
  apply (member_request_step _ _ _ _ (PromoteMember new_id)) in Hs as (Hm & Hseen & Hd & Hok);
    [|apply promote_route, raft_id_bounds|by left].
  pose proof new_not_old as Hno. destruct (Hc) as (Hw & Hst & Hx & Hp).
  destruct (serve_promote new_id (cl_members c)) as [[E1 E2]|(Hn & Hin & Hv & Hnodes)].
  - rewrite E1 in Hm. assert (cl_members c' = cl_members c) as E by (by destruct Hm).
    assert (underway c') as Hc' by (eapply beside_underway; [|exact Hc]; split_and!; [done|done|by rewrite Hseen]).
    destruct r as [[status text]|]; cbn; [|by split]. split; [done|]. split; [done|]. destruct (is_success status) eqn:Es; [|done].
    destruct (Hok status text eq_refl (or_introl Es)) as [-> _]. by rewrite E2 in Es.
  - assert (voter_ids (cl_members c) = voters) as Ev.
    { unfold exchanged in Hst. destruct Hst as [?|[E|E]]; [done| |]; rewrite E in Hn; set_solver. }
    assert (underway c') as Hc'.
    { unfold underway. rewrite Hseen, Hd. destruct Hm as [->| ->]; [done|]. unfold membership_wf. rewrite Hv, Ev, Hnodes.
      split; [rewrite <- Ev; apply union_subseteq; split; [done|]; by apply singleton_subseteq_l, elem_of_dom|].
      split; [auto|]. split; [|done]. intros E. exfalso. unfold exchanged in E. set_solver. }
    destruct r as [[status text]|]; cbn; [|by split]. split; [done|]. split; [done|]. destruct (is_success status) eqn:Es; [|done].
    destruct (Hok status text eq_refl (or_introl Es)) as [_ ->]. rewrite Hv. set_solver.
Qed.

(** Letting the old node go, once the new one was seen. *)
Lemma drop_node_safe c : underway c → cl_seen c = true →
  csafe underway any (api_delete api ("/api/nodes/" ++ old))
    (λ _ c', cl_members c' = cl_members c ∧ cl_seen c' = true) c.
Proof.
  intros Hc Hs. apply api_step; [done|]. intros r c' (Hm & _ & Hseen & Hd)%http_step.
  rewrite Hs in Hseen. cbn [orb] in Hseen. unfold members_after in Hm.
  assert (underway c') as Hc' by (destruct Hc as (? & ? & ? & ?); unfold underway; rewrite Hm, Hseen; split_and!; done).
  destruct r as [[status text]|]; cbn; (split; [done|]); done.
Qed.

(** Removing the old member, once the new one votes. *)
Lemma remove_member_safe c : underway c → cl_seen c = true → new_id ∈ voter_ids (cl_members c) →
  csafe underway any (api_delete api (member_path old_id)) (λ o c', o = Some () → voter_ids (cl_members c') = exchanged) c.
Proof.
  intros Hc Hs Hin. apply api_step; [done|]. intros r c' Hst.
  apply (member_request_step _ _ _ _ (RemoveMember old_id)) in Hst as (Hm & Hseen & Hd & Hok);
    [|apply remove_route, raft_id_bounds|by right]. pose proof new_not_old as Hno. destruct (Hc) as (Hw & Hst & Hx & Hp).
  assert (voter_ids (cl_members c) ∖ {[old_id]} = exchanged) as Ex.
  { unfold exchanged in *. destruct Hst as [E|[E|E]]; rewrite E in *; set_solver. }
  destruct (serve_remove old_id (cl_members c)) as [[Hv Hn]|(E1 & E2 & E3)].
  - assert (underway c') as Hc'.
    { unfold underway. rewrite Hseen, Hd. destruct Hm as [->| ->]; [done|]. unfold membership_wf. rewrite Hv, Ex.
      split; [|auto]. intros x Hxin. apply elem_of_dom. rewrite Hn by (unfold exchanged in Hxin; set_solver).
      apply elem_of_dom, Hw. rewrite <- Ex in Hxin. set_solver. }
    destruct r as [[status text]|]; cbn; [|by split]. split; [done|].
    destruct (is_success status || (status =? 404)) eqn:Es; [|done]. intros _.
    destruct (Hok status text eq_refl) as [_ ->]; [|by rewrite Hv, Ex].
    apply orb_true_iff in Es as [Es|Es%Z.eqb_eq]; auto.
  - rewrite E1 in Hm. assert (cl_members c' = cl_members c) as E by (by destruct Hm).
    assert (underway c') as Hc' by (eapply beside_underway; [|exact Hc]; split_and!; [done|done|by rewrite Hseen]).
    destruct r as [[status text]|]; cbn; [|by split]. split; [done|].
    destruct (is_success status || (status =? 404)) eqn:Es; [|done]. intros _.
    assert (status = 404 ∧ status = (serve_member (RemoveMember old_id) (cl_members c)).1) as [E4 E5].
    { apply orb_true_iff in Es as [Es|Es%Z.eqb_eq]; [destruct (Hok status text eq_refl (or_introl Es)) as [-> _]; by rewrite E2 in Es|].
      split; [done|]. by apply (Hok status text eq_refl (or_intror Es)). }
    rewrite E, <- Ex. assert (old_id ∉ voter_ids (cl_members c)); [|set_solver].
    intros Hold. apply E3; [congruence|]. by apply elem_of_dom, Hw.
Qed.

Lemma each_second_only {A} P turns deadline (body : hprog (option (option A))) :
  (∀ r, P (Obs NowMs r)) → (∀ r, P (Obs (SleepMs POLL_MS) r)) → only P body → only P (each_second turns deadline body).
Proof.
  intros Hn Hs Hb. induction turns as [|turns IH]; cbn [each_second]; [done|]. apply only_try; [done|]. intros [a|]; [done|].
  apply only_bind; [by apply only_hdo|]. intros now. destruct (deadline <=? now); [done|].
  apply only_bind; [by apply only_hdo|done].
Qed.

Lemma primary_aside : only (λ o, aside (obs_ev o)) (api_primary api).
Proof. apply only_try; [|done]. apply only_try; [by apply aside_call|]. intros. done. Qed.

Lemma switchover_aside target : only (λ o, aside (obs_ev o)) (api_switchover api target).
Proof.
  unfold api_switchover. apply only_try; [apply primary_aside|]. intros primary. case_match; [done|].
  apply only_try.
  { destruct target; [done|]. apply only_try; [|done]. apply only_try; [by apply aside_call|]. intros. done. }
  intros t. apply only_try; [apply only_try; [by apply aside_call|]; intros; done|]. intros _.
  apply only_bind; [by apply only_hdo|]. intros start. apply each_second_only; [done|done|].
  apply only_bind; [apply primary_aside|]. intros. done.
Qed.

Lemma enough_voters c : underway c → (size voters ≤ size (voter_ids (cl_members c)))%nat.
Proof.
  intros (_ & Hst & _). assert (size (voters ∪ {[new_id]}) = S (size voters)) as E1.
  { rewrite size_union by set_solver. rewrite size_singleton. lia. }
  destruct Hst as [->|[->| ->]]; [lia|lia|]. unfold exchanged. rewrite size_difference by set_solver.
  rewrite size_singleton. lia.
Qed.

(** C8 Replacing a member: at every moment, wherever the task is cut short and
    also when it is run again from there, the cluster's voters are the old ones,
    those with the new member, or those with the exchange made, so never fewer
    than before; the exchange is made and the old node told to go only after the
    new one was seen as a standby within 16 MiB of the primary; and a task that
    succeeds has made exactly the exchange it was asked for. *)
Theorem replacement_keeps_voters params c :
  as_str (field params "old_node") = Some old → as_str (field params "new_node") = Some new → underway c →
  csafe (λ c', underway c' ∧ (size voters ≤ size (voter_ids (cl_members c')))%nat) any (replace_member api params)
    (λ o c', is_Some o → voter_ids (cl_members c') = exchanged) c.
Proof.
  intros Hold Hnew Hc. eapply safe_weaken with (I := underway) (P := any)
    (Q := λ o c', is_Some o → voter_ids (cl_members c') = exchanged); [|intros c' Hc'; split; [done|by apply enough_voters]|done|done].
  unfold replace_member, text_of. rewrite Hold, Hnew. cbn [try_bind mbind prog_bind bind_prog]. cbv zeta.
  eapply safe_try with (Q' := λ _ c', is_member (cl_members c') new_id ∧ cl_seen c' = true).
  { eapply safe_mono; [by apply bring_in_safe|]. intros [[]|] c1 _ Ho; [by apply Ho|by intros []]. }
  clear c Hc. intros _ c Hc [Hin Hseen].
  eapply safe_try with (Q' := λ l c', beside c c' ∧ l = listing (cl_members c')).
  { eapply safe_mono; [by apply get_members_safe|]. intros [l|] c1 _ [Hb Hl]; [by split; [|apply Hl]|by intros []]. }
  intros l c1 Hc1 [(Em & _ & Es) ->]. rewrite <- Em in Hin. specialize (Es Hseen). clear c Hc Hseen Em.
  eapply safe_try with (Q' := λ _ c', new_id ∈ voter_ids (cl_members c') ∧ cl_seen c' = true).
  { destruct (existsb _ _) eqn:E.
    - eapply safe_mono; [by apply promote_safe|]. intros [[]|] c2 _ [E2 Ho]; [|by intros []]. split; [by apply Ho|congruence].
    - split; [done|]. split; [|done]. by apply listed_voter. }
  clear c1 Hc1 Hin Es. intros _ c Hc [Hin Hseen].
  assert (∀ {A} (p : hprog (option A)) (f : A → hprog (option TaskOutput)),
    only (λ o, aside (obs_ev o)) p → (∀ a c', underway c' → new_id ∈ voter_ids (cl_members c') → cl_seen c' = true →
      csafe underway any (f a) (λ o c', is_Some o → voter_ids (cl_members c') = exchanged) c') →
    ∀ c, underway c → new_id ∈ voter_ids (cl_members c) → cl_seen c = true →
      csafe underway any (try_bind p f) (λ o c', is_Some o → voter_ids (cl_members c') = exchanged) c) as Haside.
  { intros A p f Hp Hf c1 Hc1 Hin1 Hs1. eapply safe_bind_mono with (Q' := λ _ c', beside c1 c').
    - eapply safe_weaken; [by apply (aside_safe p c1)|by intros c' []|done|by intros a c' [] _].
    - intros [a|] c2 Hc2 (Em & _ & Es); [|by split; [|intros []]]. apply Hf; [done|by rewrite Em|auto]. }
  apply Haside; [apply primary_aside| |done|done|done]. clear c Hc Hin Hseen. intros primary.
  apply Haside; [case_bool_decide; [|done]; apply only_try; [apply switchover_aside|done]|]. intros _ c Hc Hin Hseen.
  eapply safe_try with (Q' := λ _ c', new_id ∈ voter_ids (cl_members c') ∧ cl_seen c' = true).
  { eapply safe_mono; [by apply drop_node_safe|]. intros [[]|] c1 _ [Em Es]; [by rewrite Em|by intros []]. }
  intros _ c1 Hc1 [Hin1 Hs1]. eapply safe_try with (Q' := λ _ c', voter_ids (cl_members c') = exchanged).
  { eapply safe_mono; [by apply remove_member_safe|]. intros [[]|] c2 _ Ho; [by apply Ho|by intros []]. }
  intros _ c2 Hc2 Hv. by split.
Qed.
End replacement.

(** ** Example *)

(** A cluster of three that gets a fourth member for its second, with answers
    that stand for their texts. *)
Definition example_members (text : string) : option (list ApiMember) :=
  let three := [mkApiMember 1 true; mkApiMember 2 true; mkApiMember 3 true] in
  if String.eqb text "three" then Some three
  else if String.eqb text "learner" then Some (three ++ [mkApiMember 4 false])
  else if String.eqb text "four" then Some (three ++ [mkApiMember 4 true])
  else None.

#[local] Instance example_api_json : ApiJson := {|
  parse_health := λ _, Some (mkHealth true (Some "n1"));
  parse_members := example_members;
  parse_nodes := λ text, if String.eqb text "ready" then Some [mkApiNode "n4" "Replica" 0] else Some [];
  parse_replication := λ _, None;
  parse_failovers := λ _, None;
  parse_backups := λ _, None;
  parse_backup_status := λ _, None;
  parse_run_status := λ _, None
|}.

#[local] Existing Instance milli.
#[local] Existing Instance test_writes.

Definition example_local : LocalApi := mkLocalApi "http://127.0.0.1:20007" "key".

Definition three_members : cluster :=
  mkCluster (mkMembership {[1 := "a:3"; 2 := "b:3"; 3 := "c:3"]} {[1; 2; 3]}) false false.

Definition example_params : json :=
  JObject [("old_node", JString "n2"); ("new_node", JString "n4"); ("raft_addr", JString "d:3");
           ("agent_addr", JString "d:4"); ("postgres_addr", JString "d:2")].

Definition example_voters : gset Z := {[1; 2; 3]}.

Lemma replacement_keeps_voters_witness :
  safe_on (cluster_step example_local "n2" "n4")
    (λ c', underway "n2" "n4" example_voters c' ∧ (size example_voters ≤ size (voter_ids (cl_members c')))%nat)
    (λ _, True) (replace_member example_local example_params)
    (λ o c', is_Some o → voter_ids (cl_members c') = exchanged "n2" "n4" example_voters) three_members.
Proof.
  apply (replacement_keeps_voters example_local "n2" "n4" example_voters).
  - apply (bool_decide_unpack _). vm_compute. exact I.
  - apply (bool_decide_unpack _). vm_compute. exact I.
  - reflexivity.
  - reflexivity.
  - split; [apply (bool_decide_unpack _); vm_compute; exact I|]. split; [by left|]. split; [|done].
    intros E. exfalso. assert (bool_decide (voter_ids (cl_members three_members) = exchanged "n2" "n4" example_voters) = false) as Hf
      by (vm_compute; reflexivity). by apply bool_decide_eq_false in Hf.
Defined.
