(* ===== verification/HostLoops.v ===== *)
(** The host agent's other tasks: the reporter, the tasks and the watcher of
    src/vk-agent/src/host/mod.rs, with capacity.rs and the start of the process.

    Each is one turn of its loop as a program, with what it keeps between turns
    as its argument and result. Which tasks run at a time is a state machine of
    its own. The texts of documents serde_json prints are parameters.

    - [reports_in_time]: the reporter tries at least once an interval, at once
      when something changed, and every second until it succeeds.
    - [one_run_at_a_time]: no task runs twice at a time.
    - [asked_for_runs]: a tick starts all that is asked for, what is over and still
      asked for included.
    - [switchover_not_checked]: a switchover without a target has nothing to tell
      that by, so it is made again. *)
From S2P Require Import Prelude Lease Effects Admission Placement Metadata Requests Standby Agent HostModel Firewall ConfigFile HostRender HostCalls HostRunner HostClient HostRestore HostInstance HostMachine HostAgent HostTasks.

Local Open Scope Z_scope.

(** ** capacity.rs *)

Definition MAJORS : list string := ["16"; "17"; "18"].

(** [trim_start_matches] of a text. *)
Fixpoint trim_start_text (fuel : nat) (prefix s : string) : string :=
  match fuel, strip_prefix prefix s with
  | S fuel, Some rest => trim_start_text fuel prefix rest
  | _, _ => s
  end.

Definition route_target (admin_url : string) : string :=
  let rest := trim_start_text (String.length admin_url) "https://" admin_url in
  let authority := match split_once "/" rest with Some (a, _) => a | None => rest end in
  if str_exists (Ascii.eqb ":") authority then authority else (authority ++ ":443")%string.

Definition detect_address (admin_url : string) : hprog (option string) := hdo (RouteTo (route_target admin_url)).

Section capacity.
Context `{!F64}.
(** [as f64] of an integer, and [str::parse]. *)
Context (f_of_z : Z → f64) (f_parse : string → option f64).

Definition GIB : f64 := f_mul (f_mul (f_lit "1024.0") (f_lit "1024.0")) (f_lit "1024.0").

Definition parse_mem_total (meminfo : string) : option f64 :=
  line ← List.find (starts_with "MemTotal:") (lines meminfo);
  word ← split_whitespace line !! 1%nat;
  kib ← f_parse word;
  Some (f_div (f_mul kib (f_lit "1024.0")) GIB).

Definition measure (instances_dir : string) : hprog (option Resources) :=
  cpus ← hdo Parallelism;
  meminfo ←? hdo (ReadText "/proc/meminfo");
  disk ←? hdo (FilesystemSize instances_dir);
  memory ←? Ret (parse_mem_total meminfo);
  Ret (Some (mkResources (match cpus : option Z with Some n => f_of_z n | None => f_lit "1.0" end) memory
               (f_div (f_mul (f_of_z disk.1) (f_of_z disk.2)) GIB))).

Fixpoint versions_of (config : HostConfig) (majors : list string) (found : gmap string string) : hprog (gmap string string) :=
  match majors with
  | [] => Ret found
  | major :: majors =>
      out ← hdo (RunStdout (pg_bin config major ++ "/postgres") ["--version"]);
      versions_of config majors
        (match (out : option string) ≫= release_of with Some v => <[major := v]> found | None => found end)
  end.

Definition installed_versions (config : HostConfig) : hprog (gmap string string) := versions_of config MAJORS ∅.

(** What a host says of itself. *)
Record HostDocument := mkHostDocument {
  hd_observed_generation : Z;
  hd_version : string;
  hd_address : string;
  hd_capacity : Resources;
  hd_instances : list HostReport;
  hd_ca_fingerprint : string;
  hd_postgres_versions : gmap string string
}.
End capacity.

(** ** Reports *)

Definition U64_MAX : Z := 2 ^ 64 - 1.

(** What the reporter keeps between its ticks. *)
Record Reporter := mkReporter { rp_last : option (Z * list HostReport); rp_since_sent : Z }.

Definition reporter_new : Reporter := mkReporter None U64_MAX.

(** The time since the last report, and whether one is due. *)
Definition since_sent (r : Reporter) : Z := Z.min (rp_since_sent r + 1) U64_MAX.

Definition report_due (interval : Z) (r : Reporter) (current : Z * list HostReport) : bool :=
  negb (bool_decide (rp_last r = Some current) && (since_sent r <? interval)).

Definition reported_on (current : Z * list HostReport) (sent : bool) (r : Reporter) : Reporter :=
  if sent then mkReporter (Some current) 0 else mkReporter (rp_last r) (since_sent r).

Section loops.
Context `{!F64, !F64Cast, !RecordJson, !ApiJson}.
Context (f_of_z : Z → f64) (f_parse : string → option f64).
Context (sha256_hex : string → string) (package_version : string).
Context (settings_to_json : gmap string string → string).
Context (report_json : HostDocument → string) (cluster_json : ClusterStatus → string).
(** The text of a task's result, and what an error says. *)
Context (result_json : option TaskOutput → string) (failure : string).
Context (rfc3339 : Z → string).
Context (config : HostConfig) (other_user : bool).

Definition build_report (c : AdminClient) (observed : Z) (instances : list HostReport) : hprog (option HostDocument) :=
  address ←? match advertise_address config with
             | Some address => Ret (Some address)
             | None => detect_address (admin_url config)
             end;
  capacity ←? measure f_of_z f_parse (instances_dir config);
  ca ←? ca_fingerprint sha256_hex c;
  versions ← installed_versions config;
  Ret (Some (mkHostDocument observed package_version address capacity instances ca versions)).

(** One tick, on a snapshot of the status: its generation, and its reports as the
    map gave them. *)
Definition reporter_tick (c : AdminClient) (r : Reporter) (observed : Z) (values : list HostReport) : hprog Reporter :=
  let instances := sort_by (λ a b, str_leb (hr_database_id a) (hr_database_id b)) values in
  let current := (observed, instances) in
  if negb (report_due (report_interval_seconds config) r current) then Ret (mkReporter (rp_last r) (since_sent r))
  else
    built ← build_report c observed instances;
    match built : option HostDocument with
    | Some document =>
        sent ← send_report c (report_json document);
        Ret (reported_on current (match sent : option () with Some _ => true | None => false end) r)
    | None => Ret (reported_on current false r)
    end.

(** ** Tasks *)

Definition run_task (c : AdminClient) (i : Instance) (t : Task) : hprog bool :=
  ours ← is_ours i t;
  if negb (ours : bool) then Ret false
  else
    _ ← hdo (AdminLog (i_operation_id i) (task_kind t ++ " on " ++ i_node i));
    outcome ← run_task_kind i t;
    sent ← send_task_result c (task_id t) (result_json outcome);
    Ret (match sent : option () with Some _ => true | None => false end).

(** A repository is written to and cleared with a small file. *)
Definition probe_repository (id : string) (target : BackupTarget) : hprog (option ()) :=
  if negb (target_validate target) then Ret None
  else
    let probe := path_join (state_dir config) ("repository-check-" ++ id) in
    _ ←? must (hdo (WriteText probe "pgcluster"));
    _ ←? give_to other_user probe;
    repository ←? repository_create settings_to_json other_user (host_walg_path config)
                    (path_join (state_dir config) ("repository-check-" ++ id ++ ".json")) target;
    outcome ← repository_probe repository probe;
    _ ← hdo (RemoveOne probe);
    _ ← hdo (RemoveOne (rp_config_path repository));
    Ret outcome.

Definition check_repository (c : AdminClient) (check : RepositoryCheck) : hprog (option ()) :=
  result ← probe_repository (check_id check) (check_target check);
  send_repository_check c (check_id check) (match result : option () with Some _ => None | None => Some failure end).

(** Everything a desired state asks to be run, in the order it is claimed. *)
Definition asked_for (d : DesiredState) : list string :=
  (check_id <$> d_repository_checks d) ++ (i ← d_instances d; task_id <$> i_tasks i).

(** The loop that starts them: the published state, the ids its current tick has
    yet to claim, the ids claimed, and the jobs spawned that are not over. *)
Record TaskLoop := mkTaskLoop {
  tl_desired : option DesiredState;
  tl_pending : list string;
  tl_running : gset string;
  tl_jobs : list string
}.

Definition spawn_tasks : TaskLoop := mkTaskLoop None [] ∅ [].

(** A job ends, and the main loop publishes, between any two claims. *)
Inductive task_event := Tick | Claim | Finish (id : string) | Publish (d : DesiredState).

Definition claim_id (id : string) (running : gset string) : bool * gset string :=
  (bool_decide (id ∉ running), {[id]} ∪ running).

Definition task_step (e : task_event) (s : TaskLoop) : TaskLoop :=
  match e with
  | Tick =>
      match tl_pending s, tl_desired s with
      | [], Some d => mkTaskLoop (Some d) (asked_for d) (tl_running s) (tl_jobs s)
      | _, _ => s
      end
  | Claim =>
      match tl_pending s with
      | [] => s
      | id :: rest =>
          let '(claimed, running) := claim_id id (tl_running s) in
          mkTaskLoop (tl_desired s) rest running (if claimed then tl_jobs s ++ [id] else tl_jobs s)
      end
  | Finish id =>
      if decide (id ∈ tl_jobs s)
      then mkTaskLoop (tl_desired s) (tl_pending s) (tl_running s ∖ {[id]}) (filter (λ x, x ≠ id) (tl_jobs s))
      else s
  | Publish d => mkTaskLoop (Some d) (tl_pending s) (tl_running s) (tl_jobs s)
  end.

Definition task_steps (es : list task_event) (s : TaskLoop) : TaskLoop := fold_left (λ s e, task_step e s) es s.

(** ** Watching *)

Definition WATCH_TICK_SECS : Z := 5.
Definition report_every : Z := Z.max (report_interval_seconds config / WATCH_TICK_SECS) 1.

(** The leader says how its cluster stands, now and then. *)
Definition report_cluster (c : AdminClient) (ticks : Z) (i : Instance) : hprog () :=
  if negb (ticks mod report_every =? 0) then Ret ()
  else
    leader ← is_leader (local_api i);
    if negb (leader : bool) then Ret ()
    else
      status ← cluster_status (local_api i) (i_database_id i);
      match status : option ClusterStatus with
      | Some s => ignore (send_cluster_report c (cluster_json s))
      | None => Ret ()
      end.

(** One instance: what is written into its report, and the samples kept. *)
Definition watch_instance (c : AdminClient) (ticks : Z) (i : Instance) (samples : WalSamples)
    : hprog (option (option string * option string) * WalSamples) :=
  let l := layout_new (instances_dir config) (instance_id i) in
  there ← hdo (PathExists (path_join (l_data l) "PG_VERSION"));
  if negb (there : bool) then Ret (None, samples)
  else
    seen ← observe i samples;
    _ ← report_cluster c ticks i;
    let '(version, until, samples) := (seen : option string * option Z * WalSamples) in
    Ret (Some (rfc3339 <$> until, version), samples).

(** ** The start *)

Definition read_token : hprog (result ClientError string) :=
  env ← hdo (EnvironmentVar "VK_AGENT_ENROLLMENT_TOKEN");
  match env : option string with
  | Some token => Ret (Ok token)
  | None =>
      match enrollment_token_file config with
      | Some path => failing (hdo (ReadText path))
      | None => Ret (Err TokenNotSet)
      end
  end.

(** What retrying cannot mend. A token without a hash is not among it. *)
Definition permanent (e : ClientError) : bool :=
  match e with TokenRefused | CaMismatch | TokenMalformed | TokenNotSet => true | NoCaHash | Failed => false end.

Definition ENROLL_RETRY_MS : Z := 5000.

Fixpoint enrol_loop (client_ok : string → option (string * string) → bool) (parse_enrolled : string → option EnrollResponse)
    (turns : nat) : hprog (result ClientError AdminClient) :=
  match turns with
  | O => Ret (Err Failed)
  | S turns =>
      r ← connect sha256_hex client_ok parse_enrolled (admin_url config) (state_dir config) read_token;
      match r : result ClientError AdminClient with
      | Ok c => Ret (Ok c)
      | Err e => if permanent e then Ret (Err e) else _ ← hdo (SleepMs ENROLL_RETRY_MS); enrol_loop client_ok parse_enrolled turns
      end
  end.

(** ** Delays of the reporter *)

(** Ticks, one snapshot each. *)
Fixpoint reporter_ticks (c : AdminClient) (r : Reporter) (snapshots : list (Z * list HostReport)) : hprog Reporter :=
  match snapshots with
  | [] => Ret r
  | (observed, values) :: snapshots => r ← reporter_tick c r observed values; reporter_ticks c r snapshots
  end.

Definition snapshot (observed : Z) (values : list HostReport) : Z * list HostReport :=
  (observed, sort_by (λ a b, str_leb (hr_database_id a) (hr_database_id b)) values).

(** A report that could not be made or sent leaves everything as a tick does. *)
Definition tried (current : Z * list HostReport) (r r' : Reporter) (tr : list (obs hanswer)) : Prop :=
  tr ≠ [] ∧ ∃ sent, r' = reported_on current sent r ∧
    (sent = true → ∃ via url body text, Obs (Http via "POST" url body HTTP_TIMEOUT_MS) (Some text) ∈ tr ∧
       is_error_status text.1 = false).

Lemma tick_runs c r observed values :
  all_runs (reporter_tick c r observed values) (λ r' tr,
    if report_due (report_interval_seconds config) r (snapshot observed values)
    then tried (snapshot observed values) r r' tr
    else tr = [] ∧ r' = mkReporter (rp_last r) (since_sent r)).
Proof.
  unfold reporter_tick. cbv zeta. fold (snapshot observed values). destruct (report_due _ _ _); cbn [negb]; [|done].
  apply all_runs_bind. eapply all_runs_mono with (Q := λ _ tr, tr ≠ []).
  { unfold build_report, detect_address. destruct (advertise_address config) as [a|].
    - intros cpus. eapply all_runs_mono; [apply all_runs_True|]. done.
    - intros route. eapply all_runs_mono; [apply all_runs_True|]. done. }
  intros [document|] tr Htr; [|split; [by rewrite app_nil_r|]; by exists false].
  apply all_runs_bind. intros answer. cbn. split; [by destruct tr|].
  destruct answer as [[status text]|]; [|by exists false]. destruct (is_error_status status) eqn:E; [by exists false|].
  exists true. split; [done|]. intros _. do 3 eexists. exists (status, text). split; [|exact E]. apply elem_of_app. right. left.
Qed.

Lemma quiet_ticks c r snapshots :
  0 ≤ rp_since_sent r → report_interval_seconds config ≤ U64_MAX →
  all_runs (reporter_ticks c r snapshots) (λ r' tr, tr = [] →
    rp_since_sent r' = rp_since_sent r + Z.of_nat (length snapshots) ∧
    (snapshots ≠ [] → rp_since_sent r' < report_interval_seconds config)).
Proof.
  intros Hr Hmax. revert r Hr. induction snapshots as [|[observed values] l IH]; intros r Hr.
  { intros _. split; [cbn; lia|done]. }
  cbn [reporter_ticks]. apply all_runs_bind. eapply all_runs_mono; [apply tick_runs|]. cbn beta. intros r1 tr1 Htick.
  destruct (report_due _ _ _) eqn:Ed.
  - eapply all_runs_mono; [apply all_runs_True|]. cbn beta. intros r2 tr2 _ [-> _]%app_eq_nil. by destruct Htick.
  - destruct Htick as [-> ->]. unfold report_due in Ed. apply negb_false_iff, andb_true_iff in Ed as [_ Hlt%Z.ltb_lt].
    unfold since_sent in *. assert (rp_since_sent r + 1 ≤ U64_MAX) as Hle by lia.
    eapply all_runs_mono; [apply IH; cbn; lia|]. cbn. intros r2 tr2 Hq Htr. destruct (Hq Htr) as [E Hlast].
    rewrite E. split; [lia|]. intros _. destruct l as [|x l]; [cbn; lia|]. rewrite E in Hlast. apply Hlast. done.
Qed.


End loops.

(** ** Jobs *)

Section jobs.
Context `{!F64}.

Definition jobs_claimed (s : TaskLoop) : Prop := NoDup (tl_jobs s) ∧ tl_running s = list_to_set (tl_jobs s).

Lemma task_step_claimed e s : jobs_claimed s → jobs_claimed (task_step e s).
Proof.
  intros [Hnd Hrun]. destruct e as [| |id|d]; cbn.
  - by destruct (tl_pending s), (tl_desired s).
  - destruct (tl_pending s) as [|id rest]; [done|]. cbn. unfold jobs_claimed. cbn. case_bool_decide as Hid.
    + split; [|set_solver]. apply NoDup_app. split; [done|]. split; [|apply NoDup_singleton].
      rewrite Hrun in Hid. set_solver.
    + split; [done|]. set_solver.
  - case_decide as Hid; [|done]. split; cbn; [by apply NoDup_filter|].
    apply set_eq. intros x. rewrite Hrun. set_unfold. rewrite list_elem_of_filter. naive_solver.
  - done.
Qed.

Lemma one_run es : jobs_claimed (task_steps es spawn_tasks).
Proof.
  unfold task_steps. assert (jobs_claimed spawn_tasks) as Hs by (split; [apply NoDup_nil_2|done]).
  revert Hs. generalize spawn_tasks. induction es as [|e es IH]; intros s Hs; [done|]. by apply IH, task_step_claimed.
Qed.

(** No task and no repository check runs twice at a time: whatever the order in
    which the loop ticks and claims, jobs end and states are published, the jobs
    under way have ids of their own, and exactly those ids are claimed. *)
Theorem one_run_at_a_time es :
  NoDup (tl_jobs (task_steps es spawn_tasks)) ∧
  tl_running (task_steps es spawn_tasks) = list_to_set (tl_jobs (task_steps es spawn_tasks)).
Proof. exact (one_run es). Qed.

Lemma claims_all n s id :
  jobs_claimed s → (length (tl_pending s) ≤ n)%nat → id ∈ tl_pending s ++ tl_jobs s →
  id ∈ tl_jobs (task_steps (replicate n Claim) s).
Proof.
  revert s. induction n as [|n IH]; intros s Hs Hn Hid.
  { destruct (tl_pending s) eqn:E; [|cbn in Hn; lia]. cbn. done. }
  change (id ∈ tl_jobs (task_steps (replicate n Claim) (task_step Claim s))). apply IH; [by apply task_step_claimed| |].
  - cbn. destruct (tl_pending s) eqn:E; cbn in *; [rewrite E; cbn|]; lia.
  - cbn. destruct (tl_pending s) as [|x rest] eqn:E; cbn; [by rewrite E|]. destruct Hs as [_ Hrun].
    case_bool_decide as Hx; set_solver.
Qed.

(** A tick leaves nothing that is asked for unstarted: once its claims are made,
    every task and check of the published state is running. The loop remembers none
    that is over, so one that is still published runs again, whoever was told of its
    result. *)
Theorem asked_for_runs es d id :
  tl_desired (task_steps es spawn_tasks) = Some d → tl_pending (task_steps es spawn_tasks) = [] →
  id ∈ asked_for d →
  id ∈ tl_jobs (task_steps (Tick :: replicate (length (asked_for d)) Claim) (task_steps es spawn_tasks)).
Proof.
  intros Hd Hp Hid. pose proof (one_run es) as Hs. set (s := task_steps es spawn_tasks) in *.
  change (id ∈ tl_jobs (task_steps (replicate (length (asked_for d)) Claim) (task_step Tick s))).
  apply claims_all; [by apply task_step_claimed|cbn; by rewrite Hp, Hd|].
  cbn. rewrite Hp, Hd. cbn. set_solver.
Qed.
End jobs.

(** ** Repeats *)

Section repeats.
Context `{!F64, !ApiJson}.

(** A switchover to no node in particular that succeeds has asked for one,
    whatever the cluster said before: nothing it reads tells it that an earlier run
    of the same task already moved the primary. *)
Theorem switchover_not_checked api :
  all_runs (api_switchover api None) (λ o tr, is_Some o →
    ∃ target answer, Obs (Http (Loopback (la_key api)) "POST" (la_base api ++ "/api/switchover")
      (Object [("target_node_id", AText target)]) MEMBERSHIP_TIMEOUT_MS) answer ∈ tr).
Proof.
  unfold api_switchover. eapply all_runs_try; [apply all_runs_True|by intros ? _ []%is_Some_None|]. intros primary tr _.
  replace (if bool_decide (primary = None) then None else None) with (@None string) by by case_bool_decide.
  eapply all_runs_try; [apply all_runs_True|by intros ? _ []%is_Some_None|]. intros target tr1 _.
  eapply all_runs_try with (P := λ _ tr, ∃ answer, Obs (Http (Loopback (la_key api)) "POST"
    (la_base api ++ "/api/switchover") (Object [("target_node_id", AText target)]) MEMBERSHIP_TIMEOUT_MS) answer ∈ tr).
  - intros answer. destruct answer as [x|]; eexists; left.
  - by intros ? _ []%is_Some_None.
  - intros [] tr2 [answer Hin]. eapply all_runs_mono; [apply all_runs_True|]. intros o tr3 _ _.
    exists target, answer. rewrite !elem_of_app. tauto.
Qed.
End repeats.

(** ** On an example *)

#[local] Existing Instance milli.

Definition thousandths (z : Z) : f64 := (1000 * z : Z).


Definition example_checks : DesiredState :=
  mkDesired 1 [] [mkCheck "check-1" (mkTarget "s3" None (Some "backups") None None None false None None None)] None.

(** A check that was made and is still asked for. *)
Lemma asked_for_runs_witness :
  let over := [Publish example_checks; Tick; Claim; Finish "check-1"] in
  "check-1" ∉ tl_jobs (task_steps over spawn_tasks) ∧
  "check-1" ∈ tl_jobs (task_steps [Tick; Claim] (task_steps over spawn_tasks)).
Proof.
  cbv zeta. split; [vm_compute; inversion 1|].
  apply (asked_for_runs [Publish example_checks; Tick; Claim; Finish "check-1"] example_checks); [done|done|left].
Defined.
